(** * Braids macro-oscillator plugin: voice engine, parameter store, presets

    A shallow embedding of [src/dsp/braids_plugin.cpp] and the properties
    of its specification.

    Layout of the development:
    - Part I     the machine model the source relies on: 16/32-bit integers,
                 IEEE-754 binary32 ([float]) and binary64 ([double]) built on
                 the Standard Library's [SpecFloat], and the handful of libc
                 string routines the plugin calls;
    - Part II    the plugin itself, function by function;
    - Part III   specification-side definitions (transition table, invariants);
    - Part IV    lemmas and the theorems about the claims. *)

From Stdlib Require Import ZArith List Bool String Ascii Lia.
From Stdlib Require Import Floats.SpecFloat.
From stdpp Require Import base list.

Open Scope string_scope.
Open Scope Z_scope.

(* ===================================================================== *)
(** * Part I.  Machine model                                              *)
(* ===================================================================== *)

(** ** Fixed-width integers: the wrap-around of [int16_t] and [int32_t]. *)

Definition wrap (w : Z) (z : Z) : Z :=
  (z + 2 ^ (w - 1)) mod 2 ^ w - 2 ^ (w - 1).

Definition wrap16 : Z -> Z := wrap 16.
Definition wrap32 : Z -> Z := wrap 32.

Definition INT16_MIN : Z := -32768.
Definition INT16_MAX : Z := 32767.
Definition INT32_MIN : Z := -2147483648.
Definition INT32_MAX : Z := 2147483647.

Definition in_int16 (z : Z) : Prop := INT16_MIN <= z <= INT16_MAX.
Definition in_int32 (z : Z) : Prop := INT32_MIN <= z <= INT32_MAX.

(** ** IEEE-754 binary32, the C type [float]. *)

Definition float : Type := spec_float.
Definition double : Type := spec_float.

Module F32.

Definition prec : Z := 24.
Definition emax : Z := 128.

Definition add : float -> float -> float := SFadd prec emax.
Definition sub : float -> float -> float := SFsub prec emax.
Definition mul : float -> float -> float := SFmul prec emax.
Definition div : float -> float -> float := SFdiv prec emax.

(** The C comparisons; every one of them is false on a NaN operand. *)
Definition ltb (x y : float) : bool := SFltb x y.
Definition leb (x y : float) : bool := SFleb x y.
Definition gtb (x y : float) : bool := SFltb y x.
Definition geb (x y : float) : bool := SFleb y x.

(** Integer to [float] conversion (round to nearest even). *)
Definition of_int (z : Z) : float := binary_normalize prec emax z 0 false.

(** The decimal literal [n / 10^k] with an [f] suffix; [n] and [10^k]
    are below 2^24 at every use, so one correctly rounded division
    yields the literal's value. *)
Definition lit (n k : Z) : float := div (of_int n) (of_int (10 ^ k)).

Definition zero : float := S754_zero false.
Definition one : float := of_int 1.

Definition is_nan (x : float) : bool :=
  match x with S754_nan => true | _ => false end.

Definition is_finite (x : float) : bool :=
  match x with S754_zero _ | S754_finite _ _ _ => true | _ => false end.

(** Truncation toward zero of a finite value. *)
Definition trunc (x : float) : Z :=
  match x with
  | S754_finite s m e =>
      let a := if 0 <=? e then Z.pos m * 2 ^ e else Z.pos m / 2 ^ (- e) in
      if s then - a else a
  | _ => 0
  end.

(** [(int)x] and [(int32_t)x].  C++ leaves the conversion undefined when
    the truncated value does not fit; the plugin's AArch64 target
    converts with FCVTZS, which saturates and maps NaN to 0, and that
    is what is modelled. *)
Definition to_int32 (x : float) : Z :=
  match x with
  | S754_nan => 0
  | S754_infinity s => if s then INT32_MIN else INT32_MAX
  | _ => Z.max INT32_MIN (Z.min INT32_MAX (trunc x))
  end.

(** [(int16_t)x]: converted as above, then narrowed. *)
Definition to_int16 (x : float) : Z := wrap16 (to_int32 x).

End F32.

(** ** IEEE-754 binary64, the C type [double] that [atof] returns. *)

Module F64.

Definition prec : Z := 53.
Definition emax : Z := 1024.

(** The correctly rounded value of [(-1)^s * n * 10^x] for a decimal
    numeral with integer digits [n] and decimal exponent [x]. *)
Definition of_decimal (s : bool) (n : Z) (x : Z) : double :=
  match n with
  | Z.pos p =>
      if 0 <=? x
      then binary_round prec emax s (p * Z.to_pos (10 ^ x)) 0
      else SFdiv prec emax (S754_finite s p 0)
                           (S754_finite false (Z.to_pos (10 ^ (- x))) 0)
  | _ => S754_zero s
  end.

(** The narrowing conversion [(float)d]. *)
Definition to_float (d : double) : float :=
  match d with
  | S754_finite s m e => binary_round F32.prec F32.emax s m e
  | _ => d
  end.

End F64.

(** ** The libc routines the plugin calls

    Strings are [string]; a C string stops at its first NUL byte. *)

Definition NUL : ascii := "000"%char.

Fixpoint c_str (s : string) : string :=
  match s with
  | EmptyString => EmptyString
  | String c r => if Ascii.eqb c NUL then EmptyString else String c (c_str r)
  end.

Definition strlen (s : string) : Z := Z.of_nat (String.length s).

(** [strcmp(a, b) == 0]. *)
Definition str_eq (a b : string) : bool := String.eqb a b.

(** [strcmp(a, b) < 0 / == 0 / > 0], bytes compared as unsigned. *)
Fixpoint strcmp (a b : string) : comparison :=
  match a, b with
  | EmptyString, EmptyString => Eq
  | EmptyString, String _ _ => Lt
  | String _ _, EmptyString => Gt
  | String x a', String y b' =>
      match N.compare (N_of_ascii x) (N_of_ascii y) with
      | Eq => strcmp a' b'
      | c => c
      end
  end.

(** [strstr(hay, needle)]: the suffix of [hay] that starts at the first
    occurrence of [needle], [None] for a null result. *)
Fixpoint strstr (hay needle : string) : option string :=
  if String.prefix needle hay then Some hay
  else match hay with
       | EmptyString => None
       | String _ r => strstr r needle
       end.

(** [s + n]: the pointer advanced by [n] bytes. *)
Fixpoint advance (n : nat) (s : string) : string :=
  match n, s with
  | S k, String _ r => advance k r
  | _, _ => s
  end.

(** What [snprintf(buf, size, "%s", s)] leaves in [buf]: at most
    [size - 1] bytes. *)
Fixpoint str_take (n : nat) (s : string) : string :=
  match n, s with
  | S k, String c r => String c (str_take k r)
  | _, _ => EmptyString
  end.

Definition isspace (c : ascii) : bool :=
  let n := N_of_ascii c in ((9 <=? n) && (n <=? 13) || (n =? 32))%N.

Definition isdigit (c : ascii) : bool :=
  let n := N_of_ascii c in ((48 <=? n) && (n <=? 57))%N.

Definition digit_val (c : ascii) : Z := Z.of_N (N_of_ascii c) - 48.

Definition digit_char (d : Z) : ascii := ascii_of_N (Z.to_N (d + 48)).

Fixpoint skip_ws (s : string) : string :=
  match s with
  | String c r => if isspace c then skip_ws r else s
  | EmptyString => s
  end.

(** An optional sign: [true] for a minus. *)
Definition read_sign (s : string) : bool * string :=
  match s with
  | String "-" r => (true, r)
  | String "+" r => (false, r)
  | _ => (false, s)
  end.

(** A run of decimal digits continuing the numeral [acc]: its value,
    the number of digits read, and the unread rest. *)
Fixpoint read_digits (s : string) (acc cnt : Z) : Z * Z * string :=
  match s with
  | String c r =>
      if isdigit c then read_digits r (10 * acc + digit_val c) (cnt + 1)
      else (acc, cnt, s)
  | EmptyString => (acc, cnt, s)
  end.

(** [atoi]: glibc's [(int) strtol(s, NULL, 10)]; [strtol] saturates at
    the bounds of [long] and the cast keeps the low 32 bits. *)
Definition atoi (s : string) : Z :=
  let '(neg, s1) := read_sign (skip_ws s) in
  let '(v, _, _) := read_digits s1 0 0 in
  let v := if neg then - v else v in
  wrap32 (Z.max (- 2 ^ 63) (Z.min (2 ^ 63 - 1) v)).

Definition lower (c : ascii) : ascii :=
  let n := N_of_ascii c in
  if ((65 <=? n) && (n <=? 90))%N then ascii_of_N (n + 32) else c.

(** Case-insensitive test that [s] begins with the lower-case [p]. *)
Fixpoint starts_with_ci (p s : string) : bool :=
  match p, s with
  | EmptyString, _ => true
  | String a p', String b s' => Ascii.eqb a (lower b) && starts_with_ci p' s'
  | String _ _, EmptyString => false
  end.

(** The exponent part of a decimal numeral: [e] or [E], an optional
    sign and at least one digit; anything else is no exponent. *)
Definition read_exponent (s : string) : Z :=
  match s with
  | String c r =>
      if Ascii.eqb (lower c) "e"%char then
        let '(neg, r1) := read_sign r in
        let '(v, n, _) := read_digits r1 0 0 in
        if n =? 0 then 0 else if neg then - v else v
      else 0
  | EmptyString => 0
  end.

(** [atof]: white space, a sign, then [inf], [nan] or a decimal numeral
    with optional fraction and exponent, correctly rounded to [double];
    0.0 when no numeral is there.  (Hexadecimal numerals, which the
    plugin never writes, are read as their leading 0.) *)
Definition atof (s : string) : double :=
  let '(neg, s0) := read_sign (skip_ws s) in
  if starts_with_ci "inf" s0 then S754_infinity neg
  else if starts_with_ci "nan" s0 then S754_nan
  else
    let '(ip, ni, s1) := read_digits s0 0 0 in
    let '(fp, nf, s2) :=
      match s1 with
      | String "." r => read_digits r ip 0
      | _ => (ip, 0, s1)
      end in
    if ni + nf =? 0 then S754_zero false
    else F64.of_decimal neg fp (read_exponent s2 - nf).

(** The decimal digits of a non-negative integer, most significant
    first, written in front of [acc]. *)
Fixpoint digits_fuel (fuel : nat) (n : Z) (acc : string) : string :=
  match fuel with
  | O => acc
  | S f =>
      let acc' := String (digit_char (n mod 10)) acc in
      if n <? 10 then acc' else digits_fuel f (n / 10) acc'
  end.

Definition digits_of (n : Z) : string :=
  digits_fuel (S (Z.to_nat (Z.log2 n))) n EmptyString.

(** [printf("%d", z)]. *)
Definition fmt_d (z : Z) : string :=
  if z <? 0 then String "-" (digits_of (- z)) else digits_of z.

(** Round to nearest, ties to even, of the rational [num / den]. *)
Definition round_half_even (num den : Z) : Z :=
  let q := num / den in
  let r := num mod den in
  match 2 * r ?= den with
  | Lt => q
  | Gt => q + 1
  | Eq => if Z.even q then q else q + 1
  end.

(** The fraction digits of ["%.4f"]. *)
Definition pad4 (r : Z) : string :=
  String (digit_char (r / 1000 mod 10))
 (String (digit_char (r / 100 mod 10))
 (String (digit_char (r / 10 mod 10))
 (String (digit_char (r mod 10)) EmptyString))).

(** [printf("%.4f", x)] for a [float] argument (promoted to [double]
    exactly): the exact binary value rounded to four decimals. *)
Definition fmt_4f (x : float) : string :=
  match x with
  | S754_nan => "nan"
  | S754_infinity s => if s then "-inf" else "inf"
  | S754_zero s => if s then "-0.0000" else "0.0000"
  | S754_finite s m e =>
      let r := if 0 <=? e
               then Z.pos m * 2 ^ e * 10000
               else round_half_even (Z.pos m * 10000) (2 ^ (- e)) in
      (if s then "-" else "") ++ digits_of (r / 10000) ++ "." ++ pad4 (r mod 10000)
  end.

(** The byte 0x22.  JSON keys are written between two of them. *)
Definition dquote : ascii := "034"%char.

(** Test inputs are written with an apostrophe where JSON has a double
    quote; [json_text] puts the double quotes back. *)
Fixpoint json_text (s : string) : string :=
  match s with
  | EmptyString => EmptyString
  | String c r =>
      String (if Ascii.eqb c "'"%char then dquote else c) (json_text r)
  end.

(* ===================================================================== *)
(** * Part II.  The plugin                                                *)
(* ===================================================================== *)

(** ** Constants *)

Definition MOVE_SAMPLE_RATE : Z := 44100.
Definition MAX_VOICES : nat := 4.
Definition BRAIDS_BLOCK_SIZE : nat := 24.
Definition PITCH_CORRECTION : Z := 1724.
Definition MAX_PRESETS : nat := 64.

(** ** SimpleADSR *)

Inductive Stage : Type := IDLE | ATTACK | DECAY | SUSTAIN | RELEASE.

Record SimpleADSR : Type := mkADSR {
  stage : Stage;
  level : float;
  attack_rate : float;
  decay_rate : float;
  sustain_level : float;
  release_rate : float
}.

Definition set_stage (st : Stage) (e : SimpleADSR) : SimpleADSR :=
  mkADSR st (level e) (attack_rate e) (decay_rate e) (sustain_level e)
         (release_rate e).

Definition set_level (l : float) (e : SimpleADSR) : SimpleADSR :=
  mkADSR (stage e) l (attack_rate e) (decay_rate e) (sustain_level e)
         (release_rate e).

Module ADSR.

(** [init()] *)
Definition init (e : SimpleADSR) : SimpleADSR :=
  set_level F32.zero (set_stage IDLE e).

(** The lambda [time_to_rate] of [set_params]:
    [t = 0.001f + p * p * 10.0f;  return 1.0f / (t * 44100.0f)]. *)
Definition time_to_rate (p : float) : float :=
  let t := F32.add (F32.lit 1 3) (F32.mul (F32.mul p p) (F32.of_int 10)) in
  F32.div F32.one (F32.mul t (F32.of_int 44100)).

(** [set_params(a, d, s, r)] *)
Definition set_params (a d s r : float) (e : SimpleADSR) : SimpleADSR :=
  mkADSR (stage e) (level e) (time_to_rate a) (time_to_rate d) s
         (time_to_rate r).

(** [gate_on()], [gate_off()], [is_active()] *)
Definition gate_on (e : SimpleADSR) : SimpleADSR := set_stage ATTACK e.

Definition gate_off (e : SimpleADSR) : SimpleADSR :=
  match stage e with
  | IDLE => e
  | _ => set_stage RELEASE e
  end.

Definition is_active (e : SimpleADSR) : bool :=
  match stage e with
  | IDLE => false
  | _ => true
  end.

(** [process()]: the returned level and the envelope after the step. *)
Definition process (e : SimpleADSR) : float * SimpleADSR :=
  let e' :=
    match stage e with
    | ATTACK =>
        let e1 := set_level (F32.add (level e) (attack_rate e)) e in
        if F32.geb (level e1) F32.one
        then set_stage DECAY (set_level F32.one e1)
        else e1
    | DECAY =>
        let e1 := set_level (F32.sub (level e) (decay_rate e)) e in
        if F32.leb (level e1) (sustain_level e1)
        then set_stage SUSTAIN (set_level (sustain_level e1) e1)
        else e1
    | SUSTAIN => set_level (sustain_level e) e
    | RELEASE =>
        let e1 := set_level (F32.sub (level e) (release_rate e)) e in
        if F32.leb (level e1) F32.zero
        then set_stage IDLE (set_level F32.zero e1)
        else e1
    | IDLE => set_level F32.zero e
    end in
  (level e', e').

End ADSR.

(** ** Shape names and the parameter table *)

Definition g_shape_names : list string :=
  [ "CSAW"; "MORPH"; "/\-_"; "SINE^"; "BUZZ";
    "SQR<"; "SAW<"; "SQsync"; "SWsync";
    "3xSAW"; "3xSQR"; "3xTRI"; "3xSIN"; "3xRNG";
    "SWARM"; "COMB"; "TOY";
    "ZLPF"; "ZPKF"; "ZBPF"; "ZHPF";
    "VOSIM"; "VOWL"; "V.FOF";
    "HARM";
    "FM"; "FBFM"; "WTFM";
    "PLUK"; "BOWD"; "BLOW"; "FLUT";
    "BELL"; "DRUM"; "KICK"; "CYMB"; "SNAR";
    "WTBL"; "WMAP"; "WLIN"; "WTx4";
    "NOIS"; "TWNQ"; "CLKN"; "GRN"; "PART";
    "QPSK" ].

(** Modelled from the spec: [braids::MACRO_OSC_SHAPE_LAST_ACCESSIBLE_FROM_META]
    is declared in braids/macro_oscillator.h, which is not among the
    sources.  [NUM_SHAPES] is one more than it; the plugin's header
    comment counts 47 algorithms, one per entry of [g_shape_names]. *)
Definition NUM_SHAPES : Z := 47.

(** [enum BraidsParam]: indices into the [params] array. *)
Definition PARAM_ENGINE : nat := 0.
Definition PARAM_TIMBRE : nat := 1.
Definition PARAM_COLOR : nat := 2.
Definition PARAM_ATTACK : nat := 3.
Definition PARAM_DECAY : nat := 4.
Definition PARAM_SUSTAIN : nat := 5.
Definition PARAM_RELEASE : nat := 6.
Definition PARAM_FM : nat := 7.
Definition PARAM_CUTOFF : nat := 8.
Definition PARAM_RESONANCE : nat := 9.
Definition PARAM_FILT_ENV : nat := 10.
Definition PARAM_F_ATTACK : nat := 11.
Definition PARAM_F_DECAY : nat := 12.
Definition PARAM_F_SUSTAIN : nat := 13.
Definition PARAM_F_RELEASE : nat := 14.
Definition PARAM_VOLUME : nat := 15.
Definition PARAM_COUNT : nat := 16.

(** Modelled from the spec: [param_def_t] and its type tags come from
    param_helper.h, which is not among the sources; the fields are the
    ones the initialisers of [g_shadow_params] fill, in order. *)
Inductive param_type : Type := PARAM_TYPE_INT | PARAM_TYPE_FLOAT.

Record param_def_t : Type := mkParamDef {
  pd_key : string;
  pd_name : string;
  pd_type : param_type;
  pd_index : nat;
  pd_min_val : float;
  pd_max_val : float
}.

Definition g_shadow_params : list param_def_t :=
  let f0 := F32.zero in
  let f1 := F32.one in
  [ mkParamDef "engine" "Engine" PARAM_TYPE_INT PARAM_ENGINE f0
               (F32.of_int (NUM_SHAPES - 1));
    mkParamDef "timbre" "Timbre" PARAM_TYPE_FLOAT PARAM_TIMBRE f0 f1;
    mkParamDef "color" "Color" PARAM_TYPE_FLOAT PARAM_COLOR f0 f1;
    mkParamDef "attack" "Attack" PARAM_TYPE_FLOAT PARAM_ATTACK f0 f1;
    mkParamDef "decay" "Decay" PARAM_TYPE_FLOAT PARAM_DECAY f0 f1;
    mkParamDef "sustain" "Sustain" PARAM_TYPE_FLOAT PARAM_SUSTAIN f0 f1;
    mkParamDef "release" "Release" PARAM_TYPE_FLOAT PARAM_RELEASE f0 f1;
    mkParamDef "fm" "FM" PARAM_TYPE_FLOAT PARAM_FM f0 f1;
    mkParamDef "cutoff" "Cutoff" PARAM_TYPE_FLOAT PARAM_CUTOFF f0 f1;
    mkParamDef "resonance" "Resonance" PARAM_TYPE_FLOAT PARAM_RESONANCE f0 f1;
    mkParamDef "filt_env" "Filt Env" PARAM_TYPE_FLOAT PARAM_FILT_ENV f0 f1;
    mkParamDef "f_attack" "F.Attack" PARAM_TYPE_FLOAT PARAM_F_ATTACK f0 f1;
    mkParamDef "f_decay" "F.Decay" PARAM_TYPE_FLOAT PARAM_F_DECAY f0 f1;
    mkParamDef "f_sustain" "F.Sustain" PARAM_TYPE_FLOAT PARAM_F_SUSTAIN f0 f1;
    mkParamDef "f_release" "F.Release" PARAM_TYPE_FLOAT PARAM_F_RELEASE f0 f1;
    mkParamDef "volume" "Volume" PARAM_TYPE_FLOAT PARAM_VOLUME f0 f1 ].

(** [float params[PARAM_COUNT]]: read and write by index. *)
Definition get_p (ps : list float) (i : nat) : float :=
  default F32.zero (ps !! i).

Definition set_p (ps : list float) (i : nat) (x : float) : list float :=
  <[ i := x ]> ps.

(** ** Presets *)

Record BraidsPreset : Type := mkPreset {
  bp_name : string;
  bp_params : list float;
  bp_octave_transpose : Z
}.

(** [(int)fval] clamped to [-3, 3], as written at every place the
    octave transpose is assigned from outside. *)
Definition clamp_octave (z : Z) : Z :=
  let z := if z <? -3 then -3 else z in
  if 3 <? z then 3 else z.

(** [if (fval < min) fval = min; if (fval > max) fval = max;] *)
Definition clamp_param (d : param_def_t) (fval : float) : float :=
  let fval := if F32.ltb fval (pd_min_val d) then pd_min_val d else fval in
  if F32.gtb fval (pd_max_val d) then pd_max_val d else fval.

(** ** JSON helpers *)

Fixpoint skip_spaces (s : string) : string :=
  match s with
  | String " " r => skip_spaces r
  | _ => s
  end.

(** [snprintf(search, sizeof(search), "\"%s\":", key)] with [search]
    of 64 bytes. *)
Definition json_search (key : string) : string :=
  str_take 63 (String dquote (key ++ String dquote ":")).

(** [json_get_number]: [Some] of the number stored in [*out] when 0 is
    returned, [None] when -1 is. *)
Definition json_get_number (json key : string) : option float :=
  let search := json_search key in
  match strstr json search with
  | None => None
  | Some pos =>
      let pos := skip_spaces (advance (String.length search) pos) in
      Some (F64.to_float (atof pos))
  end.

(** The copy loop of [json_get_string]: bytes up to the closing quote,
    the end of the text or [room] bytes. *)
Fixpoint copy_until_quote (room : nat) (s : string) : string :=
  match room, s with
  | S k, String c r =>
      if Ascii.eqb c dquote then EmptyString
      else String c (copy_until_quote k r)
  | _, _ => EmptyString
  end.

(** [json_get_string]: [Some] of what is left in [out] when the call
    returns its length, [None] when it returns -1. *)
Definition json_get_string (json key : string) (out_len : nat)
  : option string :=
  let search := json_search key in
  match strstr json search with
  | None => None
  | Some pos =>
      match skip_spaces (advance (String.length search) pos) with
      | String c r =>
          if Ascii.eqb c dquote
          then Some (copy_until_quote (out_len - 1) r)
          else None
      | EmptyString => None
      end
  end.

(** The index of the first shape name equal to [s], as the
    [for ... strcmp ... break] loops compute it. *)
Fixpoint shape_index (names : list string) (i : Z) (s : string) : option Z :=
  match names with
  | [] => None
  | n :: r => if str_eq s n then Some i else shape_index r (i + 1) s
  end.

(** ** The oscillator and the filter

    [braids::MacroOscillator] and [braids::Svf] come from the Braids
    library, outside the plugin's source file.  The plugin only calls
    the members below; they are kept abstract. *)

Class Dsp : Type := {
  Osc : Type;
  osc_Init : Osc;
  osc_set_shape : Z -> Osc -> Osc;
  osc_set_parameters : Z -> Z -> Osc -> Osc;
  osc_set_pitch : Z -> Osc -> Osc;
  osc_Strike : Osc -> Osc;
  (** [Render(sync, buffer, size)]: the new state and the samples written *)
  osc_Render : list Z -> nat -> Osc -> Osc * list Z;
  Svf : Type;
  svf_Init : Svf;
  svf_set_resonance : Z -> Svf -> Svf;
  svf_set_frequency : Z -> Svf -> Svf;
  (** [Process(in)]: the new state and the filtered sample *)
  svf_Process : Z -> Svf -> Svf * Z
}.

(** An oscillator that renders silence and a filter that passes its
    input through: the simplest implementation of the interface, used
    wherever a statement needs a closed instance. *)
Definition null_dsp : Dsp := {|
  Osc := unit;
  osc_Init := tt;
  osc_set_shape := fun _ o => o;
  osc_set_parameters := fun _ _ o => o;
  osc_set_pitch := fun _ o => o;
  osc_Strike := fun o => o;
  osc_Render := fun _ n o => (o, repeat 0 n);
  Svf := unit;
  svf_Init := tt;
  svf_set_resonance := fun _ f => f;
  svf_set_frequency := fun _ f => f;
  svf_Process := fun x f => (f, x)
|}.

(** A sawtooth-like oscillator whose every sample is 16384 and the
    pass-through filter: enough to hear a voice in the output. *)
Definition const_dsp : Dsp := {|
  Osc := unit;
  osc_Init := tt;
  osc_set_shape := fun _ o => o;
  osc_set_parameters := fun _ _ o => o;
  osc_set_pitch := fun _ o => o;
  osc_Strike := fun o => o;
  osc_Render := fun _ n o => (o, repeat 16384 n);
  Svf := unit;
  svf_Init := tt;
  svf_set_resonance := fun _ f => f;
  svf_set_frequency := fun _ f => f;
  svf_Process := fun x f => (f, x)
|}.

Section Plugin.

Context {D : Dsp}.

(** ** Voices and the instance *)

(** [active] and [gate] are [int] fields that only ever hold 0 or 1. *)
Record BraidsVoice : Type := mkVoice {
  osc : Osc;
  amp_env : SimpleADSR;
  filt_env : SimpleADSR;
  svf : Svf;
  osc_buffer : list Z;
  note : Z;
  velocity : Z;
  active : bool;
  gate : bool;
  age : Z
}.

Definition set_osc (o : Osc) (v : BraidsVoice) : BraidsVoice :=
  mkVoice o (amp_env v) (filt_env v) (svf v) (osc_buffer v) (note v)
          (velocity v) (active v) (gate v) (age v).

Definition set_amp_env (e : SimpleADSR) (v : BraidsVoice) : BraidsVoice :=
  mkVoice (osc v) e (filt_env v) (svf v) (osc_buffer v) (note v)
          (velocity v) (active v) (gate v) (age v).

Definition set_filt_env (e : SimpleADSR) (v : BraidsVoice) : BraidsVoice :=
  mkVoice (osc v) (amp_env v) e (svf v) (osc_buffer v) (note v)
          (velocity v) (active v) (gate v) (age v).

Definition set_svf (f : Svf) (v : BraidsVoice) : BraidsVoice :=
  mkVoice (osc v) (amp_env v) (filt_env v) f (osc_buffer v) (note v)
          (velocity v) (active v) (gate v) (age v).

Definition set_osc_buffer (b : list Z) (v : BraidsVoice) : BraidsVoice :=
  mkVoice (osc v) (amp_env v) (filt_env v) (svf v) b (note v)
          (velocity v) (active v) (gate v) (age v).

Definition set_active (a : bool) (v : BraidsVoice) : BraidsVoice :=
  mkVoice (osc v) (amp_env v) (filt_env v) (svf v) (osc_buffer v) (note v)
          (velocity v) a (gate v) (age v).

Definition set_gate (g : bool) (v : BraidsVoice) : BraidsVoice :=
  mkVoice (osc v) (amp_env v) (filt_env v) (svf v) (osc_buffer v) (note v)
          (velocity v) (active v) g (age v).

(** The fields a note-on writes: note, velocity, active, gate, age. *)
Definition retrigger (n vel a : Z) (v : BraidsVoice) : BraidsVoice :=
  mkVoice (osc v) (amp_env v) (filt_env v) (svf v) (osc_buffer v) n vel
          true true a.

(** [presets[MAX_PRESETS]] together with [preset_count] is the list
    [presets]; [render_buffer] is never read or written and is left out. *)
Record braids_instance_t : Type := mkInst {
  module_dir : string;
  voices : list BraidsVoice;
  params : list float;
  octave_transpose : Z;
  voice_counter : Z;
  presets : list BraidsPreset;
  current_preset : Z;
  preset_name : string
}.

Definition preset_count (inst : braids_instance_t) : Z :=
  Z.of_nat (length (presets inst)).

Definition set_voices (vs : list BraidsVoice) (i : braids_instance_t) :=
  mkInst (module_dir i) vs (params i) (octave_transpose i) (voice_counter i)
         (presets i) (current_preset i) (preset_name i).

Definition set_params (ps : list float) (i : braids_instance_t) :=
  mkInst (module_dir i) (voices i) ps (octave_transpose i) (voice_counter i)
         (presets i) (current_preset i) (preset_name i).

Definition set_octave_transpose (o : Z) (i : braids_instance_t) :=
  mkInst (module_dir i) (voices i) (params i) o (voice_counter i)
         (presets i) (current_preset i) (preset_name i).

Definition set_voice_counter (c : Z) (i : braids_instance_t) :=
  mkInst (module_dir i) (voices i) (params i) (octave_transpose i) c
         (presets i) (current_preset i) (preset_name i).

Definition set_presets (ps : list BraidsPreset) (i : braids_instance_t) :=
  mkInst (module_dir i) (voices i) (params i) (octave_transpose i)
         (voice_counter i) ps (current_preset i) (preset_name i).

Definition set_current_preset (c : Z) (i : braids_instance_t) :=
  mkInst (module_dir i) (voices i) (params i) (octave_transpose i)
         (voice_counter i) (presets i) c (preset_name i).

Definition set_preset_name (n : string) (i : braids_instance_t) :=
  mkInst (module_dir i) (voices i) (params i) (octave_transpose i)
         (voice_counter i) (presets i) (current_preset i) n.

(** [&inst->voices[vi]] updated in place. *)
Definition update_voice (vi : nat) (f : BraidsVoice -> BraidsVoice)
    (inst : braids_instance_t) : braids_instance_t :=
  match voices inst !! vi with
  | Some v => set_voices (<[ vi := f v ]> (voices inst)) inst
  | None => inst
  end.

(** ** Utility functions *)

(** [note_to_pitch]: [(int16_t)(note * 128)] plus the correction, in
    [int16_t]. *)
Definition note_to_pitch (n : Z) : Z :=
  wrap16 (wrap16 (n * 128) + PITCH_CORRECTION).

(** ** Voice management *)

(** First loop of [find_free_voice]: the first index whose voice is
    not active. *)
Fixpoint first_inactive (vs : list BraidsVoice) (i : Z) : option Z :=
  match vs with
  | [] => None
  | v :: r => if active v then first_inactive r (i + 1) else Some i
  end.

(** Second loop of [find_free_voice], from index [i] on. *)
Fixpoint scan_oldest (vs : list BraidsVoice) (i oldest oldest_age : Z) : Z :=
  match vs with
  | [] => oldest
  | v :: r =>
      if age v <? oldest_age
      then scan_oldest r (i + 1) i (age v)
      else scan_oldest r (i + 1) oldest oldest_age
  end.

Definition find_free_voice (inst : braids_instance_t) : Z :=
  match first_inactive (voices inst) 0 with
  | Some i => i
  | None =>
      match voices inst with
      | v0 :: r => scan_oldest r 1 0 (age v0)
      | [] => 0
      end
  end.

(** The loop of [find_voice_for_note], from index [i] on, with the
    current value of [releasing]. *)
Fixpoint scan_note (vs : list BraidsVoice) (n : Z) (i releasing : Z) : Z :=
  match vs with
  | [] => releasing
  | v :: r =>
      if active v && (note v =? n) then
        if gate v then i else scan_note r n (i + 1) i
      else scan_note r n (i + 1) releasing
  end.

Definition find_voice_for_note (inst : braids_instance_t) (n : Z) : Z :=
  scan_note (voices inst) n 0 (-1).

(** ** Presets *)

(** [v2_apply_preset] *)
Definition v2_apply_preset (inst : braids_instance_t) (preset_idx : Z)
  : braids_instance_t :=
  if (preset_idx <? 0) || (preset_count inst <=? preset_idx) then inst
  else
    match presets inst !! Z.to_nat preset_idx with
    | None => inst
    | Some p =>
        let inst := set_preset_name (str_take 63 (bp_name p)) inst in
        let inst := set_params (bp_params p) inst in
        set_octave_transpose (bp_octave_transpose p) inst
    end.

(** One [if (json_get_number(...) == 0) p->params[i] = fval;
    else p->params[i] = dflt;] line of [load_braids_preset]. *)
Definition parse_param (data key : string) (i : nat) (dflt : float)
    (ps : list float) : list float :=
  match json_get_number data key with
  | Some fval => set_p ps i fval
  | None => set_p ps i dflt
  end.

(** The preset that [load_braids_preset] fills in from the text of a
    file, for the slot [count]. *)
Definition parse_preset (data : string) (count : Z) : BraidsPreset :=
  let name :=
    match json_get_string data "name" 64 with
    | Some s => s
    | None => str_take 63 ("Preset " ++ fmt_d count)
    end in
  let ps := repeat F32.zero PARAM_COUNT in
  let ps :=
    match json_get_string data "engine" 32 with
    | Some engine_str =>
        match shape_index g_shape_names 0 engine_str with
        | Some i => set_p ps PARAM_ENGINE (F32.of_int i)
        | None => set_p ps PARAM_ENGINE F32.zero
        end
    | None =>
        match json_get_number data "engine" with
        | Some fval => set_p ps PARAM_ENGINE fval
        | None => ps
        end
    end in
  let ps := parse_param data "timbre" PARAM_TIMBRE (F32.lit 5 1) ps in
  let ps := parse_param data "color" PARAM_COLOR (F32.lit 5 1) ps in
  let ps := parse_param data "attack" PARAM_ATTACK F32.zero ps in
  let ps := parse_param data "decay" PARAM_DECAY (F32.lit 5 1) ps in
  let ps := parse_param data "sustain" PARAM_SUSTAIN F32.one ps in
  let ps := parse_param data "release" PARAM_RELEASE (F32.lit 3 1) ps in
  let ps := parse_param data "fm" PARAM_FM F32.zero ps in
  let ps := parse_param data "cutoff" PARAM_CUTOFF F32.one ps in
  let ps := parse_param data "resonance" PARAM_RESONANCE F32.zero ps in
  let ps := parse_param data "filt_env" PARAM_FILT_ENV F32.zero ps in
  let ps := parse_param data "f_attack" PARAM_F_ATTACK F32.zero ps in
  let ps := parse_param data "f_decay" PARAM_F_DECAY (F32.lit 3 1) ps in
  let ps := parse_param data "f_sustain" PARAM_F_SUSTAIN F32.zero ps in
  let ps := parse_param data "f_release" PARAM_F_RELEASE (F32.lit 3 1) ps in
  let ps := parse_param data "volume" PARAM_VOLUME (F32.lit 7 1) ps in
  let oct :=
    match json_get_number data "octave_transpose" with
    | Some fval => clamp_octave (F32.to_int32 fval)
    | None => 0
    end in
  mkPreset name ps oct.

(** [load_braids_preset]: [file] is what [fopen(path, "r")] gives,
    [None] when the file cannot be opened; the result is the return
    code and the instance. *)
Definition load_braids_preset (inst : braids_instance_t)
    (file : option string) : Z * braids_instance_t :=
  if (Z.of_nat MAX_PRESETS <=? preset_count inst) then (-1, inst)
  else
    match file with
    | None => (-1, inst)
    | Some bytes =>
        let size := strlen bytes in
        if (size <=? 0) || (4096 <? size) then (-1, inst)
        else
          let data := c_str bytes in
          let p := parse_preset data (preset_count inst) in
          (0, set_presets (presets inst ++ [p]) inst)
    end.

(** A directory as [readdir] lists it: names with the files behind them. *)
Definition directory : Type := list (string * option string).

(** [len > 7 && strcmp(name + len - 7, ".braids") == 0] *)
Definition is_braids_file (name : string) : bool :=
  (7 <? String.length name)%nat
  && str_eq (advance (String.length name - 7) name) ".braids".

(** The [readdir] loop: the first [room] matching entries. *)
Fixpoint collect_filenames (room : nat) (d : directory) : directory :=
  match room, d with
  | S k, (name, f) :: r =>
      if is_braids_file name then (name, f) :: collect_filenames k r
      else collect_filenames room r
  | _, _ => []
  end.

(** [qsort] with [preset_name_cmp]: ascending [strcmp] order of names. *)
Fixpoint insert_by_name (x : string * option string) (l : directory)
  : directory :=
  match l with
  | [] => [x]
  | y :: r =>
      match strcmp (fst x) (fst y) with
      | Gt => y :: insert_by_name x r
      | _ => x :: y :: r
      end
  end.

Definition sort_by_name (l : directory) : directory :=
  fold_right insert_by_name [] l.

(** [load_presets]: [dir] is what [opendir] finds, [None] when there is
    no presets directory. *)
Definition load_presets (inst : braids_instance_t) (dir : option directory)
  : braids_instance_t :=
  match dir with
  | None => inst
  | Some d =>
      fold_left (fun i entry => snd (load_braids_preset i (snd entry)))
                (sort_by_name (collect_filenames MAX_PRESETS d)) inst
  end.

(** ** Applying the parameters to a voice *)

(** [(int)params[PARAM_ENGINE]] clamped to a shape index. *)
Definition shape_of (ps : list float) : Z :=
  let shape := F32.to_int32 (get_p ps PARAM_ENGINE) in
  let shape := if shape <? 0 then 0 else shape in
  if NUM_SHAPES <=? shape then NUM_SHAPES - 1 else shape.

(** [(int16_t)(x * 32767.0f)] *)
Definition to_q15 (x : float) : Z :=
  F32.to_int16 (F32.mul x (F32.of_int 32767)).

Definition apply_params_to_voice (inst : braids_instance_t) (v : BraidsVoice)
  : BraidsVoice :=
  let ps := params inst in
  let v := set_osc (osc_set_shape (shape_of ps) (osc v)) v in
  let timbre := to_q15 (get_p ps PARAM_TIMBRE) in
  let color := to_q15 (get_p ps PARAM_COLOR) in
  let v := set_osc (osc_set_parameters timbre color (osc v)) v in
  let reso_val := to_q15 (get_p ps PARAM_RESONANCE) in
  let v := set_svf (svf_set_resonance reso_val (svf v)) v in
  let v := set_amp_env
             (ADSR.set_params (get_p ps PARAM_ATTACK) (get_p ps PARAM_DECAY)
                (get_p ps PARAM_SUSTAIN) (get_p ps PARAM_RELEASE) (amp_env v))
             v in
  set_filt_env
    (ADSR.set_params (get_p ps PARAM_F_ATTACK) (get_p ps PARAM_F_DECAY)
       (get_p ps PARAM_F_SUSTAIN) (get_p ps PARAM_F_RELEASE) (filt_env v))
    v.

(** ** Instance creation *)

(** An envelope in [calloc]ed memory after [init()]. *)
Definition fresh_env : SimpleADSR :=
  ADSR.init (mkADSR IDLE F32.zero F32.zero F32.zero F32.zero F32.zero).

(** A voice as the "Init all voices" loop leaves it. *)
Definition fresh_voice : BraidsVoice :=
  mkVoice osc_Init fresh_env fresh_env svf_Init (repeat 0 BRAIDS_BLOCK_SIZE)
          0 0 false false 0.

(** The "Default parameters" block of [v2_create_instance]. *)
Definition default_params : list float :=
  [ F32.zero;      (* engine *)
    F32.lit 5 1;   (* timbre 0.5f *)
    F32.lit 5 1;   (* color 0.5f *)
    F32.zero;      (* attack *)
    F32.lit 5 1;   (* decay 0.5f *)
    F32.one;       (* sustain *)
    F32.lit 3 1;   (* release 0.3f *)
    F32.zero;      (* fm *)
    F32.one;       (* cutoff *)
    F32.zero;      (* resonance *)
    F32.zero;      (* filt_env *)
    F32.zero;      (* f_attack *)
    F32.lit 3 1;   (* f_decay 0.3f *)
    F32.zero;      (* f_sustain *)
    F32.lit 3 1;   (* f_release 0.3f *)
    F32.lit 7 1 ]. (* volume 0.7f *)

(** [v2_create_instance]: [dir] is the content of [<module_dir>/presets]. *)
Definition v2_create_instance (mdir : string) (dir : option directory)
  : braids_instance_t :=
  let inst :=
    mkInst (str_take 255 mdir) (repeat fresh_voice MAX_VOICES) default_params
           0 0 [] 0 "Init" in
  let inst := load_presets inst dir in
  if 0 <? preset_count inst
  then v2_apply_preset (set_current_preset 0 inst) 0
  else inst.

(** ** MIDI *)

(** The body shared by the note-off case and the velocity-0 branch of
    the note-on case: both are written out in full in the source, with
    the same three statements. *)
Definition release_voice (v : BraidsVoice) : BraidsVoice :=
  let v := set_gate false v in
  let v := set_amp_env (ADSR.gate_off (amp_env v)) v in
  set_filt_env (ADSR.gate_off (filt_env v)) v.

(** What the note-on branch does to the voice it picked. *)
Definition start_voice (inst : braids_instance_t) (n vel a : Z)
    (v : BraidsVoice) : BraidsVoice :=
  let v := retrigger n vel a v in
  let v := set_osc (osc_set_pitch (note_to_pitch n) (osc v)) v in
  let v := apply_params_to_voice inst v in
  let v := set_osc (osc_Strike (osc v)) v in
  let v := set_amp_env (ADSR.gate_on (amp_env v)) v in
  set_filt_env (ADSR.gate_on (filt_env v)) v.

(** The pitch-bend loop body for one voice. *)
Definition bend_voice (bend_semitones : float) (v : BraidsVoice)
  : BraidsVoice :=
  if active v then
    let pitch := note_to_pitch (note v) in
    let pitch :=
      wrap16 (pitch + F32.to_int16 (F32.mul bend_semitones (F32.of_int 128))) in
    set_osc (osc_set_pitch pitch (osc v)) v
  else v.

(** [v2_on_midi]: [msg] is the byte array, [len] its length. *)
Definition v2_on_midi (inst : braids_instance_t) (msg : list Z)
  : braids_instance_t :=
  match msg with
  | b0 :: data1 :: rest =>
      let status := Z.land b0 240 in
      let data2 := match rest with d :: _ => d | [] => 0 end in
      let n := data1 in
      let n :=
        if (status =? 144) || (status =? 128) then
          let n := n + octave_transpose inst * 12 in
          let n := if n <? 0 then 0 else n in
          if 127 <? n then 127 else n
        else n in
      if status =? 144 then
        if 0 <? data2 then
          let vi := find_free_voice inst in
          let counter := wrap32 (voice_counter inst + 1) in
          let inst := set_voice_counter counter inst in
          update_voice (Z.to_nat vi) (start_voice inst n data2 counter) inst
        else
          let vi := find_voice_for_note inst n in
          if 0 <=? vi then update_voice (Z.to_nat vi) release_voice inst
          else inst
      else if status =? 128 then
        let vi := find_voice_for_note inst n in
        if 0 <=? vi then update_voice (Z.to_nat vi) release_voice inst
        else inst
      else if status =? 176 then
        if data1 =? 1
        then set_params (set_p (params inst) PARAM_FM
                           (F32.div (F32.of_int data2) (F32.of_int 127))) inst
        else inst
      else if status =? 224 then
        let bend := Z.lor (Z.shiftl data2 7) data1 - 8192 in
        let bend_semitones :=
          F32.mul (F32.div (F32.of_int bend) (F32.of_int 8192))
                  (F32.of_int 2) in
        set_voices (map (bend_voice bend_semitones) (voices inst)) inst
      else inst
  | _ => inst
  end.

(** ** Setting parameters *)

(** The "kill all active voices" loop body of the preset selection. *)
Definition kill_voice (v : BraidsVoice) : BraidsVoice :=
  let v := set_active false v in
  let v := set_gate false v in
  let v := set_amp_env (ADSR.init (amp_env v)) v in
  set_filt_env (ADSR.init (filt_env v)) v.

(** The loop over [g_shadow_params] in the state restore: every key
    found in the text overrides its slot, clamped. *)
Fixpoint restore_params (defs : list param_def_t) (val : string)
    (ps : list float) : list float :=
  match defs with
  | [] => ps
  | d :: r =>
      let ps :=
        match json_get_number val (pd_key d) with
        | Some fval => set_p ps (pd_index d) (clamp_param d fval)
        | None => ps
        end in
      restore_params r val ps
  end.

(** The branch of [v2_set_param] for the key "state". *)
Definition set_param_state (inst : braids_instance_t) (val : string)
  : braids_instance_t :=
  let inst :=
    match json_get_number val "preset" with
    | Some fval =>
        let idx := F32.to_int32 fval in
        if (0 <=? idx) && (idx <? preset_count inst)
        then v2_apply_preset (set_current_preset idx inst) idx
        else inst
    | None => inst
    end in
  let inst :=
    match json_get_number val "octave_transpose" with
    | Some fval =>
        set_octave_transpose (clamp_octave (F32.to_int32 fval)) inst
    | None => inst
    end in
  set_params (restore_params g_shadow_params val (params inst)) inst.

(** The branch for the key "preset". *)
Definition set_param_preset (inst : braids_instance_t) (val : string)
  : braids_instance_t :=
  let idx := atoi val in
  if (0 <=? idx) && (idx <? preset_count inst) then
    let inst := set_voices (map kill_voice (voices inst)) inst in
    v2_apply_preset (set_current_preset idx inst) idx
  else inst.

(** The branch for the key "engine". *)
Definition set_param_engine (inst : braids_instance_t) (val : string)
  : braids_instance_t :=
  match shape_index g_shape_names 0 val with
  | Some i => set_params (set_p (params inst) PARAM_ENGINE (F32.of_int i)) inst
  | None =>
      let v := F64.to_float (atof val) in
      let v := if F32.ltb v (F32.of_int 0) then F32.of_int 0 else v in
      let v := if F32.geb v (F32.of_int NUM_SHAPES)
               then F32.of_int (NUM_SHAPES - 1) else v in
      set_params (set_p (params inst) PARAM_ENGINE v) inst
  end.

(** The final loop, "named parameter access": the first table entry
    whose key is [key] takes the clamped value. *)
Fixpoint set_named (defs : list param_def_t) (key : string) (fval : float)
    (ps : list float) : list float :=
  match defs with
  | [] => ps
  | d :: r =>
      if str_eq key (pd_key d)
      then set_p ps (pd_index d) (clamp_param d fval)
      else set_named r key fval ps
  end.

(** [v2_set_param] *)
Definition v2_set_param (inst : braids_instance_t) (key val : string)
  : braids_instance_t :=
  if str_eq key "state" then set_param_state inst val
  else if str_eq key "octave_transpose" then
    set_octave_transpose (clamp_octave (atoi val)) inst
  else if str_eq key "preset" then set_param_preset inst val
  else if str_eq key "engine" then set_param_engine inst val
  else
    let fval := F64.to_float (atof val) in
    set_params (set_named g_shadow_params key fval (params inst)) inst.

(** ** Reading the state back *)

(** One iteration of the serialisation loop: [,"key":%d] for an
    integer parameter, [,"key":%.4f] otherwise. *)
Definition state_field (ps : list float) (d : param_def_t) : string :=
  let val := get_p ps (pd_index d) in
  String "," (String dquote (pd_key d ++ String dquote (String ":"
    (match pd_type d with
     | PARAM_TYPE_INT => fmt_d (F32.to_int32 val)
     | PARAM_TYPE_FLOAT => fmt_4f val
     end)))).

Fixpoint state_fields (ps : list float) (defs : list param_def_t) : string :=
  match defs with
  | [] => EmptyString
  | d :: r => state_field ps d ++ state_fields ps r
  end.

(** The branch of [v2_get_param] for the key "state", into a buffer
    that holds all of it: [{"preset":%d,"octave_transpose":%d], the
    fields, [}]. *)
Definition get_param_state (inst : braids_instance_t) : string :=
  String "{" (String dquote ("preset" ++ String dquote (String ":"
    (fmt_d (current_preset inst) ++
     String "," (String dquote ("octave_transpose" ++ String dquote (String ":"
       (fmt_d (octave_transpose inst) ++
        state_fields (params inst) g_shadow_params ++ "}")))))))).

(** ** Rendering *)

(** The values [v2_render_block] reads from the parameter store before
    its voice loop. *)
Record render_ctx : Type := mkCtx {
  gain : float;
  fm_amount : float;
  base_cutoff : float;
  filt_env_amount : float;
  use_filter : bool
}.

Definition render_ctx_of (inst : braids_instance_t) : render_ctx :=
  let ps := params inst in
  let bc := get_p ps PARAM_CUTOFF in
  let fea := get_p ps PARAM_FILT_ENV in
  mkCtx (F32.div (get_p ps PARAM_VOLUME) (F32.of_int (Z.of_nat MAX_VOICES)))
        (get_p ps PARAM_FM) bc fea
        (F32.ltb bc (F32.lit 99 2)
         || F32.gtb (get_p ps PARAM_RESONANCE) (F32.lit 1 2)
         || F32.gtb fea (F32.lit 1 2)).

(** [out_interleaved_lr[i]] read and written. *)
Definition out_get (out : list Z) (i : nat) : Z := default 0 (out !! i).

(** Saturation of one channel: the two [if]s on [left] (or [right]). *)
Definition clip16 (x : Z) : Z :=
  let x := if 32767 <? x then 32767 else x in
  if x <? -32768 then -32768 else x.

(** The "mix to stereo output" statements for one sample at frame
    [frame]: both channels take [(int32_t)(sample * gain)] on top of
    what they hold, in [int32_t], are clipped, and are stored back
    as [int16_t]. *)
Definition mix_sample (g : float) (sample : Z) (frame : nat) (out : list Z)
  : list Z :=
  let idx := (frame * 2)%nat in
  let c := F32.to_int32 (F32.mul (F32.of_int sample) g) in
  let left := wrap32 (out_get out idx + c) in
  let right := wrap32 (out_get out (idx + 1) + c) in
  let left := clip16 left in
  let right := clip16 right in
  <[ (idx + 1)%nat := wrap16 right ]> (<[ idx := wrap16 left ]> out).

(** The filter step of one sample. *)
Definition filter_sample (ctx : render_ctx) (filt_val : float) (sample : Z)
    (v : BraidsVoice) : BraidsVoice * Z :=
  if use_filter ctx then
    let mod_cutoff :=
      F32.add (base_cutoff ctx) (F32.mul filt_val (filt_env_amount ctx)) in
    let mod_cutoff :=
      if F32.gtb mod_cutoff F32.one then F32.one else mod_cutoff in
    let cutoff_freq :=
      wrap16 (F32.to_int16 (F32.mul mod_cutoff (F32.of_int 127)) * 128) in
    let f := svf_set_frequency cutoff_freq (svf v) in
    let '(f, y) := svf_Process sample f in
    (set_svf f v, wrap32 y)
  else (v, sample).

(** The loop [for (s = 0; s < block_size; s++)]: [n] iterations are
    left, starting at [s]; [rendered] frames precede the block. *)
Fixpoint render_samples (ctx : render_ctx) (rendered : nat) (n s : nat)
    (v : BraidsVoice) (out : list Z) : BraidsVoice * list Z :=
  match n with
  | O => (v, out)
  | S n' =>
      let '(amp, ae) := ADSR.process (amp_env v) in
      let '(filt_val, fe) := ADSR.process (filt_env v) in
      let v := set_filt_env fe (set_amp_env ae v) in
      if negb (gate v) && negb (ADSR.is_active (amp_env v))
      then (set_active false v, out)
      else
        let sample := default 0 (osc_buffer v !! s) in
        let sample := F32.to_int32 (F32.mul (F32.of_int sample) amp) in
        let '(v, sample) := filter_sample ctx filt_val sample v in
        let sample := Z.quot (wrap32 (sample * velocity v)) 127 in
        let out := mix_sample (gain ctx) sample (rendered + s) out in
        render_samples ctx rendered n' (S s) v out
  end.

(** What [osc.Render(sync_buffer, osc_buffer, block_size)] leaves in
    [osc_buffer]: [block_size] fresh [int16_t] samples, the rest as before. *)
Definition store_block (fresh : list Z) (size : nat) (old : list Z) : list Z :=
  take size (map wrap16 fresh ++ repeat 0 size) ++ drop size old.

(** The loop [while (rendered < frames)].  Every iteration that does
    not leave the loop adds at least one frame, so [frames] iterations
    always suffice; [fuel] counts them down. *)
Fixpoint render_blocks (ctx : render_ctx) (frames : nat) (fuel : nat)
    (rendered : nat) (v : BraidsVoice) (out : list Z)
  : BraidsVoice * list Z :=
  match fuel with
  | O => (v, out)
  | S fuel' =>
      if (rendered <? frames)%nat then
        let block_size :=
          if (frames <? rendered + BRAIDS_BLOCK_SIZE)%nat
          then (frames - rendered)%nat else BRAIDS_BLOCK_SIZE in
        let '(o, fresh) :=
          osc_Render (repeat 0 BRAIDS_BLOCK_SIZE) block_size (osc v) in
        let v := set_osc_buffer (store_block fresh block_size (osc_buffer v))
                                (set_osc o v) in
        let '(v, out) := render_samples ctx rendered block_size 0 v out in
        if negb (active v) then (v, out)
        else render_blocks ctx frames fuel' (rendered + block_size) v out
      else (v, out)
  end.

(** The body of the voice loop for one voice. *)
Definition render_voice (inst : braids_instance_t) (ctx : render_ctx)
    (frames : nat) (v : BraidsVoice) (out : list Z) : BraidsVoice * list Z :=
  if negb (active v) then (v, out)
  else
    let v := apply_params_to_voice inst v in
    let pitch := note_to_pitch (note v) in
    let pitch :=
      if F32.gtb (fm_amount ctx) (F32.lit 1 3)
      then wrap16 (pitch + F32.to_int16
                             (F32.mul (fm_amount ctx) (F32.of_int 1536)))
      else pitch in
    let v := set_osc (osc_set_pitch pitch (osc v)) v in
    render_blocks ctx frames frames 0 v out.

(** The voice loop. *)
Fixpoint render_voices (inst : braids_instance_t) (ctx : render_ctx)
    (frames : nat) (vs : list BraidsVoice) (out : list Z)
  : list BraidsVoice * list Z :=
  match vs with
  | [] => ([], out)
  | v :: r =>
      let '(v', out) := render_voice inst ctx frames v out in
      let '(r', out) := render_voices inst ctx frames r out in
      (v' :: r', out)
  end.

(** [v2_render_block]: the instance afterwards and the [2 * frames]
    samples of [out_interleaved_lr]. *)
Definition v2_render_block (inst : braids_instance_t) (frames : nat)
  : braids_instance_t * list Z :=
  let ctx := render_ctx_of inst in
  let out := repeat 0 (2 * frames) in
  let '(vs, out) := render_voices inst ctx frames (voices inst) out in
  (set_voices vs inst, out).

End Plugin.

(** ** Reading parameters back *)

(** What [snprintf(buf, size, "%s", text)] returns and what it leaves
    in a buffer that held [old]: the length of [text], and the first
    [size - 1] bytes of it when [size] is positive. *)
Definition snprintf (old : string) (size : nat) (text : string)
  : Z * string :=
  (strlen text, match size with O => old | S k => str_take k text end).

Section Queries.

Context {D : Dsp}.

(** [g_shape_names[shape]] for the clamped [shape] of the "engine"
    branch; the index is always inside the array. *)
Definition shape_name (ps : list float) : string :=
  default EmptyString (g_shape_names !! Z.to_nat (shape_of ps)).

(** The branches of [v2_get_param] that answer before
    [param_helper_get] is called: the return value and the buffer.
    [None] when the key is none of theirs and the function goes on to
    the helper, whose source is not part of the plugin file. *)
Definition v2_get_param_direct (inst : braids_instance_t) (key buf : string)
    (buf_len : nat) : option (Z * string) :=
  if str_eq key "name" then Some (snprintf buf buf_len "Braids")
  else if str_eq key "octave_transpose" then
    Some (snprintf buf buf_len (fmt_d (octave_transpose inst)))
  else if str_eq key "preset" then
    Some (snprintf buf buf_len (fmt_d (current_preset inst)))
  else if str_eq key "preset_count" then
    Some (snprintf buf buf_len (fmt_d (preset_count inst)))
  else if str_eq key "preset_name" then
    Some (snprintf buf buf_len (preset_name inst))
  else if str_eq key "engine" || str_eq key "engine_name" then
    Some (snprintf buf buf_len (shape_name (params inst)))
  else None.

End Queries.

(* ===================================================================== *)
(** * Part III.  Specification-side definitions                           *)
(* ===================================================================== *)

(** ** The transition table of the envelope, as the specification words it *)

Inductive table_step : SimpleADSR -> SimpleADSR -> Prop :=
| row_attack_rising e l :
    stage e = ATTACK ->
    l = F32.add (level e) (attack_rate e) ->
    F32.geb l F32.one = false ->
    table_step e (set_level l e)
| row_attack_reached e l :
    stage e = ATTACK ->
    l = F32.add (level e) (attack_rate e) ->
    F32.geb l F32.one = true ->
    table_step e (set_stage DECAY (set_level F32.one e))
| row_decay_falling e l :
    stage e = DECAY ->
    l = F32.sub (level e) (decay_rate e) ->
    F32.leb l (sustain_level e) = false ->
    table_step e (set_level l e)
| row_decay_reached e l :
    stage e = DECAY ->
    l = F32.sub (level e) (decay_rate e) ->
    F32.leb l (sustain_level e) = true ->
    table_step e (set_stage SUSTAIN (set_level (sustain_level e) e))
| row_sustain e :
    stage e = SUSTAIN ->
    table_step e (set_level (sustain_level e) e)
| row_release_falling e l :
    stage e = RELEASE ->
    l = F32.sub (level e) (release_rate e) ->
    F32.leb l F32.zero = false ->
    table_step e (set_level l e)
| row_release_reached e l :
    stage e = RELEASE ->
    l = F32.sub (level e) (release_rate e) ->
    F32.leb l F32.zero = true ->
    table_step e (set_stage IDLE (set_level F32.zero e))
| row_idle e :
    stage e = IDLE ->
    table_step e (set_level F32.zero e).


(** ** Voice predicates used by the allocator's specification *)

Section SpecDefs.

Context {D : Dsp}.

(** An active voice playing note [n]. *)
Definition sounding (n : Z) (v : BraidsVoice) : bool :=
  active v && (note v =? n).

(** A sounding voice whose key is still held. *)
Definition held (n : Z) (v : BraidsVoice) : bool :=
  sounding n v && gate v.

(** The note a note message addresses: the data byte moved by the
    octave transpose and clamped to 0..127. *)
Definition transposed_note (inst : braids_instance_t) (data1 : Z) : Z :=
  Z.max 0 (Z.min 127 (data1 + octave_transpose inst * 12)).

End SpecDefs.

(** ** Envelope trajectories and the renderer's bookkeeping *)

(** The envelope after [k] calls of [process]. *)
Definition env_steps (k : nat) (e : SimpleADSR) : SimpleADSR :=
  Nat.iter k (fun a => snd (ADSR.process a)) e.

(** Among the next [n] calls of [process], the index (from 0) of the
    first one that leaves the envelope idle. *)
Fixpoint first_idle (n : nat) (e : SimpleADSR) : option nat :=
  match n with
  | O => None
  | S n' =>
      let e' := snd (ADSR.process e) in
      if ADSR.is_active e' then S <$> first_idle n' e' else Some 0%nat
  end.

(** The integer a sample adds to both channels: [(int32_t)(sample * gain)]. *)
Definition contribution (g : float) (sample : Z) : Z :=
  F32.to_int32 (F32.mul (F32.of_int sample) g).

Section RenderDefs.

Context {D : Dsp}.

(** The amplitude envelope of a voice once the current parameters have
    been applied to it, as at the top of every callback. *)
Definition armed_amp (inst : braids_instance_t) (v : BraidsVoice)
  : SimpleADSR :=
  amp_env (apply_params_to_voice inst v).

(** [m] callbacks of [frames] frames each. *)
Definition render_n (frames : nat) (m : nat) (inst : braids_instance_t)
  : braids_instance_t :=
  Nat.iter m (fun i => fst (v2_render_block i frames)) inst.

End RenderDefs.

(** ** What a voice hands to the mix *)

(** The value a channel that holds [a] holds after the contribution
    [c]: the sum in [int32_t], clipped by the two [if]s. *)
Definition mix_step (a c : Z) : Z := clip16 (wrap32 (a + c)).

(** A channel after the contributions [cs], taken in turn. *)
Definition accumulate (cs : list Z) (acc : Z) : Z :=
  fold_left mix_step cs acc.

(** The sum of [a] and [c] over the integers, saturated to 16 bits, and
    a channel after the contributions [cs] when every sum is taken
    that way. *)
Definition sat16 (x : Z) : Z := Z.max INT16_MIN (Z.min INT16_MAX x).

Definition saturating_sum (cs : list Z) (acc : Z) : Z :=
  fold_left (fun a c => sat16 (a + c)) cs acc.



Section MixDefs.

Context {D : Dsp}.

(** The sample loop of [render_samples] with the mix left out: the
    voice afterwards and the samples it produced, velocity scaling
    included, in frame order. *)
Fixpoint voice_samples (ctx : render_ctx) (n s : nat) (v : BraidsVoice)
  : BraidsVoice * list Z :=
  match n with
  | O => (v, [])
  | S n' =>
      let '(amp, ae) := ADSR.process (amp_env v) in
      let '(filt_val, fe) := ADSR.process (filt_env v) in
      let v := set_filt_env fe (set_amp_env ae v) in
      if negb (gate v) && negb (ADSR.is_active (amp_env v))
      then (set_active false v, [])
      else
        let sample := default 0 (osc_buffer v !! s) in
        let sample := F32.to_int32 (F32.mul (F32.of_int sample) amp) in
        let '(v, sample) := filter_sample ctx filt_val sample v in
        let sample := Z.quot (wrap32 (sample * velocity v)) 127 in
        let '(v', tr) := voice_samples ctx n' (S s) v in
        (v', sample :: tr)
  end.

(** The block loop of [render_blocks], likewise. *)
Fixpoint voice_blocks (ctx : render_ctx) (frames : nat) (fuel : nat)
    (rendered : nat) (v : BraidsVoice) : BraidsVoice * list Z :=
  match fuel with
  | O => (v, [])
  | S fuel' =>
      if (rendered <? frames)%nat then
        let block_size :=
          if (frames <? rendered + BRAIDS_BLOCK_SIZE)%nat
          then (frames - rendered)%nat else BRAIDS_BLOCK_SIZE in
        let '(o, fresh) :=
          osc_Render (repeat 0 BRAIDS_BLOCK_SIZE) block_size (osc v) in
        let v := set_osc_buffer (store_block fresh block_size (osc_buffer v))
                                (set_osc o v) in
        let '(v, tr) := voice_samples ctx block_size 0 v in
        if negb (active v) then (v, tr)
        else
          let '(v', tr') :=
            voice_blocks ctx frames fuel' (rendered + block_size) v in
          (v', (tr ++ tr')%list)
      else (v, [])
  end.

(** The body of the voice loop, likewise: the samples one voice hands
    to the mix during a callback, the first for frame 0. *)
Definition voice_track (inst : braids_instance_t) (ctx : render_ctx)
    (frames : nat) (v : BraidsVoice) : BraidsVoice * list Z :=
  if negb (active v) then (v, [])
  else
    let v := apply_params_to_voice inst v in
    let pitch := note_to_pitch (note v) in
    let pitch :=
      if F32.gtb (fm_amount ctx) (F32.lit 1 3)
      then wrap16 (pitch + F32.to_int16
                             (F32.mul (fm_amount ctx) (F32.of_int 1536)))
      else pitch in
    let v := set_osc (osc_set_pitch pitch (osc v)) v in
    voice_blocks ctx frames frames 0 v.

(** The contributions to frame [f], in the order of the voice loop:
    [(int32_t)(sample * gain)] for every voice that has a sample for
    that frame. *)
Definition contributions_at (inst : braids_instance_t) (ctx : render_ctx)
    (frames f : nat) (vs : list BraidsVoice) : list Z :=
  flat_map (fun v => match snd (voice_track inst ctx frames v) !! f with
                     | Some x => [contribution (gain ctx) x]
                     | None => []
                     end) vs.

Definition frame_contributions (inst : braids_instance_t) (frames f : nat)
  : list Z :=
  contributions_at inst (render_ctx_of inst) frames f (voices inst).

End MixDefs.

(** ** The parameter store's range invariant *)

(** [x] lies in the declared inclusive range of [d]. *)
Definition in_range (d : param_def_t) (x : float) : bool :=
  F32.leb (pd_min_val d) x && F32.leb x (pd_max_val d).

(** Every slot of the table holds a value in its declared range. *)
Definition store_in_range (ps : list float) : bool :=
  forallb (fun d => in_range d (get_p ps (pd_index d))) g_shadow_params.

(** ** The state snapshot *)

(** What a stored value becomes when it is written into the snapshot
    and read back: [%d] of its integer part for an integer parameter,
    [%.4f] otherwise, then [atof] and the narrowing to [float]. *)
Definition render_value (d : param_def_t) (x : float) : string :=
  match pd_type d with
  | PARAM_TYPE_INT => fmt_d (F32.to_int32 x)
  | PARAM_TYPE_FLOAT => fmt_4f x
  end.

Definition reparse (d : param_def_t) (x : float) : float :=
  F64.to_float (atof (render_value d x)).

(** A string without the byte 0x22. *)
Fixpoint no_dquote (s : string) : bool :=
  match s with
  | EmptyString => true
  | String c r => negb (Ascii.eqb c dquote) && no_dquote r
  end.

(** A string made of decimal digits only. *)
Fixpoint all_digits (s : string) : bool :=
  match s with
  | EmptyString => true
  | String c r => isdigit c && all_digits r
  end.

(** A key that can be told apart inside the snapshot: no double quote
    in it and no colon in front. *)
Definition plain_key (k : string) : bool :=
  no_dquote k
  && match k with
     | String c _ => negb (Ascii.eqb c ":"%char)
     | EmptyString => true
     end.

(** ["key":] *)
Definition needle (key : string) : string :=
  String dquote (key ++ String dquote ":").

(** ["key":value] followed by [rest] *)
Definition field (key value rest : string) : string :=
  String dquote (key ++ String dquote (String ":" (value ++ rest))).

(** [,"k1":v1,"k2":v2...] followed by [tail] *)
Fixpoint fields_string (kvs : list (string * string)) (tail : string)
  : string :=
  match kvs with
  | [] => tail
  | (k, v) :: r => String "," (field k v (fields_string r tail))
  end.

Section StateDefs.

Context {D : Dsp}.

(** Saving the state and restoring it on the spot. *)
Definition state_round_trip (inst : braids_instance_t) : braids_instance_t :=
  v2_set_param inst "state" (get_param_state inst).

(** The shape every instance keeps from its creation on: four voices,
    sixteen parameter slots in the store and in every preset, and
    octave transposes within [-3, 3]. *)
Definition wf_preset (p : BraidsPreset) : Prop :=
  length (bp_params p) = PARAM_COUNT /\ -3 <= bp_octave_transpose p <= 3.

Definition wf_inst (inst : braids_instance_t) : Prop :=
  length (voices inst) = MAX_VOICES
  /\ length (params inst) = PARAM_COUNT
  /\ -3 <= octave_transpose inst <= 3
  /\ Forall wf_preset (presets inst).

End StateDefs.

(** The character that follows a value in the snapshot. *)
Definition terminator (c : ascii) : Prop := c = ","%char \/ c = "}"%char.

(** The part of [atof] after white space and sign. *)
Definition atof_body (neg : bool) (s0 : string) : double :=
  if starts_with_ci "inf" s0 then S754_infinity neg
  else if starts_with_ci "nan" s0 then S754_nan
  else
    let '(ip, ni, s1) := read_digits s0 0 0 in
    let '(fp, nf, s2) :=
      match s1 with
      | String "." r => read_digits r ip 0
      | _ => (ip, 0, s1)
      end in
    if ni + nf =? 0 then S754_zero false
    else F64.of_decimal neg fp (read_exponent s2 - nf).

(** The texts [printf] produces for ["%d"] and ["%.4f"]: an optional
    minus, digits, and possibly a point with more digits; or one of
    the special values. *)
Inductive number_text : string -> Prop :=
| nt_inf : number_text "inf"
| nt_neg_inf : number_text "-inf"
| nt_nan : number_text "nan"
| nt_num sgn d ds frac :
    sgn = "" \/ sgn = "-" ->
    isdigit d = true -> all_digits ds = true ->
    (frac = "" \/ exists fs, frac = String "." fs /\ all_digits fs = true) ->
    number_text (sgn ++ String d ds ++ frac)%string.

(** The first pair with key [key] and the pairs after it. *)
Fixpoint split_at_key (key : string) (kvs : list (string * string))
  : option (string * list (string * string)) :=
  match kvs with
  | [] => None
  | (k, v) :: r => if str_eq k key then Some (v, r) else split_at_key key r
  end.

(** The keys and values of a snapshot, in the order they are written. *)
Definition snapshot_pairs (cp oct : string) (rv : param_def_t -> string)
  : list (string * string) :=
  ("preset", cp) :: ("octave_transpose", oct)
  :: map (fun d => (pd_key d, rv d)) g_shadow_params.

(** Structural equality of two floats, decided. *)
Definition float_eqb (x y : float) : bool :=
  match x, y with
  | S754_zero s, S754_zero s' => Bool.eqb s s'
  | S754_infinity s, S754_infinity s' => Bool.eqb s s'
  | S754_nan, S754_nan => true
  | S754_finite s m e, S754_finite s' m' e' =>
      Bool.eqb s s' && Pos.eqb m m' && Z.eqb e e'
  | _, _ => false
  end.

(** The [float] that the numeral [k / 10^4] is read as. *)
Definition grid_value (k : Z) : float :=
  F64.to_float (F64.of_decimal false k (-4)).

(** Values that a text with at most four decimals can denote in a
    slot: [k / 10^4] for a continuous parameter in [0, 1], a shape
    index for the engine. *)
Definition on_grid (d : param_def_t) (x : float) : Prop :=
  match pd_type d with
  | PARAM_TYPE_FLOAT => exists k, 0 <= k <= 10000 /\ x = grid_value k
  | PARAM_TYPE_INT => exists k, 0 <= k <= NUM_SHAPES - 1 /\ x = F32.of_int k
  end.

(** A slot's value survives the trip through its textual form. *)
Definition survives (d : param_def_t) (x : float) : bool :=
  float_eqb (clamp_param d (reparse d x)) x.

(** ** Rounding to binary32, in closed form *)

Definition b2z (b : bool) : Z := if b then 1 else 0.

(** The exponent of the last place for a number whose leading bit
    has weight [2^(e-1)]: 24 bits, not below 2^-149. *)
Definition fexp32 (e : Z) : Z := Z.max (e - 24) (-149).

(** A rounded mantissa [M <= 2^24] at exponent [X], put in shape. *)
Definition norm_out (M X : Z) : spec_float :=
  if M =? 0 then S754_zero false
  else
    let '(M', X') := if M =? 2 ^ 24 then (2 ^ 23, X + 1) else (M, X) in
    if X' <=? 104 then S754_finite false (Z.to_pos M') X'
    else S754_infinity false.

(** The binary32 nearest to [m * 2^e], ties to even. *)
Definition round32 (m e : Z) : spec_float :=
  let E := fexp32 (Zdigits2 m + e) in
  norm_out (round_half_even m (2 ^ (E - e))) E.

(** A mantissa wide enough for its exponent: rounding never has to
    invent low bits. *)
Definition fine (m e : Z) : Prop := e <= fexp32 (Zdigits2 m + e).

(** [m * 2^e] written the way binary32 stores it: the exponent of the
    last place is the one the width of [m] calls for, and in range. *)
Definition canon32 (m : positive) (e : Z) : Prop :=
  fexp32 (Z.pos (digits2_pos m) + e) = e /\ e <= 104.

(** A finite, non-negative binary32 value. *)
Definition nonneg32 (x : float) : Prop :=
  match x with
  | S754_zero _ => True
  | S754_finite false m e => canon32 m e
  | _ => False
  end.

(** A positive binary32 value. *)
Definition positive32 (x : float) : Prop :=
  match x with
  | S754_finite false m e => canon32 m e
  | _ => False
  end.

(** The value of a finite non-negative float in units of 2^-149. *)
Definition units (x : float) : Z :=
  match x with
  | S754_finite false m e => Z.pos m * 2 ^ (e + 149)
  | _ => 0
  end.

(** ** Further definitions used by the lemmas of Part IV *)

(** Closes a goal [canon32 m e] on literals. *)
Ltac canon := unfold canon32; split; [vm_compute; reflexivity | lia].

(** ** Values in the unit interval and well-configured envelopes *)

(** A binary32 value in [0, 1]. *)
Definition unit32 (x : float) : Prop :=
  nonneg32 x /\ SFleb x F32.one = true.

(** An envelope whose rates are finite and not negative, and whose
    sustain level and current level lie in [0, 1]. *)
Definition env_ok (e : SimpleADSR) : Prop :=
  nonneg32 (attack_rate e) /\ nonneg32 (decay_rate e)
  /\ nonneg32 (release_rate e)
  /\ unit32 (sustain_level e) /\ unit32 (level e).

(** A value that compares below every non-negative one: a zero, a
    negative number or minus infinity. *)
Definition nonpos32 (x : float) : Prop :=
  match x with
  | S754_zero _ | S754_finite true _ _ | S754_infinity true => True
  | _ => False
  end.

(** What can happen to an envelope between two samples: a step of
    [process], a gate edge, a re-initialisation, new parameters. *)
Inductive env_op : Type :=
| op_process
| op_gate_on
| op_gate_off
| op_init
| op_set_params (a d s r : float).

Definition env_apply (e : SimpleADSR) (o : env_op) : SimpleADSR :=
  match o with
  | op_process => snd (ADSR.process e)
  | op_gate_on => ADSR.gate_on e
  | op_gate_off => ADSR.gate_off e
  | op_init => ADSR.init e
  | op_set_params a d s r => ADSR.set_params a d s r e
  end.

Definition env_run (ops : list env_op) (e : SimpleADSR) : SimpleADSR :=
  fold_left env_apply ops e.

(** Parameters are only ever set to values in [0, 1]. *)
Definition op_ok (o : env_op) : Prop :=
  match o with
  | op_set_params a d s r => unit32 a /\ unit32 d /\ unit32 s /\ unit32 r
  | _ => True
  end.

(** [unit32], decided. *)
Definition unit32b (x : float) : bool :=
  match x with
  | S754_zero _ => true
  | S754_finite false m e => bounded 24 128 m e && SFleb x F32.one
  | _ => false
  end.

(** ** The plugin as its host drives it *)

(** A MIDI data byte. *)
Definition data_byte (z : Z) : Prop := 0 <= z <= 127.

(** The calls of the v2 API table that change an instance. *)
Inductive api_call : Type :=
| call_on_midi (msg : list Z)
| call_set_param (key val : string)
| call_render_block (frames : nat).

Section ApiDefs.

Context {D : Dsp}.

Definition api_step (inst : braids_instance_t) (c : api_call)
  : braids_instance_t :=
  match c with
  | call_on_midi msg => v2_on_midi inst msg
  | call_set_param key val => v2_set_param inst key val
  | call_render_block frames => fst (v2_render_block inst frames)
  end.

Definition api_run (cs : list api_call) (inst : braids_instance_t)
  : braids_instance_t :=
  fold_left api_step cs inst.

(** The number of voices that hold note [n]. *)
Fixpoint held_count (n : Z) (vs : list BraidsVoice) : nat :=
  match vs with
  | [] => O
  | v :: r => ((if held n v then 1 else 0) + held_count n r)%nat
  end.

(** A voice at rest: not sounding, key up, both envelopes idle. *)
Definition at_rest (v : BraidsVoice) : Prop :=
  active v = false /\ gate v = false
  /\ stage (amp_env v) = IDLE /\ stage (filt_env v) = IDLE.

(** The filter envelope of a voice once the current parameters have
    been applied to it. *)
Definition armed_filt (inst : braids_instance_t) (v : BraidsVoice)
  : SimpleADSR :=
  filt_env (apply_params_to_voice inst v).

End ApiDefs.

(** ** Pitch *)

(** The pitch [v2_render_block] gives the oscillator of a voice that
    plays note [n]: the corrected note pitch, raised by
    [(int16_t)(fm_amount * 1536.0f)] when the mod wheel is above 0.001. *)
Definition render_pitch (fm : float) (n : Z) : Z :=
  let pitch := note_to_pitch n in
  if F32.gtb fm (F32.lit 1 3)
  then wrap16 (pitch + F32.to_int16 (F32.mul fm (F32.of_int 1536)))
  else pitch.

(** The 14-bit [bend] of a pitch-bend message, re-centred, the
    [bend_semitones] computed from it and the offset
    [(int16_t)(bend_semitones * 128.0f)] added to a voice's pitch. *)
Definition bend_of (data1 data2 : Z) : Z :=
  Z.lor (Z.shiftl data2 7) data1 - 8192.

Definition bend_semitones_of (bend : Z) : float :=
  F32.mul (F32.div (F32.of_int bend) (F32.of_int 8192)) (F32.of_int 2).

Definition bend_offset (data1 data2 : Z) : Z :=
  F32.to_int16
    (F32.mul (bend_semitones_of (bend_of data1 data2)) (F32.of_int 128)).

(** ** Presets *)

(** The engine value a preset file yields: the index of a shape given
    by name (0 for a name that is not in the table), else the number
    under the key, else 0. *)
Definition preset_engine (data : string) : float :=
  match json_get_string data "engine" 32 with
  | Some name =>
      match shape_index g_shape_names 0 name with
      | Some i => F32.of_int i
      | None => F32.zero
      end
  | None => default F32.zero (json_get_number data "engine")
  end.

(** The result codes of [load_braids_preset]. *)
Definition file_loadable (bytes : string) : Prop :=
  0 < strlen bytes <= 4096.

Section ApiInvariant.

Context {D : Dsp}.

(** The fields of a voice that rendering never writes. *)
Definition same_key (v' v : BraidsVoice) : Prop :=
  note v' = note v /\ velocity v' = velocity v /\ gate v' = gate v
  /\ age v' = age v /\ (active v' = true -> active v = true).

(** The current preset is an index of the preset list, or 0 when the
    list is empty. *)
Definition preset_index_ok (inst : braids_instance_t) : Prop :=
  0 <= current_preset inst
  /\ (current_preset inst < preset_count inst \/ current_preset inst = 0).

(** What every API call keeps. *)
Definition inst_ok (inst : braids_instance_t) : Prop :=
  wf_inst inst /\ preset_count inst <= 64 /\ preset_index_ok inst.

End ApiInvariant.

(** ** The order in which presets are loaded *)

(** Ascending [strcmp] order of the names of a list of directory
    entries. *)
Definition name_le (x y : string * option string) : Prop :=
  strcmp (fst x) (fst y) <> Gt.

Fixpoint ascending (l : directory) : Prop :=
  match l with
  | [] => True
  | x :: r => Forall (name_le x) r /\ ascending r
  end.

(** The presets that [load_braids_preset] appends when it is run over
    [files] in turn with [count] presets loaded before: files that
    cannot be opened, are empty or exceed 4096 bytes are passed over. *)
Fixpoint load_all (files : list (option string)) (count : Z)
  : list BraidsPreset :=
  match files with
  | [] => []
  | Some bytes :: r =>
      if (strlen bytes <=? 0) || (4096 <? strlen bytes)
      then load_all r count
      else parse_preset (c_str bytes) count :: load_all r (count + 1)
  | None :: r => load_all r count
  end.

(** ** Voice ages *)

Section AgeDefs.

Context {D : Dsp}.

(** What a call that starts no voice leaves of a voice's bookkeeping:
    the age stays, and the voice is not made active. *)
Definition age_kept (v' v : BraidsVoice) : Prop :=
  age v' = age v /\ (active v' = true -> active v = true).

(** The ages record the order of the note-ons: no age is ahead of the
    voice counter, a voice that sounds has been given a positive age,
    and no two voices share a positive age. *)
Definition ages_ok (inst : braids_instance_t) : Prop :=
  0 <= voice_counter inst
  /\ Forall (fun v => 0 <= age v <= voice_counter inst
                      /\ (active v = true -> 0 < age v)) (voices inst)
  /\ forall (i j : nat) v w, i <> j -> voices inst !! i = Some v ->
       voices inst !! j = Some w -> 0 < age v -> age v <> age w.

End AgeDefs.
(** ** The level of one sample *)

(** [(int32_t)(sample * amp)]: a sample scaled by a [float], as the
    render loop does with the amplitude envelope and the mix with the
    gain. *)
Definition amp_scaled (amp : float) (sample : Z) : Z :=
  F32.to_int32 (F32.mul (F32.of_int sample) amp).

(** [(sample * v->velocity) / 127] in [int32_t]. *)
Definition velocity_scaled (vel sample : Z) : Z :=
  Z.quot (wrap32 (sample * vel)) 127.

(** ** The modulated cutoff *)

(** [mod_cutoff] of the sample loop after its clamp: the base cutoff
    plus the filter envelope times its amount, at most 1.0. *)
Definition mod_cutoff (ctx : render_ctx) (filt_val : float) : float :=
  let m := F32.add (base_cutoff ctx)
                   (F32.mul filt_val (filt_env_amount ctx)) in
  if F32.gtb m F32.one then F32.one else m.

(** ** Concrete instances used to exercise the statements *)

(** A fresh instance of a module that ships no presets directory. *)
Definition inst_init : @braids_instance_t null_dsp :=
  v2_create_instance "/data/modules/braids" None.

(** Middle C pressed, released, and pressed again while the first
    voice is still in its release: voice 0 releases note 60, voice 1
    holds note 60. *)
Definition inst_repressed : @braids_instance_t null_dsp :=
  v2_on_midi (v2_on_midi (v2_on_midi inst_init [144; 60; 100]) [128; 60; 0])
             [144; 60; 90].

(** A note played with the shortest release and let go after one
    callback, on the constant-sample oscillator: voice 0 is active,
    ungated and in its release stage. *)
Definition inst_released : @braids_instance_t const_dsp :=
  let i := v2_create_instance "/data/modules/braids" None in
  let i := v2_set_param i "release" "0" in
  let i := v2_on_midi i [144; 60; 100] in
  let i := fst (v2_render_block i 128) in
  v2_on_midi i [128; 60; 0].

Definition voice0_released : @BraidsVoice const_dsp :=
  default fresh_voice (voices inst_released !! 0%nat).


(** A presets directory with one file whose volume is 1e12, and the
    same two keys held on the instance that loads it. *)
Definition loud_presets : option directory :=
  Some [ ("01_loud.braids",
          Some (json_text "{'name':'Loud','volume':1e12}")) ].

Definition inst_loud : @braids_instance_t const_dsp :=
  v2_on_midi
    (v2_on_midi (v2_create_instance "/data/modules/braids" loud_presets)
       [144; 60; 100]) [144; 64; 100].

(** A presets directory with one file whose timbre is 5.0. *)
Definition hot_presets : option directory :=
  Some [ ("01_hot.braids",
          Some (json_text "{'name':'Hot','engine':'FM','timbre':5.0}")) ].

Definition inst_hot : @braids_instance_t null_dsp :=
  v2_create_instance "/data/modules/braids" hot_presets.

(** The timbre set to a value with five decimals. *)
Definition inst_tweaked : @braids_instance_t null_dsp :=
  v2_set_param inst_init "timbre" "0.12345".

(** The modulation wheel moved one step up from rest. *)
Definition inst_modwheel : @braids_instance_t null_dsp :=
  v2_on_midi inst_init [176; 1; 1].

(** A key held down on a fresh instance, and the voice that plays it. *)
Definition inst_held : @braids_instance_t null_dsp :=
  v2_on_midi inst_init [144; 60; 100].

Definition voice0_held : @BraidsVoice null_dsp :=
  default fresh_voice (voices inst_held !! 0%nat).

(** The preset of [inst_hot]. *)
Definition preset_hot : BraidsPreset :=
  default (mkPreset EmptyString [] 0) (presets inst_hot !! 0%nat).

(* ===================================================================== *)
(** * Part IV.  Lemmas and theorems                                       *)
(* ===================================================================== *)

Open Scope list_scope.

(** ** The envelope generator *)

Lemma table_step_functional e e1 e2 :
  table_step e e1 -> table_step e e2 -> e1 = e2.
Proof.
  intros H1 H2.
  inversion H1; subst; inversion H2; subst; try congruence.
Qed.

Lemma process_in_table e : table_step e (snd (ADSR.process e)).
Proof.
  destruct e as [st l ar dr sl rr].
  unfold ADSR.process; cbn [snd stage level attack_rate decay_rate sustain_level release_rate set_level set_stage].
  destruct st.
  - apply (row_idle (mkADSR IDLE l ar dr sl rr)); reflexivity.
  - destruct (F32.geb (F32.add l ar) F32.one) eqn:E.
    + eapply (row_attack_reached (mkADSR ATTACK l ar dr sl rr)); eauto.
    + eapply (row_attack_rising (mkADSR ATTACK l ar dr sl rr)); eauto.
  - destruct (F32.leb (F32.sub l dr) sl) eqn:E.
    + eapply (row_decay_reached (mkADSR DECAY l ar dr sl rr)); eauto.
    + eapply (row_decay_falling (mkADSR DECAY l ar dr sl rr)); eauto.
  - apply (row_sustain (mkADSR SUSTAIN l ar dr sl rr)); reflexivity.
  - destruct (F32.leb (F32.sub l rr) F32.zero) eqn:E.
    + eapply (row_release_reached (mkADSR RELEASE l ar dr sl rr)); eauto.
    + eapply (row_release_falling (mkADSR RELEASE l ar dr sl rr)); eauto.
Qed.

(** C3. One call of [process] takes the envelope along the row of the
    transition table that belongs to its stage: the update of that row
    is applied to the level, the row's condition is tested on the
    updated level, and on success the level is clamped and the stage
    moves on; sustain and idle only pin the level.  The table fixes
    the outcome uniquely, and the value returned is the level after
    the update. *)
Theorem process_follows_table (e : SimpleADSR) :
  table_step e (snd (ADSR.process e))
  /\ fst (ADSR.process e) = level (snd (ADSR.process e))
  /\ (forall e', table_step e e' -> e' = snd (ADSR.process e)).
Proof.
  split; [apply process_in_table|].
  split; [reflexivity|].
  intros e' H. eapply table_step_functional; eauto using process_in_table.
Qed.

(** ** The voice allocator *)

Section VoiceAllocator.
Context {D : Dsp}.

Lemma first_inactive_some (vs : list BraidsVoice) i r :
  first_inactive vs i = Some r ->
  exists (k : nat) v, r = i + Z.of_nat k /\ vs !! k = Some v /\ active v = false
    /\ forall (j : nat) w, (j < k)%nat -> vs !! j = Some w -> active w = true.
Proof.
  revert i; induction vs as [|v vs IH]; intros i H; cbn in H; [discriminate|].
  destruct (active v) eqn:Ea.
  - destruct (IH _ H) as (k & w & -> & Hk & Hw & Hlt).
    exists (S k), w. repeat split; [lia | exact Hk | exact Hw |].
    intros [|j] u Hj Hu; cbn in Hu.
    + congruence.
    + eapply Hlt; [|exact Hu]. lia.
  - injection H as <-. exists 0%nat, v. repeat split; [lia | exact Ea |].
    intros j w Hj; lia.
Qed.

Lemma first_inactive_none (vs : list BraidsVoice) i :
  first_inactive vs i = None ->
  forall (j : nat) w, vs !! j = Some w -> active w = true.
Proof.
  revert i; induction vs as [|v vs IH]; intros i H j w Hj; cbn in *; [discriminate|].
  destruct (active v) eqn:Ea; [|discriminate].
  destruct j as [|j]; cbn in Hj; [congruence|]. eapply IH; eauto.
Qed.

Lemma first_inactive_exists (vs : list BraidsVoice) i (j : nat) w :
  vs !! j = Some w -> active w = false -> first_inactive vs i <> None.
Proof.
  intros Hj Hw Hn. rewrite (first_inactive_none _ _ Hn _ _ Hj) in Hw. discriminate.
Qed.

(** Invariant of the second loop: [oldest] indexes a voice of the part
    already scanned ([pre]) whose age is [oldest_age], the least there. *)
Lemma scan_oldest_min (pre vs : list BraidsVoice) (o : nat) vo :
  pre !! o = Some vo ->
  (forall (j : nat) w, pre !! j = Some w -> age vo <= age w) ->
  exists (r : nat) vr,
    scan_oldest vs (Z.of_nat (length pre)) (Z.of_nat o) (age vo) = Z.of_nat r
    /\ (pre ++ vs) !! r = Some vr
    /\ forall (j : nat) w, (pre ++ vs) !! j = Some w -> age vr <= age w.
Proof.
  revert pre o vo; induction vs as [|v vs IH]; intros pre o vo Ho Hmin; cbn.
  - exists o, vo. rewrite app_nil_r. auto.
  - assert (Hlen : Z.of_nat (length pre) + 1 = Z.of_nat (length (pre ++ [v]))).
    { rewrite length_app; cbn; lia. }
    destruct (Z.ltb_spec (age v) (age vo)) as [Hlt|Hge].
    + rewrite Hlen.
      destruct (IH (pre ++ [v]) (length pre) v) as (r & vr & Hr & Hl & Hm).
      * rewrite lookup_app_r by lia. rewrite Nat.sub_diag. reflexivity.
      * intros j w Hj. apply lookup_app_Some in Hj as [Hj | [_ Hj]].
        -- specialize (Hmin _ _ Hj). lia.
        -- apply list_lookup_singleton_Some in Hj as [_ <-]. lia.
      * exists r, vr. rewrite <- app_assoc in Hl, Hm. auto.
    + rewrite Hlen.
      destruct (IH (pre ++ [v]) o vo) as (r & vr & Hr & Hl & Hm).
      * apply lookup_app_l_Some. exact Ho.
      * intros j w Hj. apply lookup_app_Some in Hj as [Hj | [_ Hj]].
        -- eauto.
        -- apply list_lookup_singleton_Some in Hj as [_ <-]. lia.
      * exists r, vr. rewrite <- app_assoc in Hl, Hm. auto.
Qed.

(** C5. [find_free_voice] always returns the index of a voice.  If some
    voice is not active it is the first such voice in index order (so
    with every voice inactive the voice it returns is inactive); if
    every voice is active it is a voice of minimum [age] among all. *)
Theorem find_free_voice_spec (inst : braids_instance_t) :
  length (voices inst) = MAX_VOICES ->
  exists (r : nat) v,
    find_free_voice inst = Z.of_nat r
    /\ (r < MAX_VOICES)%nat
    /\ voices inst !! r = Some v
    /\ ((exists (j : nat) w, voices inst !! j = Some w /\ active w = false) ->
        active v = false
        /\ forall (j : nat) w, (j < r)%nat -> voices inst !! j = Some w ->
                               active w = true)
    /\ ((forall (j : nat) w, voices inst !! j = Some w -> active w = true) ->
        forall (j : nat) w, voices inst !! j = Some w -> age v <= age w).
Proof.
  intros Hlen. unfold find_free_voice.
  destruct (first_inactive (voices inst) 0) as [r|] eqn:Hf.
  - destruct (first_inactive_some _ _ _ Hf) as (k & v & -> & Hk & Hv & Hlt).
    exists k, v. split; [lia|]. split.
    { rewrite <- Hlen. eapply lookup_lt_Some; eauto. }
    split; [exact Hk|]. split.
    + intros _. auto.
    + intros Hall. rewrite (Hall _ _ Hk) in Hv. discriminate.
  - destruct (voices inst) as [|v0 vs] eqn:Hvs; [discriminate Hlen|].
    destruct (scan_oldest_min [v0] vs 0 v0) as (r & vr & Hr & Hl & Hm).
    + reflexivity.
    + intros [|j] w Hj; cbn in Hj; [injection Hj as <-; lia | discriminate].
    + cbn in Hr, Hl, Hm. exists r, vr. split; [exact Hr|]. split.
      { rewrite <- Hlen. eapply lookup_lt_Some; eauto. }
      split; [exact Hl|]. split.
      * intros (j & w & Hj & Hw).
        rewrite (first_inactive_none _ _ Hf _ _ Hj) in Hw. discriminate.
      * intros _. exact Hm.
Qed.



Lemma classic_sounding (vs : list BraidsVoice) n :
  (exists (j : nat) w, vs !! j = Some w /\ sounding n w = true)
  \/ (forall (j : nat) w, vs !! j = Some w -> sounding n w = false).
Proof.
  induction vs as [|v vs [(j & w & Hj & Hw) | Hno]].
  - right. intros j w Hj; discriminate.
  - left. exists (S j), w. auto.
  - destruct (sounding n v) eqn:Es.
    + left. exists 0%nat, v. auto.
    + right. intros [|j] w Hj; cbn in Hj; [congruence | eauto].
Qed.

(** The loop of [find_voice_for_note] over [vs], entered at index
    [length pre] with [releasing = rel]:
    - a held match in [vs] ends the scan at the first of them;
    - otherwise the last sounding voice of [vs] is returned, or [rel]
      when [vs] has none. *)
Lemma scan_note_spec (pre vs : list BraidsVoice) n rel :
  let r := scan_note vs n (Z.of_nat (length pre)) rel in
  ((exists (j : nat) w, vs !! j = Some w /\ held n w = true) ->
     exists (k : nat) v, r = Z.of_nat (length pre + k) /\ vs !! k = Some v
       /\ held n v = true
       /\ forall (j : nat) w, (j < k)%nat -> vs !! j = Some w -> held n w = false)
  /\ ((forall (j : nat) w, vs !! j = Some w -> held n w = false) ->
      ((exists (j : nat) w, vs !! j = Some w /\ sounding n w = true) ->
         exists (k : nat) v, r = Z.of_nat (length pre + k) /\ vs !! k = Some v
           /\ sounding n v = true /\ gate v = false
           /\ forall (j : nat) w, (k < j)%nat -> vs !! j = Some w ->
                                  sounding n w = false)
      /\ ((forall (j : nat) w, vs !! j = Some w -> sounding n w = false) ->
          r = rel)).
Proof.
  revert pre rel; induction vs as [|v vs IH]; intros pre rel r.
  - subst r; cbn. split; [intros (j & w & Hj & _); discriminate|].
    intros _. split; [intros (j & w & Hj & _); discriminate | reflexivity].
  - assert (Hlen : Z.of_nat (length pre) + 1 = Z.of_nat (length (pre ++ [v]))).
    { rewrite length_app; cbn; lia. }
    assert (Hlen' : forall k, (length (pre ++ [v]) + k = length pre + S k)%nat).
    { intros k. rewrite length_app; cbn; lia. }
    subst r; cbn [scan_note]. fold (sounding n v).
    destruct (sounding n v) eqn:Es; [destruct (gate v) eqn:Eg|].
    + (* held: the scan ends here *)
      split.
      * intros _. exists 0%nat, v. repeat split.
        -- f_equal; lia.
        -- unfold held. rewrite Es, Eg. reflexivity.
        -- intros j w Hj; lia.
      * intros Hnone. specialize (Hnone 0%nat v eq_refl).
        unfold held in Hnone. rewrite Es, Eg in Hnone. discriminate.
    + (* releasing match: remembered, the scan goes on *)
      rewrite Hlen.
      destruct (IH (pre ++ [v]) (Z.of_nat (length pre))) as [IHheld IHrel].
      split.
      * intros (j & w & Hj & Hw). destruct j as [|j]; cbn in Hj.
        { injection Hj as <-. unfold held in Hw. rewrite Es, Eg in Hw. discriminate. }
        destruct IHheld as (k & u & Hr & Hk & Hu & Hlt); [eauto|].
        exists (S k), u. rewrite Hr, Hlen'. repeat split; auto.
        intros [|i] x Hi Hx; cbn in Hx.
        -- injection Hx as <-. unfold held. rewrite Es, Eg. reflexivity.
        -- eapply Hlt; [|exact Hx]. lia.
      * intros Hnone.
        destruct IHrel as [IHsome IHno].
        { intros j w Hj. apply (Hnone (S j) w Hj). }
        split; [|intros Hno; specialize (Hno 0%nat v eq_refl); congruence].
        intros _.
        destruct (classic_sounding vs n) as [(j & w & Hj & Hw) | Hno].
        -- destruct IHsome as (k & u & Hr & Hk & Hu & Hg & Hgt); [eauto|].
           exists (S k), u. rewrite Hr, Hlen'. repeat split; auto.
           intros [|i] x Hi Hx; [lia|]. cbn in Hx. eapply Hgt; [|exact Hx]. lia.
        -- exists 0%nat, v. rewrite (IHno Hno).
           split; [f_equal; lia|]. repeat split; auto.
           intros [|i] x Hi Hx; [lia|]. cbn in Hx. eauto.
    + (* no match at this index *)
      rewrite Hlen.
      destruct (IH (pre ++ [v]) rel) as [IHheld IHrel].
      split.
      * intros (j & w & Hj & Hw). destruct j as [|j]; cbn in Hj.
        { injection Hj as <-. unfold held in Hw. rewrite Es in Hw. discriminate. }
        destruct IHheld as (k & u & Hr & Hk & Hu & Hlt); [eauto|].
        exists (S k), u. rewrite Hr, Hlen'. repeat split; auto.
        intros [|i] x Hi Hx; cbn in Hx.
        -- injection Hx as <-. unfold held. rewrite Es. reflexivity.
        -- eapply Hlt; [|exact Hx]. lia.
      * intros Hnone.
        destruct IHrel as [IHsome IHno].
        { intros j w Hj. apply (Hnone (S j) w Hj). }
        split.
        -- intros (j & w & Hj & Hw). destruct j as [|j]; cbn in Hj; [congruence|].
           destruct IHsome as (k & u & Hr & Hk & Hu & Hg & Hgt); [eauto|].
           exists (S k), u. rewrite Hr, Hlen'. repeat split; auto.
           intros [|i] x Hi Hx; [lia|]. cbn in Hx. eapply Hgt; [|exact Hx]. lia.
        -- intros Hno. apply IHno. intros j w Hj. apply (Hno (S j) w Hj).
Qed.


(** C6. [find_voice_for_note inst n]:
    - if some voice is active, plays [n] and is gated, the result is
      such a voice (the first in index order), even when releasing
      voices with the same note come before it;
    - if voices sound [n] but none of them is gated, the result is the
      match the scan met last, the one with the highest index;
    - if no active voice has note [n], the result is -1. *)
Theorem find_voice_for_note_spec (inst : braids_instance_t) (n : Z) :
  let r := find_voice_for_note inst n in
  ((exists (j : nat) w, voices inst !! j = Some w /\ held n w = true) ->
     exists (k : nat) v, r = Z.of_nat k /\ voices inst !! k = Some v
       /\ active v = true /\ note v = n /\ gate v = true
       /\ forall (j : nat) w, (j < k)%nat -> voices inst !! j = Some w ->
                              held n w = false)
  /\ ((forall (j : nat) w, voices inst !! j = Some w -> held n w = false) ->
      (exists (j : nat) w, voices inst !! j = Some w /\ sounding n w = true) ->
      exists (k : nat) v, r = Z.of_nat k /\ voices inst !! k = Some v
        /\ active v = true /\ note v = n /\ gate v = false
        /\ forall (j : nat) w, (k < j)%nat -> voices inst !! j = Some w ->
                               sounding n w = false)
  /\ ((forall (j : nat) w, voices inst !! j = Some w -> sounding n w = false) ->
      r = -1).
Proof.
  intros r.
  destruct (scan_note_spec [] (voices inst) n (-1)) as [Hheld Hrel].
  cbn in Hheld, Hrel. fold (find_voice_for_note inst n) in Hheld, Hrel.
  fold r in Hheld, Hrel.
  split; [|split].
  - intros Hex. destruct (Hheld Hex) as (k & v & Hr & Hk & Hv & Hlt).
    exists k, v. unfold held, sounding in Hv.
    apply andb_prop in Hv as [Hv Hg]. apply andb_prop in Hv as [Ha Hn].
    apply Z.eqb_eq in Hn. auto 10.
  - intros Hnone Hex. destruct (Hrel Hnone) as [Hsome _].
    destruct (Hsome Hex) as (k & v & Hr & Hk & Hv & Hg & Hgt).
    exists k, v. unfold sounding in Hv.
    apply andb_prop in Hv as [Ha Hn]. apply Z.eqb_eq in Hn. auto 10.
  - intros Hno. destruct Hrel as [_ Hnone'].
    + intros j w Hj. unfold held. rewrite (Hno _ _ Hj). reflexivity.
    + exact (Hnone' Hno).
Qed.

End VoiceAllocator.

Lemma find_free_voice_spec_witness :
  length (voices inst_init) = MAX_VOICES
  /\ exists (r : nat) v,
    find_free_voice inst_init = Z.of_nat r
    /\ (r < MAX_VOICES)%nat
    /\ voices inst_init !! r = Some v
    /\ ((exists (j : nat) w, voices inst_init !! j = Some w /\ active w = false) ->
        active v = false
        /\ forall (j : nat) w, (j < r)%nat -> voices inst_init !! j = Some w ->
                               active w = true)
    /\ ((forall (j : nat) w, voices inst_init !! j = Some w -> active w = true) ->
        forall (j : nat) w, voices inst_init !! j = Some w -> age v <= age w).
Proof.
  assert (H : length (voices inst_init) = MAX_VOICES) by (vm_compute; reflexivity).
  split; [exact H | exact (find_free_voice_spec inst_init H)].
Defined.

Lemma find_voice_for_note_spec_witness :
  (exists (j : nat) w, voices inst_repressed !! j = Some w /\ held 60 w = true)
  /\ exists (k : nat) v,
       find_voice_for_note inst_repressed 60 = Z.of_nat k
       /\ voices inst_repressed !! k = Some v
       /\ active v = true /\ note v = 60 /\ gate v = true
       /\ forall (j : nat) w, (j < k)%nat -> voices inst_repressed !! j = Some w ->
                              held 60 w = false.
Proof.
  assert (H : exists (j : nat) w,
             voices inst_repressed !! j = Some w /\ held 60 w = true).
  { exists 1%nat, (default fresh_voice (voices inst_repressed !! 1%nat)).
    split; vm_compute; reflexivity. }
  split; [exact H |].
  exact (proj1 (find_voice_for_note_spec inst_repressed 60) H).
Defined.

(** ** Preset application and the MIDI handler *)

Section PresetsAndMidi.
Context {D : Dsp}.

Lemma set_param_preset_key (inst : braids_instance_t) val :
  v2_set_param inst "preset" val = set_param_preset inst val.
Proof. reflexivity. Qed.

(** C9. Applying a preset whose index is negative or not below the
    number of loaded presets changes nothing, whether the index comes
    straight to [v2_apply_preset] or through the "preset" key of
    [v2_set_param]: the whole instance (parameter table, octave
    transpose, preset name and all the rest) is returned as it was. *)
Theorem apply_preset_out_of_range (inst : braids_instance_t) (idx : Z) :
  idx < 0 \/ preset_count inst <= idx ->
  v2_apply_preset inst idx = inst
  /\ forall val, atoi val = idx -> v2_set_param inst "preset" val = inst.
Proof.
  intros Hidx. split.
  - unfold v2_apply_preset.
    destruct (Z.ltb_spec idx 0); [reflexivity|].
    destruct (Z.leb_spec (preset_count inst) idx); [reflexivity|lia].
  - intros val <-. rewrite set_param_preset_key. unfold set_param_preset.
    destruct (Z.leb_spec 0 (atoi val)); [|reflexivity].
    destruct (Z.ltb_spec (atoi val) (preset_count inst)); [lia|reflexivity].
Qed.


Lemma transposed_note_eq inst data1 :
  (let n := data1 + octave_transpose inst * 12 in
   let n := if n <? 0 then 0 else n in
   if 127 <? n then 127 else n) = transposed_note inst data1.
Proof.
  unfold transposed_note; cbn zeta.
  destruct (Z.ltb_spec (data1 + octave_transpose inst * 12) 0);
  [destruct (Z.ltb_spec 127 0) | destruct (Z.ltb_spec 127 (data1 + octave_transpose inst * 12))]; lia.
Qed.

Lemma on_midi_note_off (inst : braids_instance_t) b0 data1 rest :
  Z.land b0 240 = 128 ->
  v2_on_midi inst (b0 :: data1 :: rest) =
    let vi := find_voice_for_note inst (transposed_note inst data1) in
    if 0 <=? vi then update_voice (Z.to_nat vi) release_voice inst else inst.
Proof.
  intros Hs. unfold v2_on_midi. rewrite Hs. cbn [Z.eqb Pos.eqb orb].
  rewrite transposed_note_eq. reflexivity.
Qed.

Lemma on_midi_note_on_zero (inst : braids_instance_t) b0 data1 rest :
  Z.land b0 240 = 144 ->
  rest = [] \/ (exists tl, rest = 0 :: tl) ->
  v2_on_midi inst (b0 :: data1 :: rest) =
    let vi := find_voice_for_note inst (transposed_note inst data1) in
    if 0 <=? vi then update_voice (Z.to_nat vi) release_voice inst else inst.
Proof.
  intros Hs Hrest. unfold v2_on_midi. rewrite Hs. cbn [Z.eqb Pos.eqb orb].
  rewrite transposed_note_eq.
  destruct Hrest as [-> | [tl ->]]; reflexivity.
Qed.

Lemma update_voice_lookup (inst : braids_instance_t) vi f (j : nat) :
  voices (update_voice vi f inst) !! j =
    if decide (vi = j) then f <$> (voices inst !! j) else voices inst !! j.
Proof.
  unfold update_voice. destruct (voices inst !! vi) as [v|] eqn:Hv.
  - cbn. destruct (decide (vi = j)) as [<-|Hne].
    + rewrite list_lookup_insert_eq by (eapply lookup_lt_Some; eauto).
      rewrite Hv. reflexivity.
    + rewrite list_lookup_insert_ne by assumption. reflexivity.
  - destruct (decide (vi = j)) as [<-|Hne]; [rewrite Hv|]; reflexivity.
Qed.

Lemma scan_note_range (vs : list BraidsVoice) n i rel :
  let r := scan_note vs n i rel in
  r = rel \/ (i <= r < i + Z.of_nat (length vs)).
Proof.
  revert i rel; induction vs as [|v vs IH]; intros i rel; cbn; [auto|].
  destruct (active v && (note v =? n)); [destruct (gate v)|].
  - right; lia.
  - destruct (IH (i + 1) i) as [-> | H]; right; lia.
  - destruct (IH (i + 1) rel) as [-> | H]; [auto | right; lia].
Qed.

Lemma classic_held (vs : list BraidsVoice) n :
  (exists (j : nat) w, vs !! j = Some w /\ held n w = true)
  \/ (forall (j : nat) w, vs !! j = Some w -> held n w = false).
Proof.
  induction vs as [|v vs [(j & w & Hj & Hw) | Hno]].
  - right. intros j w Hj; discriminate.
  - left. exists (S j), w. auto.
  - destruct (held n v) eqn:Es.
    + left. exists 0%nat, v. auto.
    + right. intros [|j] w Hj; cbn in Hj; [congruence | eauto].
Qed.

(** What [find_voice_for_note] returns, by cases on the voices that
    sound the note. *)
Lemma find_voice_for_note_found (inst : braids_instance_t) (n : Z) :
  let vi := find_voice_for_note inst n in
  ((exists (j : nat) w, voices inst !! j = Some w /\ sounding n w = true) ->
     exists (k : nat) v,
       vi = Z.of_nat k /\ voices inst !! k = Some v /\ sounding n v = true
       /\ ((exists (j : nat) w, voices inst !! j = Some w /\ held n w = true) ->
           held n v = true
           /\ forall (j : nat) w, (j < k)%nat -> voices inst !! j = Some w ->
                                  held n w = false)
       /\ ((forall (j : nat) w, voices inst !! j = Some w -> held n w = false) ->
           gate v = false
           /\ forall (j : nat) w, (k < j)%nat -> voices inst !! j = Some w ->
                                  sounding n w = false))
  /\ ((forall (j : nat) w, voices inst !! j = Some w -> sounding n w = false) ->
      vi = -1).
Proof.
  intros vi.
  destruct (scan_note_spec [] (voices inst) n (-1)) as [Hheld Hrel].
  cbn in Hheld, Hrel. fold (find_voice_for_note inst n) in Hheld, Hrel.
  fold vi in Hheld, Hrel.
  split.
  - intros Hex.
    destruct (classic_held (voices inst) n) as [Hh | Hnh].
    + destruct (Hheld Hh) as (k & v & Hr & Hk & Hv & Hlt).
      exists k, v. split; [exact Hr|]. split; [exact Hk|].
      split; [unfold held in Hv; apply andb_prop in Hv; apply Hv|].
      split; [intros _; split; assumption|].
      intros Hnone. rewrite (Hnone k v Hk) in Hv. discriminate.
    + destruct (Hrel Hnh) as [Hsome _].
      destruct (Hsome Hex) as (k & v & Hr & Hk & Hv & Hg & Hgt).
      exists k, v. split; [exact Hr|]. split; [exact Hk|]. split; [exact Hv|].
      split; [|intros _; split; assumption].
      intros (j & w & Hj & Hw). rewrite (Hnh j w Hj) in Hw. discriminate.
  - intros Hno. destruct Hrel as [_ Hnone'].
    + intros j w Hj. unfold held. rewrite (Hno _ _ Hj). reflexivity.
    + exact (Hnone' Hno).
Qed.

(** C10. A message with status 0x90 and velocity 0 (a third byte equal
    to 0, or no third byte at all) is handled exactly as a note-off:
    - the resulting instance is the one a 0x80 message for the same
      note byte yields, whatever that message's velocity;
    - no voice is allocated, stolen or re-triggered: the voice counter
      and the parameters are untouched and every voice keeps its note,
      velocity, age, active flag, oscillator, filter and buffer;
    - the voice [find_voice_for_note] names for the transposed and
      clamped note, when there is one, has its gate cleared and
      [gate_off] applied to both envelopes, which puts every envelope
      that is not idle into the release stage; all other voices, and
      all voices when none matches, are left exactly as they were;
    - whenever some voice sounds the transposed note, a voice is
      named, and it is one that sounds that note: the first one whose
      key is still held, or, when none is held, the last one that
      sounds the note; after the message that voice is the released
      one, its gate cleared and both envelopes through [gate_off];
    - when no voice sounds the note the instance stays as it was. *)
Theorem note_on_velocity_zero_is_note_off
    (inst : braids_instance_t) (b0 data1 : Z) (rest : list Z) :
  Z.land b0 240 = 144 ->
  rest = [] \/ (exists tl, rest = 0 :: tl) ->
  let inst' := v2_on_midi inst (b0 :: data1 :: rest) in
  let n := transposed_note inst data1 in
  let vi := find_voice_for_note inst n in
  (forall b0' vel, Z.land b0' 240 = 128 ->
     inst' = v2_on_midi inst [b0'; data1; vel])
  /\ voice_counter inst' = voice_counter inst
  /\ params inst' = params inst
  /\ octave_transpose inst' = octave_transpose inst
  /\ length (voices inst') = length (voices inst)
  /\ (forall (j : nat) v, voices inst !! j = Some v ->
        exists v', voices inst' !! j = Some v'
          /\ note v' = note v /\ velocity v' = velocity v /\ age v' = age v
          /\ active v' = active v /\ osc v' = osc v /\ svf v' = svf v
          /\ osc_buffer v' = osc_buffer v
          /\ (Z.of_nat j = vi ->
                gate v' = false
                /\ amp_env v' = ADSR.gate_off (amp_env v)
                /\ filt_env v' = ADSR.gate_off (filt_env v)
                /\ (stage (amp_env v) <> IDLE -> stage (amp_env v') = RELEASE)
                /\ (stage (filt_env v) <> IDLE -> stage (filt_env v') = RELEASE))
          /\ (Z.of_nat j <> vi -> v' = v))
  /\ ((exists (j : nat) w, voices inst !! j = Some w /\ sounding n w = true) ->
      exists (k : nat) v,
        vi = Z.of_nat k /\ voices inst !! k = Some v
        /\ active v = true /\ note v = n
        /\ ((exists (j : nat) w, voices inst !! j = Some w /\ held n w = true) ->
            gate v = true
            /\ forall (j : nat) w, (j < k)%nat -> voices inst !! j = Some w ->
                                   held n w = false)
        /\ ((forall (j : nat) w, voices inst !! j = Some w -> held n w = false) ->
            forall (j : nat) w, (k < j)%nat -> voices inst !! j = Some w ->
                                sounding n w = false)
        /\ exists v', voices inst' !! k = Some v'
             /\ gate v' = false /\ active v' = true /\ note v' = n
             /\ amp_env v' = ADSR.gate_off (amp_env v)
             /\ filt_env v' = ADSR.gate_off (filt_env v)
             /\ (stage (amp_env v) <> IDLE -> stage (amp_env v') = RELEASE)
             /\ (stage (filt_env v) <> IDLE -> stage (filt_env v') = RELEASE))
  /\ ((forall (j : nat) w, voices inst !! j = Some w ->
                           sounding n w = false) ->
      inst' = inst).
Proof.
  intros Hs Hrest inst' n vi.
  assert (Hi : inst' = if 0 <=? vi then update_voice (Z.to_nat vi) release_voice inst else inst).
  { subst inst'. rewrite on_midi_note_on_zero by assumption. reflexivity. }
  assert (Hgo : forall e : SimpleADSR,
             stage e <> IDLE -> stage (ADSR.gate_off e) = RELEASE).
  { intros [[] ? ? ? ? ?]; cbn; congruence. }
  split.
  { intros b0' vel Hs'. rewrite Hi, on_midi_note_off by assumption. reflexivity. }
  assert (Hfields : voice_counter inst' = voice_counter inst
                    /\ params inst' = params inst
                    /\ octave_transpose inst' = octave_transpose inst).
  { rewrite Hi. destruct (0 <=? vi); [|auto].
    unfold update_voice. destruct (voices inst !! Z.to_nat vi); auto. }
  destruct Hfields as (Hc & Hp & Ho).
  split; [exact Hc|]. split; [exact Hp|]. split; [exact Ho|].
  split.
  { rewrite Hi. destruct (0 <=? vi); [|reflexivity].
    unfold update_voice. destruct (voices inst !! Z.to_nat vi); [|reflexivity].
    cbn. apply length_insert. }
  split; [|split].
  - intros j v Hj. rewrite Hi.
    destruct (Z.leb_spec 0 vi) as [Hge|Hlt].
    + rewrite update_voice_lookup.
      destruct (decide (Z.to_nat vi = j)) as [Hj'|Hne].
      * rewrite Hj. cbn. eexists; split; [reflexivity|].
        do 7 (split; [reflexivity|]). split; [|intros Hne; lia].
        intros _. do 3 (split; [reflexivity|]).
        split; apply Hgo.
      * exists v. split; [exact Hj|]. do 7 (split; [reflexivity|]).
        split; [intros Heq; lia | reflexivity].
    + exists v. split; [exact Hj|]. do 7 (split; [reflexivity|]).
      split; [intros Heq; lia | reflexivity].
  - intros Hex.
    destruct (find_voice_for_note_found inst n) as [Hfound _].
    destruct (Hfound Hex) as (k & v & Hk & Hv & Hsnd & Hheld & Hrel).
    fold vi in Hk.
    exists k, v. split; [exact Hk|]. split; [exact Hv|].
    unfold sounding in Hsnd. apply andb_prop in Hsnd as [Ha Hn].
    apply Z.eqb_eq in Hn.
    split; [exact Ha|]. split; [exact Hn|].
    split.
    { intros Hh. destruct (Hheld Hh) as [Hhv Hlt]. split; [|exact Hlt].
      unfold held in Hhv. apply andb_prop in Hhv. apply Hhv. }
    split; [intros Hnh; apply (Hrel Hnh)|].
    exists (release_voice v). split.
    { rewrite Hi, Hk. destruct (Z.leb_spec 0 (Z.of_nat k)) as [_|]; [|lia].
      rewrite Nat2Z.id, update_voice_lookup.
      destruct (decide (k = k)); [|congruence]. rewrite Hv. reflexivity. }
    split; [reflexivity|]. split; [exact Ha|]. split; [exact Hn|].
    do 2 (split; [reflexivity|]). split; apply Hgo.
  - intros Hno. rewrite Hi.
    destruct (find_voice_for_note_found inst n) as [_ Hnone].
    fold vi in Hnone. rewrite (Hnone Hno). reflexivity.
Qed.

End PresetsAndMidi.

Lemma apply_preset_out_of_range_witness :
  (0 < 0 \/ preset_count inst_init <= 0)
  /\ v2_apply_preset inst_init 0 = inst_init
  /\ forall val, atoi val = 0 -> v2_set_param inst_init "preset" val = inst_init.
Proof.
  assert (H : 0 < 0 \/ preset_count inst_init <= 0) by (right; vm_compute; discriminate).
  split; [exact H | exact (apply_preset_out_of_range inst_init 0 H)].
Defined.

Lemma note_on_velocity_zero_witness :
  Z.land 144 240 = 144
  /\ ([0] = [] \/ exists tl, [0] = 0 :: tl)
  /\ (forall b0' vel, Z.land b0' 240 = 128 ->
        v2_on_midi inst_repressed [144; 60; 0]
        = v2_on_midi inst_repressed [b0'; 60; vel])
  /\ voice_counter (v2_on_midi inst_repressed [144; 60; 0])
     = voice_counter inst_repressed
  /\ find_voice_for_note inst_repressed 60 = 1
  /\ (gate <$> voices inst_repressed) = [false; true; false; false]
  /\ (gate <$> voices (v2_on_midi inst_repressed [144; 60; 0]))
     = [false; false; false; false]
  /\ exists (k : nat) v v',
       find_voice_for_note inst_repressed
         (transposed_note inst_repressed 60) = Z.of_nat k
       /\ voices inst_repressed !! k = Some v
       /\ active v = true /\ note v = transposed_note inst_repressed 60
       /\ voices (v2_on_midi inst_repressed [144; 60; 0]) !! k = Some v'
       /\ gate v' = false
       /\ amp_env v' = ADSR.gate_off (amp_env v)
       /\ filt_env v' = ADSR.gate_off (filt_env v).
Proof.
  assert (H1 : Z.land 144 240 = 144) by reflexivity.
  assert (H2 : [0] = [] \/ exists tl, [0] = 0 :: tl) by (right; exists []; reflexivity).
  assert (H3 : exists (j : nat) w,
             voices inst_repressed !! j = Some w
             /\ sounding (transposed_note inst_repressed 60) w = true).
  { exists 1%nat, (default fresh_voice (voices inst_repressed !! 1%nat)).
    split; vm_compute; reflexivity. }
  destruct (note_on_velocity_zero_is_note_off inst_repressed 144 60 [0] H1 H2)
    as (Hoff & Hcnt & _ & _ & _ & _ & Hfound & _).
  destruct (Hfound H3)
    as (k & v & Hk & Hv & Ha & Hn & _ & _ & v' & Hv' & Hg & _ & _ & He1 & He2 & _).
  split; [exact H1|]. split; [exact H2|]. split; [exact Hoff|].
  split; [exact Hcnt|].
  split; [vm_compute; reflexivity|]. split; [vm_compute; reflexivity|].
  split; [vm_compute; reflexivity|].
  exists k, v, v'.
  exact (conj Hk (conj Hv (conj Ha (conj Hn (conj Hv' (conj Hg (conj He1 He2))))))).
Defined.

(** ** The parameter store's range invariant *)

(** C1. The range invariant does not survive preset loading.  A preset
    file that gives timbre the value 5.0 is parsed without clamping,
    and creating the instance applies that preset: the stored timbre
    is 5.0, above its declared maximum 1.0, and the store is out of
    range.  The same text sent through [v2_set_param] is clamped to
    1.0, and so is the octave transpose inside the very same loader. *)
Theorem preset_load_escapes_range :
  get_p (params inst_hot) PARAM_TIMBRE = F32.of_int 5
  /\ F32.gtb (get_p (params inst_hot) PARAM_TIMBRE) F32.one = true
  /\ store_in_range (params inst_hot) = false
  /\ store_in_range (params inst_init) = true
  /\ get_p (params (v2_set_param inst_init "timbre" "5.0")) PARAM_TIMBRE
     = F32.one
  /\ bp_octave_transpose
       (parse_preset (json_text "{'timbre':5.0,'octave_transpose':7}") 0) = 3.
Proof. vm_compute. repeat split; reflexivity. Qed.

(** ** Mixing into the output buffer *)


Lemma wrap_id w z : 0 < w -> - 2 ^ (w - 1) <= z < 2 ^ (w - 1) -> wrap w z = z.
Proof.
  intros Hw Hz. unfold wrap.
  assert (H2 : 2 ^ w = 2 * 2 ^ (w - 1)).
  { replace w with (Z.succ (w - 1)) at 1 by lia. apply Z.pow_succ_r. lia. }
  rewrite Z.mod_small by lia. lia.
Qed.

Lemma wrap16_id z : in_int16 z -> wrap16 z = z.
Proof. unfold in_int16, INT16_MIN, INT16_MAX. intros H. apply wrap_id; cbn; lia. Qed.

Lemma wrap32_id z : in_int32 z -> wrap32 z = z.
Proof. unfold in_int32, INT32_MIN, INT32_MAX. intros H. apply wrap_id; cbn; lia. Qed.


Lemma clip16_range x : in_int16 (clip16 x).
Proof.
  unfold clip16, in_int16, INT16_MIN, INT16_MAX.
  destruct (Z.ltb_spec 32767 x); [cbn; lia|].
  destruct (Z.ltb_spec x (-32768)); lia.
Qed.

Lemma clip16_id x : in_int16 x -> clip16 x = x.
Proof.
  unfold clip16, in_int16, INT16_MIN, INT16_MAX. intros H.
  destruct (Z.ltb_spec 32767 x); [lia|].
  destruct (Z.ltb_spec x (-32768)); lia.
Qed.


Section Mixing.
Context {D : Dsp}.

Lemma mix_sample_length g sample frame out :
  length (mix_sample g sample frame out) = length out.
Proof. unfold mix_sample. rewrite !length_insert. reflexivity. Qed.

Lemma mix_sample_lookup g sample frame out :
  (2 * frame + 1 < length out)%nat ->
  let c := contribution g sample in
  let out' := mix_sample g sample frame out in
  out' !! (2 * frame)%nat = Some (clip16 (wrap32 (out_get out (2 * frame) + c)))
  /\ out' !! (2 * frame + 1)%nat
       = Some (clip16 (wrap32 (out_get out (2 * frame + 1) + c)))
  /\ forall i, i <> (2 * frame)%nat -> i <> (2 * frame + 1)%nat ->
               out' !! i = out !! i.
Proof.
  intros Hlen c out'. subst out'. unfold mix_sample. fold (contribution g sample). fold c.
  replace (frame * 2)%nat with (2 * frame)%nat by lia.
  split; [|split].
  - rewrite list_lookup_insert_ne by lia.
    rewrite list_lookup_insert_eq by lia.
    rewrite wrap16_id by apply clip16_range. reflexivity.
  - rewrite list_lookup_insert_eq by (rewrite length_insert; lia).
    rewrite wrap16_id by apply clip16_range. reflexivity.
  - intros i H1 H2. rewrite !list_lookup_insert_ne by lia. reflexivity.
Qed.



(** A property of the output buffer that [mix_sample] keeps is kept by
    every loop of the renderer. *)
Section OutInvariant.
Variable P : list Z -> Prop.
Hypothesis P_mix : forall g sample frame out, P out -> P (mix_sample g sample frame out).





End OutInvariant.


End Mixing.


(** ** The block renderer: retiring released voices *)

Lemma env_steps_S k e : env_steps (S k) e = env_steps k (snd (ADSR.process e)).
Proof. unfold env_steps. rewrite Nat.iter_succ_r. reflexivity. Qed.

Lemma env_steps_add j k e : env_steps (j + k) e = env_steps k (env_steps j e).
Proof.
  revert e; induction j as [|j IH]; intros e; [reflexivity|].
  change (S j + k)%nat with (S (j + k)). rewrite !env_steps_S. apply IH.
Qed.

Lemma process_idle e : stage e = IDLE -> stage (snd (ADSR.process e)) = IDLE.
Proof. destruct e as [[] ? ? ? ? ?]; cbn; congruence. Qed.

Lemma env_steps_idle k e : stage e = IDLE -> stage (env_steps k e) = IDLE.
Proof.
  revert e; induction k as [|k IH]; intros e H; [exact H|].
  rewrite env_steps_S. apply IH, process_idle, H.
Qed.

Lemma is_active_stage e : ADSR.is_active e = false <-> stage e = IDLE.
Proof. unfold ADSR.is_active. destruct (stage e); split; congruence. Qed.

(** [first_idle] finds the first step that reaches idle. *)
Lemma first_idle_some n e j :
  first_idle n e = Some j <->
  (j < n)%nat /\ stage (env_steps (S j) e) = IDLE
  /\ forall m, (1 <= m <= j)%nat -> stage (env_steps m e) <> IDLE.
Proof.
  revert e j; induction n as [|n IH]; intros e j; cbn [first_idle].
  - split; [discriminate | intros [H _]; lia].
  - destruct (ADSR.is_active (snd (ADSR.process e))) eqn:Ea.
    + assert (Hne : stage (snd (ADSR.process e)) <> IDLE).
      { intros H. apply is_active_stage in H. congruence. }
      destruct (first_idle n (snd (ADSR.process e))) as [i|] eqn:Hf; cbn [fmap option_fmap option_map].
      * apply IH in Hf as (Hi & Hidle & Hbefore). split.
        -- intros [= <-]. split; [lia|]. split; [rewrite env_steps_S; exact Hidle|].
           intros [|m] Hm; [lia|]. rewrite env_steps_S.
           destruct m as [|m]; [exact Hne|]. apply Hbefore. lia.
        -- intros (Hj & Hidle' & Hbefore').
           destruct j as [|j]; [exfalso; apply Hne; exact Hidle'|].
           f_equal. destruct (Nat.lt_trichotomy i j) as [Hlt|[->|Hgt]]; [|reflexivity|].
           ++ exfalso. apply (Hbefore' (S (S i))); [lia|]. rewrite env_steps_S. exact Hidle.
           ++ exfalso. apply (Hbefore (S j)); [lia|]. rewrite <- env_steps_S. exact Hidle'.
      * split; [discriminate|]. intros (Hj & Hidle' & Hbefore').
        destruct j as [|j]; [exfalso; apply Hne; exact Hidle'|].
        assert (Hx : first_idle n (snd (ADSR.process e)) = Some j).
        { apply IH. split; [lia|]. split; [rewrite <- env_steps_S; exact Hidle'|].
          intros m Hm. rewrite <- env_steps_S. apply Hbefore'. lia. }
        congruence.
    + apply is_active_stage in Ea. split.
      * intros [= <-]. split; [lia|]. split; [exact Ea|]. intros m Hm; lia.
      * intros (Hj & Hidle' & Hbefore'). destruct j as [|j]; [reflexivity|].
        exfalso. apply (Hbefore' 1%nat); [lia|]. exact Ea.
Qed.

Lemma first_idle_none n e :
  first_idle n e = None <->
  forall m, (1 <= m <= n)%nat -> stage (env_steps m e) <> IDLE.
Proof.
  revert e; induction n as [|n IH]; intros e; cbn [first_idle].
  - split; [intros _ m Hm; lia | reflexivity].
  - destruct (ADSR.is_active (snd (ADSR.process e))) eqn:Ea.
    + assert (Hne : stage (snd (ADSR.process e)) <> IDLE).
      { intros H. apply is_active_stage in H. congruence. }
      destruct (first_idle n (snd (ADSR.process e))) as [i|] eqn:Hf; cbn [fmap option_fmap option_map].
      * split; [discriminate|]. intros Hall.
        assert (Hx : first_idle n (snd (ADSR.process e)) = None).
        { apply IH. intros m Hm. rewrite <- env_steps_S. apply Hall. lia. }
        congruence.
      * split; [|reflexivity]. intros _ [|m] Hm; [lia|]. rewrite env_steps_S.
        destruct m as [|m]; [exact Hne|]. apply (proj1 (IH _) Hf). lia.
    + apply is_active_stage in Ea. split; [discriminate|].
      intros Hall. exfalso. apply (Hall 1%nat); [lia|]. exact Ea.
Qed.

Lemma first_idle_add n1 n2 e :
  first_idle (n1 + n2) e =
    match first_idle n1 e with
    | Some j => Some j
    | None => (fun j => (n1 + j)%nat) <$> first_idle n2 (env_steps n1 e)
    end.
Proof.
  revert e; induction n1 as [|n1 IH]; intros e.
  - cbn. destruct (first_idle n2 e); reflexivity.
  - change (S n1 + n2)%nat with (S (n1 + n2)). cbn [first_idle].
    destruct (ADSR.is_active (snd (ADSR.process e))); [|reflexivity].
    rewrite IH, env_steps_S.
    destruct (first_idle n1 (snd (ADSR.process e))); cbn [fmap option_fmap option_map]; [reflexivity|].
    destruct (first_idle n2 _); reflexivity.
Qed.

Section Retire.
Context {D : Dsp}.

Lemma filter_sample_keeps ctx fv sample (v : BraidsVoice) :
  let v' := fst (filter_sample ctx fv sample v) in
  amp_env v' = amp_env v /\ filt_env v' = filt_env v /\ gate v' = gate v
  /\ active v' = active v.
Proof.
  unfold filter_sample. destruct (use_filter ctx); [|cbn; auto].
  destruct (svf_Process _ _) as [f y]. cbn. auto.
Qed.

Lemma mix_sample_far g sample frame out i :
  (2 * frame + 2 <= i)%nat -> mix_sample g sample frame out !! i = out !! i.
Proof.
  intros Hi. unfold mix_sample. rewrite !list_lookup_insert_ne by lia. reflexivity.
Qed.

(** The sample loop on an ungated voice: it stops at the first step
    that leaves the amplitude envelope idle, clearing [active] and
    writing nothing for that frame or later ones; otherwise it runs
    all [n] steps. *)
Lemma render_samples_ungated ctx rendered n s (v : BraidsVoice) out :
  gate v = false ->
  let r := render_samples ctx rendered n s v out in
  gate (fst r) = false
  /\ match first_idle n (amp_env v) with
     | Some j =>
         active (fst r) = false
         /\ amp_env (fst r) = env_steps (S j) (amp_env v)
         /\ forall i, (2 * (rendered + s + j) <= i)%nat -> snd r !! i = out !! i
     | None =>
         active (fst r) = active v
         /\ amp_env (fst r) = env_steps n (amp_env v)
         /\ forall i, (2 * (rendered + s + n) <= i)%nat -> snd r !! i = out !! i
     end.
Proof.
  revert s v out; induction n as [|n IH]; intros s v out Hg; cbn [render_samples first_idle].
  - cbn. auto.
  - destruct (ADSR.process (amp_env v)) as [amp ae] eqn:Hp.
    destruct (ADSR.process (filt_env v)) as [fv fe].
    cbn [snd gate amp_env set_filt_env set_amp_env]. rewrite Hg. cbn [negb andb].
    assert (Hae : snd (ADSR.process (amp_env v)) = ae) by (rewrite Hp; reflexivity).
    destruct (ADSR.is_active ae) eqn:Ea; cbn [negb].
    + match goal with |- context [filter_sample ?a ?b ?c ?d] =>
        pose proof (filter_sample_keeps a b c d) as Hk;
        destruct (filter_sample a b c d) as [v2 sample] end.
      cbn [fst] in Hk. destruct Hk as (Hka & _ & Hkg & Hkact).
      cbn [gate amp_env active set_filt_env set_amp_env] in Hka, Hkg, Hkact.
      rewrite Hg in Hkg.
      match goal with |- context [render_samples ctx rendered n (S s) v2 ?o] =>
        specialize (IH (S s) v2 o Hkg); cbn zeta in IH end.
      destruct IH as [IHg IHm]. split; [exact IHg|].
      rewrite Hka in IHm.
      destruct (first_idle n ae) as [j|]; cbn [fmap option_fmap option_map].
      * destruct IHm as (H1 & H2 & H3). split; [exact H1|]. split.
        { rewrite H2, (env_steps_S (S j)), Hae. reflexivity. }
        intros i Hi. rewrite H3 by lia. apply mix_sample_far. lia.
      * destruct IHm as (H1 & H2 & H3). split; [congruence|]. split.
        { rewrite H2, (env_steps_S n), Hae. reflexivity. }
        intros i Hi. rewrite H3 by lia. apply mix_sample_far. lia.
    + cbn [fst snd gate active amp_env set_active set_filt_env set_amp_env].
      split; [exact Hg|]. split; [reflexivity|].
      split; [rewrite <- Hae; reflexivity | auto].
Qed.


(** The block loop on an active, ungated voice, with enough fuel for
    the frames that are left. *)
Lemma render_blocks_ungated ctx frames fuel rendered (v : BraidsVoice) out :
  gate v = false -> active v = true -> (frames - rendered <= fuel)%nat ->
  let r := render_blocks ctx frames fuel rendered v out in
  gate (fst r) = false
  /\ match first_idle (frames - rendered) (amp_env v) with
     | Some j =>
         active (fst r) = false
         /\ amp_env (fst r) = env_steps (S j) (amp_env v)
         /\ forall i, (2 * (rendered + j) <= i)%nat -> snd r !! i = out !! i
     | None =>
         active (fst r) = true
         /\ amp_env (fst r) = env_steps (frames - rendered) (amp_env v)
     end.
Proof.
  revert rendered v out; induction fuel as [|fuel IH];
    intros rendered v out Hg Ha Hfuel; cbn [render_blocks].
  - replace (frames - rendered)%nat with 0%nat by lia. cbn. auto.
  - destruct (Nat.ltb_spec rendered frames) as [Hlt|Hge].
    2:{ replace (frames - rendered)%nat with 0%nat by lia. cbn. auto. }
    set (bs := if (frames <? rendered + BRAIDS_BLOCK_SIZE)%nat
               then (frames - rendered)%nat else BRAIDS_BLOCK_SIZE).
    assert (Hbs : (1 <= bs <= frames - rendered)%nat).
    { subst bs. unfold BRAIDS_BLOCK_SIZE.
      destruct (Nat.ltb_spec frames (rendered + 24)); lia. }
    destruct (osc_Render _ bs (osc v)) as [o fresh].
    set (vb := set_osc_buffer _ (set_osc o v)).
    assert (Hvb : gate vb = false /\ active vb = true /\ amp_env vb = amp_env v).
    { subst vb. cbn. auto. }
    destruct Hvb as (Hgb & Hab & Heb).
    pose proof (render_samples_ungated ctx rendered bs 0 vb out Hgb) as Hs.
    cbn zeta in Hs. destruct (render_samples ctx rendered bs 0 vb out) as [v1 out1].
    cbn [fst snd] in Hs. destruct Hs as [Hg1 Hm1]. rewrite Heb in Hm1.
    replace (frames - rendered)%nat with (bs + (frames - (rendered + bs)))%nat by lia.
    rewrite first_idle_add.
    destruct (first_idle bs (amp_env v)) as [j|].
    + destruct Hm1 as (H1 & H2 & H3). rewrite H1. cbn [negb fst snd].
      split; [exact Hg1|]. split; [exact H1|]. split; [exact H2|].
      intros i Hi. apply H3. lia.
    + destruct Hm1 as (H1 & H2 & H3). rewrite H1, Hab. cbn [negb].
      assert (Ha1 : active v1 = true) by congruence.
      specialize (IH (rendered + bs)%nat v1 out1 Hg1 Ha1 ltac:(lia)).
      cbn zeta in IH. destruct IH as [IHg IHm]. split; [exact IHg|].
      rewrite H2 in IHm.
      destruct (first_idle (frames - (rendered + bs)) (env_steps bs (amp_env v)))
        as [j|]; cbn [fmap option_fmap option_map].
      * destruct IHm as (I1 & I2 & I3). split; [exact I1|]. split.
        { rewrite I2. rewrite <- env_steps_add. f_equal. lia. }
        intros i Hi. rewrite I3 by lia. apply H3. lia.
      * destruct IHm as (I1 & I2). split; [exact I1|].
        rewrite I2. rewrite <- env_steps_add. reflexivity.
Qed.

Lemma apply_params_keeps inst (v : BraidsVoice) :
  let v' := apply_params_to_voice inst v in
  gate v' = gate v /\ active v' = active v.
Proof. cbn. auto. Qed.

(** One callback on an active, ungated voice. *)
Lemma render_voice_ungated inst ctx frames (v : BraidsVoice) out :
  active v = true -> gate v = false ->
  let r := render_voice inst ctx frames v out in
  gate (fst r) = false
  /\ match first_idle frames (armed_amp inst v) with
     | Some j =>
         active (fst r) = false
         /\ amp_env (fst r) = env_steps (S j) (armed_amp inst v)
         /\ forall i, (2 * j <= i)%nat -> snd r !! i = out !! i
     | None =>
         active (fst r) = true
         /\ amp_env (fst r) = env_steps frames (armed_amp inst v)
     end.
Proof.
  intros Ha Hg. unfold render_voice. rewrite Ha. cbn [negb].
  match goal with |- context [render_blocks ctx frames frames 0 ?w out] =>
    set (v0 := w) end.
  assert (H0 : gate v0 = false /\ active v0 = true /\ amp_env v0 = armed_amp inst v).
  { subst v0. cbn. auto. }
  destruct H0 as (Hg0 & Ha0 & He0).
  pose proof (render_blocks_ungated ctx frames frames 0 v0 out Hg0 Ha0 ltac:(lia)) as H.
  cbn zeta in H. rewrite Nat.sub_0_r, He0 in H. exact H.
Qed.

(** A voice that is not active is passed over: neither it nor the
    output changes. *)
Lemma render_voice_inactive inst ctx frames (v : BraidsVoice) out :
  active v = false -> render_voice inst ctx frames v out = (v, out).
Proof. intros Ha. unfold render_voice. rewrite Ha. reflexivity. Qed.


(** *** Several callbacks in a row *)

Lemma render_voices_lookup inst ctx frames (vs : list BraidsVoice) out vi v :
  vs !! vi = Some v ->
  exists o, fst (render_voices inst ctx frames vs out) !! vi
            = Some (fst (render_voice inst ctx frames v o)).
Proof.
  revert out vi; induction vs as [|w vs IH]; intros out vi Hv; [discriminate|].
  cbn [render_voices].
  destruct (render_voice inst ctx frames w out) as [w' out1] eqn:Hw.
  specialize (IH out1).
  destruct (render_voices inst ctx frames vs out1) as [r' out2].
  destruct vi as [|vi]; cbn in Hv |- *.
  - injection Hv as <-. exists out. rewrite Hw. reflexivity.
  - apply IH. exact Hv.
Qed.

Lemma render_block_params (inst : braids_instance_t) frames :
  params (fst (v2_render_block inst frames)) = params inst.
Proof.
  unfold v2_render_block. destruct (render_voices _ _ _ _ _). reflexivity.
Qed.

Lemma render_block_lookup (inst : braids_instance_t) frames vi v :
  voices inst !! vi = Some v ->
  exists o, voices (fst (v2_render_block inst frames)) !! vi
            = Some (fst (render_voice inst (render_ctx_of inst) frames v o)).
Proof.
  intros Hv. unfold v2_render_block.
  destruct (render_voices_lookup inst (render_ctx_of inst) frames (voices inst)
              (repeat 0 (2 * frames)) vi v Hv) as [o Ho].
  destruct (render_voices _ _ _ _ _) as [vs out]. cbn in Ho |- *. eauto.
Qed.

Lemma armed_amp_eq inst (v : BraidsVoice) :
  armed_amp inst v =
    ADSR.set_params (get_p (params inst) PARAM_ATTACK)
      (get_p (params inst) PARAM_DECAY) (get_p (params inst) PARAM_SUSTAIN)
      (get_p (params inst) PARAM_RELEASE) (amp_env v).
Proof. reflexivity. Qed.

Lemma process_rates e :
  let e' := snd (ADSR.process e) in
  attack_rate e' = attack_rate e /\ decay_rate e' = decay_rate e
  /\ sustain_level e' = sustain_level e /\ release_rate e' = release_rate e.
Proof.
  destruct e as [[] l ar dr sl rr]; cbn; auto.
  - destruct (F32.geb _ _); cbn; auto.
  - destruct (F32.leb _ _); cbn; auto.
  - destruct (F32.leb _ _); cbn; auto.
Qed.

Lemma env_steps_rates k e :
  let e' := env_steps k e in
  attack_rate e' = attack_rate e /\ decay_rate e' = decay_rate e
  /\ sustain_level e' = sustain_level e /\ release_rate e' = release_rate e.
Proof.
  revert e; induction k as [|k IH]; intros e; [cbn; auto|].
  cbn zeta. rewrite env_steps_S.
  destruct (IH (snd (ADSR.process e))) as (H1 & H2 & H3 & H4).
  destruct (process_rates e) as (P1 & P2 & P3 & P4).
  repeat split; congruence.
Qed.

(** Applying unchanged parameters again does not disturb a running
    envelope. *)
Lemma set_params_env_steps a d s r k e :
  ADSR.set_params a d s r (env_steps k (ADSR.set_params a d s r e))
  = env_steps k (ADSR.set_params a d s r e).
Proof.
  destruct (env_steps_rates k (ADSR.set_params a d s r e)) as (H1 & H2 & H3 & H4).
  destruct (env_steps k (ADSR.set_params a d s r e)) as [st l ar dr sl rr].
  cbn in *. unfold ADSR.set_params. cbn. congruence.
Qed.

Lemma render_n_S frames m (inst : braids_instance_t) :
  render_n frames (S m) inst = fst (v2_render_block (render_n frames m inst) frames).
Proof. reflexivity. Qed.

(** After [m] callbacks an ungated voice is either retired or still
    on the trajectory of its amplitude envelope, which has not been
    idle so far. *)
Lemma render_n_ungated frames m (inst : braids_instance_t) vi v :
  voices inst !! vi = Some v -> active v = true -> gate v = false ->
  params (render_n frames m inst) = params inst
  /\ exists v', voices (render_n frames m inst) !! vi = Some v'
       /\ gate v' = false
       /\ (active v' = false
           \/ (active v' = true
               /\ armed_amp inst v' = env_steps (m * frames) (armed_amp inst v)
               /\ forall k, (1 <= k <= m * frames)%nat ->
                            stage (env_steps k (armed_amp inst v)) <> IDLE)).
Proof.
  intros Hv Ha Hg. induction m as [|m IH].
  - split; [reflexivity|]. exists v. split; [exact Hv|]. split; [exact Hg|].
    right. split; [exact Ha|]. split; [reflexivity|]. intros k Hk; cbn in Hk; lia.
  - destruct IH as (Hp & v' & Hv' & Hg' & Hcase).
    rewrite render_n_S. split; [rewrite render_block_params; exact Hp|].
    destruct (render_block_lookup _ frames vi v' Hv') as [o Ho].
    rewrite Ho. eexists; split; [reflexivity|].
    destruct Hcase as [Hoff | (Hon & Harm & Hnot)].
    + rewrite render_voice_inactive by exact Hoff. cbn. auto.
    + pose proof (render_voice_ungated (render_n frames m inst)
                    (render_ctx_of (render_n frames m inst)) frames v' o Hon Hg') as Hr.
      cbn zeta in Hr. destruct Hr as [Hg1 Hm1]. split; [exact Hg1|].
      assert (Harm' : armed_amp (render_n frames m inst) v'
                      = env_steps (m * frames) (armed_amp inst v)).
      { rewrite <- Harm. rewrite !armed_amp_eq, Hp. reflexivity. }
      rewrite Harm' in Hm1.
      destruct (first_idle frames (env_steps (m * frames) (armed_amp inst v)))
        as [j|] eqn:Hf.
      * left. apply Hm1.
      * right. destruct Hm1 as (H1 & H2). split; [exact H1|]. split.
        -- rewrite armed_amp_eq, H2, <- env_steps_add. rewrite armed_amp_eq.
           rewrite set_params_env_steps. f_equal. lia.
        -- intros k Hk. destruct (Nat.le_gt_cases k (m * frames)) as [Hle|Hgt].
           ++ apply Hnot. lia.
           ++ replace k with (m * frames + (k - m * frames))%nat by lia.
              rewrite env_steps_add.
              apply (proj1 (first_idle_none _ _) Hf). lia.
Qed.


(** C2. On a voice that is active with its gate cleared:
    - within one callback, if the amplitude envelope first becomes
      idle at the step taken for frame [k], the renderer clears
      [active] at that step and leaves the output untouched for frame
      [k] and every later frame of the callback;
    - over several callbacks, once they cover the [K] steps that
      exhaust the release stage, the voice is inactive;
    - an inactive voice is skipped by the renderer: voice and output
      come back unchanged, its contribution is zero. *)
Theorem released_voice_retires :
  (forall (inst : braids_instance_t) ctx frames (v : BraidsVoice) out k,
     active v = true -> gate v = false -> (k < frames)%nat ->
     (forall m, (1 <= m <= k)%nat ->
                stage (env_steps m (armed_amp inst v)) <> IDLE) ->
     stage (env_steps (S k) (armed_amp inst v)) = IDLE ->
     let r := render_voice inst ctx frames v out in
     active (fst r) = false
     /\ amp_env (fst r) = env_steps (S k) (armed_amp inst v)
     /\ forall i, (2 * k <= i)%nat -> snd r !! i = out !! i)
  /\ (forall (inst : braids_instance_t) frames m vi v K,
        voices inst !! vi = Some v -> active v = true -> gate v = false ->
        stage (env_steps K (armed_amp inst v)) = IDLE ->
        (0 < m)%nat -> (0 < frames)%nat -> (K <= m * frames)%nat ->
        exists v', voices (render_n frames m inst) !! vi = Some v'
                   /\ active v' = false)
  /\ (forall (inst : braids_instance_t) ctx frames (v : BraidsVoice) out,
        active v = false -> render_voice inst ctx frames v out = (v, out)).
Proof.
  split; [|split].
  - intros inst ctx frames v out k Ha Hg Hk Hbefore Hidle r.
    pose proof (render_voice_ungated inst ctx frames v out Ha Hg) as Hr.
    cbn zeta in Hr. fold r in Hr. destruct Hr as [_ Hm].
    assert (Hf : first_idle frames (armed_amp inst v) = Some k).
    { apply first_idle_some. auto. }
    rewrite Hf in Hm. exact Hm.
  - intros inst frames m vi v K Hv Ha Hg Hidle Hm Hfr HK.
    destruct (render_n_ungated frames m inst vi v Hv Ha Hg)
      as (_ & v' & Hv' & _ & Hcase).
    exists v'. split; [exact Hv'|].
    destruct Hcase as [Hoff | (_ & _ & Hnot)]; [exact Hoff|].
    exfalso. destruct K as [|K].
    + apply (Hnot 1%nat); [nia|]. apply (env_steps_idle 1). exact Hidle.
    + apply (Hnot (S K)); [lia|]. exact Hidle.
  - intros inst ctx frames v out Ha. apply render_voice_inactive. exact Ha.
Qed.

End Retire.

Lemma released_voice_retires_witness :
  (exists v', voices (render_n 128 1 inst_released) !! 0%nat = Some v'
              /\ active v' = false)
  /\ (let r := render_voice inst_released (render_ctx_of inst_released) 128
                           voice0_released (repeat 0 256) in
      active (fst r) = false
      /\ forall i, (2 * 44 <= i)%nat -> snd r !! i = repeat 0 256 !! i).
Proof.
  destruct (@released_voice_retires const_dsp) as (HA & HB & _).
  split.
  - apply (HB inst_released 128%nat 1%nat 0%nat voice0_released 45%nat);
      try (vm_compute; reflexivity); try lia.
  - assert (Hf : first_idle 128 (armed_amp inst_released voice0_released) = Some 44%nat)
      by (vm_compute; reflexivity).
    apply first_idle_some in Hf as (Hlt & Hidle & Hbefore).
    destruct (HA inst_released (render_ctx_of inst_released) 128%nat
                voice0_released (repeat 0 256) 44%nat) as (H1 & _ & H3);
      try (vm_compute; reflexivity); try assumption.
    split; assumption.
Defined.

(** ** The state snapshot: saving and restoring *)

(** *** Strings *)

Lemma str_app_assoc (a b c : string) : ((a ++ b) ++ c = a ++ (b ++ c))%string.
Proof. induction a as [|x a IH]; cbn; [reflexivity | rewrite IH; reflexivity]. Qed.

Lemma str_app_nil_r (a : string) : (a ++ "" = a)%string.
Proof. induction a as [|x a IH]; cbn; [reflexivity | rewrite IH; reflexivity]. Qed.

Lemma str_prefix_cons a s1 b s2 :
  String.prefix (String a s1) (String b s2)
  = if ascii_dec a b then String.prefix s1 s2 else false.
Proof. reflexivity. Qed.

Lemma str_prefix_app (a b c : string) :
  String.prefix (a ++ b) (a ++ c) = String.prefix b c.
Proof.
  induction a as [|x a IH]; cbn [append]; [reflexivity|].
  rewrite str_prefix_cons. destruct (ascii_dec x x); [exact IH | congruence].
Qed.

Lemma advance_app (a b : string) : advance (String.length a) (a ++ b) = b.
Proof. induction a as [|x a IH]; cbn; [destruct b; reflexivity | exact IH]. Qed.

Lemma no_dquote_cons c s :
  no_dquote (String c s) = true -> c <> dquote /\ no_dquote s = true.
Proof.
  cbn [no_dquote]. intros H. apply andb_prop in H as [Hc Hs]. split; [|exact Hs].
  intros ->. rewrite Ascii.eqb_refl in Hc. discriminate.
Qed.

Lemma no_dquote_app (a b : string) :
  no_dquote (a ++ b) = no_dquote a && no_dquote b.
Proof.
  induction a as [|x a IH]; cbn [append no_dquote]; [reflexivity|].
  rewrite IH, andb_assoc. reflexivity.
Qed.

Lemma strstr_cons_ne c s a n :
  a <> c -> strstr (String c s) (String a n) = strstr s (String a n).
Proof.
  intros Hne. cbn [strstr]. rewrite str_prefix_cons.
  destruct (ascii_dec a c); [contradiction | reflexivity].
Qed.

Lemma strstr_here s n : String.prefix n s = true -> strstr s n = Some s.
Proof. intros H. destruct s; cbn [strstr]; rewrite H; reflexivity. Qed.

Lemma strstr_next c s n :
  String.prefix n (String c s) = false -> strstr (String c s) n = strstr s n.
Proof. intros H. cbn [strstr]. rewrite H. reflexivity. Qed.

(** A chunk without a double quote cannot contain the start of a key. *)
Lemma strstr_skip (a b n : string) :
  no_dquote a = true ->
  strstr (a ++ b) (String dquote n) = strstr b (String dquote n).
Proof.
  induction a as [|x a IH]; intros Hq; [reflexivity|].
  apply no_dquote_cons in Hq as [Hx Hq].
  change (String x a ++ b)%string with (String x (a ++ b)%string).
  rewrite strstr_cons_ne; [apply IH; exact Hq | congruence].
Qed.

(** Two different quote-free keys are told apart by their closing quote. *)
Lemma prefix_keys_differ (key k x y : string) :
  no_dquote key = true -> no_dquote k = true -> key <> k ->
  String.prefix (key ++ String dquote x) (k ++ String dquote y) = false.
Proof.
  revert k; induction key as [|c key IH]; intros k Hkey Hk Hne.
  - destruct k as [|c' k]; [congruence|].
    apply no_dquote_cons in Hk as [Hc _].
    cbn [append]. rewrite str_prefix_cons.
    destruct (ascii_dec dquote c') as [<-|]; [congruence | reflexivity].
  - apply no_dquote_cons in Hkey as [Hc Hkey].
    destruct k as [|c' k]; cbn [append]; rewrite str_prefix_cons.
    + destruct (ascii_dec c dquote) as [->|]; [congruence | reflexivity].
    + apply no_dquote_cons in Hk as [_ Hk].
      destruct (ascii_dec c c') as [<-|]; [|reflexivity].
      apply IH; [exact Hkey | exact Hk | congruence].
Qed.

Lemma field_split key v rest :
  field key v rest = (needle key ++ (v ++ rest))%string.
Proof.
  unfold field, needle. cbn [append]. f_equal.
  rewrite str_app_assoc. reflexivity.
Qed.

Lemma strstr_field_hit key v rest :
  strstr (field key v rest) (needle key) = Some (field key v rest).
Proof.
  apply strstr_here. rewrite field_split.
  rewrite <- (str_app_nil_r (needle key)) at 1.
  rewrite str_prefix_app. destruct (v ++ rest)%string; reflexivity.
Qed.

(** Looking for [key] in a field with another key moves on to what
    follows the field. *)
Lemma strstr_field_miss key k v rest :
  plain_key key = true -> no_dquote k = true -> no_dquote v = true ->
  key <> k ->
  strstr (field k v rest) (needle key) = strstr rest (needle key).
Proof.
  intros Hkey Hk Hv Hne. unfold plain_key in Hkey.
  apply andb_prop in Hkey as [Hkq Hkc].
  unfold field, needle.
  rewrite strstr_next.
  2:{ rewrite str_prefix_cons. destruct (ascii_dec dquote dquote); [|congruence].
      apply prefix_keys_differ; assumption. }
  rewrite strstr_skip by exact Hk.
  rewrite strstr_next.
  2:{ rewrite str_prefix_cons. destruct (ascii_dec dquote dquote); [|congruence].
      destruct key as [|c key]; cbn [append]; rewrite str_prefix_cons.
      - destruct (ascii_dec dquote ":"); [discriminate | reflexivity].
      - destruct (ascii_dec c ":") as [->|]; [|reflexivity].
        cbn in Hkc. discriminate. }
  rewrite strstr_cons_ne by (cbv; congruence).
  apply strstr_skip. exact Hv.
Qed.

Lemma strstr_needle_ne c s key :
  c <> dquote -> strstr (String c s) (needle key) = strstr s (needle key).
Proof. intros H. unfold needle. apply strstr_cons_ne. congruence. Qed.

(** Finding a key among the fields of a snapshot: the search returns
    the field of the first pair with that key, whatever fields with
    other keys come before it. *)
Lemma strstr_fields (pre : list (string * string)) key v post tail :
  plain_key key = true ->
  Forall (fun kv => no_dquote (fst kv) = true /\ no_dquote (snd kv) = true
                    /\ fst kv <> key) pre ->
  strstr (fields_string (pre ++ (key, v) :: post) tail) (needle key)
  = Some (field key v (fields_string post tail)).
Proof.
  intros Hkey Hpre. induction Hpre as [|[k w] pre (Hk & Hw & Hne) _ IH]; cbn [app fields_string].
  - rewrite strstr_needle_ne by discriminate. apply strstr_field_hit.
  - rewrite strstr_needle_ne by discriminate.
    rewrite strstr_field_miss by (cbn [fst snd] in *; auto). exact IH.
Qed.

(** *** Numerals: what [atof] reads back from what [printf] wrote *)

Lemma isdigit_facts d :
  isdigit d = true ->
  isspace d = false /\ lower d = d
  /\ d <> "-"%char /\ d <> "+"%char /\ d <> "."%char /\ d <> dquote
  /\ d <> "i"%char /\ d <> "n"%char /\ d <> "e"%char.
Proof.
  destruct d as [[] [] [] [] [] [] [] []]; cbv; intros H;
    try discriminate H; repeat split; discriminate.
Qed.

Lemma isdigit_digit_char n : isdigit (digit_char (n mod 10)) = true.
Proof.
  pose proof (Z.mod_pos_bound n 10 ltac:(lia)) as H.
  assert (Hc : n mod 10 = 0 \/ n mod 10 = 1 \/ n mod 10 = 2 \/ n mod 10 = 3
               \/ n mod 10 = 4 \/ n mod 10 = 5 \/ n mod 10 = 6 \/ n mod 10 = 7
               \/ n mod 10 = 8 \/ n mod 10 = 9) by lia.
  repeat (destruct Hc as [-> | Hc]; [reflexivity|]). rewrite Hc. reflexivity.
Qed.

Lemma all_digits_app a b : all_digits (a ++ b) = all_digits a && all_digits b.
Proof.
  induction a as [|x a IH]; cbn [append all_digits]; [reflexivity|].
  rewrite IH, andb_assoc. reflexivity.
Qed.

Lemma digits_fuel_shape fuel n acc :
  exists ds, digits_fuel fuel n acc = (ds ++ acc)%string /\ all_digits ds = true
             /\ (fuel <> O -> ds <> ""%string).
Proof.
  revert n acc; induction fuel as [|fuel IH]; intros n acc.
  - exists ""%string. auto.
  - cbn [digits_fuel]. destruct (n <? 10).
    + exists (String (digit_char (n mod 10)) ""). cbn [append all_digits].
      rewrite isdigit_digit_char. split; [reflexivity|]. split; [reflexivity|]. discriminate.
    + destruct (IH (n / 10) (String (digit_char (n mod 10)) acc)) as (ds & Hds & Hall & _).
      exists (ds ++ String (digit_char (n mod 10)) "")%string.
      rewrite Hds, str_app_assoc. cbn [append].
      split; [reflexivity|]. split.
      * rewrite all_digits_app, Hall. cbn [all_digits]. rewrite isdigit_digit_char. reflexivity.
      * intros _. destruct ds; discriminate.
Qed.

Lemma digits_of_shape n :
  exists d ds, digits_of n = String d ds /\ isdigit d = true /\ all_digits ds = true.
Proof.
  unfold digits_of.
  destruct (digits_fuel_shape (S (Z.to_nat (Z.log2 n))) n "") as (ds & Hds & Hall & Hne).
  rewrite str_app_nil_r in Hds. destruct ds as [|d ds]; [exfalso; apply Hne; [lia|reflexivity]|].
  cbn [all_digits] in Hall. apply andb_prop in Hall as [Hd Hall].
  exists d, ds. auto.
Qed.

Lemma all_digits_no_dquote s : all_digits s = true -> no_dquote s = true.
Proof.
  induction s as [|c s IH]; [reflexivity|]. cbn [all_digits no_dquote].
  intros H. apply andb_prop in H as [Hc Hs]. rewrite (IH Hs), andb_true_r.
  apply isdigit_facts in Hc as (_ & _ & _ & _ & _ & Hq & _).
  destruct (Ascii.eqb_spec c dquote); [contradiction | reflexivity].
Qed.

Lemma read_digits_app ds c rest acc cnt :
  all_digits ds = true -> isdigit c = false ->
  read_digits (ds ++ String c rest) acc cnt
  = (fst (fst (read_digits ds acc cnt)), snd (fst (read_digits ds acc cnt)),
     String c rest).
Proof.
  revert acc cnt; induction ds as [|d ds IH]; intros acc cnt Hall Hc.
  - cbn [append read_digits fst snd]. rewrite Hc. reflexivity.
  - cbn [all_digits] in Hall. apply andb_prop in Hall as [Hd Hall].
    cbn [append read_digits]. rewrite Hd. apply IH; assumption.
Qed.

Lemma read_digits_end ds acc cnt :
  all_digits ds = true -> snd (read_digits ds acc cnt) = ""%string.
Proof.
  revert acc cnt; induction ds as [|d ds IH]; intros acc cnt Hall; [reflexivity|].
  cbn [all_digits] in Hall. apply andb_prop in Hall as [Hd Hall].
  cbn [read_digits]. rewrite Hd. apply IH. exact Hall.
Qed.

Lemma read_digits_dot ds tail acc cnt :
  all_digits ds = true ->
  read_digits (ds ++ String "." tail) acc cnt
  = (fst (fst (read_digits ds acc cnt)), snd (fst (read_digits ds acc cnt)),
     String "." tail).
Proof. intros H. apply read_digits_app; [exact H | reflexivity]. Qed.

Lemma atof_unfold s :
  atof s = atof_body (fst (read_sign (skip_ws s))) (snd (read_sign (skip_ws s))).
Proof. unfold atof, atof_body. destruct (read_sign (skip_ws s)). reflexivity. Qed.

Lemma read_exponent_terminator c rest :
  terminator c -> read_exponent (String c rest) = 0.
Proof. intros [-> | ->]; reflexivity. Qed.

Lemma match_dot_terminator c rest (ip : Z) :
  terminator c ->
  match String c rest with
  | String "." r => read_digits r ip 0
  | _ => (ip, 0, String c rest)
  end = (ip, 0, String c rest).
Proof. intros [-> | ->]; reflexivity. Qed.

Lemma terminator_not_digit c : terminator c -> isdigit c = false.
Proof. intros [-> | ->]; reflexivity. Qed.

(** A numeral [d ds] or [d ds . fs] reads the same whether the text
    ends after it or goes on with a terminator. *)
Lemma atof_body_digits neg d ds frac c rest :
  isdigit d = true -> all_digits ds = true ->
  (frac = ""%string
   \/ exists fs, frac = String "." fs /\ all_digits fs = true) ->
  terminator c ->
  atof_body neg (String d ds ++ frac ++ String c rest)
  = atof_body neg (String d ds ++ frac).
Proof.
  intros Hd Hds Hfrac Hc.
  pose proof (isdigit_facts d Hd) as (_ & Hlow & _ & _ & _ & _ & Hi & Hn & _).
  assert (Hinf : forall t, starts_with_ci "inf" (String d t) = false).
  { intros t. cbn [starts_with_ci]. rewrite Hlow.
    destruct (Ascii.eqb_spec "i" d); [congruence | reflexivity]. }
  assert (Hnan : forall t, starts_with_ci "nan" (String d t) = false).
  { intros t. cbn [starts_with_ci]. rewrite Hlow.
    destruct (Ascii.eqb_spec "n" d); [congruence | reflexivity]. }
  assert (Hall : all_digits (String d ds) = true).
  { cbn [all_digits]. rewrite Hd, Hds. reflexivity. }
  unfold atof_body.
  change (String d ds ++ frac ++ String c rest)%string
    with (String d (ds ++ frac ++ String c rest)%string).
  change (String d ds ++ frac)%string with (String d (ds ++ frac)%string).
  rewrite !Hinf, !Hnan.
  change (String d (ds ++ frac ++ String c rest)%string)
    with (String d ds ++ frac ++ String c rest)%string.
  change (String d (ds ++ frac)%string) with (String d ds ++ frac)%string.
  destruct Hfrac as [-> | (fs & -> & Hfs)].
  - cbn [append]. change (String d (ds ++ String c rest)%string)
      with (String d ds ++ String c rest)%string.
    rewrite read_digits_app by (auto using terminator_not_digit).
    rewrite str_app_nil_r.
    pose proof (read_digits_end (String d ds) 0 0 Hall) as Hend.
    destruct (read_digits (String d ds) 0 0) as [[ip ni] s1]. cbn [fst snd] in *.
    subst s1. rewrite match_dot_terminator by exact Hc.
    rewrite read_exponent_terminator by exact Hc. reflexivity.
  - cbn [append]. change (String d (ds ++ String "." (fs ++ String c rest))%string)
      with (String d ds ++ String "." (fs ++ String c rest))%string.
    change (String d (ds ++ String "." fs)%string)
      with (String d ds ++ String "." fs)%string.
    rewrite !read_digits_dot by exact Hall.
    destruct (read_digits (String d ds) 0 0) as [[ip ni] s1]. cbn [fst snd].
    rewrite read_digits_app by (auto using terminator_not_digit).
    pose proof (read_digits_end fs ip 0 Hfs) as Hend.
    destruct (read_digits fs ip 0) as [[fp nf] s2]. cbn [fst snd] in *.
    subst s2. rewrite read_exponent_terminator by exact Hc. reflexivity.
Qed.

Lemma read_sign_other c r :
  c <> "-"%char -> c <> "+"%char -> read_sign (String c r) = (false, String c r).
Proof.
  intros H1 H2.
  destruct c as [[] [] [] [] [] [] [] []]; try reflexivity; congruence.
Qed.

Lemma atof_terminated v c rest :
  number_text v -> terminator c -> atof (v ++ String c rest) = atof v.
Proof.
  intros Hv Hc. destruct Hv as [ | | | sgn d ds frac Hs Hd Hds Hfrac].
  - destruct Hc as [-> | ->]; reflexivity.
  - destruct Hc as [-> | ->]; reflexivity.
  - destruct Hc as [-> | ->]; reflexivity.
  - pose proof (isdigit_facts d Hd) as (Hsp & _ & Hm & Hp & _).
    rewrite !atof_unfold.
    destruct Hs as [-> | ->]; cbn [append].
    + change (String d (ds ++ frac) ++ String c rest)%string
        with (String d ((ds ++ frac) ++ String c rest)%string).
      cbn [skip_ws]. rewrite Hsp, !read_sign_other by assumption. cbn [fst snd].
      rewrite str_app_assoc.
      apply (atof_body_digits false d ds frac c rest); assumption.
    + change (skip_ws (String "-" (String d (ds ++ frac) ++ String c rest)))
        with (String "-" (String d (ds ++ frac) ++ String c rest)).
      change (skip_ws (String "-" (String d (ds ++ frac))))
        with (String "-" (String d (ds ++ frac))).
      cbn [read_sign fst snd].
      change (String d (ds ++ frac) ++ String c rest)%string
        with (String d ((ds ++ frac) ++ String c rest)%string).
      rewrite str_app_assoc.
      apply (atof_body_digits true d ds frac c rest); assumption.
Qed.

Lemma number_text_no_dquote v : number_text v -> no_dquote v = true.
Proof.
  intros [ | | | sgn d ds frac Hs Hd Hds Hfrac]; try reflexivity.
  assert (Hall : all_digits (String d ds) = true).
  { cbn [all_digits]. rewrite Hd, Hds. reflexivity. }
  rewrite !no_dquote_app.
  rewrite (all_digits_no_dquote _ Hall).
  destruct Hs as [-> | ->];
    (destruct Hfrac as [-> | (fs & -> & Hfs)];
     [reflexivity | cbn [no_dquote]; rewrite (all_digits_no_dquote _ Hfs); reflexivity]).
Qed.

Lemma fmt_d_number z : number_text (fmt_d z).
Proof.
  unfold fmt_d. destruct (z <? 0).
  - destruct (digits_of_shape (- z)) as (d & ds & -> & Hd & Hds).
    rewrite <- (str_app_nil_r (String d ds)).
    apply (nt_num "-" d ds ""); auto.
  - destruct (digits_of_shape z) as (d & ds & -> & Hd & Hds).
    rewrite <- (str_app_nil_r (String d ds)).
    apply (nt_num "" d ds ""); auto.
Qed.

Lemma all_digits_pad4 r : all_digits (pad4 r) = true.
Proof.
  unfold pad4. cbn [all_digits]. rewrite !isdigit_digit_char. reflexivity.
Qed.

Lemma fmt_4f_number x : number_text (fmt_4f x).
Proof.
  destruct x as [[]|[]| |s m e]; cbn [fmt_4f].
  - apply (nt_num "-" "0" "" ".0000"); auto. right. eexists; split; reflexivity.
  - apply (nt_num "" "0" "" ".0000"); auto. right. eexists; split; reflexivity.
  - constructor.
  - constructor.
  - constructor.
  - set (r := if 0 <=? e then _ else _).
    destruct (digits_of_shape (r / 10000)) as (d & ds & -> & Hd & Hds).
    destruct s.
    + apply (nt_num "-" d ds (String "." (pad4 (r mod 10000)))); auto.
      right. eexists; split; [reflexivity | apply all_digits_pad4].
    + apply (nt_num "" d ds (String "." (pad4 (r mod 10000)))); auto.
      right. eexists; split; [reflexivity | apply all_digits_pad4].
Qed.

Lemma render_value_number d x : number_text (render_value d x).
Proof.
  unfold render_value. destruct (pd_type d); [apply fmt_d_number | apply fmt_4f_number].
Qed.

(** *** The layout of the snapshot and the lookups in it *)

Lemma skip_ws_skip_spaces s : skip_ws (skip_spaces s) = skip_ws s.
Proof.
  induction s as [|c s IH]; [reflexivity|].
  destruct (Ascii.eqb_spec c " ") as [->|Hne].
  - cbn [skip_spaces]. rewrite IH. reflexivity.
  - assert (H : skip_spaces (String c s) = String c s).
    { destruct c as [[] [] [] [] [] [] [] []]; try reflexivity; congruence. }
    rewrite H. reflexivity.
Qed.

Lemma atof_skip_spaces s : atof (skip_spaces s) = atof s.
Proof. rewrite !atof_unfold, skip_ws_skip_spaces. reflexivity. Qed.

Lemma fields_string_head post :
  exists c r, fields_string post "}" = String c r /\ terminator c.
Proof.
  destruct post as [|[k v] post]; cbn [fields_string].
  - exists "}"%char, ""%string. split; [reflexivity | right; reflexivity].
  - eexists _, _. split; [reflexivity | left; reflexivity].
Qed.

Lemma strstr_fields_lookup all key v post tail :
  plain_key key = true ->
  Forall (fun kv => no_dquote (fst kv) = true /\ no_dquote (snd kv) = true) all ->
  split_at_key key all = Some (v, post) ->
  strstr (fields_string all tail) (needle key)
  = Some (field key v (fields_string post tail)).
Proof.
  intros Hkey Hall. revert v post.
  induction Hall as [|[k w] all [Hk Hw] _ IH]; intros v post Hs; [discriminate|].
  cbn [split_at_key fields_string] in *.
  rewrite strstr_needle_ne by discriminate.
  unfold str_eq in Hs. destruct (String.eqb_spec k key) as [->|Hne].
  - injection Hs as <- <-. apply strstr_field_hit.
  - rewrite strstr_field_miss by (cbn [fst snd] in *; auto). apply IH. exact Hs.
Qed.

(** [json_get_number] on a snapshot finds the value written for the
    key and reads nothing but that value. *)
Lemma json_lookup all key v post body :
  plain_key key = true -> json_search key = needle key ->
  Forall (fun kv => no_dquote (fst kv) = true /\ no_dquote (snd kv) = true) all ->
  split_at_key key all = Some (v, post) ->
  number_text v ->
  String "," body = fields_string all "}" ->
  json_get_number (String "{" body) key = Some (F64.to_float (atof v)).
Proof.
  intros Hkey Hsearch Hall Hs Hv Hbody.
  unfold json_get_number. rewrite Hsearch.
  rewrite strstr_needle_ne by discriminate.
  rewrite <- (strstr_needle_ne ","%char body key) by discriminate.
  rewrite Hbody, (strstr_fields_lookup all key v post "}" Hkey Hall Hs).
  rewrite field_split, advance_app, atof_skip_spaces.
  destruct (fields_string_head post) as (c & r & -> & Hc).
  rewrite atof_terminated by assumption. reflexivity.
Qed.

Lemma state_fields_layout (ps : list float) defs tail :
  (state_fields ps defs ++ tail)%string
  = fields_string
      (map (fun d => (pd_key d, render_value d (get_p ps (pd_index d)))) defs)
      tail.
Proof.
  induction defs as [|d defs IH]; [reflexivity|].
  cbn [state_fields map fields_string]. rewrite str_app_assoc, IH.
  unfold state_field, field, render_value. cbn [append]. do 2 f_equal.
  rewrite str_app_assoc. cbn [append]. reflexivity.
Qed.

Section Snapshot.
Context {D : Dsp}.

Lemma get_param_state_layout (inst : braids_instance_t) :
  exists body,
    get_param_state inst = String "{" body
    /\ String "," body
       = fields_string
           (snapshot_pairs (fmt_d (current_preset inst))
              (fmt_d (octave_transpose inst))
              (fun d => render_value d (get_p (params inst) (pd_index d))))
           "}".
Proof.
  eexists. split; [reflexivity|].
  unfold snapshot_pairs. cbn [fields_string]. unfold field.
  rewrite <- state_fields_layout. cbn [append]. reflexivity.
Qed.

End Snapshot.

(** Every lookup the restore performs, on a snapshot written with
    arbitrary numerals. *)
Lemma snapshot_lookups cp oct (rv : param_def_t -> string) body :
  number_text cp -> number_text oct -> (forall d, number_text (rv d)) ->
  String "," body = fields_string (snapshot_pairs cp oct rv) "}" ->
  json_get_number (String "{" body) "preset" = Some (F64.to_float (atof cp))
  /\ json_get_number (String "{" body) "octave_transpose"
     = Some (F64.to_float (atof oct))
  /\ Forall (fun d => json_get_number (String "{" body) (pd_key d)
                      = Some (F64.to_float (atof (rv d)))) g_shadow_params.
Proof.
  intros Hcp Hoct Hrv Hbody.
  assert (Hall : Forall (fun kv => no_dquote (fst kv) = true
                                   /\ no_dquote (snd kv) = true)
                        (snapshot_pairs cp oct rv)).
  { unfold snapshot_pairs, g_shadow_params. cbn [map pd_key].
    repeat (constructor;
            [split; cbn [fst snd];
             [reflexivity | apply number_text_no_dquote; auto]|]).
    constructor. }
  split; [|split].
  - eapply json_lookup; eauto; reflexivity.
  - eapply json_lookup; eauto; reflexivity.
  - unfold g_shadow_params.
    repeat (constructor; [eapply json_lookup; eauto; reflexivity|]).
    constructor.
Qed.

Lemma float_eqb_eq x y : float_eqb x y = true -> x = y.
Proof.
  destruct x as [s|s| |s m e], y as [s'|s'| |s' m' e']; cbn; try discriminate.
  - intros H. apply Bool.eqb_prop in H. congruence.
  - intros H. apply Bool.eqb_prop in H. congruence.
  - reflexivity.
  - intros H. apply andb_prop in H as [H He]. apply andb_prop in H as [Hs Hm].
    apply Bool.eqb_prop in Hs. apply Pos.eqb_eq in Hm. apply Z.eqb_eq in He.
    congruence.
Qed.

Lemma forallb_range (f : Z -> bool) (n : Z) :
  forallb f (map Z.of_nat (seq 0 (Z.to_nat n))) = true ->
  forall k, 0 <= k < n -> f k = true.
Proof.
  intros H k Hk. rewrite forallb_forall in H. apply H.
  apply in_map_iff. exists (Z.to_nat k). split; [lia|].
  apply in_seq. lia.
Qed.

(** Every numeral with four decimals in [0, 1] denotes a [float] that
    is written back as the same numeral (checked on all 10001 of
    them), and every shape index one that is written back as itself. *)
Lemma grid_values_survive d x :
  In d g_shadow_params -> on_grid d x -> clamp_param d (reparse d x) = x.
Proof.
  intros Hd Hx.
  assert (Hf : forall k, 0 <= k < 10001 ->
             survives (mkParamDef "timbre" "Timbre" PARAM_TYPE_FLOAT PARAM_TIMBRE
                         F32.zero F32.one) (grid_value k) = true).
  { apply forallb_range. vm_compute. reflexivity. }
  assert (Hi : forall k, 0 <= k < 47 ->
             survives (mkParamDef "engine" "Engine" PARAM_TYPE_INT PARAM_ENGINE
                         F32.zero (F32.of_int (NUM_SHAPES - 1))) (F32.of_int k) = true).
  { apply forallb_range. vm_compute. reflexivity. }
  unfold survives, clamp_param, reparse, render_value in Hf, Hi.
  cbn [pd_type pd_min_val pd_max_val] in Hf, Hi.
  unfold g_shadow_params in Hd. cbn [In] in Hd.
  repeat (destruct Hd as [<- | Hd];
          [ unfold on_grid in Hx; cbn [pd_type] in Hx;
            destruct Hx as (k & Hk & ->); apply float_eqb_eq;
            unfold clamp_param, reparse, render_value;
            cbn [pd_type pd_min_val pd_max_val];
            first [ apply (Hi k); unfold NUM_SHAPES in Hk; lia
                  | apply (Hf k); lia ] |]).
  contradiction.
Qed.

(** *** Restoring a snapshot *)

Lemma restore_params_map s (val : param_def_t -> float) ps :
  Forall (fun d => json_get_number s (pd_key d) = Some (val d)) g_shadow_params ->
  length ps = PARAM_COUNT ->
  restore_params g_shadow_params s ps
  = map (fun d => clamp_param d (val d)) g_shadow_params.
Proof.
  intros Hall Hlen.
  do 16 (destruct ps as [|? ps]; [discriminate Hlen|]).
  destruct ps; [|discriminate Hlen].
  unfold g_shadow_params in *.
  repeat match goal with
         | H : Forall _ (_ :: _) |- _ =>
             apply Forall_cons_1 in H; destruct H as [? H]
         end.
  cbn [pd_key] in *.
  cbn [restore_params pd_key pd_index map].
  repeat match goal with
         | H : json_get_number s _ = Some _ |- _ => rewrite H; clear H
         end.
  reflexivity.
Qed.

Lemma params_as_table (ps : list float) :
  length ps = PARAM_COUNT ->
  map (fun d => get_p ps (pd_index d)) g_shadow_params = ps.
Proof.
  intros Hlen.
  do 16 (destruct ps as [|? ps]; [discriminate Hlen|]).
  destruct ps; [reflexivity | discriminate Hlen].
Qed.

Lemma clamp_octave_reparse oct :
  -3 <= oct <= 3 ->
  clamp_octave (F32.to_int32 (F64.to_float (atof (fmt_d oct)))) = oct.
Proof.
  intros H.
  assert (Hc : oct = -3 \/ oct = -2 \/ oct = -1 \/ oct = 0 \/ oct = 1
               \/ oct = 2 \/ oct = 3) by lia.
  repeat (destruct Hc as [-> | Hc]; [vm_compute; reflexivity|]).
  subst. vm_compute. reflexivity.
Qed.

Section Restore.
Context {D : Dsp}.

Lemma apply_preset_params_length (inst : braids_instance_t) idx :
  length (params inst) = PARAM_COUNT -> Forall wf_preset (presets inst) ->
  length (params (v2_apply_preset inst idx)) = PARAM_COUNT.
Proof.
  intros Hlen Hps. unfold v2_apply_preset.
  destruct ((idx <? 0) || (preset_count inst <=? idx)); [exact Hlen|].
  destruct (presets inst !! Z.to_nat idx) as [p|] eqn:Hp; [|exact Hlen].
  cbn. eapply Forall_lookup_1 in Hps as [Hl _]; eauto.
Qed.

(** C7 (amended). Saving the state of a well-formed instance and
    restoring it on the spot gives back the octave transpose exactly,
    and in every slot of the parameter table the stored value after
    one trip through its textual form: written with ["%.4f"] (["%d"]
    of its integer part for the engine), read with [atof], narrowed to
    [float], and clamped to the slot's range.  The table is therefore
    reproduced identically exactly when this trip leaves every value
    alone, which it does for every value that a numeral with at most
    four decimals in [0, 1] denotes (a shape index for the engine). *)
Theorem state_round_trip_spec (inst : braids_instance_t) :
  wf_inst inst ->
  let inst' := state_round_trip inst in
  let trip := fun d => clamp_param d (reparse d (get_p (params inst) (pd_index d))) in
  octave_transpose inst' = octave_transpose inst
  /\ params inst' = map trip g_shadow_params
  /\ (params inst' = params inst <->
      Forall (fun d => trip d = get_p (params inst) (pd_index d)) g_shadow_params)
  /\ (Forall (fun d => on_grid d (get_p (params inst) (pd_index d)))
             g_shadow_params ->
      params inst' = params inst).
Proof.
  intros (Hvoices & Hlen & Hoct & Hps) inst' trip.
  destruct (get_param_state_layout inst) as (body & Hstate & Hbody).
  destruct (snapshot_lookups _ _ _ body (fmt_d_number _) (fmt_d_number _)
              (fun d => render_value_number d _) Hbody) as (Hl1 & Hl2 & Hl3).
  rewrite <- Hstate in Hl1, Hl2, Hl3.
  assert (Hi : exists inst1,
             length (params inst1) = PARAM_COUNT
             /\ inst' = set_params
                  (restore_params g_shadow_params (get_param_state inst)
                     (params inst1))
                  (set_octave_transpose
                     (clamp_octave (F32.to_int32
                        (F64.to_float (atof (fmt_d (octave_transpose inst))))))
                     inst1)).
  { subst inst'. unfold state_round_trip.
    change (v2_set_param inst "state" (get_param_state inst))
      with (set_param_state inst (get_param_state inst)).
    unfold set_param_state. rewrite Hl1, Hl2.
    match goal with
    | |- context [if ?c then ?a else inst] =>
        exists (if c then a else inst); split; [|reflexivity]
    end.
    destruct (_ && _); [|exact Hlen].
    apply apply_preset_params_length; assumption. }
  destruct Hi as (inst1 & Hlen1 & ->).
  assert (Hparams : restore_params g_shadow_params (get_param_state inst) (params inst1)
                    = map trip g_shadow_params).
  { apply (restore_params_map _ (fun d => reparse d (get_p (params inst) (pd_index d))));
      [exact Hl3 | exact Hlen1]. }
  cbn [octave_transpose params set_params set_octave_transpose].
  rewrite Hparams, clamp_octave_reparse by exact Hoct.
  split; [reflexivity|]. split; [reflexivity|].
  assert (Hiff : map trip g_shadow_params = params inst <->
                 Forall (fun d => trip d = get_p (params inst) (pd_index d))
                        g_shadow_params).
  2:{ split; [exact Hiff|]. intros Hgrid. apply Hiff.
      apply Forall_forall. intros d Hd.
      rewrite Forall_forall in Hgrid. specialize (Hgrid d Hd).
      apply list_elem_of_In in Hd. apply grid_values_survive; assumption. }
  rewrite <- (params_as_table (params inst) Hlen) at 1.
  split.
  - intros Heq. apply Forall_forall. intros d Hd.
    apply list_elem_of_In in Hd.
    assert (Hmap : forall l, In d l ->
              map trip l = map (fun d => get_p (params inst) (pd_index d)) l ->
              trip d = get_p (params inst) (pd_index d)).
    { induction l as [|x l IH]; intros Hin Hm; [contradiction|].
      cbn [map] in Hm. injection Hm as Hx Hm. destruct Hin as [-> | Hin]; auto. }
    apply (Hmap _ Hd Heq).
  - intros Hall. apply map_ext_Forall. exact Hall.
Qed.

End Restore.

(** C7, as stated, fails: a timbre set from the text 0.12345 is saved
    as 0.1235 and comes back as another [float]. *)
Lemma state_round_trip_loses_digits :
  params (state_round_trip inst_tweaked) <> params inst_tweaked
  /\ get_p (params (state_round_trip inst_tweaked)) PARAM_TIMBRE
     = F64.to_float (atof "0.1235")
  /\ get_p (params inst_tweaked) PARAM_TIMBRE = F64.to_float (atof "0.12345").
Proof.
  split; [|split]; [vm_compute; discriminate | vm_compute; reflexivity ..].
Qed.

Lemma wf_inst_init : wf_inst inst_init.
Proof.
  split; [vm_compute; reflexivity|]. split; [vm_compute; reflexivity|].
  split; [vm_compute; split; discriminate | constructor].
Defined.

Lemma state_round_trip_spec_witness :
  wf_inst inst_init
  /\ octave_transpose (state_round_trip inst_init) = octave_transpose inst_init
  /\ params (state_round_trip inst_init) = params inst_init.
Proof.
  split; [exact wf_inst_init|].
  destruct (state_round_trip_spec inst_init wf_inst_init) as (Ho & _ & Hiff & _).
  split; [exact Ho|]. apply Hiff. unfold g_shadow_params.
  repeat (constructor; [vm_compute; reflexivity|]). constructor.
Defined.
(** ** Binary32 arithmetic: rounding, order and the operations

    [SpecFloat] computes every operation by aligning, shifting and
    rounding mantissas.  The lemmas below put the rounding in closed
    form ([round32]), show that it is monotone, and derive from that the
    order facts about sums, products and reciprocals that the envelope
    rates and the fixed-point conversions rest on. *)

(** *** Powers of two and digit counts *)

Lemma pow2_pos x : 0 <= x -> 0 < 2 ^ x.
Proof. intros. apply Z.pow_pos_nonneg; lia. Qed.

Lemma pow2_add x y : 0 <= x -> 0 <= y -> 2 ^ (x + y) = 2 ^ x * 2 ^ y.
Proof. intros. apply Z.pow_add_r; assumption. Qed.

Lemma pow2_S x : 0 <= x -> 2 ^ (x + 1) = 2 * 2 ^ x.
Proof. intros. rewrite pow2_add by lia. change (2 ^ 1) with 2. lia. Qed.

Lemma pow2_le x y : 0 <= x <= y -> 2 ^ x <= 2 ^ y.
Proof. intros. apply Z.pow_le_mono_r; lia. Qed.

Lemma pow2_lt x y : 0 <= x < y -> 2 ^ x < 2 ^ y.
Proof. intros. apply Z.pow_lt_mono_r; lia. Qed.

Lemma pow2_lt_inv x y : 0 <= x -> 0 <= y -> 2 ^ x < 2 ^ y -> x < y.
Proof. intros Hx Hy H. apply (Z.pow_lt_mono_r_iff 2); lia. Qed.

Lemma pow2_split x y : 0 <= y <= x -> 2 ^ x = 2 ^ (x - y) * 2 ^ y.
Proof. intros. rewrite <- pow2_add by lia. f_equal. lia. Qed.

Lemma digits2_pos_bounds p :
  2 ^ (Z.pos (digits2_pos p) - 1) <= Z.pos p < 2 ^ Z.pos (digits2_pos p).
Proof.
  induction p as [p IH | p IH |]; cbn [digits2_pos].
  - rewrite Pos2Z.inj_succ.
    replace (Z.succ (Z.pos (digits2_pos p)) - 1) with (Z.pos (digits2_pos p) - 1 + 1) by lia.
    rewrite pow2_S by lia. unfold Z.succ. rewrite pow2_S by lia. lia.
  - rewrite Pos2Z.inj_succ.
    replace (Z.succ (Z.pos (digits2_pos p)) - 1) with (Z.pos (digits2_pos p) - 1 + 1) by lia.
    rewrite pow2_S by lia. unfold Z.succ. rewrite pow2_S by lia. lia.
  - cbn. lia.
Qed.

Lemma Zdigits2_bounds m :
  0 < m -> 2 ^ (Zdigits2 m - 1) <= m < 2 ^ Zdigits2 m.
Proof. destruct m as [|p|p]; intros H; try lia. apply digits2_pos_bounds. Qed.

Lemma Zdigits2_pos m : 0 < m -> 0 < Zdigits2 m.
Proof. destruct m; cbn; lia. Qed.

Lemma Zdigits2_unique m d :
  0 < d -> 2 ^ (d - 1) <= m < 2 ^ d -> Zdigits2 m = d.
Proof.
  intros Hd Hm.
  assert (Hpos : 0 < m) by (pose proof (pow2_pos (d - 1)); lia).
  pose proof (Zdigits2_bounds m Hpos) as Hb.
  pose proof (Zdigits2_pos m Hpos) as Hp.
  assert (Zdigits2 m - 1 < d).
  { apply pow2_lt_inv; lia. }
  assert (d - 1 < Zdigits2 m).
  { apply pow2_lt_inv; lia. }
  lia.
Qed.

(** *** Rounding a quotient to the nearest integer, ties to even *)

Lemma rhe_cases num den :
  0 < den ->
  let q := num / den in
  let r := num mod den in
  (round_half_even num den = q /\ 2 * r <= den)
  \/ (round_half_even num den = q + 1 /\ den <= 2 * r).
Proof.
  intros Hden q r. unfold round_half_even. fold q r.
  destruct (Z.compare_spec (2 * r) den).
  - destruct (Z.even q); [left | right]; split; lia.
  - left; split; lia.
  - right; split; lia.
Qed.

(** The rounded quotient is within half a unit of the exact one. *)
Lemma rhe_near num den :
  0 < den ->
  2 * num - den <= 2 * den * round_half_even num den <= 2 * num + den.
Proof.
  intros Hden.
  pose proof (Z.div_mod num den ltac:(lia)) as Hdm.
  pose proof (Z.mod_pos_bound num den Hden) as Hr.
  destruct (rhe_cases num den Hden) as [[-> H] | [-> H]]; nia.
Qed.

Lemma rhe_exact q den : 0 < den -> round_half_even (q * den) den = q.
Proof.
  intros Hden. unfold round_half_even.
  rewrite Z.div_mul, Z.mod_mul by lia.
  destruct (Z.compare_spec (2 * 0) den); lia.
Qed.

Lemma rhe_mono a b den :
  0 < den -> a <= b -> round_half_even a den <= round_half_even b den.
Proof.
  intros Hden Hab.
  pose proof (Z.div_mod a den ltac:(lia)) as Ha.
  pose proof (Z.div_mod b den ltac:(lia)) as Hb.
  pose proof (Z.mod_pos_bound a den Hden) as Hra.
  pose proof (Z.mod_pos_bound b den Hden) as Hrb.
  assert (Hq : a / den <= b / den) by (apply Z.div_le_mono; lia).
  destruct (Z.eq_dec (a / den) (b / den)) as [Heq | Hne].
  - (* same integer part: the remainders are ordered *)
    assert (Hr : a mod den <= b mod den) by nia.
    unfold round_half_even. rewrite <- Heq.
    destruct (Z.compare_spec (2 * (a mod den)) den);
      destruct (Z.compare_spec (2 * (b mod den)) den);
      destruct (Z.even (a / den)); lia.
  - destruct (rhe_cases a den Hden) as [[-> _] | [-> _]];
      destruct (rhe_cases b den Hden) as [[-> _] | [-> _]]; lia.
Qed.

Lemma rhe_scale num den k :
  0 < den -> 0 < k -> round_half_even (num * k) (den * k) = round_half_even num den.
Proof.
  intros Hden Hk. unfold round_half_even.
  rewrite Z.div_mul_cancel_r by lia.
  rewrite Zmult_mod_distr_r.
  replace (2 * (num mod den * k)) with ((2 * (num mod den)) * k) by lia.
  rewrite <- Zmult_compare_compat_r by lia. reflexivity.
Qed.

Lemma rhe_nonneg num den : 0 < den -> 0 <= num -> 0 <= round_half_even num den.
Proof.
  intros Hden Hnum. rewrite <- (rhe_exact 0 den Hden).
  apply rhe_mono; lia.
Qed.

(** *** The shift-right of [SpecFloat] as a division *)

Lemma iter_pos_nat {A} (f : A -> A) p x :
  SpecFloat.iter_pos f p x = Nat.iter (Pos.to_nat p) f x.
Proof.
  revert x; induction p as [p IH | p IH |]; intros x; cbn [SpecFloat.iter_pos].
  - rewrite !IH. rewrite Pos2Nat.inj_xI.
    rewrite <- Nat.iter_add, <- Nat.iter_succ_r. f_equal. lia.
  - rewrite !IH. rewrite Pos2Nat.inj_xO.
    rewrite <- Nat.iter_add. f_equal. lia.
  - reflexivity.
Qed.


Lemma shr_1_nonneg m r s :
  0 <= m ->
  shr_1 (Build_shr_record m r s)
  = Build_shr_record (Z.div2 m) (Z.odd m) (r || s).
Proof.
  intros Hm. destruct m as [|[p|p|]|p]; try lia; reflexivity.
Qed.

(** After [k >= 1] shifts of an exact mantissa [m], the record holds
    the quotient by [2^k], the top bit of the remainder, and whether
    anything lies below that bit. *)
Lemma shr_iter_spec m k :
  0 <= m ->
  let rec := Nat.iter (S k) shr_1 (Build_shr_record m false false) in
  exists lo,
    0 <= shr_m rec
    /\ 0 <= lo < 2 ^ Z.of_nat k
    /\ m = shr_m rec * 2 ^ (Z.of_nat k + 1) + b2z (shr_r rec) * 2 ^ Z.of_nat k + lo
    /\ (shr_s rec = false <-> lo = 0).
Proof.
  intros Hm. induction k as [|k IH].
  - cbn [Nat.iter]. rewrite shr_1_nonneg by exact Hm. cbn [shr_m shr_r shr_s orb].
    exists 0. change (2 ^ Z.of_nat 0) with 1. change (2 ^ (Z.of_nat 0 + 1)) with 2.
    rewrite Z.div2_div. pose proof (Z.div_mod m 2 ltac:(lia)) as Hdm.
    pose proof (Z.mod_pos_bound m 2 ltac:(lia)) as Hb.
    assert (Hodd : b2z (Z.odd m) = m mod 2).
    { rewrite Zmod_odd. destruct (Z.odd m); reflexivity. }
    rewrite Hodd. split; [apply Z.div_pos; lia|]. split; [lia|]. split; [lia|]. tauto.
  - cbn zeta in IH. destruct IH as (lo & Hq & Hlo & Heq & Hs).
    change (Nat.iter (S (S k)) shr_1 (Build_shr_record m false false))
      with (shr_1 (Nat.iter (S k) shr_1 (Build_shr_record m false false))).
    destruct (Nat.iter (S k) shr_1 (Build_shr_record m false false)) as [q r s].
    cbn [shr_m shr_r shr_s] in *.
    rewrite shr_1_nonneg by exact Hq. cbn [shr_m shr_r shr_s].
    exists (b2z r * 2 ^ Z.of_nat k + lo).
    rewrite Z.div2_div. pose proof (Z.div_mod q 2 ltac:(lia)) as Hdm.
    pose proof (Z.mod_pos_bound q 2 ltac:(lia)) as Hb.
    assert (Hodd : b2z (Z.odd q) = q mod 2).
    { rewrite Zmod_odd. destruct (Z.odd q); reflexivity. }
    rewrite Hodd.
    replace (Z.of_nat (S k)) with (Z.of_nat k + 1) by lia.
    rewrite !pow2_S by lia.
    pose proof (pow2_pos (Z.of_nat k) ltac:(lia)) as Hp.
    split; [apply Z.div_pos; lia|].
    split; [destruct r; cbn [b2z]; lia|].
    split. { rewrite (pow2_S (Z.of_nat k)) in Heq by lia.
             rewrite Heq; rewrite Hdm at 1. ring. }
    destruct r, s; cbn [b2z orb]; split; intros H; try discriminate; try lia.
Qed.

(** Shifting an exact mantissa right by [n >= 1] places and rounding
    by the location is rounding the quotient by [2^n]. *)
Lemma shr_round m n :
  0 <= m -> 0 < n ->
  let rec := fst (shr (shr_record_of_loc m loc_Exact) 0 n) in
  round_nearest_even (shr_m rec) (loc_of_shr_record rec)
  = round_half_even m (2 ^ n).
Proof.
  intros Hm Hn. destruct n as [|p|p]; try lia.
  cbn [shr shr_record_of_loc fst]. rewrite iter_pos_nat.
  destruct (Pos2Nat.is_succ p) as [k Hk]. rewrite Hk.
  destruct (shr_iter_spec m k Hm) as (lo & Hq & Hlo & Heq & Hs).
  assert (Hp : Z.pos p = Z.of_nat k + 1) by lia.
  rewrite Hp.
  destruct (Nat.iter (S k) shr_1 (Build_shr_record m false false)) as [q r s].
  cbn [shr_m shr_r shr_s] in *.
  pose proof (pow2_pos (Z.of_nat k) ltac:(lia)) as Hpk.
  rewrite pow2_S in * by lia.
  assert (Hrem : 0 <= b2z r * 2 ^ Z.of_nat k + lo < 2 * 2 ^ Z.of_nat k)
    by (destruct r; cbn [b2z]; lia).
  assert (Hdiv : m / (2 * 2 ^ Z.of_nat k) = q).
  { symmetry. apply (Z.div_unique _ _ q (b2z r * 2 ^ Z.of_nat k + lo)); lia. }
  assert (Hmod : m mod (2 * 2 ^ Z.of_nat k) = b2z r * 2 ^ Z.of_nat k + lo).
  { symmetry. apply (Z.mod_unique _ _ q); lia. }
  unfold round_half_even. rewrite Hdiv, Hmod.
  destruct r, s; cbn [loc_of_shr_record round_nearest_even b2z].
  - assert (lo <> 0) by (intros H; apply Hs in H; discriminate).
    destruct (Z.compare_spec (2 * (1 * 2 ^ Z.of_nat k + lo)) (2 * 2 ^ Z.of_nat k)); lia.
  - assert (lo = 0) by (apply Hs; reflexivity). subst lo.
    destruct (Z.compare_spec (2 * (1 * 2 ^ Z.of_nat k + 0)) (2 * 2 ^ Z.of_nat k)); lia.
  - destruct (Z.compare_spec (2 * (0 * 2 ^ Z.of_nat k + lo)) (2 * 2 ^ Z.of_nat k)); lia.
  - destruct (Z.compare_spec (2 * (0 * 2 ^ Z.of_nat k + lo)) (2 * 2 ^ Z.of_nat k)); lia.
Qed.

(** *** [binary_round_aux] in closed form *)

Lemma shr_nonpos r e n : n <= 0 -> shr r e n = (r, e).
Proof. destruct n; try lia; reflexivity. Qed.

Lemma shr_pos r e n : 0 < n -> shr r e n = (fst (shr r 0 n), e + n).
Proof. destruct n; try lia; reflexivity. Qed.

Lemma fexp32_eq e : fexp 24 128 e = fexp32 e.
Proof. reflexivity. Qed.

Lemma fexp32_ge e : -149 <= fexp32 e /\ e - 24 <= fexp32 e.
Proof. unfold fexp32. lia. Qed.

(** One stage of [shr_fexp] on an exact mantissa, followed by the
    rounding. *)
Lemma shr_fexp_round m e :
  0 <= m -> e <= fexp32 (Zdigits2 m + e) ->
  let st := shr_fexp 24 128 m e loc_Exact in
  round_nearest_even (shr_m (fst st)) (loc_of_shr_record (fst st))
  = round_half_even m (2 ^ (fexp32 (Zdigits2 m + e) - e))
  /\ snd st = fexp32 (Zdigits2 m + e).
Proof.
  intros Hm He st. subst st. unfold shr_fexp. rewrite fexp32_eq.
  set (E := fexp32 (Zdigits2 m + e)) in *.
  destruct (Z.eq_dec E e) as [Heq | Hne].
  - rewrite Heq, Z.sub_diag. rewrite shr_nonpos by lia.
    cbn [fst snd shr_record_of_loc shr_m loc_of_shr_record round_nearest_even].
    change (2 ^ 0) with 1. split; [|reflexivity].
    rewrite <- (Z.mul_1_r m) at 2. rewrite rhe_exact by lia. reflexivity.
  - rewrite shr_pos by lia. cbn [fst snd]. split; [|lia].
    apply shr_round; lia.
Qed.

Lemma rhe_upper m e :
  0 < m -> e <= fexp32 (Zdigits2 m + e) ->
  0 <= round_half_even m (2 ^ (fexp32 (Zdigits2 m + e) - e)) <= 2 ^ 24.
Proof.
  intros Hm He.
  pose proof (Zdigits2_bounds m Hm) as Hb. pose proof (Zdigits2_pos m Hm) as Hd.
  pose proof (fexp32_ge (Zdigits2 m + e)) as [_ Hge].
  set (n := fexp32 (Zdigits2 m + e) - e) in *. set (d := Zdigits2 m) in *.
  pose proof (pow2_pos n ltac:(lia)) as Hn.
  split; [apply rhe_nonneg; lia|].
  destruct (Z_le_gt_dec n d) as [Hle | Hgt].
  - transitivity (round_half_even (2 ^ (d - n) * 2 ^ n) (2 ^ n)).
    + apply rhe_mono; [lia|]. rewrite <- pow2_split by lia. lia.
    + rewrite rhe_exact by lia. apply pow2_le. lia.
  - transitivity (round_half_even (1 * 2 ^ n) (2 ^ n)).
    + apply rhe_mono; [lia|]. pose proof (pow2_le d n ltac:(lia)). lia.
    + rewrite rhe_exact by lia. pose proof (pow2_pos 24 ltac:(lia)). lia.
Qed.

Lemma Zdigits2_le_24 M : 0 < M < 2 ^ 24 -> Zdigits2 M <= 24.
Proof.
  intros HM. pose proof (Zdigits2_bounds M ltac:(lia)) as Hb.
  pose proof (Zdigits2_pos M ltac:(lia)).
  assert (Zdigits2 M - 1 < 24); [|lia].
  apply pow2_lt_inv; lia.
Qed.

(** The second stage of [binary_round_aux] and its final test. *)
Lemma bra_second_stage M X :
  0 <= M <= 2 ^ 24 -> -149 <= X ->
  (let '(mrs, e) := shr_fexp 24 128 M X loc_Exact in
   match shr_m mrs with
   | 0 => S754_zero false
   | Z.pos p => if e <=? 128 - 24 then S754_finite false p e
                else S754_infinity false
   | Z.neg _ => S754_nan
   end) = norm_out M X.
Proof.
  intros HM HX. unfold shr_fexp, norm_out. rewrite fexp32_eq.
  destruct (Z.eq_dec M 0) as [-> | Hnz].
  - cbn [Zdigits2 Z.eqb]. rewrite shr_nonpos by (unfold fexp32; lia). reflexivity.
  - destruct (Z.eqb_spec M 0) as [|_]; [contradiction|].
    destruct (Z.eqb_spec M (2 ^ 24)) as [-> | Hne].
    + replace (fexp32 (Zdigits2 (2 ^ 24) + X) - X) with 1
        by (change (Zdigits2 (2 ^ 24)) with 25; unfold fexp32; lia).
      reflexivity.
    + pose proof (Zdigits2_le_24 M ltac:(lia)) as Hd.
      rewrite shr_nonpos by (unfold fexp32; lia).
      cbn [shr_record_of_loc shr_m].
      destruct M as [|p|p]; try lia. reflexivity.
Qed.

(** [binary_round_aux] on an exact positive value whose mantissa is
    wide enough is [round32]. *)
Lemma binary_round_aux_exact m e :
  0 < m -> e <= fexp32 (Zdigits2 m + e) ->
  binary_round_aux 24 128 false m e loc_Exact = round32 m e.
Proof.
  intros Hm He. unfold binary_round_aux, round32.
  destruct (shr_fexp_round m e ltac:(lia) He) as [Hr HX]. cbn zeta in Hr, HX.
  destruct (shr_fexp 24 128 m e loc_Exact) as [mrs' e'].
  cbn [fst snd] in Hr, HX. rewrite Hr, HX.
  apply bra_second_stage.
  - apply rhe_upper; assumption.
  - apply fexp32_ge.
Qed.

(** *** Order of the rounded values *)

Lemma SFleb_zero_l s y :
  match y with
  | S754_zero _ | S754_finite false _ _ | S754_infinity false => True
  | _ => False
  end ->
  SFleb (S754_zero s) y = true.
Proof. destruct y as [|[]| |[] ? ?]; cbn; tauto. Qed.

Lemma SFleb_finite_pos M1 X1 M2 X2 :
  0 < M1 -> 0 < M2 ->
  X1 < X2 \/ (X1 = X2 /\ M1 <= M2) ->
  SFleb (S754_finite false (Z.to_pos M1) X1) (S754_finite false (Z.to_pos M2) X2)
  = true.
Proof.
  intros H1 H2 H. unfold SFleb, SFcompare.
  destruct (Z.compare_spec X1 X2); try lia; try reflexivity.
  change (Pos.compare_cont Eq (Z.to_pos M1) (Z.to_pos M2))
    with (Pos.compare (Z.to_pos M1) (Z.to_pos M2)).
  rewrite <- Z2Pos.inj_compare by lia.
  destruct (Z.compare_spec M1 M2); try lia; reflexivity.
Qed.

Lemma norm_out_le M1 X1 M2 X2 :
  0 <= M1 <= 2 ^ 24 -> 0 <= M2 <= 2 ^ 24 ->
  (X1 = X2 /\ M1 <= M2) \/ (X1 < X2 /\ 2 ^ 23 <= M2) ->
  SFleb (norm_out M1 X1) (norm_out M2 X2) = true.
Proof.
  intros H1 H2 H.
  assert (P23 : 2 ^ 23 = 8388608) by reflexivity.
  assert (P24 : 2 ^ 24 = 16777216) by reflexivity.
  unfold norm_out.
  destruct (Z.eqb_spec M1 0) as [-> | Hn1].
  { apply SFleb_zero_l.
    destruct (M2 =? 0); [exact I|].
    destruct (M2 =? 2 ^ 24); destruct (_ <=? 104); exact I. }
  destruct (Z.eqb_spec M2 0) as [-> | Hn2]; [exfalso; lia|].
  destruct (Z.eqb_spec M1 (2 ^ 24)) as [-> | Hm1];
    destruct (Z.eqb_spec M2 (2 ^ 24)) as [-> | Hm2];
    repeat match goal with
           | |- context [?a <=? 104] => destruct (Z.leb_spec a 104)
           end;
    try reflexivity; try lia;
    try (apply SFleb_finite_pos; lia).
Qed.

Lemma fexp32_mono a b : a <= b -> fexp32 a <= fexp32 b.
Proof. unfold fexp32. lia. Qed.

(** The magnitude follows the value. *)
Lemma mag_mono K m1 e1 m2 e2 :
  0 < m1 -> 0 < m2 -> - K <= e1 -> - K <= e2 ->
  m1 * 2 ^ (e1 + K) <= m2 * 2 ^ (e2 + K) ->
  Zdigits2 m1 + e1 <= Zdigits2 m2 + e2.
Proof.
  intros Hm1 Hm2 He1 He2 Hv.
  pose proof (Zdigits2_bounds m1 Hm1) as Hb1. pose proof (Zdigits2_pos m1 Hm1).
  pose proof (Zdigits2_bounds m2 Hm2) as Hb2. pose proof (Zdigits2_pos m2 Hm2).
  pose proof (pow2_pos (e1 + K) ltac:(lia)). pose proof (pow2_pos (e2 + K) ltac:(lia)).
  assert (Hlt : 2 ^ (Zdigits2 m1 - 1 + (e1 + K)) < 2 ^ (Zdigits2 m2 + (e2 + K))).
  { rewrite (pow2_add (Zdigits2 m1 - 1) (e1 + K)),
            (pow2_add (Zdigits2 m2) (e2 + K)) by lia.
    assert (2 ^ (Zdigits2 m1 - 1) * 2 ^ (e1 + K) <= m1 * 2 ^ (e1 + K))
      by (apply Z.mul_le_mono_nonneg_r; lia).
    assert (m2 * 2 ^ (e2 + K) < 2 ^ Zdigits2 m2 * 2 ^ (e2 + K))
      by (apply Z.mul_lt_mono_pos_r; lia).
    lia. }
  apply pow2_lt_inv in Hlt; lia.
Qed.

(** Rounding to binary32 is monotone. *)
Lemma round32_mono K m1 e1 m2 e2 :
  0 < m1 -> 0 < m2 -> fine m1 e1 -> fine m2 e2 ->
  - K <= e1 -> - K <= e2 ->
  m1 * 2 ^ (e1 + K) <= m2 * 2 ^ (e2 + K) ->
  SFleb (round32 m1 e1) (round32 m2 e2) = true.
Proof.
  intros Hm1 Hm2 Hf1 Hf2 He1 He2 Hv. unfold fine in *.
  pose proof (mag_mono K m1 e1 m2 e2 Hm1 Hm2 He1 He2 Hv) as Hmag.
  apply fexp32_mono in Hmag.
  unfold round32.
  set (E1 := fexp32 (Zdigits2 m1 + e1)) in *.
  set (E2 := fexp32 (Zdigits2 m2 + e2)) in *.
  apply norm_out_le; [apply rhe_upper; assumption | apply rhe_upper; assumption |].
  pose proof (pow2_pos (e1 + K) ltac:(lia)) as Hp1.
  pose proof (pow2_pos (e2 + K) ltac:(lia)) as Hp2.
  destruct (Z.eq_dec E1 E2) as [Heq | Hne].
  - left. split; [exact Heq|].
    rewrite <- (rhe_scale m1 (2 ^ (E1 - e1)) (2 ^ (e1 + K))) by (try apply pow2_pos; lia).
    rewrite <- (rhe_scale m2 (2 ^ (E2 - e2)) (2 ^ (e2 + K))) by (try apply pow2_pos; lia).
    rewrite <- !pow2_add by lia.
    replace (E1 - e1 + (e1 + K)) with (E2 + K) by lia.
    replace (E2 - e2 + (e2 + K)) with (E2 + K) by lia.
    apply rhe_mono; [apply pow2_pos; lia | exact Hv].
  - right. split; [lia|].
    assert (HE2 : E2 = Zdigits2 m2 + e2 - 24) by (unfold E2, E1, fexp32 in *; lia).
    pose proof (Zdigits2_bounds m2 Hm2) as Hb2.
    replace (E2 - e2) with (Zdigits2 m2 - 24) by lia.
    set (n := Zdigits2 m2 - 24) in *.
    assert (Hn : 0 <= n) by lia.
    rewrite <- (rhe_exact (2 ^ 23) (2 ^ n)) by (apply pow2_pos; lia).
    apply rhe_mono; [apply pow2_pos; lia|].
    rewrite <- pow2_add by lia. replace (23 + n) with (Zdigits2 m2 - 1) by lia. lia.
Qed.

(** *** Canonical floats: shape, value, order *)

Lemma canon32_facts m e :
  canon32 m e ->
  -149 <= e <= 104
  /\ Z.pos (digits2_pos m) <= 24
  /\ (-149 < e -> Z.pos (digits2_pos m) = 24).
Proof. unfold canon32, fexp32. intros [H1 H2]. lia. Qed.

Lemma canon32_valid m e :
  canon32 m e <-> bounded 24 128 m e = true.
Proof.
  unfold canon32, bounded, canonical_mantissa.
  change (fexp 24 128 (Z.pos (digits2_pos m) + e))
    with (fexp32 (Z.pos (digits2_pos m) + e)).
  change (128 - 24) with 104.
  destruct (Z.eqb_spec (fexp32 (Z.pos (digits2_pos m) + e)) e);
    destruct (Z.leb_spec e 104); cbn [andb]; split; intros Hx;
    try discriminate; try reflexivity; try lia; tauto.
Qed.

Lemma canon32_fine m e : canon32 m e -> fine (Z.pos m) e.
Proof. unfold canon32, fine. cbn [Zdigits2]. intros [H _]. lia. Qed.

Lemma units_pos m e : canon32 m e -> 0 < units (S754_finite false m e).
Proof.
  intros H. apply canon32_facts in H as (He & _). cbn [units].
  pose proof (pow2_pos (e + 149) ltac:(lia)). lia.
Qed.

Lemma units_nonneg x : nonneg32 x -> 0 <= units x.
Proof.
  destruct x as [s|s| |[] m e]; cbn [nonneg32]; intros H;
    try contradiction; cbn [units]; lia.
Qed.

(** The order of two canonical positive floats is the order of their
    values. *)
Lemma canon32_compare m1 e1 m2 e2 :
  canon32 m1 e1 -> canon32 m2 e2 ->
  SFcompare (S754_finite false m1 e1) (S754_finite false m2 e2)
  = Some (units (S754_finite false m1 e1) ?= units (S754_finite false m2 e2)).
Proof.
  intros H1 H2.
  pose proof (canon32_facts _ _ H1) as (He1 & Hd1 & Hn1).
  pose proof (canon32_facts _ _ H2) as (He2 & Hd2 & Hn2).
  pose proof (digits2_pos_bounds m1) as Hb1. pose proof (digits2_pos_bounds m2) as Hb2.
  cbn [SFcompare units]. f_equal.
  assert (P : forall a e b f, Z.pos (digits2_pos a) <= 24 ->
              Z.pos (digits2_pos b) = 24 -> -149 <= e < f ->
              Z.pos a * 2 ^ (e + 149) < Z.pos b * 2 ^ (f + 149)).
  { intros a e b f Ha Hb Hef.
    pose proof (digits2_pos_bounds a) as Ba. pose proof (digits2_pos_bounds b) as Bb.
    rewrite Hb in Bb. change (2 ^ (24 - 1)) with 8388608 in Bb.
    assert (Z.pos a < 2 ^ 24).
    { pose proof (pow2_le (Z.pos (digits2_pos a)) 24 ltac:(lia)). lia. }
    change (2 ^ 24) with 16777216 in *.
    rewrite (pow2_split (f + 149) (e + 149)) by lia.
    pose proof (pow2_pos (e + 149) ltac:(lia)).
    pose proof (pow2_le 1 (f + 149 - (e + 149)) ltac:(lia)) as Hp.
    change (2 ^ 1) with 2 in Hp.
    set (Q := 2 ^ (f + 149 - (e + 149))) in *. set (P := 2 ^ (e + 149)) in *.
    assert (G1 : 16777216 <= Z.pos b * Q) by nia.
    assert (G2 : Z.pos a * P < 16777216 * P) by (apply Z.mul_lt_mono_pos_r; lia).
    assert (G3 : 16777216 * P <= Z.pos b * Q * P)
      by (apply Z.mul_le_mono_nonneg_r; lia).
    lia. }
  destruct (Z.compare_spec e1 e2) as [-> | Hlt | Hgt].
  - change (Pos.compare_cont Eq m1 m2) with (Z.pos m1 ?= Z.pos m2).
    pose proof (pow2_pos (e2 + 149) ltac:(lia)).
    symmetry. destruct (Z.compare_spec (Z.pos m1) (Z.pos m2)) as [Heq | Hl | Hg].
    + rewrite Heq. apply Z.compare_refl.
    + apply Z.compare_lt_iff. nia.
    + apply Z.compare_gt_iff. nia.
  - symmetry. apply Z.compare_lt_iff. apply P; lia.
  - symmetry. apply Z.compare_gt_iff. apply P; lia.
Qed.

Lemma nonneg32_compare x y :
  nonneg32 x -> nonneg32 y -> SFcompare x y = Some (units x ?= units y).
Proof.
  intros Hx Hy.
  destruct x as [s|s| |[] m e]; cbn [nonneg32] in Hx; try tauto;
    destruct y as [s'|s'| |[] m' e']; cbn [nonneg32] in Hy; try tauto.
  - pose proof (units_pos _ _ Hy) as H. cbn [SFcompare]. f_equal. symmetry.
    change (units (S754_zero s)) with 0. apply Z.compare_lt_iff. exact H.
  - pose proof (units_pos _ _ Hx) as H. cbn [SFcompare]. f_equal. symmetry.
    change (units (S754_zero s')) with 0. apply Z.compare_gt_iff. exact H.
  - apply canon32_compare; assumption.
Qed.

Lemma nonneg32_leb x y :
  nonneg32 x -> nonneg32 y -> (SFleb x y = true <-> units x <= units y).
Proof.
  intros Hx Hy. unfold SFleb. rewrite (nonneg32_compare x y Hx Hy).
  destruct (Z.compare_spec (units x) (units y)); split; intros; try lia; try reflexivity; discriminate.
Qed.

Lemma nonneg32_ltb x y :
  nonneg32 x -> nonneg32 y -> (SFltb x y = true <-> units x < units y).
Proof.
  intros Hx Hy. unfold SFltb. rewrite (nonneg32_compare x y Hx Hy).
  destruct (Z.compare_spec (units x) (units y)); split; intros; try lia; try reflexivity; discriminate.
Qed.

(** *** The operations on canonical floats *)

Lemma Zdigits2_to_pos M : 0 < M -> Z.pos (digits2_pos (Z.to_pos M)) = Zdigits2 M.
Proof. destruct M; try lia. reflexivity. Qed.

(** What rounding returns is a binary32 value or, on overflow, +inf. *)
Lemma round32_shape m e :
  0 < m -> fine m e ->
  nonneg32 (round32 m e) \/ round32 m e = S754_infinity false.
Proof.
  intros Hm Hf. pose proof (rhe_upper m e Hm Hf) as HM. unfold fine in Hf.
  pose proof (fexp32_ge (Zdigits2 m + e)) as [HE _].
  unfold round32, norm_out.
  set (E := fexp32 (Zdigits2 m + e)) in *.
  set (M := round_half_even m (2 ^ (E - e))) in *.
  destruct (Z.eqb_spec M 0); [left; exact I|].
  destruct (Z.eqb_spec M (2 ^ 24)) as [HM24 | HM24].
  - destruct (Z.leb_spec (E + 1) 104); [left | right; reflexivity].
    cbn [nonneg32]. split; [|lia].
    change (Z.pos (digits2_pos (Z.to_pos (2 ^ 23)))) with 24. unfold fexp32. lia.
  - destruct (Z.leb_spec E 104); [left | right; reflexivity].
    cbn [nonneg32]. split; [|lia].
    rewrite Zdigits2_to_pos by lia.
    pose proof (Zdigits2_le_24 M ltac:(lia)) as Hd.
    destruct (Z.eq_dec E (-149)) as [HE' | HE']; [unfold fexp32; lia|].
    assert (HEn : E = Zdigits2 m + e - 24) by (unfold E, fexp32 in *; lia).
    assert (H23 : 2 ^ 23 <= M).
    { unfold M. replace (E - e) with (Zdigits2 m - 24) by lia.
      pose proof (Zdigits2_bounds m Hm) as Hb.
      rewrite <- (rhe_exact (2 ^ 23) (2 ^ (Zdigits2 m - 24))) by (apply pow2_pos; lia).
      apply rhe_mono; [apply pow2_pos; lia|].
      rewrite <- pow2_add by lia.
      replace (23 + (Zdigits2 m - 24)) with (Zdigits2 m - 1) by lia. lia. }
    rewrite (Zdigits2_unique M 24) by (change (2 ^ (24 - 1)) with (2 ^ 23); lia).
    unfold fexp32. lia.
Qed.

(** A canonical float is its own rounding. *)
Lemma round32_canon m e :
  canon32 m e -> round32 (Z.pos m) e = S754_finite false m e.
Proof.
  intros H. pose proof (canon32_facts m e H) as (He & Hd & _).
  destruct H as [HE _]. unfold round32, norm_out. cbn [Zdigits2]. rewrite HE.
  rewrite Z.sub_diag. change (2 ^ 0) with 1.
  assert (Hr : round_half_even (Z.pos m) 1 = Z.pos m).
  { rewrite <- (Z.mul_1_r (Z.pos m)) at 1. apply rhe_exact. lia. }
  rewrite !Hr.
  pose proof (digits2_pos_bounds m) as Hb.
  pose proof (pow2_le (Z.pos (digits2_pos m)) 24 ltac:(lia)).
  destruct (Z.eqb_spec (Z.pos m) 0); [lia|].
  destruct (Z.eqb_spec (Z.pos m) (2 ^ 24)); [lia|].
  destruct (Z.leb_spec e 104); [reflexivity | lia].
Qed.

Lemma digits_mul_ge a b :
  Z.pos (digits2_pos a) + Z.pos (digits2_pos b) - 1 <= Z.pos (digits2_pos (a * b)).
Proof.
  pose proof (digits2_pos_bounds a) as Ha. pose proof (digits2_pos_bounds b) as Hb.
  pose proof (digits2_pos_bounds (a * b)) as Hab. rewrite Pos2Z.inj_mul in Hab.
  set (da := Z.pos (digits2_pos a)) in *. set (db := Z.pos (digits2_pos b)) in *.
  set (dab := Z.pos (digits2_pos (a * b))) in *.
  assert (da - 1 + (db - 1) < dab); [|lia].
  apply pow2_lt_inv; try lia.
  rewrite pow2_add by lia.
  pose proof (pow2_pos (da - 1) ltac:(lia)). pose proof (pow2_pos (db - 1) ltac:(lia)).
  nia.
Qed.

(** The product of two positive floats is the rounding of the exact
    product. *)
Lemma mul32_round mx ex my ey :
  canon32 mx ex -> canon32 my ey ->
  SFmul 24 128 (S754_finite false mx ex) (S754_finite false my ey)
  = round32 (Z.pos (mx * my)) (ex + ey)
  /\ fine (Z.pos (mx * my)) (ex + ey).
Proof.
  intros Hx Hy.
  pose proof (canon32_facts _ _ Hx) as (Hex & Hdx & Hnx).
  pose proof (canon32_facts _ _ Hy) as (Hey & Hdy & Hny).
  pose proof (digits_mul_ge mx my) as Hd.
  assert (Hf : fine (Z.pos (mx * my)) (ex + ey)).
  { unfold fine, fexp32. cbn [Zdigits2].
    destruct (Z.eq_dec ex (-149)); destruct (Z.eq_dec ey (-149)); lia. }
  split; [|exact Hf].
  cbn [SFmul xorb]. apply binary_round_aux_exact; [lia | exact Hf].
Qed.

Lemma mul32_units mx ex my ey :
  -149 <= ex -> -149 <= ey ->
  Z.pos (mx * my) * 2 ^ (ex + ey + 298)
  = units (S754_finite false mx ex) * units (S754_finite false my ey).
Proof.
  intros Hx Hy. cbn [units]. rewrite Pos2Z.inj_mul.
  replace (ex + ey + 298) with ((ex + 149) + (ey + 149)) by lia.
  rewrite pow2_add by lia. ring.
Qed.

Lemma SFmul_zero_l s y :
  positive32 y -> SFmul 24 128 (S754_zero s) y = S754_zero s.
Proof. destruct y as [| | |[] m e]; cbn; try tauto. destruct s; reflexivity. Qed.

Lemma positive32_nonneg x : positive32 x -> nonneg32 x.
Proof. destruct x as [| | |[] m e]; cbn; tauto. Qed.

Lemma mul32_shape x c :
  nonneg32 x -> positive32 c ->
  nonneg32 (SFmul 24 128 x c) \/ SFmul 24 128 x c = S754_infinity false.
Proof.
  intros Hx Hc.
  destruct x as [s| | |[] mx ex]; cbn [nonneg32] in Hx; try contradiction.
  - rewrite SFmul_zero_l by exact Hc. left. exact I.
  - destruct c as [| | |[] mc ec]; cbn [positive32] in Hc; try contradiction.
    destruct (mul32_round mx ex mc ec Hx Hc) as [-> Hf].
    apply round32_shape; [lia | exact Hf].
Qed.

(** Multiplication by a positive constant is monotone. *)
Lemma mul32_mono x1 x2 c :
  nonneg32 x1 -> nonneg32 x2 -> positive32 c ->
  SFleb x1 x2 = true ->
  SFleb (SFmul 24 128 x1 c) (SFmul 24 128 x2 c) = true.
Proof.
  intros H1 H2 Hc Hle.
  apply (nonneg32_leb _ _ H1 H2) in Hle.
  destruct x1 as [s1| | |[] m1 e1]; cbn [nonneg32] in H1; try contradiction.
  { rewrite SFmul_zero_l by exact Hc. apply SFleb_zero_l.
    destruct (mul32_shape x2 c H2 Hc) as [Hs | ->]; [|exact I].
    destruct (SFmul 24 128 x2 c) as [| | |[] ? ?]; cbn in Hs; tauto. }
  destruct x2 as [s2| | |[] m2 e2]; cbn [nonneg32] in H2; try contradiction.
  { pose proof (units_pos _ _ H1). cbn [units] in *. lia. }
  destruct c as [| | |[] mc ec]; cbn [positive32] in Hc; try contradiction.
  destruct (mul32_round m1 e1 mc ec H1 Hc) as [-> Hf1].
  destruct (mul32_round m2 e2 mc ec H2 Hc) as [-> Hf2].
  pose proof (canon32_facts _ _ H1) as (He1 & _).
  pose proof (canon32_facts _ _ H2) as (He2 & _).
  pose proof (canon32_facts _ _ Hc) as (Hec & _).
  apply (round32_mono 298); try assumption; try lia.
  replace (e1 + ec + 298) with (e1 + ec + 298) by lia.
  rewrite !mul32_units by lia.
  pose proof (units_pos _ _ Hc).
  apply Z.mul_le_mono_nonneg_r; lia.
Qed.

(** Squaring is monotone on non-negative floats. *)
Lemma sq32_mono x1 x2 :
  nonneg32 x1 -> nonneg32 x2 -> SFleb x1 x2 = true ->
  SFleb (SFmul 24 128 x1 x1) (SFmul 24 128 x2 x2) = true.
Proof.
  intros H1 H2 Hle.
  apply (nonneg32_leb _ _ H1 H2) in Hle.
  destruct x1 as [s1| | |[] m1 e1]; cbn [nonneg32] in H1; try contradiction.
  { apply SFleb_zero_l.
    destruct x2 as [s2| | |[] m2 e2]; cbn [nonneg32] in H2; try contradiction.
    - destruct s2; exact I.
    - destruct (mul32_round m2 e2 m2 e2 H2 H2) as [-> Hf].
      destruct (round32_shape _ _ (Pos2Z.is_pos _) Hf) as [Hs | ->]; [|exact I].
      destruct (round32 _ _) as [| | |[] ? ?]; cbn in Hs; tauto. }
  destruct x2 as [s2| | |[] m2 e2]; cbn [nonneg32] in H2; try contradiction.
  { pose proof (units_pos _ _ H1). cbn [units] in *. lia. }
  destruct (mul32_round m1 e1 m1 e1 H1 H1) as [-> Hf1].
  destruct (mul32_round m2 e2 m2 e2 H2 H2) as [-> Hf2].
  pose proof (canon32_facts _ _ H1) as (He1 & _).
  pose proof (canon32_facts _ _ H2) as (He2 & _).
  apply (round32_mono 298); try assumption; try lia.
  rewrite !mul32_units by lia.
  pose proof (units_pos _ _ H1). pose proof (units_pos _ _ H2).
  apply Z.mul_le_mono_nonneg; lia.
Qed.

Lemma shl_align_spec m e e' :
  let r := shl_align m e e' in
  snd r = Z.min e e' /\ Z.pos (fst r) = Z.pos m * 2 ^ (e - Z.min e e').
Proof.
  unfold shl_align. destruct (e' - e) as [|d|d] eqn:Hd; cbn [fst snd].
  - replace (Z.min e e') with e by lia. rewrite Z.sub_diag. split; lia.
  - replace (Z.min e e') with e by lia. rewrite Z.sub_diag. split; lia.
  - replace (Z.min e e') with e' by lia. split; [reflexivity|].
    change (Pos.iter xO m d) with (shift_pos d m).
    rewrite shift_pos_correct. replace (e - e') with (Z.pos d) by lia.
    change (Z.pow_pos 2 d) with (2 ^ Z.pos d). ring.
Qed.

Lemma Zdigits2_shift m k :
  0 < m -> 0 <= k -> Zdigits2 (m * 2 ^ k) = Zdigits2 m + k.
Proof.
  intros Hm Hk. pose proof (Zdigits2_bounds m Hm) as Hb.
  pose proof (Zdigits2_pos m Hm) as Hd. pose proof (pow2_pos k Hk) as Hp.
  apply Zdigits2_unique; [lia|].
  replace (Zdigits2 m + k - 1) with (Zdigits2 m - 1 + k) by lia.
  rewrite !pow2_add by lia. split.
  - apply Z.mul_le_mono_nonneg_r; lia.
  - apply Z.mul_lt_mono_pos_r; lia.
Qed.

(** [binary_round] on a positive exact value: the value is kept, the
    mantissa made wide enough, and then rounded. *)
Lemma binary_round_exact (S0 : positive) ez :
  -149 <= ez ->
  exists S e',
    binary_round 24 128 false S0 ez = round32 S e'
    /\ 0 < S /\ fine S e' /\ -149 <= e'
    /\ S * 2 ^ (e' + 149) = Z.pos S0 * 2 ^ (ez + 149).
Proof.
  intros Hez. unfold binary_round.
  change (fexp 24 128 (Z.pos (digits2_pos S0) + ez))
    with (fexp32 (Zdigits2 (Z.pos S0) + ez)).
  set (E := fexp32 (Zdigits2 (Z.pos S0) + ez)).
  pose proof (fexp32_ge (Zdigits2 (Z.pos S0) + ez)) as [HE _]. fold E in HE.
  pose proof (shl_align_spec S0 ez E) as Hs. cbn zeta in Hs.
  destruct (shl_align S0 ez E) as [mz ez']. cbn [fst snd] in Hs.
  destruct Hs as [-> Hmz].
  assert (Hfine : fine (Z.pos mz) (Z.min ez E)).
  { unfold fine. rewrite Hmz, Zdigits2_shift by lia.
    replace (Zdigits2 (Z.pos S0) + (ez - Z.min ez E) + Z.min ez E)
      with (Zdigits2 (Z.pos S0) + ez) by lia.
    fold E. lia. }
  exists (Z.pos mz), (Z.min ez E).
  split; [apply binary_round_aux_exact; [lia | exact Hfine]|].
  split; [lia|]. split; [exact Hfine|]. split; [lia|].
  rewrite Hmz. rewrite (pow2_split (ez + 149) (Z.min ez E + 149)) by lia.
  replace (ez + 149 - (Z.min ez E + 149)) with (ez - Z.min ez E) by lia. ring.
Qed.

(** The sum of two positive floats is the rounding of the exact sum. *)
Lemma add32_round mx ex my ey :
  canon32 mx ex -> canon32 my ey ->
  exists S e',
    SFadd 24 128 (S754_finite false mx ex) (S754_finite false my ey)
    = round32 S e'
    /\ 0 < S /\ fine S e' /\ -149 <= e'
    /\ S * 2 ^ (e' + 149)
       = units (S754_finite false mx ex) + units (S754_finite false my ey).
Proof.
  intros Hx Hy.
  pose proof (canon32_facts _ _ Hx) as (Hex & _).
  pose proof (canon32_facts _ _ Hy) as (Hey & _).
  cbn [SFadd cond_Zopp].
  pose proof (shl_align_spec mx ex (Z.min ex ey)) as [_ Ha].
  pose proof (shl_align_spec my ey (Z.min ex ey)) as [_ Hb].
  set (a := fst (shl_align mx ex (Z.min ex ey))) in *.
  set (b := fst (shl_align my ey (Z.min ex ey))) in *.
  change (Z.pos a + Z.pos b) with (Z.pos (a + b)).
  cbn [binary_normalize].
  destruct (binary_round_exact (a + b) (Z.min ex ey) ltac:(lia))
    as (S & e' & Hr & HS & Hf & He' & Hv).
  exists S, e'. split; [exact Hr|]. split; [exact HS|]. split; [exact Hf|].
  split; [exact He'|]. rewrite Hv, Pos2Z.inj_add, Ha, Hb. cbn [units].
  replace (Z.min ex (Z.min ex ey)) with (Z.min ex ey) by lia.
  replace (Z.min ey (Z.min ex ey)) with (Z.min ex ey) by lia.
  rewrite (pow2_split (ex + 149) (Z.min ex ey + 149)) by lia.
  rewrite (pow2_split (ey + 149) (Z.min ex ey + 149)) by lia.
  replace (ex + 149 - (Z.min ex ey + 149)) with (ex - Z.min ex ey) by lia.
  replace (ey + 149 - (Z.min ex ey + 149)) with (ey - Z.min ex ey) by lia.
  ring.
Qed.

Lemma SFadd_zero_r x s :
  positive32 x -> SFadd 24 128 x (S754_zero s) = x.
Proof. destruct x as [| | |[] m e]; cbn; tauto. Qed.

Lemma SFleb_refl_pos m e : SFleb (S754_finite false m e) (S754_finite false m e) = true.
Proof.
  unfold SFleb, SFcompare. rewrite Z.compare_refl.
  change (Pos.compare_cont Eq m m) with (Pos.compare m m).
  rewrite Pos.compare_refl. reflexivity.
Qed.

Lemma add32_shape c y :
  positive32 c -> nonneg32 y ->
  nonneg32 (SFadd 24 128 c y) \/ SFadd 24 128 c y = S754_infinity false.
Proof.
  intros Hc Hy.
  destruct y as [s| | |[] my ey]; cbn [nonneg32] in Hy; try contradiction.
  - rewrite SFadd_zero_r by exact Hc. left. apply positive32_nonneg. exact Hc.
  - destruct c as [| | |[] mc ec]; cbn [positive32] in Hc; try contradiction.
    destruct (add32_round mc ec my ey Hc Hy) as (S & e' & -> & HS & Hf & _).
    apply round32_shape; assumption.
Qed.

(** Adding to a positive constant is monotone. *)
Lemma add32_mono c y1 y2 :
  positive32 c -> nonneg32 y1 -> nonneg32 y2 ->
  SFleb y1 y2 = true ->
  SFleb (SFadd 24 128 c y1) (SFadd 24 128 c y2) = true.
Proof.
  intros Hc H1 H2 Hle.
  apply (nonneg32_leb _ _ H1 H2) in Hle.
  destruct c as [| | |[] mc ec] eqn:Ec; cbn [positive32] in Hc; try contradiction.
  pose proof (canon32_facts _ _ Hc) as (Hec & _).
  pose proof (units_pos _ _ Hc) as Huc.
  destruct y2 as [s2| | |[] m2 e2]; cbn [nonneg32] in H2; try contradiction.
  { (* y2 is zero, so y1 is zero as well *)
    destruct y1 as [s1| | |[] m1 e1]; cbn [nonneg32] in H1; try contradiction.
    - cbn [SFadd]. apply SFleb_refl_pos.
    - pose proof (units_pos _ _ H1). cbn [units] in *. lia. }
  destruct (add32_round mc ec m2 e2 Hc H2) as (S2 & e2' & -> & HS2 & Hf2 & He2 & Hv2).
  destruct y1 as [s1| | |[] m1 e1]; cbn [nonneg32] in H1; try contradiction.
  - change (SFadd 24 128 (S754_finite false mc ec) (S754_zero s1))
      with (S754_finite false mc ec).
    rewrite <- (round32_canon mc ec Hc).
    apply (round32_mono 149); try assumption; try lia.
    + apply canon32_fine. exact Hc.
    + rewrite Hv2. pose proof (units_pos _ _ H2). cbn [units] in *. lia.
  - destruct (add32_round mc ec m1 e1 Hc H1) as (S1 & e1' & -> & HS1 & Hf1 & He1 & Hv1).
    apply (round32_mono 149); try assumption; try lia.
Qed.

Lemma rhe_antitone num d1 d2 :
  0 <= num -> 0 < d1 <= d2 ->
  round_half_even num d2 <= round_half_even num d1.
Proof.
  intros Hn [H1 H12].
  destruct (Z.eq_dec d1 d2) as [-> | Hne]; [lia|].
  pose proof (rhe_near num d1 H1) as [Hlo _].
  pose proof (rhe_near num d2 ltac:(lia)) as [_ Hhi].
  pose proof (rhe_nonneg num d1 H1 Hn) as Hr1.
  set (R1 := round_half_even num d1) in *.
  set (R2 := round_half_even num d2) in *.
  destruct (Z_le_gt_dec R2 R1) as [Hle | Hgt]; [exact Hle | exfalso].
  assert (Ha : d2 * (2 * R1 + 1) <= d2 * (2 * R2 - 1))
    by (apply Z.mul_le_mono_nonneg_l; lia).
  assert (Hb : d1 * (2 * R1 + 1) < d2 * (2 * R1 + 1))
    by (apply Z.mul_lt_mono_pos_r; lia).
  lia.
Qed.

(** The location computed by the division is the one of
    round-half-even on the quotient. *)
Lemma div_location N d :
  0 < d ->
  round_nearest_even (N / d) (new_location d (N mod d))
  = round_half_even N d.
Proof.
  intros Hd. pose proof (Z.mod_pos_bound N d Hd) as Hr.
  unfold round_half_even, new_location, new_location_even, new_location_odd.
  set (q := N / d). set (r := N mod d) in *.
  destruct (Z.even d) eqn:Hev.
  - destruct (Z.eqb_spec r 0) as [-> | Hr0].
    + cbn [round_nearest_even]. destruct (Z.compare_spec (2 * 0) d); lia.
    + cbn [round_nearest_even]. destruct (2 * r ?= d); reflexivity.
  - assert (Hodd : 2 * r <> d).
    { intros E. rewrite <- E, Z.even_mul in Hev. discriminate. }
    destruct (Z.eqb_spec r 0) as [-> | Hr0].
    + cbn [round_nearest_even]. destruct (Z.compare_spec (2 * 0) d); lia.
    + destruct (Z.compare_spec (2 * r + 1) d);
        destruct (Z.compare_spec (2 * r) d); cbn [round_nearest_even];
        try reflexivity; lia.
Qed.

Lemma rhe_recip_bounds m :
  2 ^ 23 <= m < 2 ^ 24 -> 2 ^ 23 <= round_half_even (2 ^ 47) m <= 2 ^ 24.
Proof.
  intros [Hlo Hhi].
  pose proof (rhe_antitone (2 ^ 47) m (2 ^ 24) ltac:(lia) ltac:(lia)) as H1.
  pose proof (rhe_antitone (2 ^ 47) (2 ^ 23) m ltac:(lia) ltac:(lia)) as H2.
  change (round_half_even (2 ^ 47) (2 ^ 24)) with (2 ^ 23) in H1.
  change (round_half_even (2 ^ 47) (2 ^ 23)) with (2 ^ 24) in H2.
  lia.
Qed.

Lemma round_nearest_even_record q l :
  round_nearest_even (shr_m (shr_record_of_loc q l))
    (loc_of_shr_record (shr_record_of_loc q l))
  = round_nearest_even q l.
Proof. destruct l as [|[]]; reflexivity. Qed.

(** [1.0f / w] for a normal positive [w]: the quotient 2^47 / m,
    rounded half-even, at the exponent -47 - e. *)
Lemma div_one32 mw ew :
  Z.pos (digits2_pos mw) = 24 -> -102 <= ew <= 102 ->
  SFdiv 24 128 (S754_finite false 8388608 (-23)) (S754_finite false mw ew)
  = norm_out (round_half_even (2 ^ 47) (Z.pos mw)) (-47 - ew).
Proof.
  intros Hd He.
  pose proof (digits2_pos_bounds mw) as Hb. rewrite Hd in Hb.
  change (2 ^ (24 - 1)) with (2 ^ 23) in Hb.
  cbn [SFdiv xorb]. unfold SFdiv_core_binary.
  change (Zdigits2 8388608) with 24. cbn [Zdigits2]. rewrite Hd.
  rewrite fexp32_eq.
  replace (Z.min (fexp32 (24 + -23 - (24 + ew))) (-23 - ew)) with (-47 - ew)
    by (unfold fexp32; lia).
  replace (-23 - ew - (-47 - ew)) with 24 by lia.
  change (Z.shiftl 8388608 24) with (2 ^ 47).
  pose proof (div_location (2 ^ 47) (Z.pos mw) ltac:(lia)) as Hloc.
  unfold Z.div, Z.modulo in Hloc.
  pose proof (rhe_recip_bounds (Z.pos mw) Hb) as HM.
  assert (Hq : 2 ^ 23 <= 2 ^ 47 / Z.pos mw <= 2 ^ 24).
  { split.
    - apply Z.div_le_lower_bound; [lia|].
      change (2 ^ 47) with (2 ^ 24 * 2 ^ 23).
      apply Z.mul_le_mono_nonneg_r; lia.
    - apply Z.div_le_upper_bound; [lia|].
      change (2 ^ 47) with (2 ^ 23 * 2 ^ 24).
      apply Z.mul_le_mono_nonneg_r; lia. }
  unfold Z.div in Hq.
  destruct (Z.div_eucl (2 ^ 47) (Z.pos mw)) as [q r] eqn:Hqr.
  destruct (Z.eq_dec q (2 ^ 24)) as [Hq24 | Hq24].
  - (* the divisor is 2^23 and the quotient is exact *)
    assert (Hmw : Z.pos mw = 2 ^ 23).
    { pose proof (Z.div_mod (2 ^ 47) (Z.pos mw) ltac:(lia)) as Hdm.
      pose proof (Z.mod_pos_bound (2 ^ 47) (Z.pos mw) ltac:(lia)) as Hrb.
      unfold Z.div, Z.modulo in Hdm, Hrb. rewrite Hqr in Hdm, Hrb.
      subst q. change (2 ^ 47) with (2 ^ 23 * 2 ^ 24) in Hdm. lia. }
    assert (Hr0 : r = 0).
    { pose proof (f_equal snd Hqr) as E. cbn [snd] in E. rewrite <- E, Hmw.
      vm_compute. reflexivity. }
    subst q r. rewrite Hmw.
    replace (new_location (2 ^ 23) 0) with loc_Exact by reflexivity.
    rewrite binary_round_aux_exact; [|lia|].
    + unfold round32. change (Zdigits2 (2 ^ 24)) with 25.
      replace (fexp32 (25 + (-47 - ew))) with (-47 - ew + 1)
        by (unfold fexp32; lia).
      replace (-47 - ew + 1 - (-47 - ew)) with 1 by lia.
      change (round_half_even (2 ^ 24) (2 ^ 1)) with (2 ^ 23).
      change (round_half_even (2 ^ 47) (2 ^ 23)) with (2 ^ 24).
      unfold norm_out.
      change (2 ^ 23 =? 0) with false. change (2 ^ 24 =? 0) with false.
      change (2 ^ 23 =? 2 ^ 24) with false. change (2 ^ 24 =? 2 ^ 24) with true.
      cbv iota. reflexivity.
    + change (Zdigits2 (2 ^ 24)) with 25. unfold fexp32. lia.
  - assert (Hdq : Zdigits2 q = 24) by (apply Zdigits2_unique; lia).
    unfold binary_round_aux, shr_fexp. rewrite Hdq, fexp32_eq.
    replace (fexp32 (24 + (-47 - ew)) - (-47 - ew)) with 0
      by (unfold fexp32; lia).
    rewrite shr_nonpos by lia.
    rewrite round_nearest_even_record.
    cbn [fst snd] in Hloc. rewrite Hloc.
    apply (bra_second_stage (round_half_even (2 ^ 47) (Z.pos mw)) (-47 - ew));
      lia.
Qed.

(** Two normal positive floats compare by exponent, then mantissa. *)
Lemma normal_order m1 e1 m2 e2 :
  Z.pos (digits2_pos m1) = 24 -> Z.pos (digits2_pos m2) = 24 ->
  -149 <= e1 -> -149 <= e2 ->
  units (S754_finite false m1 e1) <= units (S754_finite false m2 e2) ->
  e1 < e2 \/ (e1 = e2 /\ Z.pos m1 <= Z.pos m2).
Proof.
  intros H1 H2 He1 He2 Hu. cbn [units] in Hu.
  pose proof (digits2_pos_bounds m1) as B1. rewrite H1 in B1.
  pose proof (digits2_pos_bounds m2) as B2. rewrite H2 in B2.
  change (2 ^ (24 - 1)) with (2 ^ 23) in B1, B2.
  destruct (Z.lt_trichotomy e1 e2) as [Hlt | [Heq | Hgt]].
  - left. exact Hlt.
  - right. split; [exact Heq|]. subst e2.
    pose proof (pow2_pos (e1 + 149) ltac:(lia)) as Hp.
    apply (Z.mul_le_mono_pos_r _ _ _ Hp). exact Hu.
  - exfalso.
    pose proof (pow2_pos (e2 + 149) ltac:(lia)) as Hp.
    rewrite (pow2_split (e1 + 149) (e2 + 149)) in Hu by lia.
    assert (Hk : 2 <= 2 ^ (e1 + 149 - (e2 + 149))).
    { change 2 with (2 ^ 1) at 1. apply pow2_le. lia. }
    set (k := 2 ^ (e1 + 149 - (e2 + 149))) in *.
    set (P := 2 ^ (e2 + 149)) in *.
    assert (Ha : 2 ^ 23 * 2 * P <= Z.pos m1 * k * P).
    { apply Z.mul_le_mono_nonneg_r; [lia|].
      apply Z.mul_le_mono_nonneg; lia. }
    assert (Hc : Z.pos m2 * P < 2 ^ 24 * P)
      by (apply Z.mul_lt_mono_pos_r; lia).
    change (2 ^ 24) with (2 ^ 23 * 2) in Hc. lia.
Qed.

(** The reciprocal is antitone on normal positive floats. *)
Lemma div_one32_antitone m1 e1 m2 e2 :
  Z.pos (digits2_pos m1) = 24 -> Z.pos (digits2_pos m2) = 24 ->
  -102 <= e1 <= 102 -> -102 <= e2 <= 102 ->
  units (S754_finite false m1 e1) <= units (S754_finite false m2 e2) ->
  SFleb (SFdiv 24 128 (S754_finite false 8388608 (-23)) (S754_finite false m2 e2))
        (SFdiv 24 128 (S754_finite false 8388608 (-23)) (S754_finite false m1 e1))
  = true.
Proof.
  intros H1 H2 He1 He2 Hu.
  rewrite !div_one32 by assumption.
  pose proof (digits2_pos_bounds m1) as B1. rewrite H1 in B1.
  pose proof (digits2_pos_bounds m2) as B2. rewrite H2 in B2.
  change (2 ^ (24 - 1)) with (2 ^ 23) in B1, B2.
  pose proof (rhe_recip_bounds _ B1) as R1.
  pose proof (rhe_recip_bounds _ B2) as R2.
  apply norm_out_le; try lia.
  destruct (normal_order m1 e1 m2 e2 H1 H2 ltac:(lia) ltac:(lia) Hu)
    as [Hlt | [Heq Hm]].
  - right. lia.
  - left. split; [lia|]. apply rhe_antitone; lia.
Qed.

(** *** The constants of [time_to_rate] *)

Lemma one_val : F32.one = S754_finite false 8388608 (-23).
Proof. vm_compute. reflexivity. Qed.

Lemma milli_val : F32.lit 1 3 = S754_finite false 8589935 (-33).
Proof. vm_compute. reflexivity. Qed.

Lemma ten_val : F32.of_int 10 = S754_finite false 10485760 (-20).
Proof. vm_compute. reflexivity. Qed.

Lemma sample_rate_val : F32.of_int 44100 = S754_finite false 11289600 (-8).
Proof. vm_compute. reflexivity. Qed.

Lemma positive32_one : positive32 F32.one.
Proof. rewrite one_val. cbn [positive32]. canon. Qed.

Lemma positive32_milli : positive32 (F32.lit 1 3).
Proof. rewrite milli_val. cbn [positive32]. canon. Qed.

Lemma positive32_ten : positive32 (F32.of_int 10).
Proof. rewrite ten_val. cbn [positive32]. canon. Qed.

Lemma positive32_sample_rate : positive32 (F32.of_int 44100).
Proof. rewrite sample_rate_val. cbn [positive32]. canon. Qed.

(** *** Order bookkeeping *)

Lemma leb32_trans x y z :
  nonneg32 x -> nonneg32 y -> nonneg32 z ->
  SFleb x y = true -> SFleb y z = true -> SFleb x z = true.
Proof.
  intros Hx Hy Hz H1 H2.
  apply (nonneg32_leb _ _ Hx Hy) in H1. apply (nonneg32_leb _ _ Hy Hz) in H2.
  apply (nonneg32_leb _ _ Hx Hz). lia.
Qed.

Lemma shape_bounded x c :
  nonneg32 x \/ x = S754_infinity false ->
  positive32 c -> SFleb x c = true -> nonneg32 x.
Proof.
  intros [H | ->] Hc Hle; [exact H|].
  destruct c as [| | |[] m e]; cbn in Hc, Hle; try contradiction; discriminate.
Qed.

Lemma positive32_above c x :
  positive32 c -> nonneg32 x -> SFleb c x = true -> positive32 x.
Proof.
  intros Hc Hx Hle.
  apply (nonneg32_leb _ _ (positive32_nonneg _ Hc) Hx) in Hle.
  destruct c as [| | |[] mc ec]; cbn [positive32] in Hc; try contradiction.
  pose proof (units_pos _ _ Hc) as Hu.
  destruct x as [s| | |[] m e]; cbn [nonneg32] in Hx; try contradiction.
  - cbn [units] in Hle, Hu. lia.
  - exact Hx.
Qed.

Lemma SFleb_zero_nonneg s u : nonneg32 u -> SFleb (S754_zero s) u = true.
Proof.
  intros Hu. apply SFleb_zero_l.
  destruct u as [| | |[] ? ?]; cbn [nonneg32] in Hu; try contradiction; exact I.
Qed.

Lemma positive32_finite w :
  positive32 w -> exists m e, w = S754_finite false m e /\ canon32 m e.
Proof.
  destruct w as [| | |[] m e]; cbn [positive32]; try contradiction.
  intros H. exists m, e. split; [reflexivity | exact H].
Qed.

Lemma sq32_shape x :
  nonneg32 x ->
  nonneg32 (SFmul 24 128 x x) \/ SFmul 24 128 x x = S754_infinity false.
Proof.
  intros Hx.
  destruct x as [s| | |[] m e]; cbn [nonneg32] in Hx; try contradiction.
  - left. exact I.
  - destruct (mul32_round m e m e Hx Hx) as [-> Hf].
    apply round32_shape; [lia | exact Hf].
Qed.

(** A float between two normal ones is normal, with its exponent
    between theirs. *)
Lemma normal_between m e mlo elo mhi ehi :
  canon32 m e ->
  Z.pos (digits2_pos mlo) = 24 -> Z.pos (digits2_pos mhi) = 24 ->
  -149 < elo -> -149 <= ehi ->
  units (S754_finite false mlo elo) <= units (S754_finite false m e) ->
  units (S754_finite false m e) <= units (S754_finite false mhi ehi) ->
  Z.pos (digits2_pos m) = 24 /\ elo <= e <= ehi.
Proof.
  intros Hc Hlo Hhi Helo Hehi Hl Hh.
  pose proof (canon32_facts _ _ Hc) as (He & Hd & Hn).
  pose proof (digits2_pos_bounds m) as Bm.
  pose proof (digits2_pos_bounds mlo) as Bl. rewrite Hlo in Bl.
  change (2 ^ (24 - 1)) with (2 ^ 23) in Bl.
  assert (Hm24 : Z.pos m < 2 ^ 24).
  { apply Z.lt_le_trans with (1 := proj2 Bm). apply pow2_le. lia. }
  assert (Hge : elo <= e).
  { destruct (Z_le_gt_dec elo e) as [H | H]; [exact H | exfalso].
    cbn [units] in Hl.
    pose proof (pow2_pos (e + 149) ltac:(lia)) as Hp.
    rewrite (pow2_split (elo + 149) (e + 149)) in Hl by lia.
    assert (Hk : 2 <= 2 ^ (elo + 149 - (e + 149))).
    { change 2 with (2 ^ 1) at 1. apply pow2_le. lia. }
    set (k := 2 ^ (elo + 149 - (e + 149))) in *.
    set (P := 2 ^ (e + 149)) in *.
    assert (Ha : 2 ^ 23 * 2 * P <= Z.pos mlo * k * P).
    { apply Z.mul_le_mono_nonneg_r; [lia|].
      apply Z.mul_le_mono_nonneg; lia. }
    assert (Hb : Z.pos m * P < 2 ^ 24 * P)
      by (apply Z.mul_lt_mono_pos_r; lia).
    change (2 ^ 24) with (2 ^ 23 * 2) in Hb. lia. }
  assert (Hd24 : Z.pos (digits2_pos m) = 24) by (apply Hn; lia).
  split; [exact Hd24|]. split; [exact Hge|].
  destruct (normal_order m e mhi ehi Hd24 Hhi ltac:(lia) Hehi Hh); lia.
Qed.

(** *** The stages of [time_to_rate] on a parameter in [0, 1] *)

Lemma stage_square p :
  nonneg32 p -> SFleb p F32.one = true ->
  nonneg32 (F32.mul p p) /\ SFleb (F32.mul p p) F32.one = true.
Proof.
  intros Hp Hle. unfold F32.mul, F32.prec, F32.emax.
  pose proof positive32_one as H1.
  assert (Hb : SFleb (SFmul 24 128 p p) F32.one = true).
  { pose proof (sq32_mono p F32.one Hp (positive32_nonneg _ H1) Hle) as Hb.
    replace (SFmul 24 128 F32.one F32.one) with F32.one in Hb
      by (vm_compute; reflexivity).
    exact Hb. }
  split; [|exact Hb].
  apply (shape_bounded _ F32.one (sq32_shape p Hp) H1 Hb).
Qed.

Lemma stage_scale s :
  nonneg32 s -> SFleb s F32.one = true ->
  nonneg32 (F32.mul s (F32.of_int 10))
  /\ SFleb (F32.mul s (F32.of_int 10)) (F32.of_int 10) = true.
Proof.
  intros Hs Hle. unfold F32.mul, F32.prec, F32.emax.
  pose proof positive32_one as H1. pose proof positive32_ten as H10.
  assert (Hb : SFleb (SFmul 24 128 s (F32.of_int 10)) (F32.of_int 10) = true).
  { pose proof (mul32_mono s F32.one _ Hs (positive32_nonneg _ H1) H10 Hle)
      as Hb.
    replace (SFmul 24 128 F32.one (F32.of_int 10)) with (F32.of_int 10) in Hb
      by (vm_compute; reflexivity).
    exact Hb. }
  split; [|exact Hb].
  apply (shape_bounded _ (F32.of_int 10) (mul32_shape s _ Hs H10) H10 Hb).
Qed.

Lemma stage_offset u :
  nonneg32 u -> SFleb u (F32.of_int 10) = true ->
  positive32 (F32.add (F32.lit 1 3) u)
  /\ SFleb (F32.lit 1 3) (F32.add (F32.lit 1 3) u) = true
  /\ SFleb (F32.add (F32.lit 1 3) u)
           (F32.add (F32.lit 1 3) (F32.of_int 10)) = true.
Proof.
  intros Hu Hle.
  pose proof positive32_milli as Hm. pose proof positive32_ten as H10.
  assert (Hhi : positive32 (F32.add (F32.lit 1 3) (F32.of_int 10))).
  { replace (F32.add (F32.lit 1 3) (F32.of_int 10))
      with (S754_finite false 10486809 (-20)) by (vm_compute; reflexivity).
    cbn [positive32]. canon. }
  unfold F32.add, F32.prec, F32.emax in *.
  assert (Hb : SFleb (SFadd 24 128 (F32.lit 1 3) u)
                     (SFadd 24 128 (F32.lit 1 3) (F32.of_int 10)) = true).
  { apply add32_mono; [exact Hm | exact Hu | apply positive32_nonneg; exact H10
                       | exact Hle]. }
  assert (Hn : nonneg32 (SFadd 24 128 (F32.lit 1 3) u))
    by (apply (shape_bounded _ _ (add32_shape _ u Hm Hu) Hhi Hb)).
  assert (Ha : SFleb (F32.lit 1 3) (SFadd 24 128 (F32.lit 1 3) u) = true).
  { pose proof (SFleb_zero_nonneg false u Hu) as H0.
    pose proof (add32_mono _ (S754_zero false) u Hm I Hu H0) as Ha.
    rewrite (SFadd_zero_r (F32.lit 1 3) false Hm) in Ha. exact Ha. }
  split; [|split; [exact Ha | exact Hb]].
  apply (positive32_above _ _ Hm Hn Ha).
Qed.

Lemma stage_samples t :
  positive32 t -> SFleb (F32.lit 1 3) t = true ->
  SFleb t (F32.add (F32.lit 1 3) (F32.of_int 10)) = true ->
  exists m e,
    F32.mul t (F32.of_int 44100) = S754_finite false m e
    /\ canon32 m e /\ Z.pos (digits2_pos m) = 24 /\ -18 <= e <= -5.
Proof.
  intros Ht Hlo Hhi.
  pose proof positive32_milli as Hm. pose proof positive32_sample_rate as Hsr.
  assert (Hthi : positive32 (F32.add (F32.lit 1 3) (F32.of_int 10))).
  { replace (F32.add (F32.lit 1 3) (F32.of_int 10))
      with (S754_finite false 10486809 (-20)) by (vm_compute; reflexivity).
    cbn [positive32]. canon. }
  unfold F32.mul, F32.prec, F32.emax.
  set (w := SFmul 24 128 t (F32.of_int 44100)).
  assert (Hwhi : SFleb w (S754_finite false 14113412 (-5)) = true).
  { pose proof (mul32_mono t _ _ (positive32_nonneg _ Ht)
                  (positive32_nonneg _ Hthi) Hsr Hhi) as Hb.
    replace (SFmul 24 128 (F32.add (F32.lit 1 3) (F32.of_int 10)) (F32.of_int 44100))
      with (S754_finite false 14113412 (-5)) in Hb by (vm_compute; reflexivity).
    exact Hb. }
  assert (Hwlo : SFleb (S754_finite false 11560551 (-18)) w = true).
  { pose proof (mul32_mono _ t _ (positive32_nonneg _ Hm)
                  (positive32_nonneg _ Ht) Hsr Hlo) as Hb.
    replace (SFmul 24 128 (F32.lit 1 3) (F32.of_int 44100))
      with (S754_finite false 11560551 (-18)) in Hb by (vm_compute; reflexivity).
    exact Hb. }
  assert (Hchi : positive32 (S754_finite false 14113412 (-5)))
    by (cbn [positive32]; canon).
  assert (Hclo : positive32 (S754_finite false 11560551 (-18)))
    by (cbn [positive32]; canon).
  assert (Hn : nonneg32 w).
  { apply (shape_bounded _ _ (mul32_shape t _ (positive32_nonneg _ Ht) Hsr)
             Hchi Hwhi). }
  pose proof (positive32_above _ _ Hclo Hn Hwlo) as Hp.
  apply (nonneg32_leb _ _ (positive32_nonneg _ Hclo) Hn) in Hwlo.
  apply (nonneg32_leb _ _ Hn (positive32_nonneg _ Hchi)) in Hwhi.
  destruct (positive32_finite w Hp) as (m & e & Ew & Hc).
  clearbody w. subst w. cbn [positive32] in Hp.
  exists m, e. split; [reflexivity|]. split; [exact Hp|].
  apply (normal_between m e 11560551 (-18) 14113412 (-5) Hp);
    [reflexivity | reflexivity | lia | lia | exact Hwlo | exact Hwhi].
Qed.

(** *** The chain *)

Lemma time_to_rate_antitone_core p1 p2 :
  nonneg32 p1 -> nonneg32 p2 ->
  SFleb p1 p2 = true -> SFleb p2 F32.one = true ->
  SFleb (ADSR.time_to_rate p2) (ADSR.time_to_rate p1) = true.
Proof.
  intros H1 H2 H12 H2one.
  pose proof positive32_one as Hone. pose proof positive32_ten as H10.
  pose proof positive32_milli as Hm. pose proof positive32_sample_rate as Hsr.
  assert (H1one : SFleb p1 F32.one = true)
    by (apply (leb32_trans p1 p2 _ H1 H2 (positive32_nonneg _ Hone) H12 H2one)).
  destruct (stage_square p1 H1 H1one) as [Hs1 Hs1b].
  destruct (stage_square p2 H2 H2one) as [Hs2 Hs2b].
  assert (Hs : SFleb (F32.mul p1 p1) (F32.mul p2 p2) = true)
    by (apply sq32_mono; assumption).
  destruct (stage_scale _ Hs1 Hs1b) as [Hu1 Hu1b].
  destruct (stage_scale _ Hs2 Hs2b) as [Hu2 Hu2b].
  assert (Hu : SFleb (F32.mul (F32.mul p1 p1) (F32.of_int 10))
                     (F32.mul (F32.mul p2 p2) (F32.of_int 10)) = true)
    by (apply mul32_mono; assumption).
  destruct (stage_offset _ Hu1 Hu1b) as (Ht1 & Ht1lo & Ht1hi).
  destruct (stage_offset _ Hu2 Hu2b) as (Ht2 & Ht2lo & Ht2hi).
  assert (Ht : SFleb (F32.add (F32.lit 1 3) (F32.mul (F32.mul p1 p1) (F32.of_int 10)))
                     (F32.add (F32.lit 1 3) (F32.mul (F32.mul p2 p2) (F32.of_int 10)))
               = true)
    by (apply add32_mono; assumption).
  destruct (stage_samples _ Ht1 Ht1lo Ht1hi) as (m1 & e1 & Ew1 & Hc1 & Hd1 & He1).
  destruct (stage_samples _ Ht2 Ht2lo Ht2hi) as (m2 & e2 & Ew2 & Hc2 & Hd2 & He2).
  assert (Hw : SFleb
      (F32.mul (F32.add (F32.lit 1 3) (F32.mul (F32.mul p1 p1) (F32.of_int 10)))
               (F32.of_int 44100))
      (F32.mul (F32.add (F32.lit 1 3) (F32.mul (F32.mul p2 p2) (F32.of_int 10)))
               (F32.of_int 44100)) = true).
  { apply mul32_mono; try assumption; apply positive32_nonneg; assumption. }
  rewrite Ew1, Ew2 in Hw.
  apply (nonneg32_leb (S754_finite false m1 e1) (S754_finite false m2 e2) Hc1 Hc2)
    in Hw.
  unfold ADSR.time_to_rate. rewrite Ew1, Ew2, one_val.
  apply div_one32_antitone; try assumption; lia.
Qed.

Lemma nonneg32_of_valid p :
  valid_binary 24 128 p = true -> SFleb F32.zero p = true ->
  p <> S754_infinity false -> nonneg32 p.
Proof.
  intros Hv H0 Hinf.
  destruct p as [s|[]| |[] m e]; cbn in H0; try discriminate;
    try congruence; cbn [nonneg32]; [exact I|].
  apply canon32_valid. exact Hv.
Qed.
(** ** The envelope rates *)

(** The order of the rates is not strict: the parameters 0 and 2^-20
    lie in [0, 1] and are ordered, yet they configure one and the same
    rate, since [0.001f + p * p * 10.0f] rounds back to [0.001f]. *)
Lemma rate_not_strictly_decreasing :
  F32.leb F32.zero F32.zero = true
  /\ F32.ltb F32.zero (S754_finite false 8388608 (-43)) = true
  /\ F32.leb (S754_finite false 8388608 (-43)) F32.one = true
  /\ valid_binary 24 128 (S754_finite false 8388608 (-43)) = true
  /\ ADSR.time_to_rate (S754_finite false 8388608 (-43))
     = ADSR.time_to_rate F32.zero
  /\ F32.ltb (ADSR.time_to_rate (S754_finite false 8388608 (-43)))
             (ADSR.time_to_rate F32.zero) = false
  /\ (forall d s r e,
        F32.ltb
          (attack_rate
             (ADSR.set_params (S754_finite false 8388608 (-43)) d s r e))
          (attack_rate (ADSR.set_params F32.zero d s r e)) = false).
Proof.
  do 6 (split; [vm_compute; reflexivity|]).
  intros d s r e. cbn [ADSR.set_params attack_rate]. vm_compute. reflexivity.
Qed.

(** X1. For binary32 parameters [p1 < p2] in [0, 1] the rate that
    [time_to_rate] derives from [p2] is never larger than the one
    derived from [p1], and so it is for the attack, decay and release
    rates that [set_params] stores. *)
Theorem set_params_rates_antitone (p1 p2 : float) :
  valid_binary 24 128 p1 = true -> valid_binary 24 128 p2 = true ->
  F32.leb F32.zero p1 = true -> F32.ltb p1 p2 = true ->
  F32.leb p2 F32.one = true ->
  F32.leb (ADSR.time_to_rate p2) (ADSR.time_to_rate p1) = true
  /\ (forall a d s r e,
        F32.leb (attack_rate (ADSR.set_params p2 d s r e))
                (attack_rate (ADSR.set_params p1 d s r e)) = true
        /\ F32.leb (decay_rate (ADSR.set_params a p2 s r e))
                   (decay_rate (ADSR.set_params a p1 s r e)) = true
        /\ F32.leb (release_rate (ADSR.set_params a d s p2 e))
                   (release_rate (ADSR.set_params a d s p1 e)) = true).
Proof.
  intros Hv1 Hv2 H0 Hlt Hone. unfold F32.leb, F32.ltb in *.
  assert (Hi1 : p1 <> S754_infinity false).
  { intros ->. destruct p2 as [|[]| |[] ? ?]; discriminate. }
  assert (Hi2 : p2 <> S754_infinity false).
  { intros ->. discriminate. }
  assert (H02 : SFleb F32.zero p2 = true).
  { destruct p1 as [s1|[]| |[] m1 e1]; try discriminate; try congruence;
      destruct p2 as [s2|[]| |[] m2 e2]; try discriminate; try reflexivity;
      congruence. }
  pose proof (nonneg32_of_valid p1 Hv1 H0 Hi1) as N1.
  pose proof (nonneg32_of_valid p2 Hv2 H02 Hi2) as N2.
  assert (Hle : SFleb p1 p2 = true).
  { apply (nonneg32_leb _ _ N1 N2). apply (nonneg32_ltb _ _ N1 N2) in Hlt. lia. }
  pose proof (time_to_rate_antitone_core p1 p2 N1 N2 Hle Hone) as H.
  split; [exact H|]. intros a d s r e. cbn [ADSR.set_params attack_rate decay_rate release_rate].
  repeat split; exact H.
Qed.

Lemma set_params_rates_antitone_witness :
  F32.leb F32.zero F32.zero = true
  /\ F32.ltb F32.zero (F32.lit 5 1) = true
  /\ F32.leb (F32.lit 5 1) F32.one = true
  /\ F32.leb (ADSR.time_to_rate (F32.lit 5 1)) (ADSR.time_to_rate F32.zero)
     = true.
Proof.
  split; [vm_compute; reflexivity|]. split; [vm_compute; reflexivity|].
  split; [vm_compute; reflexivity|].
  assert (Hv1 : valid_binary 24 128 F32.zero = true) by reflexivity.
  assert (Hv2 : valid_binary 24 128 (F32.lit 5 1) = true)
    by (vm_compute; reflexivity).
  assert (H0 : F32.leb F32.zero F32.zero = true) by reflexivity.
  assert (Hlt : F32.ltb F32.zero (F32.lit 5 1) = true)
    by (vm_compute; reflexivity).
  assert (H1 : F32.leb (F32.lit 5 1) F32.one = true)
    by (vm_compute; reflexivity).
  exact (proj1 (set_params_rates_antitone F32.zero (F32.lit 5 1)
                  Hv1 Hv2 H0 Hlt H1)).
Defined.
(** *** Sums and differences of non-negative floats *)

Lemma binary_round_aux_opp m e l :
  binary_round_aux 24 128 true m e l
  = SFopp (binary_round_aux 24 128 false m e l).
Proof.
  unfold binary_round_aux.
  destruct (shr_fexp 24 128 m e l) as [mrs' e'].
  destruct (shr_fexp 24 128 _ e' loc_Exact) as [mrs'' e''].
  destruct (shr_m mrs''); [reflexivity | | reflexivity].
  destruct (e'' <=? 128 - 24); reflexivity.
Qed.

Lemma binary_round_opp p e :
  binary_round 24 128 true p e = SFopp (binary_round 24 128 false p e).
Proof.
  unfold binary_round. destruct (shl_align p e _) as [mz ez].
  apply binary_round_aux_opp.
Qed.

Lemma nonpos32_leb x s : nonpos32 x -> nonneg32 s -> SFleb x s = true.
Proof.
  destruct x as [?|[]| |[] ? ?]; cbn [nonpos32]; try contradiction; intros _;
    destruct s as [?|[]| |[] ? ?]; cbn [nonneg32]; try contradiction;
    intros _; reflexivity.
Qed.

Lemma nonpos32_opp r :
  nonneg32 r \/ r = S754_infinity false -> nonpos32 (SFopp r).
Proof.
  intros [H | ->]; [|exact I].
  destruct r as [?|[]| |[] ? ?]; cbn [nonneg32] in H; try contradiction;
    exact I.
Qed.

Lemma add32_nonneg x y :
  nonneg32 x -> nonneg32 y ->
  nonneg32 (SFadd 24 128 x y) \/ SFadd 24 128 x y = S754_infinity false.
Proof.
  intros Hx Hy.
  destruct x as [sx| | |[] mx ex]; cbn [nonneg32] in Hx; try contradiction.
  - destruct y as [sy| | |[] my ey]; cbn [nonneg32] in Hy; try contradiction.
    + left. destruct sx, sy; exact I.
    + left. exact Hy.
  - destruct y as [sy| | |[] my ey] eqn:Ey; cbn [nonneg32] in Hy;
      try contradiction.
    + left. exact Hx.
    + rewrite <- Ey. apply add32_shape; [exact Hx | subst y; exact Hy].
Qed.

(** The difference of two non-negative floats is either not positive,
    or a non-negative float that does not exceed the minuend. *)
Lemma sub32_cases x y :
  nonneg32 x -> nonneg32 y ->
  nonpos32 (SFsub 24 128 x y)
  \/ (nonneg32 (SFsub 24 128 x y) /\ SFleb (SFsub 24 128 x y) x = true).
Proof.
  intros Hx Hy.
  destruct x as [sx| | |[] mx ex]; cbn [nonneg32] in Hx; try contradiction.
  - destruct y as [sy| | |[] my ey]; cbn [nonneg32] in Hy; try contradiction.
    + left. destruct sx, sy; exact I.
    + left. exact I.
  - destruct y as [sy| | |[] my ey]; cbn [nonneg32] in Hy; try contradiction.
    + right. split; [exact Hx | apply SFleb_refl_pos].
    + pose proof (canon32_facts _ _ Hx) as (Hex & _).
      pose proof (canon32_facts _ _ Hy) as (Hey & _).
      cbn [SFsub cond_Zopp].
      pose proof (shl_align_spec mx ex (Z.min ex ey)) as [_ Ha].
      pose proof (shl_align_spec my ey (Z.min ex ey)) as [_ Hb].
      set (a := fst (shl_align mx ex (Z.min ex ey))) in *.
      set (b := fst (shl_align my ey (Z.min ex ey))) in *.
      replace (Z.min ex (Z.min ex ey)) with (Z.min ex ey) in Ha by lia.
      destruct (Z.pos a - Z.pos b) as [|p|p] eqn:Hd; cbn [binary_normalize].
      * left. exact I.
      * right.
        destruct (binary_round_exact p (Z.min ex ey) ltac:(lia))
          as (S & e' & -> & HS & Hf & He' & Hv).
        assert (Hle : SFleb (round32 S e') (S754_finite false mx ex) = true).
        { rewrite <- (round32_canon mx ex Hx).
          apply (round32_mono 149); try assumption; try lia.
          - apply canon32_fine. exact Hx.
          - rewrite Hv.
            rewrite (pow2_split (ex + 149) (Z.min ex ey + 149)) by lia.
            replace (ex + 149 - (Z.min ex ey + 149)) with (ex - Z.min ex ey)
              by lia.
            rewrite Z.mul_assoc, <- Ha.
            apply Z.mul_le_mono_nonneg_r; [|lia].
            pose proof (pow2_pos (Z.min ex ey + 149) ltac:(lia)). lia. }
        split; [|exact Hle].
        apply (shape_bounded _ (S754_finite false mx ex)
                 (round32_shape S e' HS Hf) Hx Hle).
      * left. rewrite binary_round_opp. apply nonpos32_opp.
        destruct (binary_round_exact p (Z.min ex ey) ltac:(lia))
          as (S & e' & -> & HS & Hf & _).
        apply round32_shape; assumption.
Qed.

Lemma nonneg32_total x y :
  nonneg32 x -> nonneg32 y -> SFleb x y = false -> SFleb y x = true.
Proof.
  intros Hx Hy H. apply (nonneg32_leb _ _ Hy Hx).
  destruct (Z_le_gt_dec (units x) (units y)) as [Hle | Hgt]; [|lia].
  apply (nonneg32_leb _ _ Hx Hy) in Hle. congruence.
Qed.

(** *** The envelope level stays in [0, 1] *)

Lemma unit32_one : unit32 F32.one.
Proof. split; [apply positive32_nonneg, positive32_one | vm_compute; reflexivity]. Qed.

Lemma unit32_zero : unit32 F32.zero.
Proof. split; [exact I | vm_compute; reflexivity]. Qed.

Lemma unit32_below x l : unit32 l -> nonneg32 x -> SFleb x l = true -> unit32 x.
Proof.
  intros [Hl Hl1] Hx Hle. split; [exact Hx|].
  apply (leb32_trans x l F32.one Hx Hl
           (positive32_nonneg _ positive32_one) Hle Hl1).
Qed.

Lemma falling_level l r floor :
  unit32 l -> nonneg32 r -> nonneg32 floor ->
  SFleb (F32.sub l r) floor = false -> unit32 (F32.sub l r).
Proof.
  intros Hl Hr Hfl Hcmp. unfold F32.sub, F32.prec, F32.emax in *.
  destruct (sub32_cases l r (proj1 Hl) Hr) as [Hneg | [Hn Hle]].
  - rewrite (nonpos32_leb _ floor Hneg Hfl) in Hcmp. discriminate.
  - apply (unit32_below _ l Hl Hn Hle).
Qed.

Lemma process_env_ok e : env_ok e -> env_ok (snd (ADSR.process e)).
Proof.
  intros (Ha & Hd & Hr & Hs & Hl).
  unfold ADSR.process. cbn [snd].
  destruct (stage e) eqn:Hst.
  - (* IDLE *)
    repeat split; try assumption; try apply unit32_zero; apply Hs.
  - (* ATTACK *)
    cbn [set_level level attack_rate decay_rate sustain_level release_rate].
    destruct (F32.geb (F32.add (level e) (attack_rate e)) F32.one) eqn:Hc;
      cbn [set_stage set_level level attack_rate decay_rate sustain_level
           release_rate].
    + repeat split; try assumption; try apply unit32_one; apply Hs.
    + unfold F32.geb, F32.add, F32.prec, F32.emax in *.
      destruct (add32_nonneg _ _ (proj1 Hl) Ha) as [Hn | Hinf].
      * repeat split; try assumption; try apply Hs.
        apply nonneg32_total;
          [apply positive32_nonneg, positive32_one | exact Hn | exact Hc].
      * rewrite Hinf in Hc. vm_compute in Hc. discriminate.
  - (* DECAY *)
    cbn [set_level level attack_rate decay_rate sustain_level release_rate].
    destruct (F32.leb (F32.sub (level e) (decay_rate e)) (sustain_level e))
      eqn:Hc;
      cbn [set_stage set_level level attack_rate decay_rate sustain_level
           release_rate].
    + repeat split; try assumption; apply Hs.
    + pose proof (falling_level _ _ _ Hl Hd (proj1 Hs) Hc) as [H1 H2].
      repeat split; try assumption; apply Hs.
  - (* SUSTAIN *)
    cbn [set_level level attack_rate decay_rate sustain_level release_rate].
    repeat split; try assumption; apply Hs.
  - (* RELEASE *)
    cbn [set_level level attack_rate decay_rate sustain_level release_rate].
    destruct (F32.leb (F32.sub (level e) (release_rate e)) F32.zero) eqn:Hc;
      cbn [set_stage set_level level attack_rate decay_rate sustain_level
           release_rate].
    + repeat split; try assumption; try apply unit32_zero; apply Hs.
    + pose proof (falling_level _ _ F32.zero Hl Hr I Hc) as [H1 H2].
      repeat split; try assumption; apply Hs.
Qed.

Lemma env_steps_env_ok k e : env_ok e -> env_ok (env_steps k e).
Proof.
  revert e. induction k as [|k IH]; intros e H; [exact H|].
  rewrite env_steps_S. apply IH, process_env_ok, H.
Qed.
Lemma norm_out_positive M X :
  2 ^ 23 <= M <= 2 ^ 24 -> -149 <= X <= 103 -> positive32 (norm_out M X).
Proof.
  intros HM HX. unfold norm_out.
  destruct (Z.eqb_spec M 0) as [|_]; [lia|].
  destruct (Z.eqb_spec M (2 ^ 24)) as [-> | Hne].
  - destruct (Z.leb_spec (X + 1) 104); [|lia].
    cbn [positive32]. split; [|lia].
    change (Z.pos (digits2_pos (Z.to_pos (2 ^ 23)))) with 24.
    unfold fexp32. lia.
  - destruct (Z.leb_spec X 104); [|lia].
    cbn [positive32]. split; [|lia].
    rewrite Zdigits2_to_pos by lia.
    rewrite (Zdigits2_unique M 24) by (change (2 ^ (24 - 1)) with (2 ^ 23); lia).
    unfold fexp32. lia.
Qed.

(** For a parameter in [0, 1] the rate is a positive binary32 number. *)
Lemma time_to_rate_positive p : unit32 p -> positive32 (ADSR.time_to_rate p).
Proof.
  intros [Hp Hle].
  destruct (stage_square p Hp Hle) as [Hs Hsb].
  destruct (stage_scale _ Hs Hsb) as [Hu Hub].
  destruct (stage_offset _ Hu Hub) as (Ht & Htlo & Hthi).
  destruct (stage_samples _ Ht Htlo Hthi) as (m & e & Ew & Hc & Hd & He).
  unfold ADSR.time_to_rate. rewrite Ew, one_val.
  unfold F32.div, F32.prec, F32.emax. rewrite div_one32 by (assumption || lia).
  pose proof (digits2_pos_bounds m) as B. rewrite Hd in B.
  change (2 ^ (24 - 1)) with (2 ^ 23) in B.
  apply norm_out_positive; [apply rhe_recip_bounds; exact B | lia].
Qed.

Lemma set_params_env_ok a d s r e :
  unit32 a -> unit32 d -> unit32 s -> unit32 r -> unit32 (level e) ->
  env_ok (ADSR.set_params a d s r e).
Proof.
  intros Ha Hd Hs Hr Hl. unfold env_ok, ADSR.set_params.
  cbn [attack_rate decay_rate release_rate sustain_level level].
  split; [apply positive32_nonneg, time_to_rate_positive; exact Ha|].
  split; [apply positive32_nonneg, time_to_rate_positive; exact Hd|].
  split; [apply positive32_nonneg, time_to_rate_positive; exact Hr|].
  split; [exact Hs | exact Hl].
Qed.

Lemma env_apply_ok e o : env_ok e -> op_ok o -> env_ok (env_apply e o).
Proof.
  intros He Ho. destruct o as [| | | |a d s r]; cbn [env_apply].
  - apply process_env_ok, He.
  - exact He.
  - destruct He as (Ha & Hd & Hr & Hs & Hl). unfold ADSR.gate_off.
    destruct (stage e); repeat split; try assumption; try apply Hs; apply Hl.
  - destruct He as (Ha & Hd & Hr & Hs & Hl). unfold ADSR.init.
    repeat split; try assumption; try apply Hs; apply unit32_zero.
  - destruct Ho as (Ha & Hd & Hs & Hr).
    apply set_params_env_ok; try assumption. apply He.
Qed.

Lemma env_run_ok ops e : env_ok e -> Forall op_ok ops -> env_ok (env_run ops e).
Proof.
  intros He Hops. revert e He.
  induction Hops as [|o ops Ho _ IH]; intros e He; [exact He|].
  cbn [env_run fold_left]. apply IH, env_apply_ok; assumption.
Qed.

(** X2. Once an envelope has been given attack, decay, sustain and
    release parameters in [0, 1], its level is a number in [0, 1] after
    any sequence of [process] steps, gate edges, re-initialisations and
    further parameter changes within [0, 1]; so is the value the next
    call of [process] returns. *)
Theorem envelope_level_in_unit (a d s r : float) (e : SimpleADSR)
    (ops : list env_op) :
  unit32 a -> unit32 d -> unit32 s -> unit32 r -> unit32 (level e) ->
  Forall op_ok ops ->
  let e' := env_run ops (ADSR.set_params a d s r e) in
  unit32 (level e') /\ unit32 (fst (ADSR.process e')).
Proof.
  intros Ha Hd Hs Hr Hl Hops e'.
  assert (He' : env_ok e').
  { apply env_run_ok; [|exact Hops]. apply set_params_env_ok; assumption. }
  split; [apply He'|].
  pose proof (process_env_ok e' He') as H. apply H.
Qed.

Lemma envelope_level_in_unit_witness :
  unit32 F32.zero /\ unit32 (F32.lit 5 1) /\ unit32 F32.one
  /\ unit32 (F32.lit 3 1) /\ unit32 (level fresh_env)
  /\ unit32 (level (env_run [op_gate_on; op_process; op_process; op_gate_off;
                             op_process]
                      (ADSR.set_params F32.zero (F32.lit 5 1) F32.one
                         (F32.lit 3 1) fresh_env))).
Proof.
  assert (H0 : unit32 F32.zero) by apply unit32_zero.
  assert (H5 : unit32 (F32.lit 5 1)).
  { split; [|vm_compute; reflexivity].
    replace (F32.lit 5 1) with (S754_finite false 8388608 (-24))
      by (vm_compute; reflexivity).
    cbn [nonneg32]. canon. }
  assert (H1 : unit32 F32.one) by apply unit32_one.
  assert (H3 : unit32 (F32.lit 3 1)).
  { split; [|vm_compute; reflexivity].
    replace (F32.lit 3 1) with (S754_finite false 10066330 (-25))
      by (vm_compute; reflexivity).
    cbn [nonneg32]. canon. }
  assert (Hl : unit32 (level fresh_env)) by apply unit32_zero.
  assert (Hops : Forall op_ok [op_gate_on; op_process; op_process; op_gate_off;
                               op_process])
    by (repeat constructor).
  repeat (split; [assumption|]).
  exact (proj1 (envelope_level_in_unit F32.zero (F32.lit 5 1) F32.one
                  (F32.lit 3 1) fresh_env _ H0 H5 H1 H3 Hl Hops)).
Defined.
(** ** The order of the envelope rates *)

Lemma positive32_units_inj x y :
  positive32 x -> positive32 y -> units x = units y -> x = y.
Proof.
  intros Hx Hy Hu.
  destruct x as [| | |[] mx ex]; cbn [positive32] in Hx; try contradiction.
  destruct y as [| | |[] my ey]; cbn [positive32] in Hy; try contradiction.
  pose proof (canon32_compare mx ex my ey Hx Hy) as Hc.
  rewrite Hu, Z.compare_refl in Hc. cbn [SFcompare] in Hc.
  destruct (Z.compare_spec ex ey) as [He|He|He]; try discriminate.
  subst ey.
  change (Pos.compare_cont Eq mx my) with (Pos.compare mx my) in Hc.
  destruct (Pos.compare_spec mx my) as [Hm|Hm|Hm]; try discriminate.
  subst my. reflexivity.
Qed.

(** C8. For binary32 stage parameters [p1 < p2] in [0, 1] the rates
    that the time-to-rate mapping derives are positive finite numbers,
    the rate at [p2] is not larger than the rate at [p1], and it is
    smaller unless the two parameters give one and the same rate; the
    attack, decay and release rates that [set_params] stores are
    ordered the same way. *)
Theorem rates_decrease_with_time (p1 p2 : float) :
  valid_binary 24 128 p1 = true -> valid_binary 24 128 p2 = true ->
  F32.leb F32.zero p1 = true -> F32.ltb p1 p2 = true ->
  F32.leb p2 F32.one = true ->
  let r1 := ADSR.time_to_rate p1 in
  let r2 := ADSR.time_to_rate p2 in
  positive32 r1 /\ positive32 r2
  /\ F32.leb r2 r1 = true
  /\ F32.gtb r2 r1 = false
  /\ (r2 <> r1 -> F32.ltb r2 r1 = true)
  /\ (forall a d s r e,
        F32.leb (attack_rate (ADSR.set_params p2 d s r e))
                (attack_rate (ADSR.set_params p1 d s r e)) = true
        /\ F32.leb (decay_rate (ADSR.set_params a p2 s r e))
                   (decay_rate (ADSR.set_params a p1 s r e)) = true
        /\ F32.leb (release_rate (ADSR.set_params a d s p2 e))
                   (release_rate (ADSR.set_params a d s p1 e)) = true).
Proof.
  intros Hv1 Hv2 H0 Hlt Hone r1 r2. unfold F32.leb, F32.ltb, F32.gtb in *.
  assert (Hi1 : p1 <> S754_infinity false).
  { intros ->. destruct p2 as [|[]| |[] ? ?]; discriminate. }
  assert (Hi2 : p2 <> S754_infinity false).
  { intros ->. discriminate. }
  assert (H02 : SFleb F32.zero p2 = true).
  { destruct p1 as [s1|[]| |[] m1 e1]; try discriminate; try congruence;
      destruct p2 as [s2|[]| |[] m2 e2]; try discriminate; try reflexivity;
      congruence. }
  pose proof (nonneg32_of_valid p1 Hv1 H0 Hi1) as N1.
  pose proof (nonneg32_of_valid p2 Hv2 H02 Hi2) as N2.
  assert (Hle : SFleb p1 p2 = true).
  { apply (nonneg32_leb _ _ N1 N2). apply (nonneg32_ltb _ _ N1 N2) in Hlt. lia. }
  assert (H1one : SFleb p1 F32.one = true).
  { apply (leb32_trans p1 p2 _ N1 N2
             (positive32_nonneg _ positive32_one) Hle Hone). }
  pose proof (time_to_rate_antitone_core p1 p2 N1 N2 Hle Hone) as H.
  pose proof (time_to_rate_positive p1 (conj N1 H1one)) as P1.
  pose proof (time_to_rate_positive p2 (conj N2 Hone)) as P2.
  fold r1 in H, P1. fold r2 in H, P2.
  pose proof (positive32_nonneg _ P1) as R1.
  pose proof (positive32_nonneg _ P2) as R2.
  pose proof (proj1 (nonneg32_leb _ _ R2 R1) H) as Hu.
  split; [exact P1|]. split; [exact P2|]. split; [exact H|].
  split.
  { destruct (SFltb r1 r2) eqn:E; [|reflexivity].
    apply (nonneg32_ltb _ _ R1 R2) in E. lia. }
  split.
  { intros Hne. apply (nonneg32_ltb _ _ R2 R1).
    destruct (Z.eq_dec (units r2) (units r1)) as [Heq|]; [|lia].
    elim Hne. apply positive32_units_inj; assumption. }
  intros a d s r e.
  cbn [ADSR.set_params attack_rate decay_rate release_rate].
  repeat split; exact H.
Qed.

Lemma rates_decrease_with_time_witness :
  valid_binary 24 128 F32.zero = true
  /\ valid_binary 24 128 (F32.lit 5 1) = true
  /\ F32.leb F32.zero F32.zero = true
  /\ F32.ltb F32.zero (F32.lit 5 1) = true
  /\ F32.leb (F32.lit 5 1) F32.one = true
  /\ F32.leb (ADSR.time_to_rate (F32.lit 5 1)) (ADSR.time_to_rate F32.zero)
     = true
  /\ F32.gtb (ADSR.time_to_rate (F32.lit 5 1)) (ADSR.time_to_rate F32.zero)
     = false.
Proof.
  assert (Hv1 : valid_binary 24 128 F32.zero = true) by reflexivity.
  assert (Hv2 : valid_binary 24 128 (F32.lit 5 1) = true)
    by (vm_compute; reflexivity).
  assert (H0 : F32.leb F32.zero F32.zero = true) by reflexivity.
  assert (Hlt : F32.ltb F32.zero (F32.lit 5 1) = true)
    by (vm_compute; reflexivity).
  assert (H1 : F32.leb (F32.lit 5 1) F32.one = true)
    by (vm_compute; reflexivity).
  split; [exact Hv1|]. split; [exact Hv2|]. split; [exact H0|].
  split; [exact Hlt|]. split; [exact H1|].
  destruct (rates_decrease_with_time F32.zero (F32.lit 5 1)
              Hv1 Hv2 H0 Hlt H1) as (_ & _ & Hle & Hgt & _).
  split; [exact Hle | exact Hgt].
Defined.
(** *** Conversion to Q15 *)

(** The integer part of a non-negative float, from its value in units
    of 2^-149. *)
Lemma trunc_units x :
  nonneg32 x -> F32.trunc x = units x / 2 ^ 149.
Proof.
  intros Hx.
  destruct x as [s| | |[] m e]; cbn [nonneg32] in Hx; try contradiction.
  - reflexivity.
  - pose proof (canon32_facts _ _ Hx) as (He & _).
    cbn [F32.trunc units].
    destruct (Z.leb_spec 0 e) as [H0 | H0].
    + rewrite pow2_add by lia. rewrite Z.mul_assoc.
      rewrite Z.div_mul by (pose proof (pow2_pos 149 ltac:(lia)); lia).
      reflexivity.
    + rewrite (pow2_split 149 (e + 149)) by lia.
      replace (149 - (e + 149)) with (- e) by lia.
      rewrite Z.div_mul_cancel_r;
        [reflexivity | pose proof (pow2_pos (- e) ltac:(lia)); lia
         | pose proof (pow2_pos (e + 149) ltac:(lia)); lia].
Qed.

(** Scaling a value in [0, 1] by a positive integer constant [c] that
    fits 15 bits and truncating: the result is the integer part of the
    product, between 0 and [c], whatever the width it is narrowed to. *)
Lemma unit_scale_trunc c x :
  positive32 (F32.of_int c) ->
  SFmul 24 128 F32.one (F32.of_int c) = F32.of_int c ->
  units (F32.of_int c) = c * 2 ^ 149 -> 0 <= c <= 32767 ->
  unit32 x ->
  nonneg32 (F32.mul x (F32.of_int c))
  /\ F32.to_int16 (F32.mul x (F32.of_int c))
     = F32.trunc (F32.mul x (F32.of_int c))
  /\ 0 <= F32.trunc (F32.mul x (F32.of_int c)) <= c.
Proof.
  intros Hc H1c Hu Hr [Hx Hle].
  pose proof (mul32_mono x F32.one _ Hx
                (positive32_nonneg _ positive32_one) Hc Hle) as Hb.
  rewrite H1c in Hb.
  pose proof (shape_bounded _ _ (mul32_shape x _ Hx Hc) Hc Hb) as Hn.
  unfold F32.to_int16, F32.mul, F32.prec, F32.emax.
  set (y := SFmul 24 128 x (F32.of_int c)) in *.
  split; [exact Hn|].
  apply (nonneg32_leb _ _ Hn (positive32_nonneg _ Hc)) in Hb.
  rewrite Hu in Hb.
  pose proof (units_nonneg y Hn) as H0.
  pose proof (trunc_units y Hn) as Ht.
  assert (Hty : 0 <= F32.trunc y <= c).
  { rewrite Ht. split.
    - apply Z.div_pos; [exact H0 | apply pow2_pos; lia].
    - apply Z.div_le_upper_bound; [apply pow2_pos; lia|]. lia. }
  assert (Hi : F32.to_int32 y = F32.trunc y).
  { unfold F32.to_int32, INT32_MIN, INT32_MAX.
    destruct y as [s| | |[] m e]; cbn [nonneg32] in Hn; try contradiction; lia. }
  rewrite Hi, wrap16_id by (unfold in_int16, INT16_MIN, INT16_MAX; lia).
  split; [reflexivity | exact Hty].
Qed.

Lemma positive32_q15 : positive32 (F32.of_int 32767).
Proof.
  replace (F32.of_int 32767) with (S754_finite false 16776704 (-9))
    by (vm_compute; reflexivity).
  cbn [positive32]. canon.
Qed.

Lemma to_q15_trunc x :
  unit32 x ->
  nonneg32 (F32.mul x (F32.of_int 32767))
  /\ to_q15 x = F32.trunc (F32.mul x (F32.of_int 32767))
  /\ 0 <= to_q15 x <= 32767.
Proof.
  intros Hx. unfold to_q15.
  destruct (unit_scale_trunc 32767 x positive32_q15) as (Hn & E & Hr);
    [vm_compute; reflexivity | vm_compute; reflexivity | lia | exact Hx |].
  split; [exact Hn|]. split; [exact E|]. rewrite E. exact Hr.
Qed.

(** X3. [apply_params_to_voice] hands timbre, colour and resonance to
    the oscillator and the filter as [(int16_t)(x * 32767.0f)].  For a
    stored value in [0, 1] that number is the integer part of the
    product, it lies in [0, 32767] (the narrowing to [int16_t] never
    wraps), and it grows with [x]. *)
Theorem to_q15_in_range (x y : float) :
  unit32 x -> unit32 y -> F32.leb x y = true ->
  0 <= to_q15 x <= to_q15 y /\ to_q15 y <= 32767
  /\ to_q15 x = F32.trunc (F32.mul x (F32.of_int 32767)).
Proof.
  intros Hx Hy Hle.
  destruct (to_q15_trunc x Hx) as (Hnx & Ex & Hrx).
  destruct (to_q15_trunc y Hy) as (Hny & Ey & Hry).
  split; [|split; [lia | exact Ex]]. split; [lia|].
  rewrite Ex, Ey, !trunc_units by assumption.
  apply Z.div_le_mono; [apply pow2_pos; lia|].
  apply (nonneg32_leb _ _ Hnx Hny).
  apply mul32_mono; [apply Hx | apply Hy | exact positive32_q15 | exact Hle].
Qed.

Lemma to_q15_in_range_witness :
  unit32 (F32.lit 5 1) /\ unit32 F32.one
  /\ F32.leb (F32.lit 5 1) F32.one = true
  /\ to_q15 (F32.lit 5 1) = 16383 /\ to_q15 F32.one = 32767
  /\ 0 <= to_q15 (F32.lit 5 1) <= to_q15 F32.one.
Proof.
  assert (H5 : unit32 (F32.lit 5 1)).
  { split; [|vm_compute; reflexivity].
    replace (F32.lit 5 1) with (S754_finite false 8388608 (-24))
      by (vm_compute; reflexivity).
    cbn [nonneg32]. canon. }
  assert (H1 : unit32 F32.one) by apply unit32_one.
  assert (Hle : F32.leb (F32.lit 5 1) F32.one = true)
    by (vm_compute; reflexivity).
  split; [exact H5|]. split; [exact H1|]. split; [exact Hle|].
  split; [vm_compute; reflexivity|]. split; [vm_compute; reflexivity|].
  exact (proj1 (to_q15_in_range (F32.lit 5 1) F32.one H5 H1 Hle)).
Defined.
(** ** Pitch, the mod wheel and the pitch bend *)

Lemma note_to_pitch_exact n :
  -256 <= n <= 242 -> note_to_pitch n = n * 128 + 1724.
Proof.
  intros H. unfold note_to_pitch, PITCH_CORRECTION.
  rewrite (wrap16_id (n * 128))
    by (unfold in_int16, INT16_MIN, INT16_MAX; lia).
  apply wrap16_id. unfold in_int16, INT16_MIN, INT16_MAX. lia.
Qed.

Lemma unit32b_true x : unit32b x = true -> unit32 x.
Proof.
  destruct x as [s| | |[] m e]; cbn [unit32b]; try discriminate; intros H.
  - split; [exact I | destruct s; reflexivity].
  - apply andb_prop in H as [Hb Hl]. split; [|exact Hl].
    cbn [nonneg32]. apply canon32_valid. exact Hb.
Qed.

Section Pitch.

Context {D : Dsp}.

(** X4. No pitch handed to the oscillator overflows [int16_t]: for a
    MIDI note [n] in 0..127 [note_to_pitch] is exactly [n * 128 + 1724],
    and with a mod-wheel amount in [0, 1] the pitch of the render
    callback is that number plus the integer part of
    [fm_amount * 1536] (plus nothing up to 0.001), between 1724 and
    19516.  That pitch is what [render_voice] sets before it renders. *)
Theorem render_pitch_in_range (n : Z) (fm : float) :
  0 <= n <= 127 -> unit32 fm ->
  note_to_pitch n = n * 128 + 1724
  /\ render_pitch fm n
     = n * 128 + 1724
       + (if F32.gtb fm (F32.lit 1 3)
          then F32.trunc (F32.mul fm (F32.of_int 1536)) else 0)
  /\ 1724 <= render_pitch fm n <= 19516
  /\ (forall (inst : braids_instance_t) ctx frames (v : BraidsVoice) out,
        active v = true -> note v = n -> fm_amount ctx = fm ->
        render_voice inst ctx frames v out
        = render_blocks ctx frames frames 0
            (set_osc (osc_set_pitch (render_pitch fm n)
                        (osc (apply_params_to_voice inst v)))
               (apply_params_to_voice inst v)) out).
Proof.
  intros Hn Hfm.
  pose proof (note_to_pitch_exact n ltac:(lia)) as Hp.
  assert (Hc : positive32 (F32.of_int 1536)).
  { replace (F32.of_int 1536) with (S754_finite false 12582912 (-13))
      by (vm_compute; reflexivity).
    cbn [positive32]. canon. }
  destruct (unit_scale_trunc 1536 fm Hc) as (_ & E & Hr);
    [vm_compute; reflexivity | vm_compute; reflexivity | lia | exact Hfm |].
  assert (Hrp : render_pitch fm n
                = n * 128 + 1724
                  + (if F32.gtb fm (F32.lit 1 3)
                     then F32.trunc (F32.mul fm (F32.of_int 1536)) else 0)).
  { unfold render_pitch. rewrite Hp.
    destruct (F32.gtb fm (F32.lit 1 3)); [|lia].
    rewrite E. apply wrap16_id. unfold in_int16, INT16_MIN, INT16_MAX. lia. }
  split; [exact Hp|]. split; [exact Hrp|]. split.
  - rewrite Hrp. destruct (F32.gtb fm (F32.lit 1 3)); lia.
  - intros inst ctx frames v out Ha Hnote Hctx. unfold render_voice.
    rewrite Ha. cbn [negb].
    assert (Hnv : note (apply_params_to_voice inst v) = n)
      by (rewrite <- Hnote; reflexivity).
    unfold render_pitch. rewrite Hnv, Hctx. reflexivity.
Qed.

End Pitch.

Lemma render_pitch_in_range_witness :
  0 <= 60 <= 127 /\ unit32 (F32.lit 5 1)
  /\ note_to_pitch 60 = 9404
  /\ render_pitch (F32.lit 5 1) 60 = 10172
  /\ 1724 <= render_pitch (F32.lit 5 1) 60 <= 19516.
Proof.
  assert (Hn : 0 <= 60 <= 127) by lia.
  assert (H5 : unit32 (F32.lit 5 1))
    by (apply unit32b_true; vm_compute; reflexivity).
  split; [exact Hn|]. split; [exact H5|].
  split; [vm_compute; reflexivity|]. split; [vm_compute; reflexivity|].
  exact (proj1 (proj2 (proj2 (render_pitch_in_range (D := null_dsp) 60
                                (F32.lit 5 1) Hn H5)))).
Defined.
(** ** The mix, frame by frame *)










Section MixTrack.

Context {D : Dsp}.








End MixTrack.

(** ** The size of a contribution *)

Lemma SFmul_comm x y : SFmul 24 128 x y = SFmul 24 128 y x.
Proof.
  destruct x as [sx|sx| |sx mx ex], y as [sy|sy| |sy my ey];
    unfold SFmul; try reflexivity;
    rewrite (xorb_comm sx sy); try reflexivity.
  rewrite (Pos.mul_comm mx my), (Z.add_comm ex ey). reflexivity.
Qed.

Lemma SFmul_opp_l a x :
  nonneg32 a -> nonneg32 x ->
  SFmul 24 128 (SFopp a) x = SFopp (SFmul 24 128 a x).
Proof.
  intros Ha Hx.
  destruct a as [sa| | |[] ma ea]; cbn [nonneg32] in Ha; try contradiction;
    destruct x as [sx| | |[] mx ex]; cbn [nonneg32] in Hx;
    try contradiction.
  - destruct sa, sx; reflexivity.
  - destruct sa; reflexivity.
  - destruct sx; reflexivity.
  - unfold SFopp at 1. unfold SFmul. cbn [negb xorb].
    apply binary_round_aux_opp.
Qed.

Lemma to_int32_opp y :
  nonneg32 y -> 0 <= F32.trunc y <= INT32_MAX ->
  F32.to_int32 y = F32.trunc y
  /\ F32.to_int32 (SFopp y) = - F32.trunc y.
Proof.
  intros Hy Ht. unfold F32.to_int32, INT32_MIN, INT32_MAX in *.
  destruct y as [s| | |[] m e]; cbn [nonneg32] in Hy; try contradiction.
  - cbn. auto.
  - cbn [SFopp negb]. cbn [F32.trunc] in Ht |- *. split; lia.
Qed.


Lemma mul32_nonneg_shape x y :
  nonneg32 x -> nonneg32 y ->
  nonneg32 (SFmul 24 128 x y) \/ SFmul 24 128 x y = S754_infinity false.
Proof.
  intros Hx Hy.
  destruct y as [sy| | |[] my ey] eqn:Ey; cbn [nonneg32] in Hy;
    try contradiction.
  - left. destruct x as [sx| | |[] mx ex]; cbn [nonneg32] in Hx;
      try contradiction; exact I.
  - apply mul32_shape; [exact Hx | exact Hy].
Qed.


Lemma of_int_neg p :
  F32.of_int (Z.neg p) = SFopp (F32.of_int (Z.pos p)).
Proof.
  unfold F32.of_int, F32.prec, F32.emax. cbn [binary_normalize].
  apply binary_round_opp.
Qed.




Section TrackBound.

Context {D : Dsp}.






End TrackBound.

(** ** The gain *)



Section Gain.

Context {D : Dsp}.


End Gain.

(** ** The output mix *)

(** With the volume of a preset file that asks for 1e12 the mix does
    wrap: each of the two held voices contributes [INT32_MAX], the
    first sum clips to 32767, and the second sum, 32767 + INT32_MAX,
    leaves [int32_t], comes back negative and is clipped to -32768,
    where the sum of the two contributions saturates at 32767. *)
Lemma output_mix_wraps :
  F32.leb (get_p (params inst_loud) PARAM_VOLUME) F32.one = false
  /\ frame_contributions inst_loud 1 0 = [2147483647; 2147483647]
  /\ snd (v2_render_block inst_loud 1) = [-32768; -32768]
  /\ accumulate [2147483647] 0 = 32767
  /\ accumulate [2147483647; 2147483647] 0 = -32768
  /\ saturating_sum [2147483647; 2147483647] 0 = 32767.
Proof. repeat split; vm_compute; reflexivity. Qed.

Section OutputMix.

Context {D : Dsp}.


End OutputMix.

Lemma forallb_bytes (f : Z -> bool) :
  forallb f (map Z.of_nat (seq 0 128)) = true ->
  forall k, data_byte k -> f k = true.
Proof.
  intros H k [H0 H1]. apply (forallb_range f 128 H). lia.
Qed.

(** The mod wheel, over all 128 data bytes. *)
Lemma mod_wheel_values d :
  data_byte d -> unit32 (F32.div (F32.of_int d) (F32.of_int 127)).
Proof.
  intros Hd. apply unit32b_true.
  apply (forallb_bytes
           (fun d => unit32b (F32.div (F32.of_int d) (F32.of_int 127))));
    [vm_compute; reflexivity | exact Hd].
Qed.

(** The bend offset, over all 128 x 128 pairs of data bytes. *)
Lemma bend_values d1 d2 :
  data_byte d1 -> data_byte d2 ->
  bend_of d1 d2 = d2 * 128 + d1 - 8192
  /\ bend_offset d1 d2 = Z.quot (d2 * 128 + d1 - 8192) 32
  /\ -256 <= Z.quot (d2 * 128 + d1 - 8192) 32 <= 255.
Proof.
  intros H1 H2.
  pose (chk := fun d2 d1 =>
          (bend_of d1 d2 =? d2 * 128 + d1 - 8192)
          && (bend_offset d1 d2 =? Z.quot (d2 * 128 + d1 - 8192) 32)
          && (-256 <=? Z.quot (d2 * 128 + d1 - 8192) 32)
          && (Z.quot (d2 * 128 + d1 - 8192) 32 <=? 255)).
  assert (Hall : forallb (fun d2 => forallb (chk d2) (map Z.of_nat (seq 0 128)))
                         (map Z.of_nat (seq 0 128)) = true)
    by (vm_compute; reflexivity).
  pose proof (forallb_bytes _ Hall d2 H2) as Hrow. cbv beta in Hrow.
  pose proof (forallb_bytes _ Hrow d1 H1) as Hc. unfold chk in Hc.
  apply andb_prop in Hc as [Hc Hhi]. apply andb_prop in Hc as [Hc Hlo].
  apply andb_prop in Hc as [Ha Hb].
  split; [apply Z.eqb_eq, Ha|]. split; [apply Z.eqb_eq, Hb|].
  split; [apply Z.leb_le, Hlo | apply Z.leb_le, Hhi].
Qed.

Section MidiControllers.

Context {D : Dsp}.

(** X5. A control change for controller 1 (the mod wheel) with a data
    byte [d] in 0..127 stores [d / 127.0f] in the FM slot: a number in
    [0, 1], 0 for 0 and 1 for 127.  No other slot, no voice and
    nothing else of the instance changes. *)
Theorem mod_wheel_sets_fm (inst : braids_instance_t) (b0 d : Z)
    (tl : list Z) :
  Z.land b0 240 = 176 -> data_byte d ->
  length (params inst) = PARAM_COUNT ->
  let inst' := v2_on_midi inst (b0 :: 1 :: d :: tl) in
  let x := F32.div (F32.of_int d) (F32.of_int 127) in
  inst' = set_params (set_p (params inst) PARAM_FM x) inst
  /\ get_p (params inst') PARAM_FM = x
  /\ unit32 x
  /\ (d = 0 -> x = F32.zero) /\ (d = 127 -> x = F32.one)
  /\ (forall i, i <> PARAM_FM -> get_p (params inst') i = get_p (params inst) i)
  /\ voices inst' = voices inst
  /\ octave_transpose inst' = octave_transpose inst
  /\ voice_counter inst' = voice_counter inst.
Proof.
  intros Hs Hd Hlen inst' x.
  assert (E : inst' = set_params (set_p (params inst) PARAM_FM x) inst).
  { unfold inst', v2_on_midi. rewrite Hs. reflexivity. }
  split; [exact E|]. rewrite E. cbn [params set_params voices octave_transpose
                                     voice_counter].
  split.
  { unfold get_p, set_p. rewrite list_lookup_insert_eq; [reflexivity|].
    rewrite Hlen. unfold PARAM_FM, PARAM_COUNT. lia. }
  split; [apply mod_wheel_values, Hd|].
  split; [intros ->; vm_compute; reflexivity|].
  split; [intros ->; vm_compute; reflexivity|].
  split; [|repeat split].
  intros i Hi. unfold get_p, set_p.
  rewrite list_lookup_insert_ne by congruence. reflexivity.
Qed.

(** X6. A pitch-bend message with data bytes in 0..127 carries the
    bend [data2 * 128 + data1 - 8192]; every active voice gets the
    pitch of its note plus [bend / 32] rounded toward zero, at most two
    semitones (256 units) away, and for notes 0..127 that sum does not
    overflow.  Inactive voices and the rest of the instance are left as
    they were; at the centre (data2 = 64, data1 = 0) the offset is 0. *)
Theorem pitch_bend_offsets (inst : braids_instance_t) (b0 d1 d2 : Z)
    (tl : list Z) :
  Z.land b0 240 = 224 -> data_byte d1 -> data_byte d2 ->
  let inst' := v2_on_midi inst (b0 :: d1 :: d2 :: tl) in
  let off := Z.quot (d2 * 128 + d1 - 8192) 32 in
  -256 <= off <= 255
  /\ bend_offset d1 d2 = off
  /\ (d2 = 64 -> d1 = 0 -> off = 0)
  /\ params inst' = params inst
  /\ voice_counter inst' = voice_counter inst
  /\ length (voices inst') = length (voices inst)
  /\ (forall (j : nat) v, voices inst !! j = Some v ->
        voices inst' !! j
        = Some (if active v
                then set_osc (osc_set_pitch
                                (wrap16 (note_to_pitch (note v) + off))
                                (osc v)) v
                else v))
  /\ (forall n, 0 <= n <= 127 ->
        wrap16 (note_to_pitch n + off) = n * 128 + 1724 + off).
Proof.
  intros Hs H1 H2 inst' off.
  destruct (bend_values d1 d2 H1 H2) as (Eb & Eo & Hoff).
  fold off in Eo, Hoff.
  assert (E : inst' = set_voices
                        (map (bend_voice (bend_semitones_of (bend_of d1 d2)))
                             (voices inst)) inst).
  { unfold inst', v2_on_midi. rewrite Hs. reflexivity. }
  split; [exact Hoff|]. split; [exact Eo|].
  split; [intros -> ->; reflexivity|].
  rewrite E. cbn [params voices set_voices voice_counter].
  split; [reflexivity|]. split; [reflexivity|].
  split; [apply length_map|]. split.
  - intros j v Hj. rewrite list_lookup_fmap, Hj. cbn [fmap option_fmap option_map].
    f_equal. unfold bend_voice. destruct (active v); [|reflexivity].
    change (F32.to_int16 (F32.mul (bend_semitones_of (bend_of d1 d2))
                            (F32.of_int 128)))
      with (bend_offset d1 d2).
    rewrite Eo. reflexivity.
  - intros n Hn. rewrite note_to_pitch_exact by lia.
    apply wrap16_id. unfold in_int16, INT16_MIN, INT16_MAX. lia.
Qed.

(** X7. Messages that [v2_on_midi] has no case for leave the instance
    exactly as it was: fewer than two bytes, a status nibble other
    than note off, note on, control change and pitch bend, and control
    changes for any controller but the mod wheel. *)
Theorem on_midi_ignores (inst : braids_instance_t) (msg : list Z) :
  (length msg < 2)%nat
  \/ (exists b0 d1 rest, msg = b0 :: d1 :: rest
        /\ Z.land b0 240 <> 128 /\ Z.land b0 240 <> 144
        /\ Z.land b0 240 <> 176 /\ Z.land b0 240 <> 224)
  \/ (exists b0 d1 rest, msg = b0 :: d1 :: rest
        /\ Z.land b0 240 = 176 /\ d1 <> 1) ->
  v2_on_midi inst msg = inst.
Proof.
  intros [Hlen | [(b0 & d1 & rest & -> & H1 & H2 & H3 & H4)
                 | (b0 & d1 & rest & -> & Hs & Hd)]].
  - destruct msg as [|a [|b r]]; cbn in Hlen; try lia; reflexivity.
  - unfold v2_on_midi.
    destruct (Z.eqb_spec (Z.land b0 240) 144); [contradiction|].
    destruct (Z.eqb_spec (Z.land b0 240) 128); [contradiction|].
    destruct (Z.eqb_spec (Z.land b0 240) 176); [contradiction|].
    destruct (Z.eqb_spec (Z.land b0 240) 224); [contradiction|].
    reflexivity.
  - unfold v2_on_midi. rewrite Hs. cbn [Z.eqb Pos.eqb orb].
    destruct (Z.eqb_spec d1 1); [contradiction | reflexivity].
Qed.

End MidiControllers.

Lemma mod_wheel_sets_fm_witness :
  Z.land 176 240 = 176 /\ data_byte 64
  /\ length (params inst_init) = PARAM_COUNT
  /\ get_p (params (v2_on_midi inst_init [176; 1; 64])) PARAM_FM
     = F32.div (F32.of_int 64) (F32.of_int 127)
  /\ unit32 (F32.div (F32.of_int 64) (F32.of_int 127)).
Proof.
  assert (Hs : Z.land 176 240 = 176) by reflexivity.
  assert (Hd : data_byte 64) by (unfold data_byte; lia).
  assert (Hl : length (params inst_init) = PARAM_COUNT) by reflexivity.
  split; [exact Hs|]. split; [exact Hd|]. split; [exact Hl|].
  destruct (mod_wheel_sets_fm inst_init 176 64 [] Hs Hd Hl)
    as (_ & Hfm & Hu & _).
  split; [exact Hfm | exact Hu].
Defined.

Lemma pitch_bend_offsets_witness :
  Z.land 224 240 = 224 /\ data_byte 0 /\ data_byte 127
  /\ bend_offset 0 127 = 252
  /\ -256 <= Z.quot (127 * 128 + 0 - 8192) 32 <= 255.
Proof.
  assert (Hs : Z.land 224 240 = 224) by reflexivity.
  assert (H1 : data_byte 0) by (unfold data_byte; lia).
  assert (H2 : data_byte 127) by (unfold data_byte; lia).
  split; [exact Hs|]. split; [exact H1|]. split; [exact H2|].
  destruct (pitch_bend_offsets inst_init 224 0 127 [] Hs H1 H2)
    as (Hr & Ho & _).
  split; [exact Ho | exact Hr].
Defined.

Lemma on_midi_ignores_witness :
  ((length [248] < 2)%nat
   \/ (exists b0 d1 rest, [248] = b0 :: d1 :: rest
         /\ Z.land b0 240 <> 128 /\ Z.land b0 240 <> 144
         /\ Z.land b0 240 <> 176 /\ Z.land b0 240 <> 224)
   \/ (exists b0 d1 rest, [248] = b0 :: d1 :: rest
         /\ Z.land b0 240 = 176 /\ d1 <> 1))
  /\ v2_on_midi inst_init [248] = inst_init.
Proof.
  assert (H : (length [248] < 2)%nat
   \/ (exists b0 d1 rest, [248] = b0 :: d1 :: rest
         /\ Z.land b0 240 <> 128 /\ Z.land b0 240 <> 144
         /\ Z.land b0 240 <> 176 /\ Z.land b0 240 <> 224)
   \/ (exists b0 d1 rest, [248] = b0 :: d1 :: rest
         /\ Z.land b0 240 = 176 /\ d1 <> 1))
    by (left; cbn; lia).
  split; [exact H|]. exact (on_midi_ignores inst_init [248] H).
Defined.
(** ** Note on, note off *)

Section NoteMessages.

Context {D : Dsp}.

Lemma find_free_voice_index (inst : braids_instance_t) :
  length (voices inst) = MAX_VOICES ->
  exists (r : nat) v,
    find_free_voice inst = Z.of_nat r /\ voices inst !! r = Some v.
Proof.
  intros Hlen. unfold find_free_voice.
  destruct (first_inactive (voices inst) 0) as [r|] eqn:Hf.
  - destruct (first_inactive_some _ _ _ Hf) as (k & v & -> & Hk & _).
    exists k, v. split; [lia | exact Hk].
  - destruct (voices inst) as [|v0 vs] eqn:Hvs; [discriminate Hlen|].
    destruct (scan_oldest_min [v0] vs 0 v0) as (r & vr & Hr & Hl & _).
    + reflexivity.
    + intros [|j] w Hj; cbn in Hj; [injection Hj as <-; lia | discriminate].
    + cbn in Hr, Hl. exists r, vr. split; [exact Hr | exact Hl].
Qed.

Lemma transposed_note_range (inst : braids_instance_t) d :
  0 <= transposed_note inst d <= 127.
Proof. unfold transposed_note. lia. Qed.

Lemma on_midi_note_on (inst : braids_instance_t) b0 d1 d2 tl :
  Z.land b0 240 = 144 -> 0 < d2 ->
  v2_on_midi inst (b0 :: d1 :: d2 :: tl)
  = let counter := wrap32 (voice_counter inst + 1) in
    let inst1 := set_voice_counter counter inst in
    update_voice (Z.to_nat (find_free_voice inst))
      (start_voice inst1 (transposed_note inst d1) d2 counter) inst1.
Proof.
  intros Hs Hv. unfold v2_on_midi. rewrite Hs. cbn [Z.eqb Pos.eqb orb].
  rewrite transposed_note_eq.
  destruct (Z.ltb_spec 0 d2); [reflexivity | lia].
Qed.

(** X8. A note-on with a velocity above 0 starts exactly one voice, the
    one [find_free_voice] names.  That voice takes the transposed note
    (always within 0..127) and the velocity, is active and gated, and
    is stamped with the incremented voice counter; both envelopes enter
    the attack stage from the level they had (a stolen voice is not
    reset to 0) with rates derived from the current parameters; the
    oscillator is given the note's pitch, shape and parameters, then
    struck.  Every other voice, the parameters, the octave transpose
    and the presets stay as they were. *)
Theorem note_on_starts_voice (inst : braids_instance_t) (b0 d1 d2 : Z)
    (tl : list Z) :
  Z.land b0 240 = 144 -> 0 < d2 -> length (voices inst) = MAX_VOICES ->
  let inst' := v2_on_midi inst (b0 :: d1 :: d2 :: tl) in
  let n := transposed_note inst d1 in
  let ps := params inst in
  exists (r : nat) v v',
    find_free_voice inst = Z.of_nat r
    /\ voices inst !! r = Some v /\ voices inst' !! r = Some v'
    /\ 0 <= n <= 127
    /\ note v' = n /\ velocity v' = d2 /\ active v' = true /\ gate v' = true
    /\ age v' = wrap32 (voice_counter inst + 1)
    /\ voice_counter inst' = wrap32 (voice_counter inst + 1)
    /\ amp_env v'
       = ADSR.gate_on
           (ADSR.set_params (get_p ps PARAM_ATTACK) (get_p ps PARAM_DECAY)
              (get_p ps PARAM_SUSTAIN) (get_p ps PARAM_RELEASE) (amp_env v))
    /\ filt_env v'
       = ADSR.gate_on
           (ADSR.set_params (get_p ps PARAM_F_ATTACK) (get_p ps PARAM_F_DECAY)
              (get_p ps PARAM_F_SUSTAIN) (get_p ps PARAM_F_RELEASE)
              (filt_env v))
    /\ stage (amp_env v') = ATTACK /\ stage (filt_env v') = ATTACK
    /\ level (amp_env v') = level (amp_env v)
    /\ level (filt_env v') = level (filt_env v)
    /\ osc v'
       = osc_Strike
           (osc_set_parameters (to_q15 (get_p ps PARAM_TIMBRE))
              (to_q15 (get_p ps PARAM_COLOR))
              (osc_set_shape (shape_of ps)
                 (osc_set_pitch (note_to_pitch n) (osc v))))
    /\ (forall j : nat, j <> r -> voices inst' !! j = voices inst !! j)
    /\ length (voices inst') = length (voices inst)
    /\ params inst' = params inst
    /\ octave_transpose inst' = octave_transpose inst
    /\ presets inst' = presets inst
    /\ current_preset inst' = current_preset inst.
Proof.
  intros Hs Hv Hlen inst' n ps.
  destruct (find_free_voice_index inst Hlen) as (r & v & Hr & Hrv).
  exists r, v.
  assert (E : inst' = update_voice r
                (start_voice (set_voice_counter (wrap32 (voice_counter inst + 1))
                                inst) n d2 (wrap32 (voice_counter inst + 1)))
                (set_voice_counter (wrap32 (voice_counter inst + 1)) inst)).
  { unfold inst'. rewrite on_midi_note_on by assumption. cbv zeta.
    rewrite Hr, Nat2Z.id. reflexivity. }
  set (inst1 := set_voice_counter (wrap32 (voice_counter inst + 1)) inst) in *.
  assert (Hlk : forall j : nat,
             voices inst' !! j
             = if decide (r = j)
               then start_voice inst1 n d2 (wrap32 (voice_counter inst + 1))
                      <$> (voices inst !! j)
               else voices inst !! j).
  { intros j. rewrite E. apply (update_voice_lookup inst1). }
  exists (start_voice inst1 n d2 (wrap32 (voice_counter inst + 1)) v).
  split; [exact Hr|]. split; [exact Hrv|].
  split.
  { rewrite Hlk. destruct (decide (r = r)); [|congruence]. rewrite Hrv.
    reflexivity. }
  split; [apply transposed_note_range|].
  do 5 (split; [reflexivity|]).
  split.
  { rewrite E. unfold update_voice. cbn [voices set_voice_counter inst1].
    destruct (voices inst !! r); reflexivity. }
  do 7 (split; [reflexivity|]).
  split.
  { intros j Hj. rewrite Hlk. destruct (decide (r = j)); [congruence|].
    reflexivity. }
  rewrite E. unfold update_voice. cbn [voices set_voice_counter inst1].
  rewrite Hrv. cbn [voices set_voices params octave_transpose presets
                    current_preset].
  split; [apply length_insert|]. repeat split.
Qed.

(** Clearing the gate of one holder lowers the count by one. *)
Lemma held_count_release (vs : list BraidsVoice) n (k : nat) v w :
  vs !! k = Some v -> held n v = true -> held n w = false ->
  (held_count n (<[ k := w ]> vs) + 1 = held_count n vs)%nat.
Proof.
  revert k. induction vs as [|x vs IH]; intros [|k] Hk Hv Hw;
    cbn in Hk; try discriminate.
  - injection Hk as ->. cbn [held_count]. change (<[0%nat:=w]> (v :: vs))
      with (w :: vs). cbn [held_count]. rewrite Hv, Hw. lia.
  - change (<[S k:=w]> (x :: vs)) with (x :: <[k:=w]> vs).
    cbn [held_count]. specialize (IH k Hk Hv Hw). lia.
Qed.

Lemma held_count_pos (vs : list BraidsVoice) n (k : nat) v :
  vs !! k = Some v -> held n v = true -> (1 <= held_count n vs)%nat.
Proof.
  revert k. induction vs as [|x vs IH]; intros [|k] Hk Hv;
    cbn in Hk; try discriminate; cbn [held_count].
  - injection Hk as ->. rewrite Hv. lia.
  - specialize (IH k Hk Hv). lia.
Qed.

Lemma held_release_voice n (v : BraidsVoice) : held n (release_voice v) = false.
Proof. unfold held, release_voice. cbn. apply andb_false_r. Qed.

(** A note-off for a note that some voice holds releases the first
    holder and nobody else. *)
Lemma note_off_releases_one (inst : braids_instance_t) b0 d1 rest :
  Z.land b0 240 = 128 ->
  (exists (j : nat) w, voices inst !! j = Some w
                       /\ held (transposed_note inst d1) w = true) ->
  let n := transposed_note inst d1 in
  let inst' := v2_on_midi inst (b0 :: d1 :: rest) in
  exists (k : nat) v,
    find_voice_for_note inst n = Z.of_nat k
    /\ voices inst !! k = Some v /\ held n v = true
    /\ voices inst' = <[ k := release_voice v ]> (voices inst)
    /\ (held_count n (voices inst') + 1 = held_count n (voices inst))%nat
    /\ forall (j : nat) w, (j < k)%nat -> voices inst !! j = Some w ->
                           held n w = false.
Proof.
  intros Hs Hex n inst'.
  destruct (scan_note_spec [] (voices inst) n (-1)) as [Hheld _].
  destruct (Hheld Hex) as (k & v & Hk & Hv & Hh & Hfirst).
  change (Z.of_nat (length (@nil BraidsVoice))) with 0 in Hk.
  change (length (@nil BraidsVoice) + k)%nat with k in Hk.
  exists k, v. split; [exact Hk|]. split; [exact Hv|]. split; [exact Hh|].
  assert (E : voices inst' = <[ k := release_voice v ]> (voices inst)).
  { unfold inst'. rewrite on_midi_note_off by exact Hs. cbv zeta.
    fold n. unfold find_voice_for_note. rewrite Hk.
    destruct (Z.leb_spec 0 (Z.of_nat k)); [|lia].
    rewrite Nat2Z.id. unfold update_voice. rewrite Hv. reflexivity. }
  split; [exact E|]. split; [|exact Hfirst]. rewrite E.
  apply (held_count_release _ n k v); [exact Hv | exact Hh|].
  apply held_release_voice.
Qed.

(** After a note-on some voice holds the note, and the transpose is
    as before. *)
Lemma note_on_holds (inst : braids_instance_t) b0 d1 d2 tl :
  Z.land b0 240 = 144 -> 0 < d2 -> length (voices inst) = MAX_VOICES ->
  let inst' := v2_on_midi inst (b0 :: d1 :: d2 :: tl) in
  octave_transpose inst' = octave_transpose inst
  /\ exists (r : nat) v',
       voices inst' !! r = Some v'
       /\ held (transposed_note inst d1) v' = true.
Proof.
  intros Hs Hv Hlen inst'.
  destruct (find_free_voice_index inst Hlen) as (r & v & Hr & Hrv).
  unfold inst'. rewrite on_midi_note_on by assumption. cbv zeta.
  rewrite Hr, Nat2Z.id.
  set (inst1 := set_voice_counter (wrap32 (voice_counter inst + 1)) inst).
  split.
  { unfold update_voice. cbn [voices set_voice_counter inst1].
    rewrite Hrv. reflexivity. }
  exists r. eexists. split.
  { rewrite (update_voice_lookup inst1).
    destruct (decide (r = r)); [|congruence].
    cbn [voices set_voice_counter inst1]. rewrite Hrv. reflexivity. }
  unfold held, sounding. cbn [active note gate start_voice retrigger set_osc
    apply_params_to_voice set_svf set_amp_env set_filt_env].
  rewrite Z.eqb_refl. reflexivity.
Qed.

(** X9. A note-on followed by the note-off for the same key always
    finds a voice to release: after the note-on at least one voice
    holds the note, the note-off clears the gate of exactly one holder
    (the first in index order) and sends its envelopes to release, and
    the number of voices holding the note drops by one. *)
Theorem note_on_then_off (inst : braids_instance_t) (b0 b1 d1 d2 vel : Z) :
  Z.land b0 240 = 144 -> Z.land b1 240 = 128 -> 0 < d2 ->
  length (voices inst) = MAX_VOICES ->
  let n := transposed_note inst d1 in
  let inst1 := v2_on_midi inst [b0; d1; d2] in
  let inst2 := v2_on_midi inst1 [b1; d1; vel] in
  (1 <= held_count n (voices inst1))%nat
  /\ (held_count n (voices inst2) + 1 = held_count n (voices inst1))%nat
  /\ exists (k : nat) v,
       find_voice_for_note inst1 n = Z.of_nat k
       /\ voices inst1 !! k = Some v /\ held n v = true
       /\ voices inst2 = <[ k := release_voice v ]> (voices inst1)
       /\ voices inst2 !! k = Some (release_voice v)
       /\ gate (release_voice v) = false
       /\ active (release_voice v) = true
       /\ amp_env (release_voice v) = ADSR.gate_off (amp_env v)
       /\ filt_env (release_voice v) = ADSR.gate_off (filt_env v)
       /\ forall (j : nat) w, (j < k)%nat -> voices inst1 !! j = Some w ->
                              held n w = false.
Proof.
  intros Hs0 Hs1 Hv Hlen n inst1 inst2.
  destruct (note_on_holds inst b0 d1 d2 [] Hs0 Hv Hlen)
    as (Hoct & r & v0' & Hr' & Hheld).
  fold inst1 in Hr', Hoct. fold n in Hheld.
  assert (Hn1 : transposed_note inst1 d1 = n).
  { unfold transposed_note, n. rewrite Hoct. reflexivity. }
  destruct (note_off_releases_one inst1 b1 d1 [vel] Hs1) as
    (k & v & Hk & Hkv & Hh & E & Hc & Hfirst).
  { exists r, v0'. rewrite Hn1. split; [exact Hr' | exact Hheld]. }
  rewrite Hn1 in Hk, Hh, Hc, Hfirst. fold inst2 in E, Hc.
  split; [apply (held_count_pos _ n r v0' Hr' Hheld)|].
  split; [exact Hc|].
  exists k, v. split; [exact Hk|]. split; [exact Hkv|]. split; [exact Hh|].
  split; [exact E|]. split.
  { rewrite E. apply list_lookup_insert_eq. eapply lookup_lt_Some; eauto. }
  unfold held, sounding in Hh.
  apply andb_prop in Hh as [Hh _]. apply andb_prop in Hh as [Hact _].
  do 4 (split; [reflexivity || exact Hact|]). exact Hfirst.
Qed.

End NoteMessages.

Lemma note_on_starts_voice_witness :
  Z.land 144 240 = 144 /\ 0 < 100 /\ length (voices inst_init) = MAX_VOICES
  /\ exists (r : nat) v',
       find_free_voice inst_init = Z.of_nat r
       /\ voices (v2_on_midi inst_init [144; 60; 100]) !! r = Some v'
       /\ note v' = 60 /\ velocity v' = 100 /\ active v' = true
       /\ stage (amp_env v') = ATTACK.
Proof.
  assert (Hs : Z.land 144 240 = 144) by reflexivity.
  assert (Hv : 0 < 100) by lia.
  assert (Hl : length (voices inst_init) = MAX_VOICES) by reflexivity.
  split; [exact Hs|]. split; [exact Hv|]. split; [exact Hl|].
  destruct (note_on_starts_voice inst_init 144 60 100 [] Hs Hv Hl)
    as (r & v & v' & Hr & _ & Hr' & _ & Hn & Hvel & Ha & _ & _ & _ & _ & _
        & Hst & _).
  exists r, v'. split; [exact Hr|]. split; [exact Hr'|].
  split; [rewrite Hn; vm_compute; reflexivity|].
  split; [exact Hvel|]. split; [exact Ha | exact Hst].
Defined.

Lemma note_on_then_off_witness :
  Z.land 144 240 = 144 /\ Z.land 128 240 = 128 /\ 0 < 100
  /\ length (voices inst_init) = MAX_VOICES
  /\ Nat.add
       (held_count (transposed_note inst_init 60)
          (voices (v2_on_midi (v2_on_midi inst_init [144; 60; 100])
                     [128; 60; 0]))) 1
     = held_count (transposed_note inst_init 60)
         (voices (v2_on_midi inst_init [144; 60; 100])).
Proof.
  assert (Hs0 : Z.land 144 240 = 144) by reflexivity.
  assert (Hs1 : Z.land 128 240 = 128) by reflexivity.
  assert (Hv : 0 < 100) by lia.
  assert (Hl : length (voices inst_init) = MAX_VOICES) by reflexivity.
  split; [exact Hs0|]. split; [exact Hs1|]. split; [exact Hv|].
  split; [exact Hl|].
  exact (proj1 (proj2 (note_on_then_off inst_init 144 128 60 100 0
                         Hs0 Hs1 Hv Hl))).
Defined.
(** ** The JSON helpers *)

Lemma copy_until_quote_spec room s :
  let out := copy_until_quote room s in
  (String.length out <= room)%nat /\ no_dquote out = true
  /\ String.prefix out s = true.
Proof.
  assert (Hnil : forall n t, (String.length "" <= n)%nat /\ no_dquote "" = true
                             /\ String.prefix "" t = true).
  { intros n t. split; [cbn; lia|]. split; [reflexivity|].
    destruct t; reflexivity. }
  revert s. induction room as [|k IH]; intros [|c r]; cbn [copy_until_quote];
    cbv zeta; try apply Hnil.
  destruct (Ascii.eqb_spec c dquote) as [-> | Hne]; [apply Hnil|].
  destruct (IH r) as (Hl & Hq & Hp).
  {
    split; [cbn [String.length]; lia|]. split.
    - cbn [no_dquote]. rewrite Hq.
      destruct (Ascii.eqb_spec c dquote); [contradiction | reflexivity].
    - rewrite str_prefix_cons. destruct (ascii_dec c c); [exact Hp | congruence]. }
Qed.

(** X10. When [json_get_string] succeeds, what it copied fits the
    buffer with room for the terminating NUL (at most [out_len - 1]
    bytes), holds no double quote, and is the beginning of the text
    that follows the key's opening quote.  It fails exactly when the
    key is not in the text or the first non-blank after it is not a
    double quote. *)
Theorem json_get_string_bounded (json key : string) (out_len : nat) :
  match json_get_string json key out_len with
  | Some s =>
      (String.length s <= out_len - 1)%nat /\ no_dquote s = true
      /\ exists pos r,
           strstr json (json_search key) = Some pos
           /\ skip_spaces (advance (String.length (json_search key)) pos)
              = String dquote r
           /\ String.prefix s r = true
  | None =>
      strstr json (json_search key) = None
      \/ exists pos,
           strstr json (json_search key) = Some pos
           /\ forall r,
                skip_spaces (advance (String.length (json_search key)) pos)
                <> String dquote r
  end.
Proof.
  unfold json_get_string.
  destruct (strstr json (json_search key)) as [pos|] eqn:Hs; [|left; reflexivity].
  destruct (skip_spaces (advance (String.length (json_search key)) pos))
    as [|c r] eqn:Hr.
  - right. exists pos. split; [reflexivity|]. intros r E.
    rewrite Hr in E. discriminate.
  - destruct (Ascii.eqb_spec c dquote) as [-> | Hne].
    + destruct (copy_until_quote_spec (out_len - 1) r) as (Hl & Hq & Hp).
      split; [exact Hl|]. split; [exact Hq|].
      exists pos, r. split; [reflexivity|]. split; [exact Hr | exact Hp].
    + right. exists pos. split; [reflexivity|].
      intros r' E. rewrite Hr in E. injection E as E _. contradiction.
Qed.

Lemma match_dot_other c rest (ip : Z) :
  c <> "."%char ->
  match String c rest with
  | String "." r => read_digits r ip 0
  | _ => (ip, 0, String c rest)
  end = (ip, 0, String c rest).
Proof.
  intros H. destruct c as [[] [] [] [] [] [] [] []]; try reflexivity;
    congruence.
Qed.

(** [atof] of a text that does not begin with a numeral is 0.0. *)
Lemma atof_no_numeral s :
  match s with
  | EmptyString => True
  | String c _ =>
      isspace c = false /\ isdigit c = false
      /\ c <> "-"%char /\ c <> "+"%char /\ c <> "."%char
      /\ starts_with_ci "inf" s = false /\ starts_with_ci "nan" s = false
  end ->
  atof s = S754_zero false.
Proof.
  destruct s as [|c r]; [reflexivity|].
  intros (Hsp & Hd & Hm & Hp & Hdot & Hinf & Hnan).
  unfold atof. cbn [skip_ws]. rewrite Hsp.
  rewrite read_sign_other by assumption. rewrite Hinf, Hnan.
  cbn [read_digits]. rewrite Hd.
  rewrite match_dot_other by assumption. reflexivity.
Qed.

(** X11. [json_get_number] never reports a malformed value: once the
    key is found it returns success, with whatever [atof] reads after
    the key and the blanks that follow it, and when that text does not
    begin with a numeral - a quoted string, [null], [true], a bracket,
    or nothing at all - the number it stores is 0.0. *)
Theorem json_get_number_no_numeral (json key pos : string) :
  strstr json (json_search key) = Some pos ->
  let rest := skip_spaces (advance (String.length (json_search key)) pos) in
  json_get_number json key = Some (F64.to_float (atof rest))
  /\ (match rest with
      | EmptyString => True
      | String c r =>
          isspace c = false /\ isdigit c = false
          /\ c <> "-"%char /\ c <> "+"%char /\ c <> "."%char
          /\ starts_with_ci "inf" (String c r) = false
          /\ starts_with_ci "nan" (String c r) = false
      end ->
      json_get_number json key = Some (S754_zero false)).
Proof.
  intros Hs rest. unfold json_get_number. rewrite Hs. fold rest.
  split; [reflexivity|]. intros Hrest.
  destruct rest as [|c r]; [reflexivity|].
  rewrite (atof_no_numeral (String c r) Hrest). reflexivity.
Qed.

Lemma json_get_number_no_numeral_witness :
  strstr (json_text "{'timbre':null}") (json_search "timbre")
  = Some (json_text "'timbre':null}")
  /\ json_get_number (json_text "{'timbre':null}") "timbre"
     = Some (S754_zero false).
Proof.
  assert (Hs : strstr (json_text "{'timbre':null}") (json_search "timbre")
               = Some (json_text "'timbre':null}"))
    by (vm_compute; reflexivity).
  split; [exact Hs|].
  apply (proj2 (json_get_number_no_numeral _ _ _ Hs)).
  vm_compute. repeat split; discriminate.
Defined.

(** ** Preset file names *)

Lemma str_length_app (a b : string) :
  String.length (a ++ b) = (String.length a + String.length b)%nat.
Proof. induction a as [|x a IH]; cbn; [reflexivity | rewrite IH; reflexivity]. Qed.

Lemma str_take_advance n s : (str_take n s ++ advance n s)%string = s.
Proof.
  revert s. induction n as [|n IH]; intros [|c r]; cbn; try reflexivity.
  rewrite IH. reflexivity.
Qed.

Lemma str_take_length n s :
  (n <= String.length s)%nat -> String.length (str_take n s) = n.
Proof.
  revert s. induction n as [|n IH]; intros [|c r] H; cbn in *; try lia.
  rewrite IH by lia. reflexivity.
Qed.

Lemma str_take_length_le n s : (String.length (str_take n s) <= n)%nat.
Proof.
  revert s. induction n as [|n IH]; intros [|c r]; cbn; try lia.
  specialize (IH r). lia.
Qed.

Lemma collect_filenames_length room (d : directory) :
  (length (collect_filenames room d) <= room)%nat.
Proof.
  revert room. induction d as [|[nm f] d IH]; intros [|k];
    cbn [collect_filenames]; try (cbn; lia).
  destruct (is_braids_file nm); [|apply IH].
  specialize (IH k). cbn [length]. lia.
Qed.

(** X12. [load_presets] takes a directory entry for a preset exactly
    when its name is some non-empty stem followed by [.braids]; a file
    called just [.braids] is skipped.  It collects at most the first
    [room] such entries, each of them a preset file name. *)
Theorem is_braids_file_spec (name : string) :
  (is_braids_file name = true
   <-> exists stem, stem <> EmptyString /\ name = (stem ++ ".braids")%string)
  /\ forall room (d : directory),
       (length (collect_filenames room d) <= room)%nat
       /\ Forall (fun e => is_braids_file (fst e) = true)
                 (collect_filenames room d).
Proof.
  split.
  - unfold is_braids_file. split.
    + intros H. apply andb_prop in H as [Hlen Hsuf].
      apply Nat.ltb_lt in Hlen. apply String.eqb_eq in Hsuf.
      exists (str_take (String.length name - 7) name). split.
      * intros E. apply (f_equal String.length) in E.
        rewrite str_take_length in E by lia. cbn in E. lia.
      * rewrite <- Hsuf. symmetry. apply str_take_advance.
    + intros (stem & Hne & ->). rewrite str_length_app.
      change (String.length ".braids") with 7%nat.
      apply andb_true_intro. split.
      * apply Nat.ltb_lt. destruct stem; [congruence | cbn; lia].
      * replace (String.length stem + 7 - 7)%nat with (String.length stem)
          by lia.
        rewrite advance_app. reflexivity.
  - intros room d. revert room.
    induction d as [|[nm f] d IH]; intros [|k]; cbn [collect_filenames];
      try (split; [cbn; lia | constructor]).
    destruct (is_braids_file nm) eqn:Hb.
    + destruct (IH k) as [Hl Hf]. split; [cbn; lia|].
      constructor; [exact Hb | exact Hf].
    + apply IH.
Qed.
(** ** Loading presets *)

Lemma parse_param_eq data key i dflt ps :
  parse_param data key i dflt ps
  = set_p ps i (default dflt (json_get_number data key)).
Proof. unfold parse_param. destruct (json_get_number data key); reflexivity. Qed.

Lemma clamp_octave_range z : -3 <= clamp_octave z <= 3.
Proof.
  unfold clamp_octave. destruct (Z.ltb_spec z (-3)).
  - destruct (Z.ltb_spec 3 (-3)); lia.
  - destruct (Z.ltb_spec 3 z); lia.
Qed.

Lemma clamp_octave_id z : -3 <= z <= 3 -> clamp_octave z = z.
Proof.
  intros H. unfold clamp_octave. destruct (Z.ltb_spec z (-3)); [lia|].
  destruct (Z.ltb_spec 3 z); lia.
Qed.

(** The parameter block of a parsed preset, slot by slot. *)
Lemma parse_preset_params data count :
  let g := fun key dflt => default dflt (json_get_number data key) in
  bp_params (parse_preset data count)
  = [ preset_engine data;
      g "timbre" (F32.lit 5 1); g "color" (F32.lit 5 1);
      g "attack" F32.zero; g "decay" (F32.lit 5 1);
      g "sustain" F32.one; g "release" (F32.lit 3 1);
      g "fm" F32.zero; g "cutoff" F32.one;
      g "resonance" F32.zero; g "filt_env" F32.zero;
      g "f_attack" F32.zero; g "f_decay" (F32.lit 3 1);
      g "f_sustain" F32.zero; g "f_release" (F32.lit 3 1);
      g "volume" (F32.lit 7 1) ].
Proof.
  intros g. unfold parse_preset. cbv zeta. cbn [bp_params].
  rewrite !parse_param_eq. subst g. cbv beta.
  assert (E0 : match json_get_string data "engine" 32 with
               | Some engine_str =>
                   match shape_index g_shape_names 0 engine_str with
                   | Some i => set_p (repeat F32.zero PARAM_COUNT) PARAM_ENGINE
                                 (F32.of_int i)
                   | None => set_p (repeat F32.zero PARAM_COUNT) PARAM_ENGINE
                               F32.zero
                   end
               | None =>
                   match json_get_number data "engine" with
                   | Some fval => set_p (repeat F32.zero PARAM_COUNT)
                                    PARAM_ENGINE fval
                   | None => repeat F32.zero PARAM_COUNT
                   end
               end = preset_engine data :: repeat F32.zero 15).
  { unfold preset_engine.
    destruct (json_get_string data "engine" 32) as [nm|].
    - destruct (shape_index g_shape_names 0 nm); reflexivity.
    - destruct (json_get_number data "engine"); reflexivity. }
  rewrite E0. clear E0.
  generalize (preset_engine data) as e0.
  generalize (default (F32.lit 5 1) (json_get_number data "timbre")) as x1.
  generalize (default (F32.lit 5 1) (json_get_number data "color")) as x2.
  generalize (default F32.zero (json_get_number data "attack")) as x3.
  generalize (default (F32.lit 5 1) (json_get_number data "decay")) as x4.
  generalize (default F32.one (json_get_number data "sustain")) as x5.
  generalize (default (F32.lit 3 1) (json_get_number data "release")) as x6.
  generalize (default F32.zero (json_get_number data "fm")) as x7.
  generalize (default F32.one (json_get_number data "cutoff")) as x8.
  generalize (default F32.zero (json_get_number data "resonance")) as x9.
  generalize (default F32.zero (json_get_number data "filt_env")) as x10.
  generalize (default F32.zero (json_get_number data "f_attack")) as x11.
  generalize (default (F32.lit 3 1) (json_get_number data "f_decay")) as x12.
  generalize (default F32.zero (json_get_number data "f_sustain")) as x13.
  generalize (default (F32.lit 3 1) (json_get_number data "f_release")) as x14.
  generalize (default (F32.lit 7 1) (json_get_number data "volume")) as x15.
  intros. reflexivity.
Qed.

Lemma json_get_string_length json key n s :
  json_get_string json key n = Some s -> (String.length s <= n - 1)%nat.
Proof.
  unfold json_get_string.
  destruct (strstr json (json_search key)) as [pos|]; [|discriminate].
  destruct (skip_spaces _) as [|c r]; [discriminate|].
  destruct (Ascii.eqb c dquote); [|discriminate].
  intros E. injection E as <-. apply copy_until_quote_spec.
Qed.

Lemma parse_preset_wf data count : wf_preset (parse_preset data count).
Proof.
  split.
  - rewrite parse_preset_params. reflexivity.
  - unfold parse_preset. cbv zeta. cbn [bp_octave_transpose].
    destruct (json_get_number data "octave_transpose");
      [apply clamp_octave_range | lia].
Qed.

(** X13. Whatever the text of a preset file, the preset parsed from
    it has all sixteen parameter slots, an octave transpose within
    [-3, 3] and a name of at most 63 bytes.  Slot by slot, the value is
    the number found under the slot's key, taken as it is, or the
    slot's default when the key is missing; the engine is the index
    of a shape given by name.  A file with none of the keys yields
    exactly the parameters a new instance starts with, and an octave
    transpose of 0. *)
Theorem parse_preset_shape (data : string) (count : Z) :
  let p := parse_preset data count in
  let g := fun key dflt => default dflt (json_get_number data key) in
  wf_preset p
  /\ (String.length (bp_name p) <= 63)%nat
  /\ bp_params p
     = [ preset_engine data;
         g "timbre" (F32.lit 5 1); g "color" (F32.lit 5 1);
         g "attack" F32.zero; g "decay" (F32.lit 5 1);
         g "sustain" F32.one; g "release" (F32.lit 3 1);
         g "fm" F32.zero; g "cutoff" F32.one;
         g "resonance" F32.zero; g "filt_env" F32.zero;
         g "f_attack" F32.zero; g "f_decay" (F32.lit 3 1);
         g "f_sustain" F32.zero; g "f_release" (F32.lit 3 1);
         g "volume" (F32.lit 7 1) ]
  /\ (Forall (fun d => json_get_number data (pd_key d) = None)
             g_shadow_params ->
      json_get_string data "engine" 32 = None ->
      bp_params p = default_params)
  /\ (json_get_number data "octave_transpose" = None ->
      bp_octave_transpose p = 0).
Proof.
  intros p g.
  split; [apply parse_preset_wf|]. split.
  { unfold p, parse_preset. cbv zeta. cbn [bp_name].
    destruct (json_get_string data "name" 64) as [s|] eqn:Hs.
    - apply json_get_string_length in Hs. lia.
    - apply str_take_length_le. }
  split; [apply parse_preset_params|]. split.
  - intros Hall Hstr. unfold p. rewrite parse_preset_params.
    unfold preset_engine. rewrite Hstr.
    unfold g_shadow_params in Hall.
    repeat match goal with
           | H : Forall _ (_ :: _) |- _ =>
               let Hx := fresh "Hx" in
               apply Forall_cons_1 in H as [Hx H]; cbn [pd_key] in Hx;
               rewrite Hx
           end.
    reflexivity.
  - intros Ho. unfold p, parse_preset. cbv zeta. cbn [bp_octave_transpose].
    rewrite Ho. reflexivity.
Qed.

Section Loading.

Context {D : Dsp}.

Lemma preset_count_app (inst : braids_instance_t) ps :
  preset_count (set_presets (presets inst ++ ps) inst)
  = preset_count inst + Z.of_nat (length ps).
Proof. unfold preset_count. cbn [presets set_presets]. rewrite length_app. lia. Qed.

(** X14. [load_braids_preset] either returns 0 after appending exactly
    one preset, the one parsed from the file's text up to its first
    NUL, or returns -1 and leaves the instance untouched.  It refuses
    when 64 presets are already loaded, when the file cannot be
    opened, and when the file is empty or longer than 4096 bytes;
    nothing but the preset list ever changes, and the list never grows
    beyond 64 well-formed presets. *)
Theorem load_braids_preset_result (inst : braids_instance_t)
    (file : option string) :
  let r := load_braids_preset inst file in
  ((fst r = 0
    /\ preset_count inst < 64
    /\ exists bytes, file = Some bytes /\ file_loadable bytes
         /\ snd r = set_presets
                      (presets inst
                       ++ [parse_preset (c_str bytes) (preset_count inst)])
                      inst
         /\ preset_count (snd r) = preset_count inst + 1)
   \/ (fst r = -1 /\ snd r = inst
       /\ (64 <= preset_count inst \/ file = None
           \/ exists bytes, file = Some bytes /\ ~ file_loadable bytes)))
  /\ (Forall wf_preset (presets inst) -> Forall wf_preset (presets (snd r)))
  /\ (preset_count inst <= 64 -> preset_count (snd r) <= 64).
Proof.
  intros r. unfold r, load_braids_preset, file_loadable.
  change (Z.of_nat MAX_PRESETS) with 64.
  destruct (Z.leb_spec 64 (preset_count inst)) as [Hfull | Hroom].
  { split; [right; cbn; auto|]. split; cbn; auto. }
  destruct file as [bytes|].
  2:{ split; [right; cbn; auto|]. split; cbn; auto. }
  destruct (Z.leb_spec (strlen bytes) 0) as [H0 | H0]; cbn [orb].
  { split; [right; cbn [fst snd]|split; cbn; auto].
    split; [reflexivity|]. split; [reflexivity|].
    right. right. exists bytes. split; [reflexivity | lia]. }
  destruct (Z.ltb_spec 4096 (strlen bytes)) as [H1 | H1].
  { split; [right; cbn [fst snd]|split; cbn; auto].
    split; [reflexivity|]. split; [reflexivity|].
    right. right. exists bytes. split; [reflexivity | lia]. }
  cbn [fst snd]. split; [left|split].
  - split; [reflexivity|]. split; [exact Hroom|].
    exists bytes. split; [reflexivity|]. split; [lia|].
    split; [reflexivity|].
    rewrite preset_count_app. cbn [length]. lia.
  - intros Hwf. cbn [presets set_presets].
    apply Forall_app. split; [exact Hwf|].
    constructor; [apply parse_preset_wf | constructor].
  - intros _. rewrite preset_count_app. cbn [length]. lia.
Qed.

Lemma load_braids_preset_keeps (inst : braids_instance_t) file :
  (Forall wf_preset (presets inst) ->
   Forall wf_preset (presets (snd (load_braids_preset inst file))))
  /\ (preset_count inst <= 64 ->
      preset_count (snd (load_braids_preset inst file)) <= 64).
Proof.
  unfold load_braids_preset. change (Z.of_nat MAX_PRESETS) with 64.
  destruct (Z.leb_spec 64 (preset_count inst)) as [Hfull | Hroom];
    [split; auto|].
  destruct file as [bytes|]; [|split; auto].
  destruct ((strlen bytes <=? 0) || (4096 <? strlen bytes)); [split; auto|].
  cbn [snd]. split.
  - intros Hwf. cbn [presets set_presets].
    apply Forall_app. split; [exact Hwf|].
    constructor; [apply parse_preset_wf | constructor].
  - intros _. rewrite preset_count_app. cbn [length]. lia.
Qed.

Lemma load_braids_preset_frame (inst : braids_instance_t) file :
  let i' := snd (load_braids_preset inst file) in
  module_dir i' = module_dir inst /\ voices i' = voices inst
  /\ params i' = params inst /\ octave_transpose i' = octave_transpose inst
  /\ voice_counter i' = voice_counter inst
  /\ current_preset i' = current_preset inst
  /\ preset_name i' = preset_name inst
  /\ exists new, presets i' = presets inst ++ new.
Proof.
  cbv zeta. unfold load_braids_preset.
  assert (Hsame : forall i : braids_instance_t, exists new,
             presets i = presets i ++ new).
  { intros i. exists []. rewrite app_nil_r. reflexivity. }
  destruct (Z.of_nat MAX_PRESETS <=? preset_count inst);
    [cbn; repeat split; apply Hsame|].
  destruct file as [bytes|]; [|cbn; repeat split; apply Hsame].
  destruct ((strlen bytes <=? 0) || (4096 <? strlen bytes));
    [cbn; repeat split; apply Hsame|].
  cbn. repeat split. eexists. reflexivity.
Qed.

Lemma load_presets_frame (inst : braids_instance_t) dir :
  let i' := load_presets inst dir in
  module_dir i' = module_dir inst /\ voices i' = voices inst
  /\ params i' = params inst /\ octave_transpose i' = octave_transpose inst
  /\ voice_counter i' = voice_counter inst
  /\ current_preset i' = current_preset inst
  /\ preset_name i' = preset_name inst
  /\ (exists new, presets i' = presets inst ++ new)
  /\ (Forall wf_preset (presets inst) -> Forall wf_preset (presets i'))
  /\ (preset_count inst <= 64 -> preset_count i' <= 64).
Proof.
  cbv zeta. unfold load_presets. destruct dir as [d|].
  2:{ repeat split; auto. exists []. rewrite app_nil_r. reflexivity. }
  generalize (sort_by_name (collect_filenames MAX_PRESETS d)) as l.
  intros l. revert inst. induction l as [|e l IH]; intros inst.
  - cbn [fold_left]. repeat split; auto. exists []. rewrite app_nil_r.
    reflexivity.
  - cbn [fold_left].
    destruct (load_braids_preset_frame inst (snd e))
      as (F1 & F2 & F3 & F4 & F5 & F6 & F7 & (n1 & F8)).
    destruct (load_braids_preset_keeps inst (snd e)) as (W1 & C1).
    cbv zeta in F1, F2, F3, F4, F5, F6, F7, F8.
    destruct (IH (snd (load_braids_preset inst (snd e))))
      as (G1 & G2 & G3 & G4 & G5 & G6 & G7 & (n2 & G8) & W2 & C2).
    split; [congruence|]. split; [congruence|]. split; [congruence|].
    split; [congruence|]. split; [congruence|]. split; [congruence|].
    split; [congruence|]. split.
    { exists (n1 ++ n2). rewrite G8, F8, app_assoc. reflexivity. }
    split; auto.
Qed.

(** X15. [v2_create_instance] always returns a well-formed instance:
    four voices at rest, sixteen parameters, an octave transpose within
    [-3, 3], at most 64 well-formed presets, the voice counter and the
    current preset at 0.  Without a presets directory no preset is
    loaded; with no preset loaded the parameters are the defaults and
    the preset name is "Init"; otherwise the first preset (in file-name
    order) is applied: its parameters, its octave transpose and its
    name, cut to 63 bytes. *)
Theorem create_instance_state (mdir : string) (dir : option directory) :
  let inst := v2_create_instance mdir dir in
  wf_inst inst
  /\ preset_count inst <= 64
  /\ current_preset inst = 0 /\ voice_counter inst = 0
  /\ voices inst = repeat fresh_voice MAX_VOICES
  /\ Forall at_rest (voices inst)
  /\ module_dir inst = str_take 255 mdir
  /\ (dir = None -> presets inst = [])
  /\ (presets inst = [] ->
      params inst = default_params /\ octave_transpose inst = 0
      /\ preset_name inst = "Init")
  /\ (forall p ps, presets inst = p :: ps ->
      params inst = bp_params p
      /\ octave_transpose inst = bp_octave_transpose p
      /\ preset_name inst = str_take 63 (bp_name p)).
Proof.
  intros inst. unfold inst, v2_create_instance.
  set (i0 := mkInst (str_take 255 mdir) (repeat fresh_voice MAX_VOICES)
               default_params 0 0 [] 0 "Init").
  destruct (load_presets_frame i0 dir)
    as (F1 & F2 & F3 & F4 & F5 & F6 & F7 & (new & F8) & W & C).
  cbv zeta in F1, F2, F3, F4, F5, F6, F7, F8, W, C.
  set (i1 := load_presets i0 dir) in *.
  assert (Hwf1 : Forall wf_preset (presets i1)) by (apply W; constructor).
  assert (Hc1 : preset_count i1 <= 64)
    by (apply C; unfold preset_count, i0; cbn [presets length]; lia).
  clear W C. unfold i0 in F1, F2, F3, F4, F5, F6, F7, F8.
  cbn [module_dir voices params octave_transpose voice_counter
       current_preset preset_name presets app] in F1, F2, F3, F4, F5, F6, F7, F8.
  assert (Hrest : Forall at_rest (repeat fresh_voice MAX_VOICES)).
  { repeat constructor. }
  assert (Hnone : dir = None -> presets i1 = []).
  { intros ->. reflexivity. }
  destruct (Z.ltb_spec 0 (preset_count i1)) as [Hpos | Hzero].
  - (* the first preset is applied *)
    destruct (presets i1) as [|p ps] eqn:Hps.
    { unfold preset_count in Hpos. rewrite Hps in Hpos. cbn in Hpos. lia. }
    assert (E : v2_apply_preset (set_current_preset 0 i1) 0
                = set_octave_transpose (bp_octave_transpose p)
                    (set_params (bp_params p)
                       (set_preset_name (str_take 63 (bp_name p))
                          (set_current_preset 0 i1)))).
    { unfold v2_apply_preset.
      change (preset_count (set_current_preset 0 i1)) with (preset_count i1).
      destruct (Z.leb_spec (preset_count i1) 0) as [|_]; [lia|].
      cbn [presets set_current_preset]. rewrite Hps. reflexivity. }
    rewrite E. clear E.
    inversion Hwf1 as [|? ? [Hl Ho] Hwf']; subst.
    unfold wf_inst.
    cbn [module_dir voices params octave_transpose voice_counter
         current_preset preset_name presets set_preset_name set_params
         set_octave_transpose set_current_preset preset_count].
    split.
    { split; [rewrite F2; reflexivity|]. split; [exact Hl|].
      split; [exact Ho|]. rewrite Hps. exact Hwf1. }
    split.
    { unfold preset_count in Hc1 |- *.
      cbn [presets set_preset_name set_params set_octave_transpose
           set_current_preset].
      rewrite Hps in Hc1 |- *. exact Hc1. }
    split; [reflexivity|]. split; [exact F5|]. split; [exact F2|].
    split; [rewrite F2; exact Hrest|]. split; [exact F1|].
    split; [intros E; specialize (Hnone E); try rewrite Hps in Hnone;
            discriminate|].
    split; [rewrite Hps; discriminate|].
    intros p' ps' E. rewrite Hps in E. injection E as <- <-.
    repeat split.
  - assert (Hps : presets i1 = []).
    { unfold preset_count in Hzero. destruct (presets i1); [reflexivity|].
      cbn in Hzero. lia. }
    split.
    { split; [rewrite F2; reflexivity|]. split; [rewrite F3; reflexivity|].
      split; [rewrite F4; lia|]. rewrite Hps. constructor. }
    split; [exact Hc1|]. split; [exact F6|]. split; [exact F5|].
    split; [exact F2|]. split; [rewrite F2; exact Hrest|].
    split; [exact F1|]. split; [exact Hnone|].
    split; [intros _; auto|].
    intros p ps E. rewrite Hps in E. discriminate.
Qed.

End Loading.
(** ** Comparisons of arbitrary floats *)

Lemma SFcompare_antisym x y :
  SFcompare y x = option_map CompOpp (SFcompare x y).
Proof.
  destruct x as [sx|sx| |sx mx ex], y as [sy|sy| |sy my ey];
    try (destruct sx); try (destruct sy); try reflexivity.
  - cbn [SFcompare option_map]. f_equal.
    change (Pos.compare_cont Eq my mx) with (Pos.compare my mx).
    change (Pos.compare_cont Eq mx my) with (Pos.compare mx my).
    rewrite (Z.compare_antisym ex ey), (Pos.compare_antisym mx my).
    destruct (ex ?= ey); cbn [CompOpp]; try rewrite CompOpp_involutive;
      reflexivity.
  - cbn [SFcompare option_map]. f_equal.
    change (Pos.compare_cont Eq my mx) with (Pos.compare my mx).
    change (Pos.compare_cont Eq mx my) with (Pos.compare mx my).
    rewrite (Z.compare_antisym ex ey), (Pos.compare_antisym mx my).
    destruct (ex ?= ey); cbn [CompOpp]; try rewrite CompOpp_involutive;
      reflexivity.
Qed.

Lemma SFcompare_nan x y :
  SFcompare x y = None -> F32.is_nan x = true \/ F32.is_nan y = true.
Proof.
  destruct x as [sx|sx| |sx mx ex], y as [sy|sy| |sy my ey]; cbn;
    try discriminate; auto.
Qed.

Lemma leb_of_not_ltb x y :
  F32.is_nan x = false -> F32.is_nan y = false ->
  SFltb x y = false -> SFleb y x = true.
Proof.
  intros Hx Hy. unfold SFltb, SFleb. rewrite (SFcompare_antisym x y).
  destruct (SFcompare x y) as [[]|] eqn:E; cbn; try discriminate; auto.
  destruct (SFcompare_nan _ _ E); congruence.
Qed.

Lemma ltb_of_not_leb x y :
  F32.is_nan x = false -> F32.is_nan y = false ->
  SFleb x y = false -> SFltb y x = true.
Proof.
  intros Hx Hy. unfold SFltb, SFleb. rewrite (SFcompare_antisym x y).
  destruct (SFcompare x y) as [[]|] eqn:E; cbn; try discriminate; auto.
  destruct (SFcompare_nan _ _ E); congruence.
Qed.

Lemma SFleb_refl x : F32.is_nan x = false -> SFleb x x = true.
Proof.
  destruct x as [s|[]| |[] m e]; cbn; try discriminate; intros _;
    try reflexivity; unfold SFleb, SFcompare; rewrite Z.compare_refl;
    change (Pos.compare_cont Eq m m) with (Pos.compare m m);
    rewrite Pos.compare_refl; reflexivity.
Qed.

(** ** The clamp of [v2_set_param] *)

(** The two [if]s keep every number inside the bounds; a NaN fails
    both comparisons and passes through. *)
Lemma clamp_param_range d x :
  F32.is_nan (pd_min_val d) = false -> F32.is_nan (pd_max_val d) = false ->
  F32.leb (pd_min_val d) (pd_max_val d) = true ->
  (F32.is_nan x = false -> in_range d (clamp_param d x) = true)
  /\ (F32.is_nan x = true -> clamp_param d x = x).
Proof.
  intros Hmin Hmax Hle. unfold clamp_param, in_range, F32.ltb, F32.gtb, F32.leb in *.
  split.
  - intros Hx.
    destruct (SFltb x (pd_min_val d)) eqn:H1.
    + destruct (SFltb (pd_max_val d) (pd_min_val d)) eqn:H2.
      * rewrite Hle, SFleb_refl by exact Hmax. reflexivity.
      * rewrite SFleb_refl by exact Hmin. rewrite Hle. reflexivity.
    + pose proof (leb_of_not_ltb _ _ Hx Hmin H1) as Hlo.
      destruct (SFltb (pd_max_val d) x) eqn:H2.
      * rewrite Hle, SFleb_refl by exact Hmax. reflexivity.
      * rewrite Hlo, (leb_of_not_ltb _ _ Hmax Hx H2). reflexivity.
  - intros Hx. destruct x; try discriminate.
    destruct (pd_min_val d) as [?|?| |? ? ?], (pd_max_val d) as [?|?| |? ? ?];
      reflexivity.
Qed.

Lemma table_bounds :
  Forall (fun d => F32.is_nan (pd_min_val d) = false
                   /\ F32.is_nan (pd_max_val d) = false
                   /\ F32.leb (pd_min_val d) (pd_max_val d) = true)
         g_shadow_params.
Proof.
  unfold g_shadow_params.
  repeat (constructor; [vm_compute; repeat split; reflexivity|]). constructor.
Qed.

Lemma set_named_find defs key f ps :
  set_named defs key f ps
  = match find (fun d => str_eq key (pd_key d)) defs with
    | Some d => set_p ps (pd_index d) (clamp_param d f)
    | None => ps
    end.
Proof.
  induction defs as [|d r IH]; cbn [set_named find]; [reflexivity|].
  destruct (str_eq key (pd_key d)); [reflexivity | exact IH].
Qed.

(** Every key of the table is found at its own entry. *)
Lemma table_keys_find :
  Forall (fun d => find (fun d' => str_eq (pd_key d) (pd_key d'))
                        g_shadow_params = Some d
                   /\ (pd_index d < PARAM_COUNT)%nat
                   /\ str_eq (pd_key d) "state" = false
                   /\ str_eq (pd_key d) "octave_transpose" = false
                   /\ str_eq (pd_key d) "preset" = false)
         g_shadow_params.
Proof.
  unfold g_shadow_params.
  repeat (constructor;
          [split; [vm_compute; reflexivity|];
           split; [vm_compute; lia|]; vm_compute; repeat split; reflexivity|]).
  constructor.
Qed.

Section SettingParameters.

Context {D : Dsp}.

Lemma set_params_same (inst : braids_instance_t) :
  set_params (params inst) inst = inst.
Proof. destruct inst; reflexivity. Qed.

Lemma set_octave_same (inst : braids_instance_t) :
  set_octave_transpose (octave_transpose inst) inst = inst.
Proof. destruct inst; reflexivity. Qed.

Lemma set_voices_same (inst : braids_instance_t) :
  set_voices (voices inst) inst = inst.
Proof. destruct inst; reflexivity. Qed.

(** X16. Through its own key, the value of "cutoff", "volume" and the
    thirteen other continuous parameters is read with [atof], narrowed
    to [float], clamped to the parameter's range and stored in its
    slot; every other slot, the voices, the octave transpose and the
    presets stay as they were.  What is stored is inside the range
    unless the text reads as a NaN, which fails both comparisons of
    the clamp and is stored as it is. *)
Theorem set_param_named (inst : braids_instance_t) (d : param_def_t)
    (val : string) :
  In d g_shadow_params -> pd_key d <> "engine" ->
  length (params inst) = PARAM_COUNT ->
  let x := F64.to_float (atof val) in
  let inst' := v2_set_param inst (pd_key d) val in
  inst' = set_params (<[ pd_index d := clamp_param d x ]> (params inst)) inst
  /\ get_p (params inst') (pd_index d) = clamp_param d x
  /\ (F32.is_nan x = false -> in_range d (clamp_param d x) = true)
  /\ (F32.is_nan x = true -> clamp_param d x = x)
  /\ (forall i, i <> pd_index d ->
        get_p (params inst') i = get_p (params inst) i)
  /\ length (params inst') = PARAM_COUNT.
Proof.
  intros Hin Hkey Hlen x inst'.
  pose proof (proj1 (Forall_forall _ _) table_keys_find d
                (proj2 (list_elem_of_In _ _) Hin))
    as (Hfind & Hidx & Hst & Hoct & Hpre).
  pose proof (proj1 (Forall_forall _ _) table_bounds d
                (proj2 (list_elem_of_In _ _) Hin))
    as (Hmin & Hmax & Hle).
  assert (Heng : str_eq (pd_key d) "engine" = false)
    by (apply String.eqb_neq; exact Hkey).
  assert (E : inst' = set_params (<[ pd_index d := clamp_param d x ]>
                                    (params inst)) inst).
  { unfold inst', v2_set_param. rewrite Hst, Hoct, Hpre, Heng.
    rewrite set_named_find, Hfind. reflexivity. }
  split; [exact E|]. rewrite E. cbn [params set_params].
  split.
  { unfold get_p. rewrite list_lookup_insert_eq by (rewrite Hlen; exact Hidx).
    reflexivity. }
  destruct (clamp_param_range d x Hmin Hmax Hle) as [Hr Hn].
  split; [exact Hr|]. split; [exact Hn|]. split.
  - intros i Hi. unfold get_p. rewrite list_lookup_insert_ne by congruence.
    reflexivity.
  - rewrite length_insert. exact Hlen.
Qed.

Lemma set_named_miss defs key f ps :
  Forall (fun d => pd_key d <> key) defs -> set_named defs key f ps = ps.
Proof.
  induction 1 as [|d r Hd _ IH]; cbn [set_named]; [reflexivity|].
  unfold str_eq.
  destruct (String.eqb_spec key (pd_key d)) as [E | _]; [|exact IH].
  congruence.
Qed.

(** X17. A key that [v2_set_param] does not know - not "state",
    "octave_transpose", "preset" or "engine" and not a key of the
    parameter table - changes nothing at all. *)
Theorem set_param_unknown_key (inst : braids_instance_t) (key val : string) :
  key <> "state" -> key <> "octave_transpose" -> key <> "preset" ->
  key <> "engine" ->
  Forall (fun d => pd_key d <> key) g_shadow_params ->
  v2_set_param inst key val = inst.
Proof.
  intros H1 H2 H3 H4 Hk. unfold v2_set_param, str_eq.
  destruct (String.eqb_spec key "state"); [contradiction|].
  destruct (String.eqb_spec key "octave_transpose"); [contradiction|].
  destruct (String.eqb_spec key "preset"); [contradiction|].
  destruct (String.eqb_spec key "engine"); [contradiction|].
  rewrite set_named_miss by exact Hk. apply set_params_same.
Qed.

Lemma octave_text_round_trip oct :
  -3 <= oct <= 3 ->
  atoi (fmt_d oct) = oct /\ (String.length (fmt_d oct) <= 2)%nat.
Proof.
  intros H.
  assert (Hc : oct = -3 \/ oct = -2 \/ oct = -1 \/ oct = 0 \/ oct = 1
               \/ oct = 2 \/ oct = 3) by lia.
  destruct Hc as [-> | [-> | [-> | [-> | [-> | [-> | ->]]]]]];
    (split; [vm_compute; reflexivity | vm_compute; lia]).
Qed.

Lemma str_take_all n s : (String.length s <= n)%nat -> str_take n s = s.
Proof.
  revert s. induction n as [|n IH]; intros [|c r] H; cbn in *; try lia;
    try reflexivity.
  rewrite IH by lia. reflexivity.
Qed.

(** X18. Whatever text is sent for "octave_transpose", the stored
    transpose is [atoi] of it clamped to [-3, 3] and nothing else
    changes.  Reading the key back with [v2_get_param] into a buffer of
    three bytes or more and sending the text to [v2_set_param] again
    gives back the same instance. *)
Theorem octave_transpose_param (inst : braids_instance_t) (val buf : string)
    (buf_len : nat) :
  -3 <= octave_transpose inst <= 3 -> (3 <= buf_len)%nat ->
  let inst' := v2_set_param inst "octave_transpose" val in
  inst' = set_octave_transpose (clamp_octave (atoi val)) inst
  /\ -3 <= octave_transpose inst' <= 3
  /\ exists text,
       v2_get_param_direct inst "octave_transpose" buf buf_len
       = Some (strlen text, text)
       /\ text = fmt_d (octave_transpose inst)
       /\ v2_set_param inst "octave_transpose" text = inst.
Proof.
  intros Hoct Hbuf inst'.
  assert (E : forall v, v2_set_param inst "octave_transpose" v
                        = set_octave_transpose (clamp_octave (atoi v)) inst)
    by reflexivity.
  split; [apply E|]. split.
  { unfold inst'. rewrite E. cbn [octave_transpose set_octave_transpose].
    apply clamp_octave_range. }
  destruct (octave_text_round_trip _ Hoct) as [Hrt Hlen].
  exists (fmt_d (octave_transpose inst)). split.
  { unfold v2_get_param_direct, snprintf.
    change (str_eq "octave_transpose" "name") with false.
    change (str_eq "octave_transpose" "octave_transpose") with true.
    cbv iota. destruct buf_len as [|k]; [lia|].
    rewrite str_take_all by lia. reflexivity. }
  split; [reflexivity|].
  rewrite E, Hrt, clamp_octave_id by exact Hoct. apply set_octave_same.
Qed.

End SettingParameters.

Lemma set_param_named_witness :
  In (mkParamDef "cutoff" "Cutoff" PARAM_TYPE_FLOAT PARAM_CUTOFF F32.zero
        F32.one) g_shadow_params
  /\ length (params inst_init) = PARAM_COUNT
  /\ get_p (params (v2_set_param inst_init "cutoff" "2.5")) PARAM_CUTOFF
     = F32.one
  /\ get_p (params (v2_set_param inst_init "cutoff" "nan")) PARAM_CUTOFF
     = S754_nan.
Proof.
  pose (d := mkParamDef "cutoff" "Cutoff" PARAM_TYPE_FLOAT PARAM_CUTOFF
               F32.zero F32.one).
  assert (Hin : In d g_shadow_params).
  { unfold g_shadow_params, d. cbn [In]. do 8 right. left. reflexivity. }
  assert (Hk : pd_key d <> "engine") by discriminate.
  assert (Hl : length (params inst_init) = PARAM_COUNT) by reflexivity.
  split; [exact Hin|]. split; [exact Hl|].
  destruct (set_param_named inst_init d "2.5" Hin Hk Hl) as (_ & H1 & _).
  destruct (set_param_named inst_init d "nan" Hin Hk Hl) as (_ & H2 & _).
  split.
  - etransitivity; [exact H1|]. vm_compute. reflexivity.
  - etransitivity; [exact H2|]. vm_compute. reflexivity.
Defined.

Lemma set_param_unknown_key_witness :
  "bogus" <> "state" /\ "bogus" <> "engine"
  /\ v2_set_param inst_init "bogus" "1" = inst_init.
Proof.
  assert (H1 : "bogus" <> "state") by discriminate.
  assert (H2 : "bogus" <> "octave_transpose") by discriminate.
  assert (H3 : "bogus" <> "preset") by discriminate.
  assert (H4 : "bogus" <> "engine") by discriminate.
  assert (Hk : Forall (fun d => pd_key d <> "bogus") g_shadow_params).
  { unfold g_shadow_params. repeat (constructor; [discriminate|]). constructor. }
  split; [exact H1|]. split; [exact H4|].
  exact (set_param_unknown_key inst_init "bogus" "1" H1 H2 H3 H4 Hk).
Defined.

Lemma octave_transpose_param_witness :
  -3 <= octave_transpose inst_init <= 3 /\ (3 <= 16)%nat
  /\ -3 <= octave_transpose (v2_set_param inst_init "octave_transpose" "-7")
     <= 3.
Proof.
  assert (Ho : -3 <= octave_transpose inst_init <= 3)
    by (change (octave_transpose inst_init) with 0; lia).
  assert (Hb : (3 <= 16)%nat) by lia.
  split; [exact Ho|]. split; [exact Hb|].
  destruct (octave_transpose_param inst_init "-7" "" 16 Ho Hb) as (_ & H & _).
  exact H.
Defined.

(** ** The engine parameter *)

Lemma shape_of_range ps : 0 <= shape_of ps <= NUM_SHAPES - 1.
Proof.
  unfold shape_of, NUM_SHAPES.
  destruct (Z.ltb_spec (F32.to_int32 (get_p ps PARAM_ENGINE)) 0).
  - destruct (Z.leb_spec 47 0); lia.
  - destruct (Z.leb_spec 47 (F32.to_int32 (get_p ps PARAM_ENGINE))); lia.
Qed.

Lemma shape_name_lookup ps :
  g_shape_names !! Z.to_nat (shape_of ps) = Some (shape_name ps).
Proof.
  unfold shape_name.
  destruct (lookup_lt_is_Some_2 g_shape_names (Z.to_nat (shape_of ps)))
    as [nm Hnm].
  { pose proof (shape_of_range ps) as H. unfold NUM_SHAPES in H.
    change (length g_shape_names) with 47%nat. lia. }
  rewrite Hnm. reflexivity.
Qed.

(** Every shape name is found at its own index, which survives the
    conversion to [float] and back. *)
Lemma shape_index_names (i : nat) name :
  g_shape_names !! i = Some name ->
  shape_index g_shape_names 0 name = Some (Z.of_nat i)
  /\ F32.to_int32 (F32.of_int (Z.of_nat i)) = Z.of_nat i
  /\ (i < 47)%nat.
Proof.
  unfold g_shape_names.
  do 47 (destruct i as [|i];
         [intros E; injection E as <-;
          split; [vm_compute; reflexivity|];
          split; [vm_compute; reflexivity | lia]|]).
  intros E. discriminate E.
Qed.

Section Engine.

Context {D : Dsp}.

Lemma get_param_engine_keys (inst : braids_instance_t) buf n :
  v2_get_param_direct inst "engine" buf n
  = Some (snprintf buf n (shape_name (params inst)))
  /\ v2_get_param_direct inst "engine_name" buf n
     = Some (snprintf buf n (shape_name (params inst))).
Proof. split; reflexivity. Qed.

(** X22. Whatever the engine slot holds - a fraction, a negative or
    huge number, an infinity or a NaN - the shape derived from it is
    an index of the shape table, 0..46, and "engine" and "engine_name"
    both read back the name at that index. *)
Theorem engine_name_valid (inst : braids_instance_t) (buf : string)
    (buf_len : nat) :
  let ps := params inst in
  0 <= shape_of ps <= 46
  /\ exists name,
       g_shape_names !! Z.to_nat (shape_of ps) = Some name
       /\ v2_get_param_direct inst "engine" buf buf_len
          = Some (snprintf buf buf_len name)
       /\ v2_get_param_direct inst "engine_name" buf buf_len
          = Some (snprintf buf buf_len name).
Proof.
  intros ps. split; [apply (shape_of_range ps)|].
  exists (shape_name ps). split; [apply shape_name_lookup|].
  apply get_param_engine_keys.
Qed.

(** X23. Setting the engine by one of the 47 shape names stores the
    index of that name, and reading "engine" back returns the same
    name: the names are pairwise distinct, and every index is a
    [float] that converts back to itself. *)
Theorem set_engine_by_name (inst : braids_instance_t) (i : nat)
    (name buf : string) (buf_len : nat) :
  g_shape_names !! i = Some name -> length (params inst) = PARAM_COUNT ->
  let inst' := v2_set_param inst "engine" name in
  inst' = set_params (<[ PARAM_ENGINE := F32.of_int (Z.of_nat i) ]>
                        (params inst)) inst
  /\ shape_of (params inst') = Z.of_nat i
  /\ v2_get_param_direct inst' "engine" buf buf_len
     = Some (snprintf buf buf_len name).
Proof.
  intros Hname Hlen inst'.
  destruct (shape_index_names i name Hname) as (Hidx & Hconv & Hi).
  assert (E : inst' = set_params (<[ PARAM_ENGINE := F32.of_int (Z.of_nat i) ]>
                                    (params inst)) inst).
  { unfold inst'.
    change (v2_set_param inst "engine" name) with (set_param_engine inst name).
    unfold set_param_engine. rewrite Hidx. reflexivity. }
  assert (Hget : get_p (params inst') PARAM_ENGINE = F32.of_int (Z.of_nat i)).
  { rewrite E. cbn [params set_params]. unfold get_p.
    rewrite list_lookup_insert_eq; [reflexivity|].
    rewrite Hlen. unfold PARAM_ENGINE, PARAM_COUNT. lia. }
  assert (Hshape : shape_of (params inst') = Z.of_nat i).
  { unfold shape_of, NUM_SHAPES. rewrite Hget, Hconv.
    destruct (Z.ltb_spec (Z.of_nat i) 0); [lia|].
    destruct (Z.leb_spec 47 (Z.of_nat i)); lia. }
  split; [exact E|]. split; [exact Hshape|].
  rewrite (proj1 (get_param_engine_keys inst' buf buf_len)).
  unfold shape_name. rewrite Hshape, Nat2Z.id, Hname. reflexivity.
Qed.

(** X24. Setting the engine by a text that is not a shape name reads it
    as a number: below 0 it becomes 0, from 47 on it becomes 46, and
    otherwise it is stored as it is, fraction included.  Unless the
    text reads as a NaN the stored value lies in [0, 47); in every
    case the shape derived from it is within 0..46. *)
Theorem set_engine_numeric (inst : braids_instance_t) (val : string) :
  shape_index g_shape_names 0 val = None ->
  length (params inst) = PARAM_COUNT ->
  let x := F64.to_float (atof val) in
  let inst' := v2_set_param inst "engine" val in
  let e := get_p (params inst') PARAM_ENGINE in
  (F32.ltb x F32.zero = true -> e = F32.zero)
  /\ (F32.geb x (F32.of_int 47) = true -> e = F32.of_int 46)
  /\ (F32.ltb x F32.zero = false -> F32.geb x (F32.of_int 47) = false ->
      e = x)
  /\ (F32.is_nan x = false ->
      F32.leb F32.zero e = true /\ F32.ltb e (F32.of_int 47) = true)
  /\ 0 <= shape_of (params inst') <= 46.
Proof.
  intros Hidx Hlen x inst' e.
  assert (Ee : e = (let v := if F32.ltb x (F32.of_int 0) then F32.of_int 0
                             else x in
                    if F32.geb v (F32.of_int NUM_SHAPES)
                    then F32.of_int (NUM_SHAPES - 1) else v)).
  { unfold e, inst'.
    change (v2_set_param inst "engine" val) with (set_param_engine inst val).
    unfold set_param_engine. rewrite Hidx. cbv zeta.
    cbn [params set_params]. unfold get_p, set_p.
    rewrite list_lookup_insert_eq; [reflexivity|].
    rewrite Hlen. unfold PARAM_ENGINE, PARAM_COUNT. lia. }
  change (F32.of_int 0) with F32.zero in Ee.
  change NUM_SHAPES with 47 in Ee. change (47 - 1) with 46 in Ee.
  cbv zeta in Ee.
  assert (H0 : F32.geb F32.zero (F32.of_int 47) = false)
    by (vm_compute; reflexivity).
  assert (H46 : F32.leb F32.zero (F32.of_int 46) = true
                /\ F32.ltb (F32.of_int 46) (F32.of_int 47) = true)
    by (split; vm_compute; reflexivity).
  assert (Hn47 : F32.is_nan (F32.of_int 47) = false)
    by (vm_compute; reflexivity).
  split; [intros H; rewrite Ee, H, H0; reflexivity|].
  split.
  { intros H. rewrite Ee. destruct (F32.ltb x F32.zero) eqn:Hl.
    - (* impossible: below 0 and at least 47 *)
      exfalso. unfold F32.ltb, F32.geb, SFltb, SFleb in *.
      rewrite (SFcompare_antisym x (F32.of_int 47)) in H.
      destruct x as [s|[]| |[] m ex]; cbn in Hl, H; try discriminate.
    - rewrite H. reflexivity. }
  split; [intros H1 H2; rewrite Ee, H1, H2; reflexivity|].
  split; [|apply (shape_of_range (params inst'))].
  intros Hnan. rewrite Ee.
  destruct (F32.ltb x F32.zero) eqn:Hl.
  - rewrite H0. split; vm_compute; reflexivity.
  - destruct (F32.geb x (F32.of_int 47)) eqn:Hg; [exact H46|].
    split.
    + apply leb_of_not_ltb; [exact Hnan | reflexivity | exact Hl].
    + apply ltb_of_not_leb; [exact Hn47 | exact Hnan | exact Hg].
Qed.

End Engine.

Lemma set_engine_by_name_witness :
  g_shape_names !! 25%nat = Some "FM"
  /\ length (params inst_init) = PARAM_COUNT
  /\ shape_of (params (v2_set_param inst_init "engine" "FM")) = 25
  /\ v2_get_param_direct (v2_set_param inst_init "engine" "FM") "engine" "" 16
     = Some (2, "FM").
Proof.
  assert (Hn : g_shape_names !! 25%nat = Some "FM") by reflexivity.
  assert (Hl : length (params inst_init) = PARAM_COUNT) by reflexivity.
  split; [exact Hn|]. split; [exact Hl|].
  destruct (set_engine_by_name inst_init 25 "FM" "" 16 Hn Hl) as (_ & H1 & H2).
  split; [exact H1 | exact H2].
Defined.

Lemma set_engine_numeric_witness :
  shape_index g_shape_names 0 "99.5" = None
  /\ length (params inst_init) = PARAM_COUNT
  /\ 0 <= shape_of (params (v2_set_param inst_init "engine" "99.5")) <= 46.
Proof.
  assert (Hs : shape_index g_shape_names 0 "99.5" = None)
    by (vm_compute; reflexivity).
  assert (Hl : length (params inst_init) = PARAM_COUNT) by reflexivity.
  split; [exact Hs|]. split; [exact Hl|].
  destruct (set_engine_numeric inst_init "99.5" Hs Hl) as (_ & _ & _ & _ & H).
  exact H.
Defined.
(** ** More on the render callback *)

Section RenderFrame.

Context {D : Dsp}.

Lemma same_key_refl v : same_key v v.
Proof. unfold same_key. auto. Qed.

Lemma same_key_trans v1 v2 v3 :
  same_key v1 v2 -> same_key v2 v3 -> same_key v1 v3.
Proof.
  unfold same_key. intros (A1 & A2 & A3 & A4 & A5) (B1 & B2 & B3 & B4 & B5).
  repeat split; try congruence. auto.
Qed.

Lemma filter_sample_same_key ctx fv sample (v : BraidsVoice) :
  same_key (fst (filter_sample ctx fv sample v)) v.
Proof.
  unfold filter_sample, same_key. destruct (use_filter ctx); [|cbn; auto].
  destruct (svf_Process _ _) as [f y]. cbn. auto.
Qed.

Lemma render_samples_same_key ctx rendered n s (v : BraidsVoice) out :
  same_key (fst (render_samples ctx rendered n s v out)) v.
Proof.
  revert s v out. induction n as [|n IH]; intros s v out;
    cbn [render_samples]; [apply same_key_refl|].
  destruct (ADSR.process (amp_env v)) as [amp ae].
  destruct (ADSR.process (filt_env v)) as [fv fe].
  destruct (negb (gate (set_filt_env fe (set_amp_env ae v)))
            && negb (ADSR.is_active (amp_env (set_filt_env fe (set_amp_env ae v))))).
  - cbn [fst]. unfold same_key. cbn. repeat split; auto. discriminate.
  - match goal with |- context [filter_sample ?a ?b ?c ?d] =>
      pose proof (filter_sample_same_key a b c d) as Hk;
      destruct (filter_sample a b c d) as [v2 sample] end.
    cbn [fst] in Hk.
    eapply same_key_trans; [apply IH|].
    eapply same_key_trans; [exact Hk|].
    unfold same_key. cbn. auto.
Qed.

Lemma render_blocks_same_key ctx frames fuel rendered (v : BraidsVoice) out :
  same_key (fst (render_blocks ctx frames fuel rendered v out)) v.
Proof.
  revert rendered v out. induction fuel as [|fuel IH]; intros rendered v out;
    cbn [render_blocks]; [apply same_key_refl|].
  destruct (rendered <? frames)%nat; [|apply same_key_refl].
  match goal with |- context [osc_Render ?a ?b ?c] =>
    destruct (osc_Render a b c) as [o fresh] end.
  match goal with |- context [render_samples ctx rendered ?bs 0 ?w out] =>
    pose proof (render_samples_same_key ctx rendered bs 0 w out) as Hs;
    destruct (render_samples ctx rendered bs 0 w out) as [v1 out1] end.
  cbn [fst] in Hs.
  assert (H1 : same_key v1 v).
  { eapply same_key_trans; [exact Hs|]. unfold same_key. cbn. auto. }
  destruct (negb (active v1)); [exact H1|].
  eapply same_key_trans; [apply IH | exact H1].
Qed.

Lemma render_voice_same_key inst ctx frames (v : BraidsVoice) out :
  same_key (fst (render_voice inst ctx frames v out)) v.
Proof.
  unfold render_voice. destruct (negb (active v)); [apply same_key_refl|].
  eapply same_key_trans; [apply render_blocks_same_key|].
  unfold same_key. cbn. auto.
Qed.

Lemma render_voices_length inst ctx frames (vs : list BraidsVoice) out :
  length (fst (render_voices inst ctx frames vs out)) = length vs.
Proof.
  revert out. induction vs as [|v vs IH]; intros out; cbn [render_voices];
    [reflexivity|].
  destruct (render_voice inst ctx frames v out) as [v' out1].
  specialize (IH out1).
  destruct (render_voices inst ctx frames vs out1) as [r' out2].
  cbn in *. rewrite IH. reflexivity.
Qed.

Lemma render_voices_inactive inst ctx frames (vs : list BraidsVoice) out :
  Forall (fun v => active v = false) vs ->
  render_voices inst ctx frames vs out = (vs, out).
Proof.
  induction 1 as [|v vs Hv _ IH]; cbn [render_voices]; [reflexivity|].
  rewrite (render_voice_inactive inst ctx frames v out Hv), IH. reflexivity.
Qed.

Lemma render_block_keeps (inst : braids_instance_t) frames :
  let inst' := fst (v2_render_block inst frames) in
  length (voices inst') = length (voices inst)
  /\ params inst' = params inst
  /\ octave_transpose inst' = octave_transpose inst
  /\ presets inst' = presets inst
  /\ current_preset inst' = current_preset inst
  /\ module_dir inst' = module_dir inst.
Proof.
  cbv zeta. unfold v2_render_block.
  pose proof (render_voices_length inst (render_ctx_of inst) frames
                (voices inst) (repeat 0 (2 * frames))) as Hl.
  destruct (render_voices _ _ _ _ _) as [vs out]. cbn [fst] in Hl |- *.
  cbn [voices params octave_transpose presets current_preset module_dir
       set_voices].
  repeat split. exact Hl.
Qed.

(** X19. With no active voice the render callback writes silence:
    all [2 * frames] samples are 0 and the instance is returned
    exactly as it was. *)
Theorem render_block_idle (inst : braids_instance_t) (frames : nat) :
  Forall (fun v => active v = false) (voices inst) ->
  v2_render_block inst frames = (inst, repeat 0 (2 * frames)).
Proof.
  intros H. unfold v2_render_block.
  rewrite (render_voices_inactive _ _ _ _ _ H).
  rewrite set_voices_same. reflexivity.
Qed.

(** X20. Rendering only ever touches the sounding part of a voice:
    every voice keeps its note, velocity, gate flag and age, a voice
    that is not active stays exactly as it is, and no voice is made
    active.  The number of voices, the parameters, the octave
    transpose, the voice counter and the presets do not change. *)
Theorem render_block_frame (inst : braids_instance_t) (frames : nat) :
  let inst' := fst (v2_render_block inst frames) in
  length (voices inst') = length (voices inst)
  /\ params inst' = params inst
  /\ octave_transpose inst' = octave_transpose inst
  /\ voice_counter inst' = voice_counter inst
  /\ presets inst' = presets inst
  /\ current_preset inst' = current_preset inst
  /\ preset_name inst' = preset_name inst
  /\ module_dir inst' = module_dir inst
  /\ forall (j : nat) v, voices inst !! j = Some v ->
       exists v', voices inst' !! j = Some v'
         /\ note v' = note v /\ velocity v' = velocity v
         /\ gate v' = gate v /\ age v' = age v
         /\ (active v' = true -> active v = true)
         /\ (active v = false -> v' = v).
Proof.
  intros inst'.
  assert (E : inst' = set_voices
                        (fst (render_voices inst (render_ctx_of inst) frames
                                (voices inst) (repeat 0 (2 * frames)))) inst).
  { unfold inst', v2_render_block.
    destruct (render_voices _ _ _ _ _). reflexivity. }
  split.
  { rewrite E. cbn [voices set_voices]. apply render_voices_length. }
  rewrite E at 1 2 3 4 5 6 7. cbn [params octave_transpose voice_counter
    presets current_preset preset_name module_dir set_voices].
  do 7 (split; [reflexivity|]).
  intros j v Hj.
  destruct (render_block_lookup inst frames j v Hj) as [o Ho].
  fold inst' in Ho. eexists. split; [exact Ho|].
  pose proof (render_voice_same_key inst (render_ctx_of inst) frames v o)
    as (K1 & K2 & K3 & K4 & K5).
  do 5 (split; [assumption|]).
  intros Ha. rewrite (render_voice_inactive _ _ _ _ _ Ha). reflexivity.
Qed.

Lemma render_samples_gated ctx rendered n s (v : BraidsVoice) out :
  gate v = true ->
  let r := render_samples ctx rendered n s v out in
  gate (fst r) = true /\ active (fst r) = active v
  /\ amp_env (fst r) = env_steps n (amp_env v)
  /\ filt_env (fst r) = env_steps n (filt_env v).
Proof.
  revert s v out. induction n as [|n IH]; intros s v out Hg;
    cbn [render_samples]; [cbn; auto|].
  destruct (ADSR.process (amp_env v)) as [amp ae] eqn:Hpa.
  destruct (ADSR.process (filt_env v)) as [fv fe] eqn:Hpf.
  cbn [gate amp_env set_filt_env set_amp_env]. rewrite Hg. cbn [negb andb].
  match goal with |- context [filter_sample ?a ?b ?c ?d] =>
    pose proof (filter_sample_keeps a b c d) as Hk;
    destruct (filter_sample a b c d) as [v2 sample] end.
  cbn [fst] in Hk. destruct Hk as (Hka & Hkf & Hkg & Hkact).
  cbn [gate amp_env filt_env active set_filt_env set_amp_env]
    in Hka, Hkf, Hkg, Hkact.
  rewrite Hg in Hkg.
  match goal with |- context [render_samples ctx rendered n (S s) v2 ?o] =>
    specialize (IH (S s) v2 o Hkg); cbn zeta in IH end.
  destruct IH as (I1 & I2 & I3 & I4).
  split; [exact I1|]. split; [congruence|].
  rewrite I3, I4, Hka, Hkf, !env_steps_S, Hpa, Hpf. split; reflexivity.
Qed.

Lemma render_blocks_gated ctx frames fuel rendered (v : BraidsVoice) out :
  gate v = true -> active v = true -> (frames - rendered <= fuel)%nat ->
  let r := render_blocks ctx frames fuel rendered v out in
  gate (fst r) = true /\ active (fst r) = true
  /\ amp_env (fst r) = env_steps (frames - rendered) (amp_env v)
  /\ filt_env (fst r) = env_steps (frames - rendered) (filt_env v).
Proof.
  revert rendered v out; induction fuel as [|fuel IH];
    intros rendered v out Hg Ha Hfuel; cbn [render_blocks].
  - replace (frames - rendered)%nat with 0%nat by lia. cbn. auto.
  - destruct (Nat.ltb_spec rendered frames) as [Hlt|Hge].
    2:{ replace (frames - rendered)%nat with 0%nat by lia. cbn. auto. }
    set (bs := if (frames <? rendered + BRAIDS_BLOCK_SIZE)%nat
               then (frames - rendered)%nat else BRAIDS_BLOCK_SIZE).
    assert (Hbs : (1 <= bs <= frames - rendered)%nat).
    { subst bs. unfold BRAIDS_BLOCK_SIZE.
      destruct (Nat.ltb_spec frames (rendered + 24)); lia. }
    destruct (osc_Render _ bs (osc v)) as [o fresh].
    set (vb := set_osc_buffer _ (set_osc o v)).
    assert (Hvb : gate vb = true /\ active vb = true
                  /\ amp_env vb = amp_env v /\ filt_env vb = filt_env v).
    { subst vb. cbn. auto. }
    destruct Hvb as (Hgb & Hab & Heb & Hfb).
    pose proof (render_samples_gated ctx rendered bs 0 vb out Hgb) as Hs.
    cbn zeta in Hs.
    destruct (render_samples ctx rendered bs 0 vb out) as [v1 out1].
    cbn [fst snd] in Hs. destruct Hs as (Hg1 & Ha1 & He1 & Hf1).
    rewrite Hab in Ha1. rewrite Ha1. cbn [negb].
    specialize (IH (rendered + bs)%nat v1 out1 Hg1 Ha1 ltac:(lia)).
    cbn zeta in IH. destruct IH as (I1 & I2 & I3 & I4).
    split; [exact I1|]. split; [exact I2|].
    rewrite I3, I4, He1, Hf1, Heb, Hfb, <- !env_steps_add.
    replace (bs + (frames - (rendered + bs)))%nat with (frames - rendered)%nat
      by lia.
    split; reflexivity.
Qed.

(** X21. However the callback cuts a block of [frames] frames into
    24-sample pieces, a held voice (active, key down) comes out of it
    still active and held, with both of its envelopes advanced by
    exactly [frames] steps of [process] from the state the current
    parameters put them in. *)
Theorem held_voice_steps (inst : braids_instance_t) (frames vi : nat)
    (v : BraidsVoice) :
  voices inst !! vi = Some v -> active v = true -> gate v = true ->
  exists v',
    voices (fst (v2_render_block inst frames)) !! vi = Some v'
    /\ active v' = true /\ gate v' = true
    /\ amp_env v' = env_steps frames (armed_amp inst v)
    /\ filt_env v' = env_steps frames (armed_filt inst v).
Proof.
  intros Hv Ha Hg.
  destruct (render_block_lookup inst frames vi v Hv) as [o Ho].
  eexists. split; [exact Ho|].
  unfold render_voice. rewrite Ha. cbn [negb].
  match goal with |- context [render_blocks ?c frames frames 0 ?w o] =>
    set (v0 := w); set (ctx := c) end.
  assert (H0 : gate v0 = true /\ active v0 = true
               /\ amp_env v0 = armed_amp inst v
               /\ filt_env v0 = armed_filt inst v).
  { subst v0. cbn. rewrite Hg, Ha. auto. }
  destruct H0 as (Hg0 & Ha0 & He0 & Hf0).
  pose proof (render_blocks_gated ctx frames frames 0 v0 o Hg0 Ha0 ltac:(lia))
    as H.
  cbn zeta in H. rewrite Nat.sub_0_r, He0, Hf0 in H.
  destruct H as (H1 & H2 & H3 & H4). auto.
Qed.

End RenderFrame.
(** ** The cutoff handed to the filter *)

Lemma clamped_cutoff_unit base fv amt :
  nonneg32 base -> nonneg32 fv -> nonneg32 amt ->
  unit32 (if F32.gtb (F32.add base (F32.mul fv amt)) F32.one
          then F32.one else F32.add base (F32.mul fv amt)).
Proof.
  intros Hb Hf Ha. unfold F32.gtb, F32.add, F32.mul, F32.prec, F32.emax.
  assert (Hsum : nonneg32 (SFadd 24 128 base (SFmul 24 128 fv amt))
                 \/ SFadd 24 128 base (SFmul 24 128 fv amt)
                    = S754_infinity false).
  { destruct (mul32_nonneg_shape fv amt Hf Ha) as [Hm | ->].
    - apply add32_nonneg; assumption.
    - right. destruct base as [sb| | |[] mb eb]; cbn [nonneg32] in Hb;
        try contradiction; reflexivity. }
  destruct Hsum as [Hs | ->].
  - destruct (SFltb F32.one (SFadd 24 128 base (SFmul 24 128 fv amt))) eqn:E;
      [apply unit32_one|].
    split; [exact Hs|].
    pose proof (positive32_nonneg _ positive32_one) as H1.
    apply (nonneg32_leb _ _ Hs H1).
    destruct (Z_lt_le_dec (units F32.one)
                (units (SFadd 24 128 base (SFmul 24 128 fv amt))))
      as [Hlt | Hle]; [|exact Hle].
    apply (nonneg32_ltb _ _ H1 Hs) in Hlt. congruence.
  - replace (SFltb F32.one (S754_infinity false)) with true
      by (vm_compute; reflexivity).
    apply unit32_one.
Qed.

Section Cutoff.

Context {D : Dsp}.

(** X28. The frequency the render loop hands to the filter never
    overflows: for a finite, non-negative base cutoff, filter-envelope
    value and envelope amount, the modulated cutoff after the clamp at
    1.0 lies in [0, 1], [(int16_t)(mod_cutoff * 127.0f)] is its
    integer part [c] in 0..127, and [set_frequency] gets [c * 128], at
    most 16256; with the filter bypassed the voice and the sample are
    left as they are. *)
Theorem filter_cutoff_in_range (ctx : render_ctx) (filt_val : float)
    (sample : Z) (v : BraidsVoice) :
  nonneg32 (base_cutoff ctx) -> nonneg32 filt_val ->
  nonneg32 (filt_env_amount ctx) ->
  exists c : Z,
    0 <= c <= 127
    /\ filter_sample ctx filt_val sample v
       = (if use_filter ctx
          then let '(f, y) :=
                 svf_Process sample (svf_set_frequency (c * 128) (svf v)) in
               (set_svf f v, wrap32 y)
          else (v, sample))
    /\ unit32 (mod_cutoff ctx filt_val)
    /\ c = F32.trunc (F32.mul (mod_cutoff ctx filt_val) (F32.of_int 127))
    /\ F32.to_int16 (F32.mul (mod_cutoff ctx filt_val) (F32.of_int 127)) = c
    /\ 0 <= c * 128 <= 16256.
Proof.
  intros Hb Hf Ha.
  pose proof (clamped_cutoff_unit _ _ _ Hb Hf Ha) as Hu.
  fold (mod_cutoff ctx filt_val) in Hu.
  set (m := mod_cutoff ctx filt_val) in *.
  assert (Hc : positive32 (F32.of_int 127)).
  { replace (F32.of_int 127) with (S754_finite false 16646144 (-17))
      by (vm_compute; reflexivity).
    cbn [positive32]. canon. }
  destruct (unit_scale_trunc 127 m Hc) as (_ & E & Hr);
    [vm_compute; reflexivity | vm_compute; reflexivity | lia | exact Hu |].
  exists (F32.trunc (F32.mul m (F32.of_int 127))). split; [exact Hr|].
  split.
  { unfold filter_sample. destruct (use_filter ctx); [|reflexivity].
    cbv zeta. fold (mod_cutoff ctx filt_val). fold m. rewrite E.
    rewrite (wrap16_id (F32.trunc (F32.mul m (F32.of_int 127)) * 128))
      by (unfold in_int16, INT16_MIN, INT16_MAX; lia).
    reflexivity. }
  split; [exact Hu|]. split; [reflexivity|]. split; [exact E | lia].
Qed.

End Cutoff.

Lemma filter_cutoff_in_range_witness :
  nonneg32 (base_cutoff (mkCtx F32.one F32.zero (F32.lit 5 1) (F32.lit 5 1) true))
  /\ nonneg32 (F32.lit 5 1)
  /\ nonneg32 (filt_env_amount
                 (mkCtx F32.one F32.zero (F32.lit 5 1) (F32.lit 5 1) true))
  /\ exists c : Z,
       0 <= c <= 127
       /\ filter_sample (D := null_dsp)
            (mkCtx F32.one F32.zero (F32.lit 5 1) (F32.lit 5 1) true)
            (F32.lit 5 1) 1000 fresh_voice
          = if use_filter
                 (mkCtx F32.one F32.zero (F32.lit 5 1) (F32.lit 5 1) true)
            then let '(f, y) :=
                   svf_Process 1000
                     (svf_set_frequency (c * 128) (svf fresh_voice)) in
                 (set_svf f fresh_voice, wrap32 y)
            else (fresh_voice, 1000).
Proof.
  assert (H5 : unit32 (F32.lit 5 1))
    by (apply unit32b_true; vm_compute; reflexivity).
  split; [exact (proj1 H5)|]. split; [exact (proj1 H5)|].
  split; [exact (proj1 H5)|].
  destruct (filter_cutoff_in_range (D := null_dsp)
              (mkCtx F32.one F32.zero (F32.lit 5 1) (F32.lit 5 1) true)
              (F32.lit 5 1) 1000 fresh_voice (proj1 H5) (proj1 H5) (proj1 H5))
    as (c & Hc & Hfs & _).
  exists c. split; [exact Hc | exact Hfs].
Defined.
(** ** Invariants of the API *)

Section ApiInvariants.

Context {D : Dsp}.

Lemma apply_preset_frame (inst : braids_instance_t) idx :
  let i' := v2_apply_preset inst idx in
  voices i' = voices inst /\ presets i' = presets inst
  /\ current_preset i' = current_preset inst
  /\ module_dir i' = module_dir inst /\ voice_counter i' = voice_counter inst.
Proof.
  cbv zeta. unfold v2_apply_preset.
  destruct ((idx <? 0) || (preset_count inst <=? idx)); [repeat split; auto|].
  destruct (presets inst !! Z.to_nat idx); cbn; auto.
Qed.

Lemma apply_preset_wf (inst : braids_instance_t) idx :
  wf_inst inst -> wf_inst (v2_apply_preset inst idx).
Proof.
  intros (Hv & Hp & Ho & Hps).
  pose proof (apply_preset_frame inst idx) as (F1 & F2 & _). cbv zeta in F1, F2.
  split; [rewrite F1; exact Hv|].
  split; [apply apply_preset_params_length; assumption|].
  split; [|rewrite F2; exact Hps].
  unfold v2_apply_preset.
  destruct ((idx <? 0) || (preset_count inst <=? idx)); [exact Ho|].
  destruct (presets inst !! Z.to_nat idx) as [p|] eqn:Hl; [|exact Ho].
  cbn. eapply Forall_lookup_1 in Hps as [_ H]; eauto.
Qed.

Lemma apply_preset_in_range (inst : braids_instance_t) idx p :
  0 <= idx -> presets inst !! Z.to_nat idx = Some p ->
  v2_apply_preset inst idx
  = set_octave_transpose (bp_octave_transpose p)
      (set_params (bp_params p)
         (set_preset_name (str_take 63 (bp_name p)) inst)).
Proof.
  intros H0 Hl. unfold v2_apply_preset.
  pose proof (lookup_lt_Some _ _ _ Hl) as Hlt.
  destruct (Z.ltb_spec idx 0) as [Hneg|_]; [lia|].
  destruct (Z.leb_spec (preset_count inst) idx) as [Hbig|_];
    [unfold preset_count in Hbig; lia|].
  cbn [orb]. rewrite Hl. reflexivity.
Qed.

Lemma restore_params_length defs val ps :
  length (restore_params defs val ps) = length ps.
Proof.
  revert ps. induction defs as [|d r IH]; intros ps; cbn [restore_params];
    [reflexivity|].
  rewrite IH. destruct (json_get_number val (pd_key d)); [|reflexivity].
  apply length_insert.
Qed.

Lemma set_named_length defs key f ps :
  length (set_named defs key f ps) = length ps.
Proof.
  induction defs as [|d r IH]; cbn [set_named]; [reflexivity|].
  destruct (str_eq key (pd_key d)); [apply length_insert | exact IH].
Qed.

Lemma update_voice_frame (inst : braids_instance_t) vi f :
  let i' := update_voice vi f inst in
  length (voices i') = length (voices inst) /\ params i' = params inst
  /\ octave_transpose i' = octave_transpose inst
  /\ presets i' = presets inst /\ current_preset i' = current_preset inst
  /\ module_dir i' = module_dir inst.
Proof.
  cbv zeta. unfold update_voice. destruct (voices inst !! vi); [|repeat split; auto].
  cbn [voices params octave_transpose presets current_preset module_dir
       set_voices].
  rewrite length_insert. repeat split.
Qed.

Lemma inst_ok_fields (i' inst : braids_instance_t) :
  length (voices i') = length (voices inst) ->
  length (params i') = length (params inst) ->
  octave_transpose i' = octave_transpose inst ->
  presets i' = presets inst -> current_preset i' = current_preset inst ->
  inst_ok inst -> inst_ok i'.
Proof.
  intros Hv Hp Ho Hps Hc ((W1 & W2 & W3 & W4) & Hn & Hi).
  unfold inst_ok, wf_inst, preset_index_ok, preset_count in *.
  rewrite Hv, Hp, Ho, Hps, Hc. auto.
Qed.

Lemma on_midi_keeps (inst : braids_instance_t) msg :
  let i' := v2_on_midi inst msg in
  length (voices i') = length (voices inst)
  /\ length (params i') = length (params inst)
  /\ octave_transpose i' = octave_transpose inst
  /\ presets i' = presets inst /\ current_preset i' = current_preset inst
  /\ module_dir i' = module_dir inst.
Proof.
  cbv zeta. unfold v2_on_midi.
  destruct msg as [|b0 [|d1 rest]]; [repeat split; auto | repeat split; auto |].
  destruct (Z.land b0 240 =? 144).
  { destruct (0 <? _).
    - match goal with |- context [update_voice ?vi ?f ?i] =>
        pose proof (update_voice_frame i vi f) as H end.
      cbv zeta in H. cbn [voices params octave_transpose presets current_preset
                          module_dir set_voice_counter] in H.
      destruct H as (H1 & H2 & H3 & H4 & H5 & H6).
      rewrite H1, H2, H3, H4, H5, H6. repeat split.
    - destruct (0 <=? _); [|repeat split; auto].
      match goal with |- context [update_voice ?vi ?f ?i] =>
        pose proof (update_voice_frame i vi f) as H end.
      cbv zeta in H. destruct H as (H1 & H2 & H3 & H4 & H5 & H6).
      rewrite H1, H2, H3, H4, H5, H6. repeat split. }
  destruct (Z.land b0 240 =? 128).
  { destruct (0 <=? _); [|repeat split; auto].
    match goal with |- context [update_voice ?vi ?f ?i] =>
      pose proof (update_voice_frame i vi f) as H end.
    cbv zeta in H. destruct H as (H1 & H2 & H3 & H4 & H5 & H6).
    rewrite H1, H2, H3, H4, H5, H6. repeat split. }
  destruct (Z.land b0 240 =? 176).
  { destruct (d1 =? 1); [|repeat split; auto].
    cbn [voices params octave_transpose presets current_preset module_dir
         set_params].
    unfold set_p. rewrite length_insert. repeat split. }
  destruct (Z.land b0 240 =? 224); [|repeat split; auto].
  cbn [voices params octave_transpose presets current_preset module_dir
       set_voices].
  rewrite length_map. repeat split.
Qed.

Lemma keep_same (inst : braids_instance_t) :
  inst_ok inst ->
  inst_ok inst /\ presets inst = presets inst
  /\ module_dir inst = module_dir inst.
Proof. intros H. split; [exact H | split; reflexivity]. Qed.

Lemma set_param_keeps (inst : braids_instance_t) key val :
  inst_ok inst ->
  let i' := v2_set_param inst key val in
  inst_ok i' /\ presets i' = presets inst /\ module_dir i' = module_dir inst.
Proof.
  intros Hok. pose proof Hok as ((W1 & W2 & W3 & W4) & Hn & Hi).
  cbv zeta. unfold v2_set_param.
  destruct (str_eq key "state").
  { (* state restore *)
    unfold set_param_state.
    set (i1 := match json_get_number val "preset" with
               | Some fval =>
                   if (0 <=? F32.to_int32 fval)
                      && (F32.to_int32 fval <? preset_count inst)
                   then v2_apply_preset
                          (set_current_preset (F32.to_int32 fval) inst)
                          (F32.to_int32 fval)
                   else inst
               | None => inst
               end).
    assert (H1 : inst_ok i1 /\ presets i1 = presets inst
                 /\ module_dir i1 = module_dir inst).
    { subst i1. destruct (json_get_number val "preset") as [fv|]; [|exact (keep_same inst Hok)].
      destruct (Z.leb_spec 0 (F32.to_int32 fv)) as [H0|]; [|exact (keep_same inst Hok)].
      destruct (Z.ltb_spec (F32.to_int32 fv) (preset_count inst)) as [Hlt|];
        [|exact (keep_same inst Hok)].
      cbn [andb].
      set (i0 := set_current_preset (F32.to_int32 fv) inst).
      pose proof (apply_preset_frame i0 (F32.to_int32 fv))
        as (F1 & F2 & F3 & F4 & _). cbv zeta in F1, F2, F3, F4.
      assert (Hw0 : wf_inst i0) by exact (conj W1 (conj W2 (conj W3 W4))).
      pose proof (apply_preset_wf i0 (F32.to_int32 fv) Hw0) as Hw.
      split; [|split; [rewrite F2; reflexivity | rewrite F4; reflexivity]].
      split; [exact Hw|].
      unfold preset_index_ok, preset_count. rewrite F2, F3.
      cbn [presets current_preset i0 set_current_preset].
      unfold preset_count in Hn, Hlt. auto. }
    destruct H1 as (Hok1 & Hp1 & Hm1).
    set (i2 := match json_get_number val "octave_transpose" with
               | Some fval =>
                   set_octave_transpose
                     (clamp_octave (F32.to_int32 fval)) i1
               | None => i1
               end).
    assert (H2 : inst_ok i2 /\ presets i2 = presets inst
                 /\ module_dir i2 = module_dir inst).
    { subst i2. destruct (json_get_number val "octave_transpose") as [fv|];
        [|exact (conj Hok1 (conj Hp1 Hm1))].
      destruct Hok1 as ((V1 & V2 & V3 & V4) & Vn & Vi).
      split; [|split; [exact Hp1 | exact Hm1]].
      split; [|split; [exact Vn | exact Vi]].
      split; [exact V1|]. split; [exact V2|].
      split; [apply clamp_octave_range | exact V4]. }
    destruct H2 as (Hok2 & Hp2 & Hm2).
    split; [|split; [exact Hp2 | exact Hm2]].
    apply (inst_ok_fields _ i2); try reflexivity; [|exact Hok2].
    cbn [params set_params]. apply restore_params_length. }
  destruct (str_eq key "octave_transpose").
  { split; [|split; reflexivity].
    split; [|split; [exact Hn | exact Hi]].
    split; [exact W1|]. split; [exact W2|].
    split; [apply clamp_octave_range | exact W4]. }
  destruct (str_eq key "preset").
  { unfold set_param_preset.
    destruct (Z.leb_spec 0 (atoi val)) as [H0|]; [|exact (keep_same inst Hok)].
    destruct (Z.ltb_spec (atoi val) (preset_count inst)) as [Hlt|]; [|exact (keep_same inst Hok)].
    cbn [andb].
    set (i0 := set_current_preset (atoi val)
                 (set_voices (map kill_voice (voices inst)) inst)).
    pose proof (apply_preset_frame i0 (atoi val))
      as (F1 & F2 & F3 & F4 & _). cbv zeta in F1, F2, F3, F4.
    assert (Hw0 : wf_inst i0).
    { split; [cbn; rewrite length_map; exact W1|].
      exact (conj W2 (conj W3 W4)). }
    pose proof (apply_preset_wf i0 (atoi val) Hw0) as Hw.
    split; [|split; [rewrite F2; reflexivity | rewrite F4; reflexivity]].
    split; [exact Hw|].
    unfold preset_index_ok, preset_count. rewrite F2, F3.
    cbn [presets current_preset i0 set_current_preset set_voices].
    unfold preset_count in Hn, Hlt. auto. }
  destruct (str_eq key "engine").
  { unfold set_param_engine.
    destruct (shape_index g_shape_names 0 val);
      (split; [|split; reflexivity]);
      (apply (inst_ok_fields _ inst); try reflexivity; [|exact Hok]);
      cbn [params set_params]; apply length_insert. }
  split; [|split; reflexivity].
  apply (inst_ok_fields _ inst); try reflexivity; [|exact Hok].
  cbn [params set_params]. apply set_named_length.
Qed.

Lemma api_step_keeps (inst : braids_instance_t) c :
  inst_ok inst ->
  inst_ok (api_step inst c) /\ presets (api_step inst c) = presets inst
  /\ module_dir (api_step inst c) = module_dir inst.
Proof.
  intros Hok. destruct c as [msg | key val | frames]; cbn [api_step].
  - pose proof (on_midi_keeps inst msg) as (H1 & H2 & H3 & H4 & H5 & H6).
    cbv zeta in H1, H2, H3, H4, H5, H6.
    split; [|split; assumption].
    apply (inst_ok_fields _ inst); assumption.
  - apply set_param_keeps. exact Hok.
  - pose proof (render_block_keeps inst frames)
      as (H1 & H2 & H3 & H5 & H6 & H8).
    cbv zeta in H1, H2, H3, H5, H6, H8.
    split; [|split; assumption].
    apply (inst_ok_fields _ inst); try assumption. rewrite H2. reflexivity.
Qed.

Lemma api_run_keeps cs (inst : braids_instance_t) :
  inst_ok inst ->
  inst_ok (api_run cs inst) /\ presets (api_run cs inst) = presets inst
  /\ module_dir (api_run cs inst) = module_dir inst.
Proof.
  revert inst. induction cs as [|c cs IH]; intros inst Hok;
    cbn [api_run fold_left]; [exact (keep_same inst Hok)|].
  destruct (api_step_keeps inst c Hok) as (H1 & H2 & H3).
  destruct (IH _ H1) as (I1 & I2 & I3). unfold api_run in I1, I2, I3.
  split; [exact I1|]. split; congruence.
Qed.

Lemma create_instance_ok (mdir : string) (dir : option directory) :
  inst_ok (v2_create_instance mdir dir).
Proof.
  unfold v2_create_instance.
  set (i0 := mkInst (str_take 255 mdir) (repeat fresh_voice MAX_VOICES)
               default_params 0 0 [] 0 "Init").
  destruct (load_presets_frame i0 dir)
    as (_ & F2 & F3 & F4 & _ & F6 & _ & _ & W & C).
  cbv zeta in F2, F3, F4, F6, W, C.
  set (i1 := load_presets i0 dir) in *.
  assert (Hwf1 : Forall wf_preset (presets i1)) by (apply W; constructor).
  assert (Hc1 : preset_count i1 <= 64)
    by (apply C; unfold preset_count, i0; cbn [presets length]; lia).
  assert (Hw1 : wf_inst i1).
  { split; [rewrite F2; reflexivity|]. split; [rewrite F3; reflexivity|].
    split; [rewrite F4; cbn; lia | exact Hwf1]. }
  destruct (Z.ltb_spec 0 (preset_count i1)) as [Hpos | Hzero].
  - pose proof (apply_preset_frame (set_current_preset 0 i1) 0)
      as (_ & G2 & G3 & _). cbv zeta in G2, G3.
    split; [apply apply_preset_wf; exact Hw1|].
    unfold preset_index_ok, preset_count. rewrite G2, G3.
    cbn [presets current_preset set_current_preset].
    unfold preset_count in Hc1. split; [exact Hc1|]. split; [lia|].
    right. reflexivity.
  - split; [exact Hw1|]. split; [exact Hc1|].
    unfold preset_index_ok. rewrite F6. cbn. split; [lia | right; reflexivity].
Qed.

(** X25. Whatever MIDI messages, parameter changes and render
    callbacks an instance receives after [v2_create_instance], in any
    order and with any arguments, it keeps its shape: four voices,
    sixteen parameter slots, an octave transpose within [-3, 3], the
    preset list and module directory it was created with (at most 64
    well-formed presets), and a current preset that is an index of
    that list (0 when the list is empty). *)
Theorem api_keeps_instance_shape (mdir : string) (dir : option directory)
    (cs : list api_call) :
  let inst0 := v2_create_instance mdir dir in
  let inst := api_run cs inst0 in
  length (voices inst) = MAX_VOICES
  /\ length (params inst) = PARAM_COUNT
  /\ -3 <= octave_transpose inst <= 3
  /\ presets inst = presets inst0
  /\ Forall wf_preset (presets inst)
  /\ preset_count inst <= 64
  /\ module_dir inst = module_dir inst0
  /\ 0 <= current_preset inst
  /\ (current_preset inst < preset_count inst \/ current_preset inst = 0).
Proof.
  intros inst0 inst.
  pose proof (create_instance_ok mdir dir) as Hok. fold inst0 in Hok.
  destruct (api_run_keeps cs inst0 Hok)
    as (((W1 & W2 & W3 & W4) & Hn & Hi1 & Hi2) & Hp & Hm).
  fold inst in W1, W2, W3, W4, Hn, Hi1, Hi2, Hp, Hm.
  repeat (split; [assumption|]). assumption.
Qed.

(** X26. Selecting a preset by a valid index makes it current and
    copies its parameters, octave transpose and name (cut to 63
    bytes) into the instance, and it silences the synth: every voice
    is put at rest - inactive, key up, both envelopes idle at level 0 -
    so the next render callback returns silence and changes nothing. *)
Theorem select_preset_silences (inst : braids_instance_t) (val : string)
    (p : BraidsPreset) :
  0 <= atoi val -> presets inst !! Z.to_nat (atoi val) = Some p ->
  let inst' := v2_set_param inst "preset" val in
  current_preset inst' = atoi val
  /\ params inst' = bp_params p
  /\ octave_transpose inst' = bp_octave_transpose p
  /\ preset_name inst' = str_take 63 (bp_name p)
  /\ voices inst' = map kill_voice (voices inst)
  /\ Forall at_rest (voices inst')
  /\ Forall (fun v => level (amp_env v) = F32.zero
                      /\ level (filt_env v) = F32.zero) (voices inst')
  /\ forall frames,
       v2_render_block inst' frames = (inst', repeat 0 (2 * frames)).
Proof.
  intros H0 Hl inst'.
  pose proof (lookup_lt_Some _ _ _ Hl) as Hlt.
  assert (E : inst' = set_octave_transpose (bp_octave_transpose p)
                (set_params (bp_params p)
                   (set_preset_name (str_take 63 (bp_name p))
                      (set_current_preset (atoi val)
                         (set_voices (map kill_voice (voices inst)) inst))))).
  { unfold inst'. rewrite set_param_preset_key. unfold set_param_preset.
    destruct (Z.leb_spec 0 (atoi val)) as [_|Hneg]; [|lia].
    destruct (Z.ltb_spec (atoi val) (preset_count inst)) as [_|Hbig];
      [|unfold preset_count in Hbig; lia].
    cbn [andb]. apply apply_preset_in_range; [exact H0 | exact Hl]. }
  assert (Hv : voices inst' = map kill_voice (voices inst))
    by (rewrite E; reflexivity).
  assert (Hrest : Forall at_rest (voices inst')).
  { rewrite Hv. apply Forall_fmap, Forall_true. intros v.
    unfold at_rest, kill_voice. cbn. auto. }
  rewrite E at 1 2 3 4.
  cbn [current_preset params octave_transpose preset_name
       set_octave_transpose set_params set_preset_name set_current_preset].
  do 4 (split; [reflexivity|]). split; [exact Hv|]. split; [exact Hrest|].
  split.
  { rewrite Hv. apply Forall_fmap, Forall_true. intros v. cbn. auto. }
  intros frames. unfold v2_render_block.
  rewrite render_voices_inactive, set_voices_same; [reflexivity|].
  apply (Forall_impl _ _ _ Hrest). intros v Hr. apply Hr.
Qed.

End ApiInvariants.
Lemma render_block_idle_witness :
  Forall (fun v => active v = false) (voices inst_init)
  /\ v2_render_block inst_init 4 = (inst_init, repeat 0 8).
Proof.
  assert (H : Forall (fun v => active v = false) (voices inst_init))
    by (repeat constructor).
  split; [exact H|]. exact (render_block_idle inst_init 4 H).
Defined.

Lemma held_voice_steps_witness :
  voices inst_held !! 0%nat = Some voice0_held
  /\ active voice0_held = true /\ gate voice0_held = true
  /\ exists v',
       voices (fst (v2_render_block inst_held 128)) !! 0%nat = Some v'
       /\ active v' = true /\ gate v' = true.
Proof.
  assert (Hv : voices inst_held !! 0%nat = Some voice0_held)
    by (vm_compute; reflexivity).
  assert (Ha : active voice0_held = true) by (vm_compute; reflexivity).
  assert (Hg : gate voice0_held = true) by (vm_compute; reflexivity).
  split; [exact Hv|]. split; [exact Ha|]. split; [exact Hg|].
  destruct (held_voice_steps inst_held 128 0 voice0_held Hv Ha Hg)
    as (v' & H1 & H2 & H3 & _).
  exists v'. split; [exact H1|]. split; [exact H2 | exact H3].
Defined.

Lemma select_preset_silences_witness :
  0 <= atoi "0"
  /\ presets inst_hot !! Z.to_nat (atoi "0") = Some preset_hot
  /\ current_preset (v2_set_param inst_hot "preset" "0") = atoi "0"
  /\ Forall at_rest (voices (v2_set_param inst_hot "preset" "0")).
Proof.
  assert (H0 : 0 <= atoi "0") by (vm_compute; discriminate).
  assert (Hl : presets inst_hot !! Z.to_nat (atoi "0") = Some preset_hot)
    by (vm_compute; reflexivity).
  split; [exact H0|]. split; [exact Hl|].
  destruct (select_preset_silences inst_hot "0" preset_hot H0 Hl)
    as (H1 & _ & _ & _ & _ & H2 & _).
  split; [exact H1 | exact H2].
Defined.
(** ** The order in which presets are loaded *)

Lemma strcmp_antisym a b : strcmp b a = CompOpp (strcmp a b).
Proof.
  revert b. induction a as [|x a IH]; intros [|y b]; cbn [strcmp];
    try reflexivity.
  rewrite (N.compare_antisym (N_of_ascii x) (N_of_ascii y)).
  destruct (N_of_ascii x ?= N_of_ascii y)%N; cbn [CompOpp];
    [apply IH | reflexivity | reflexivity].
Qed.

Lemma strcmp_le_trans a b c :
  strcmp a b <> Gt -> strcmp b c <> Gt -> strcmp a c <> Gt.
Proof.
  revert b c. induction a as [|x a IH]; intros [|y b] [|z c];
    cbn [strcmp]; try congruence.
  destruct (N.compare_spec (N_of_ascii x) (N_of_ascii y)) as [Exy|Lxy|Gxy];
    destruct (N.compare_spec (N_of_ascii y) (N_of_ascii z)) as [Eyz|Lyz|Gyz];
    try congruence; intros H1 H2.
  - rewrite Exy, Eyz, N.compare_refl. apply (IH b c); assumption.
  - rewrite Exy. apply N.compare_lt_iff in Lyz. rewrite Lyz. discriminate.
  - rewrite <- Eyz. apply N.compare_lt_iff in Lxy. rewrite Lxy. discriminate.
  - assert (L : (N_of_ascii x < N_of_ascii z)%N) by lia.
    apply N.compare_lt_iff in L. rewrite L. discriminate.
Qed.

Lemma insert_by_name_perm x l : insert_by_name x l ≡ₚ x :: l.
Proof.
  induction l as [|y r IH]; cbn [insert_by_name]; [reflexivity|].
  destruct (strcmp (fst x) (fst y)); try reflexivity.
  rewrite IH. apply Permutation_swap.
Qed.

Lemma insert_by_name_ascending x l :
  ascending l -> ascending (insert_by_name x l).
Proof.
  induction l as [|y r IH]; cbn [insert_by_name ascending].
  - intros _. split; [constructor | exact I].
  - intros [Hy Hr].
    assert (Hcase : strcmp (fst x) (fst y) <> Gt
                    -> ascending (x :: y :: r)).
    { intros Hle. cbn [ascending]. split; [|split; assumption].
      constructor; [exact Hle|].
      apply (Forall_impl _ _ _ Hy). intros z Hz. unfold name_le in *.
      apply (strcmp_le_trans _ (fst y)); assumption. }
    destruct (strcmp (fst x) (fst y)) eqn:E;
      [apply Hcase; congruence | apply Hcase; congruence |].
    cbn [ascending]. split; [|apply IH; exact Hr].
    rewrite insert_by_name_perm. constructor; [|exact Hy].
    unfold name_le. rewrite (strcmp_antisym (fst x) (fst y)), E. discriminate.
Qed.

Lemma sort_by_name_spec l :
  ascending (sort_by_name l) /\ sort_by_name l ≡ₚ l.
Proof.
  unfold sort_by_name. induction l as [|x l [IHa IHp]]; cbn [fold_right].
  - split; [exact I | reflexivity].
  - split; [apply insert_by_name_ascending; exact IHa|].
    rewrite insert_by_name_perm, IHp. reflexivity.
Qed.

Section LoadOrder.

Context {D : Dsp}.

Lemma load_fold (files : directory) (inst : braids_instance_t) :
  preset_count inst + Z.of_nat (length files) <= 64 ->
  presets (fold_left (fun i entry => snd (load_braids_preset i (snd entry)))
             files inst)
  = presets inst ++ load_all (map snd files) (preset_count inst).
Proof.
  revert inst. induction files as [|[nm f] files IH]; intros inst Hroom;
    cbn [fold_left map load_all snd].
  - rewrite app_nil_r. reflexivity.
  - cbn [length] in Hroom.
    unfold load_braids_preset at 2. change (Z.of_nat MAX_PRESETS) with 64.
    destruct (Z.leb_spec 64 (preset_count inst)) as [Hfull|_]; [lia|].
    destruct f as [bytes|]; cbn [snd]; [|apply IH; lia].
    destruct ((strlen bytes <=? 0) || (4096 <? strlen bytes)); cbn [snd];
      [apply IH; lia|].
    rewrite IH by (rewrite preset_count_app; cbn [length]; lia).
    rewrite preset_count_app. cbn [presets set_presets length].
    rewrite <- app_assoc. reflexivity.
Qed.

(** X27. The presets of a new instance are the preset files of the
    directory taken in ascending [strcmp] order of their names, so
    that a numbering prefix controls the order: the files loaded are a
    permutation of the first 64 [.braids] entries of the directory,
    sorted by name, and the preset list is what loading them one by one
    gives - files that cannot be read, are empty or exceed 4096 bytes
    leave no gap, and a preset without a name is called after its
    position in the loaded list, not after its file. *)
Theorem presets_in_name_order (mdir : string) (d : directory) :
  let files := sort_by_name (collect_filenames MAX_PRESETS d) in
  ascending files
  /\ files ≡ₚ collect_filenames MAX_PRESETS d
  /\ presets (v2_create_instance mdir (Some d))
     = load_all (map snd files) 0.
Proof.
  intros files.
  destruct (sort_by_name_spec (collect_filenames MAX_PRESETS d)) as [Ha Hp].
  split; [exact Ha|]. split; [exact Hp|].
  set (i0 := mkInst (str_take 255 mdir) (repeat fresh_voice MAX_VOICES)
               default_params 0 0 [] 0 "Init").
  assert (Hl : presets (load_presets i0 (Some d))
               = load_all (map snd files) 0).
  { unfold load_presets. fold files. rewrite load_fold; [reflexivity|].
    change (preset_count i0) with 0.
    assert (Hlen : (length files <= MAX_PRESETS)%nat).
    { unfold files. rewrite Hp. apply collect_filenames_length. }
    unfold MAX_PRESETS in Hlen. lia. }
  unfold v2_create_instance. fold i0.
  destruct (0 <? preset_count (load_presets i0 (Some d))); [|exact Hl].
  pose proof (apply_preset_frame (set_current_preset 0 (load_presets i0 (Some d)))
                0) as (_ & F & _).
  cbv zeta in F. rewrite F. exact Hl.
Qed.

End LoadOrder.
(** ** Voice ages and the order of the note-ons *)

Section VoiceAges.

Context {D : Dsp}.

Lemma age_kept_refl (vs : list BraidsVoice) : Forall2 age_kept vs vs.
Proof.
  apply Forall_Forall2_diag, Forall_true. intros v. split; auto.
Qed.

Lemma age_kept_map (f : BraidsVoice -> BraidsVoice) vs :
  (forall v, age_kept (f v) v) -> Forall2 age_kept (map f vs) vs.
Proof.
  intros Hf. apply Forall2_fmap_l, Forall_Forall2_diag, Forall_true.
  exact Hf.
Qed.

Lemma age_kept_update (inst : braids_instance_t) vi f :
  (forall v, age_kept (f v) v) ->
  Forall2 age_kept (voices (update_voice vi f inst)) (voices inst).
Proof.
  intros Hf. apply Forall2_same_length_lookup_2.
  - unfold update_voice. destruct (voices inst !! vi); [|reflexivity].
    cbn [voices set_voices]. apply length_insert.
  - intros j x y Hx Hy. rewrite update_voice_lookup, Hy in Hx.
    destruct (decide (vi = j)); cbn in Hx; injection Hx as <-;
      [apply Hf | split; auto].
Qed.

Lemma ages_ok_kept (i' inst : braids_instance_t) :
  Forall2 age_kept (voices i') (voices inst) ->
  voice_counter i' = voice_counter inst ->
  ages_ok inst -> ages_ok i'.
Proof.
  intros HF Hc (H0 & Hall & Hd). unfold ages_ok. rewrite Hc.
  split; [exact H0|]. split.
  - apply Forall_lookup. intros j v' Hj.
    destruct (Forall2_lookup_l _ _ _ _ _ HF Hj) as (v & Hv & Ha & Hact).
    pose proof (proj1 (Forall_lookup _ _) Hall j v Hv) as (Hr & Hp).
    rewrite Ha. split; [exact Hr | auto].
  - intros i j v' w' Hne Hi Hj Hpos.
    destruct (Forall2_lookup_l _ _ _ _ _ HF Hi) as (v & Hv & Ha & _).
    destruct (Forall2_lookup_l _ _ _ _ _ HF Hj) as (w & Hw & Hb & _).
    rewrite Ha, Hb. rewrite Ha in Hpos. exact (Hd i j v w Hne Hv Hw Hpos).
Qed.

Lemma on_midi_cases (inst : braids_instance_t) msg :
  (exists b0 d1 d2 tl, msg = b0 :: d1 :: d2 :: tl
                       /\ Z.land b0 240 = 144 /\ 0 < d2)
  \/ (Forall2 age_kept (voices (v2_on_midi inst msg)) (voices inst)
      /\ voice_counter (v2_on_midi inst msg) = voice_counter inst).
Proof.
  assert (Hsame : forall i : braids_instance_t,
             voices i = voices inst -> voice_counter i = voice_counter inst ->
             Forall2 age_kept (voices i) (voices inst)
             /\ voice_counter i = voice_counter inst).
  { intros i Hv Hc. rewrite Hv. split; [apply age_kept_refl | exact Hc]. }
  assert (Hrel : forall vi,
             Forall2 age_kept (voices (update_voice vi release_voice inst))
               (voices inst)
             /\ voice_counter (update_voice vi release_voice inst)
                = voice_counter inst).
  { intros vi. split.
    - apply age_kept_update. intros v. split; auto.
    - unfold update_voice. destruct (voices inst !! vi); reflexivity. }
  unfold v2_on_midi.
  destruct msg as [|b0 [|d1 rest]]; [right; auto | right; auto |].
  destruct (Z.eqb_spec (Z.land b0 240) 144) as [E144|_].
  { destruct rest as [|d2 tl].
    - right. change (0 <? 0) with false. cbv iota.
      destruct (0 <=? _); [apply Hrel | auto].
    - destruct (Z.ltb_spec 0 d2) as [Hpos|_].
      + left. exists b0, d1, d2, tl. auto.
      + right. destruct (0 <=? _); [apply Hrel | auto]. }
  right.
  destruct (Z.land b0 240 =? 128).
  { destruct (0 <=? _); [apply Hrel | auto]. }
  destruct (Z.land b0 240 =? 176).
  { destruct (d1 =? 1); auto. }
  destruct (Z.land b0 240 =? 224); [|auto].
  cbn [voices voice_counter set_voices]. split; [|reflexivity].
  apply age_kept_map. intros v. unfold bend_voice.
  destruct (active v); split; auto.
Qed.

Lemma note_on_ages (inst : braids_instance_t) b0 d1 d2 tl :
  Z.land b0 240 = 144 -> 0 < d2 -> length (voices inst) = MAX_VOICES ->
  ages_ok inst -> voice_counter inst < INT32_MAX ->
  let inst' := v2_on_midi inst (b0 :: d1 :: d2 :: tl) in
  ages_ok inst'
  /\ voice_counter inst' = voice_counter inst + 1
  /\ exists (r : nat) v',
       find_free_voice inst = Z.of_nat r
       /\ voices inst' !! r = Some v'
       /\ active v' = true
       /\ age v' = voice_counter inst + 1
       /\ forall (j : nat) w, j <> r -> voices inst' !! j = Some w ->
            voices inst !! j = Some w /\ age w < age v'.
Proof.
  intros Hs Hv Hlen (H0 & Hall & Hd) Hmax inst'.
  destruct (find_free_voice_index inst Hlen) as (r & v & Hr & Hrv).
  assert (Hw : wrap32 (voice_counter inst + 1) = voice_counter inst + 1).
  { apply wrap32_id. unfold in_int32, INT32_MIN, INT32_MAX in *. lia. }
  assert (E : inst' = update_voice r
                (start_voice (set_voice_counter (voice_counter inst + 1) inst)
                   (transposed_note inst d1) d2 (voice_counter inst + 1))
                (set_voice_counter (voice_counter inst + 1) inst)).
  { unfold inst'. rewrite on_midi_note_on by assumption. cbv zeta.
    rewrite Hw, Hr, Nat2Z.id. reflexivity. }
  set (inst1 := set_voice_counter (voice_counter inst + 1) inst) in E.
  assert (Hc : voice_counter inst' = voice_counter inst + 1).
  { rewrite E. unfold update_voice.
    destruct (voices inst1 !! r); reflexivity. }
  assert (Hlk : forall j : nat,
             voices inst' !! j
             = if decide (r = j)
               then Some (start_voice inst1 (transposed_note inst d1) d2
                            (voice_counter inst + 1) v)
               else voices inst !! j).
  { intros j. rewrite E, update_voice_lookup.
    change (voices inst1) with (voices inst).
    destruct (decide (r = j)) as [<-|]; [rewrite Hrv|]; reflexivity. }
  assert (Hold : forall (j : nat) w, j <> r -> voices inst' !! j = Some w ->
                   voices inst !! j = Some w
                   /\ 0 <= age w <= voice_counter inst
                   /\ (active w = true -> 0 < age w)).
  { intros j w Hne Hj. rewrite Hlk in Hj.
    destruct (decide (r = j)); [congruence|].
    split; [exact Hj|]. exact (proj1 (Forall_lookup _ _) Hall j w Hj). }
  assert (Hnew : forall w, voices inst' !! r = Some w ->
                   active w = true /\ age w = voice_counter inst + 1).
  { intros w Hj. rewrite Hlk in Hj.
    destruct (decide (r = r)); [|congruence]. injection Hj as <-.
    split; reflexivity. }
  split; [|split; [exact Hc|]].
  - unfold ages_ok. rewrite Hc. split; [lia|]. split.
    + apply Forall_lookup. intros j w Hj.
      destruct (decide (j = r)) as [->|Hne].
      * destruct (Hnew w Hj) as [_ Ha]. rewrite Ha. lia.
      * destruct (Hold j w Hne Hj) as (_ & Hb & Hp). split; [lia | exact Hp].
    + intros i j x y Hne Hi Hj Hpos.
      destruct (decide (i = r)) as [->|Hi'].
      * destruct (Hnew x Hi) as [_ Ha].
        destruct (Hold j y ltac:(congruence) Hj) as (_ & Hb & _). lia.
      * destruct (Hold i x Hi' Hi) as (Hxi & Hb & _).
        destruct (decide (j = r)) as [->|Hj'].
        -- destruct (Hnew y Hj) as [_ Ha]. lia.
        -- destruct (Hold j y Hj' Hj) as (Hyj & _).
           exact (Hd i j x y Hne Hxi Hyj Hpos).
  - exists r. eexists. split; [exact Hr|].
    split; [rewrite Hlk; destruct (decide (r = r)); [reflexivity|congruence]|].
    split; [reflexivity|]. split; [reflexivity|].
    intros j w Hne Hj. destruct (Hold j w Hne Hj) as (Hjw & Hb & _).
    split; [exact Hjw|].
    change (age w < voice_counter inst + 1). lia.
Qed.

Lemma set_param_state_voices (inst : braids_instance_t) val :
  voices (set_param_state inst val) = voices inst
  /\ voice_counter (set_param_state inst val) = voice_counter inst.
Proof.
  unfold set_param_state. cbv zeta. cbn [voices voice_counter set_params].
  destruct (json_get_number val "octave_transpose");
    cbn [voices voice_counter set_octave_transpose];
    (destruct (json_get_number val "preset") as [fv|]; [|split; reflexivity];
     destruct ((0 <=? F32.to_int32 fv)
               && (F32.to_int32 fv <? preset_count inst));
     [|split; reflexivity];
     pose proof (apply_preset_frame
                   (set_current_preset (F32.to_int32 fv) inst)
                   (F32.to_int32 fv)) as (F1 & _ & _ & _ & F5);
     split; assumption).
Qed.

Lemma set_param_ages (inst : braids_instance_t) key val :
  Forall2 age_kept (voices (v2_set_param inst key val)) (voices inst)
  /\ voice_counter (v2_set_param inst key val) = voice_counter inst.
Proof.
  assert (Hsame : forall i : braids_instance_t,
             voices i = voices inst -> voice_counter i = voice_counter inst ->
             Forall2 age_kept (voices i) (voices inst)
             /\ voice_counter i = voice_counter inst).
  { intros i Hv Hc. rewrite Hv. split; [apply age_kept_refl | exact Hc]. }
  unfold v2_set_param.
  destruct (str_eq key "state").
  { apply Hsame; apply set_param_state_voices. }
  destruct (str_eq key "octave_transpose"); [apply Hsame; reflexivity|].
  destruct (str_eq key "preset").
  { unfold set_param_preset.
    destruct ((0 <=? atoi val) && (atoi val <? preset_count inst));
      [|apply Hsame; reflexivity].
    match goal with |- context [v2_apply_preset ?i ?k] =>
      pose proof (apply_preset_frame i k) as (F1 & _ & _ & _ & F5) end.
    cbv zeta in F1, F5. rewrite F1, F5.
    cbn [voices voice_counter set_current_preset set_voices].
    split; [|reflexivity].
    apply age_kept_map. intros v. split; [reflexivity | discriminate]. }
  destruct (str_eq key "engine").
  { unfold set_param_engine.
    destruct (shape_index g_shape_names 0 val); apply Hsame; reflexivity. }
  apply Hsame; reflexivity.
Qed.

Lemma render_block_ages (inst : braids_instance_t) frames :
  Forall2 age_kept (voices (fst (v2_render_block inst frames))) (voices inst)
  /\ voice_counter (fst (v2_render_block inst frames)) = voice_counter inst.
Proof.
  split.
  - apply Forall2_same_length_lookup_2.
    + exact (proj1 (render_block_keeps inst frames)).
    + intros j x y Hx Hy.
      destruct (render_block_lookup inst frames j y Hy) as [o Ho].
      rewrite Ho in Hx. injection Hx as <-.
      destruct (render_voice_same_key inst (render_ctx_of inst) frames y o)
        as (_ & _ & _ & Ha & Hact).
      split; assumption.
  - unfold v2_render_block. destruct (render_voices _ _ _ _ _). reflexivity.
Qed.

Lemma api_step_ages (inst : braids_instance_t) c :
  inst_ok inst -> ages_ok inst -> voice_counter inst < INT32_MAX ->
  ages_ok (api_step inst c)
  /\ voice_counter (api_step inst c) <= voice_counter inst + 1.
Proof.
  intros Hok Hages Hmax. destruct c as [msg | key val | frames];
    cbn [api_step].
  - destruct (on_midi_cases inst msg)
      as [(b0 & d1 & d2 & tl & -> & Hs & Hv) | [HF Hc]].
    + destruct (note_on_ages inst b0 d1 d2 tl Hs Hv (proj1 (proj1 Hok))
                  Hages Hmax) as (Ha & Hc & _).
      split; [exact Ha | lia].
    + split; [exact (ages_ok_kept _ inst HF Hc Hages) | lia].
  - destruct (set_param_ages inst key val) as [HF Hc].
    split; [exact (ages_ok_kept _ inst HF Hc Hages) | lia].
  - destruct (render_block_ages inst frames) as [HF Hc].
    split; [exact (ages_ok_kept _ inst HF Hc Hages) | lia].
Qed.

Lemma api_run_ages cs (inst : braids_instance_t) (n : Z) :
  inst_ok inst -> ages_ok inst -> voice_counter inst <= n ->
  n + Z.of_nat (length cs) <= INT32_MAX ->
  ages_ok (api_run cs inst)
  /\ voice_counter (api_run cs inst) <= n + Z.of_nat (length cs).
Proof.
  revert inst n. induction cs as [|c cs IH]; intros inst n Hok Ha Hn Hmax;
    cbn [api_run fold_left length] in Hmax |- *.
  - split; [exact Ha | lia].
  - rewrite Nat2Z.inj_succ in Hmax |- *.
    destruct (api_step_ages inst c Hok Ha ltac:(lia)) as [Ha1 Hc1].
    destruct (api_step_keeps inst c Hok) as (Hok1 & _).
    destruct (IH (api_step inst c) (n + 1) Hok1 Ha1 ltac:(lia) ltac:(lia))
      as [Ha2 Hc2].
    unfold api_run in Ha2, Hc2. split; [exact Ha2 | lia].
Qed.

Lemma create_instance_ages (mdir : string) (dir : option directory) :
  ages_ok (v2_create_instance mdir dir)
  /\ voice_counter (v2_create_instance mdir dir) = 0.
Proof.
  unfold v2_create_instance.
  set (i0 := mkInst (str_take 255 mdir) (repeat fresh_voice MAX_VOICES)
               default_params 0 0 [] 0 "Init").
  destruct (load_presets_frame i0 dir) as (_ & F2 & _ & _ & F5 & _).
  cbv zeta in F2, F5.
  assert (H : forall i : braids_instance_t,
            voices i = repeat fresh_voice MAX_VOICES -> voice_counter i = 0 ->
            ages_ok i /\ voice_counter i = 0).
  { intros i Hv Hc. split; [|exact Hc]. unfold ages_ok. rewrite Hv, Hc.
    split; [lia|]. split.
    - apply Forall_forall. intros v Hin. apply list_elem_of_In in Hin.
      apply repeat_spec in Hin. subst v. cbn. split; [lia | discriminate].
    - intros i1 j v w _ Hi _ Hpos. apply list_elem_of_lookup_2 in Hi.
      apply list_elem_of_In, repeat_spec in Hi. subst v. cbn in Hpos. lia. }
  destruct (0 <? preset_count (load_presets i0 dir)).
  - pose proof (apply_preset_frame (set_current_preset 0 (load_presets i0 dir))
                  0) as (G1 & _ & _ & _ & G5).
    cbv zeta in G1, G5. apply H; [rewrite G1 | rewrite G5]; assumption.
  - apply H; assumption.
Qed.

(** X29. The voice ages record the order of the note-ons.  After
    [v2_create_instance] and any calls of the API (fewer than
    2^31 - 1 of them, so that the [int] counter has not overflowed),
    every voice's age is between 0 and the voice counter, a sounding
    voice has a positive age, and no two voices share a positive age;
    the next note-on with a velocity above 0 gives the voice that
    [find_free_voice] picks the age [voice_counter + 1], strictly above
    the age of every other voice.  A higher age therefore means a later
    note-on, and the minimum that [find_free_voice] takes when all
    voices sound is the voice struck longest ago. *)
Theorem voice_ages_order (mdir : string) (dir : option directory)
    (cs : list api_call) (b0 d1 d2 : Z) (tl : list Z) :
  Z.of_nat (length cs) < INT32_MAX ->
  Z.land b0 240 = 144 -> 0 < d2 ->
  let inst := api_run cs (v2_create_instance mdir dir) in
  let inst' := v2_on_midi inst (b0 :: d1 :: d2 :: tl) in
  0 <= voice_counter inst <= Z.of_nat (length cs)
  /\ Forall (fun v => 0 <= age v <= voice_counter inst
                      /\ (active v = true -> 0 < age v)) (voices inst)
  /\ (forall (i j : nat) v w, i <> j -> voices inst !! i = Some v ->
        voices inst !! j = Some w -> 0 < age v -> age v <> age w)
  /\ voice_counter inst' = voice_counter inst + 1
  /\ exists (r : nat) v',
       find_free_voice inst = Z.of_nat r
       /\ voices inst' !! r = Some v'
       /\ active v' = true
       /\ age v' = voice_counter inst + 1
       /\ forall (j : nat) w, j <> r -> voices inst' !! j = Some w ->
            voices inst !! j = Some w /\ age w < age v'.
Proof.
  intros Hlen Hs Hv inst inst'.
  destruct (create_instance_ages mdir dir) as [Ha0 Hc0].
  pose proof (create_instance_ok mdir dir) as Hok0.
  destruct (api_run_ages cs _ 0 Hok0 Ha0 ltac:(lia) ltac:(lia)) as [Ha Hc].
  destruct (api_run_keeps cs _ Hok0) as (Hok & _).
  fold inst in Ha, Hc, Hok.
  pose proof Ha as (H0 & Hall & Hd).
  destruct (note_on_ages inst b0 d1 d2 tl Hs Hv (proj1 (proj1 Hok)) Ha
              ltac:(lia)) as (_ & Hc' & Hex).
  split; [lia|]. split; [exact Hall|]. split; [exact Hd|].
  split; [exact Hc' | exact Hex].
Qed.

End VoiceAges.

Lemma voice_ages_order_witness :
  Z.of_nat (length [call_on_midi [144; 60; 100]]) < INT32_MAX
  /\ Z.land 144 240 = 144 /\ 0 < 90
  /\ voice_counter
       (v2_on_midi (D := null_dsp)
          (api_run [call_on_midi [144; 60; 100]]
             (v2_create_instance EmptyString None)) [144; 64; 90])
     = voice_counter
         (api_run (D := null_dsp) [call_on_midi [144; 60; 100]]
            (v2_create_instance EmptyString None)) + 1.
Proof.
  assert (H1 : Z.of_nat (length [call_on_midi [144; 60; 100]]) < INT32_MAX)
    by (vm_compute; reflexivity).
  assert (H2 : Z.land 144 240 = 144) by reflexivity.
  assert (H3 : 0 < 90) by lia.
  split; [exact H1|]. split; [exact H2|]. split; [exact H3|].
  destruct (voice_ages_order (D := null_dsp) EmptyString None
              [call_on_midi [144; 60; 100]] 144 64 90 [] H1 H2 H3)
    as (_ & _ & _ & Hc & _).
  exact Hc.
Defined.
(** ** The level of one sample through the unfiltered path *)

Lemma mul32_one_l x : positive32 x -> SFmul 24 128 F32.one x = x.
Proof.
  intros Hx.
  destruct x as [| | |[] m e]; cbn [positive32] in Hx; try contradiction.
  rewrite one_val.
  assert (H1 : canon32 8388608 (-23)) by canon.
  destruct (mul32_round 8388608 (-23) m e H1 Hx) as [-> _].
  rewrite <- (round32_canon m e Hx).
  pose proof Hx as [HE _].
  unfold round32.
  replace (Z.pos (8388608 * m)) with (Z.pos m * 2 ^ 23)
    by (change (2 ^ 23) with 8388608; lia).
  rewrite Zdigits2_shift by lia. cbn [Zdigits2].
  replace (Z.pos (digits2_pos m) + 23 + (-23 + e))
    with (Z.pos (digits2_pos m) + e) by lia.
  rewrite HE.
  replace (e - (-23 + e)) with 23 by lia.
  rewrite rhe_exact by (apply pow2_pos; lia).
  rewrite Z.sub_diag. change (2 ^ 0) with 1.
  rewrite <- (Z.mul_1_r (Z.pos m)) at 2. rewrite rhe_exact by lia.
  reflexivity.
Qed.

(** The conversion of a positive integer below 2^24 is exact. *)
Lemma of_int_exact p :
  Z.pos p < 2 ^ 24 ->
  positive32 (F32.of_int (Z.pos p))
  /\ units (F32.of_int (Z.pos p)) = Z.pos p * 2 ^ 149.
Proof.
  intros Hp. unfold F32.of_int, F32.prec, F32.emax. cbn [binary_normalize].
  destruct (binary_round_exact p 0 ltac:(lia))
    as (S & e' & -> & HS & Hf & He' & Hv).
  change (0 + 149) with 149 in Hv.
  pose proof (pow2_pos 149 ltac:(lia)) as P149.
  pose proof (pow2_pos (e' + 149) ltac:(lia)) as Pe.
  assert (Hdig : Zdigits2 S + e' = Zdigits2 (Z.pos p)).
  { pose proof (Zdigits2_shift S (e' + 149) HS ltac:(lia)) as D1.
    pose proof (Zdigits2_shift (Z.pos p) 149 ltac:(lia) ltac:(lia)) as D2.
    rewrite Hv, D2 in D1. lia. }
  pose proof (Zdigits2_le_24 (Z.pos p) ltac:(lia)) as Hd24.
  pose proof (Zdigits2_pos (Z.pos p) ltac:(lia)) as Hd0.
  pose proof (Zdigits2_bounds (Z.pos p) ltac:(lia)) as Hb.
  set (dp := Zdigits2 (Z.pos p)) in *.
  unfold round32. rewrite Hdig.
  replace (fexp32 dp) with (dp - 24) by (unfold fexp32; lia).
  set (E := dp - 24).
  unfold fine in Hf. rewrite Hdig in Hf.
  replace (fexp32 dp) with E in Hf by (unfold fexp32, E; lia).
  set (M := Z.pos p * 2 ^ (- E)).
  pose proof (pow2_pos (- E) ltac:(unfold E; lia)) as PE.
  pose proof (pow2_pos (E - e') ltac:(lia)) as Pn.
  assert (HSM : S = M * 2 ^ (E - e')).
  { apply (Z.mul_reg_r _ _ (2 ^ (e' + 149))); [lia|].
    rewrite Hv. unfold M.
    rewrite <- !Z.mul_assoc, <- !pow2_add by (unfold E; lia).
    f_equal. f_equal. lia. }
  rewrite HSM, rhe_exact by lia.
  assert (HM : 2 ^ 23 <= M < 2 ^ 24).
  { unfold M.
    rewrite (pow2_split 23 (dp - 1)), (pow2_split 24 dp) by lia.
    replace (23 - (dp - 1)) with (- E) by (unfold E; lia).
    replace (24 - dp) with (- E) by (unfold E; lia).
    nia. }
  change (2 ^ 23) with 8388608 in HM. change (2 ^ 24) with 16777216 in HM.
  unfold norm_out.
  destruct (Z.eqb_spec M 0); [lia|].
  destruct (Z.eqb_spec M (2 ^ 24));
    [change (2 ^ 24) with 16777216 in *; lia|].
  destruct (Z.leb_spec E 104); [|unfold E in *; lia].
  assert (Hdm : Zdigits2 M = 24)
    by (apply Zdigits2_unique; [lia|];
        change (2 ^ (24 - 1)) with 8388608;
        change (2 ^ 24) with 16777216; lia).
  split.
  - cbn [positive32]. unfold canon32.
    rewrite Zdigits2_to_pos, Hdm by lia. unfold fexp32, E in *. lia.
  - cbn [units]. rewrite Z2Pos.id by lia. unfold M.
    rewrite <- Z.mul_assoc, <- pow2_add by (unfold E; lia).
    f_equal. f_equal. lia.
Qed.

Lemma sample_consts c :
  1 <= c <= 32768 ->
  positive32 (F32.of_int c)
  /\ SFmul 24 128 F32.one (F32.of_int c) = F32.of_int c
  /\ units (F32.of_int c) = c * 2 ^ 149
  /\ F32.of_int (- c) = SFopp (F32.of_int c).
Proof.
  intros Hc. destruct c as [|p|p]; try lia.
  destruct (of_int_exact p) as [H1 H2];
    [change (2 ^ 24) with 16777216; lia|].
  split; [exact H1|]. split; [apply mul32_one_l; exact H1|].
  split; [exact H2|]. apply of_int_neg.
Qed.

Lemma unit_scale_trunc32 c x :
  positive32 (F32.of_int c) ->
  SFmul 24 128 F32.one (F32.of_int c) = F32.of_int c ->
  units (F32.of_int c) = c * 2 ^ 149 -> 0 <= c <= 32768 ->
  unit32 x ->
  nonneg32 (SFmul 24 128 (F32.of_int c) x)
  /\ 0 <= F32.trunc (SFmul 24 128 (F32.of_int c) x) <= c.
Proof.
  intros Hc H1c Hu Hr [Hx Hle]. rewrite (SFmul_comm (F32.of_int c) x).
  pose proof (mul32_mono x F32.one _ Hx
                (positive32_nonneg _ positive32_one) Hc Hle) as Hb.
  rewrite H1c in Hb.
  pose proof (shape_bounded _ _ (mul32_shape x _ Hx Hc) Hc Hb) as Hn.
  set (y := SFmul 24 128 x (F32.of_int c)) in *.
  split; [exact Hn|].
  apply (nonneg32_leb _ _ Hn (positive32_nonneg _ Hc)) in Hb.
  rewrite Hu in Hb.
  pose proof (units_nonneg y Hn) as H0.
  rewrite (trunc_units y Hn). split.
  - apply Z.div_pos; [exact H0 | apply pow2_pos; lia].
  - apply Z.div_le_upper_bound; [apply pow2_pos; lia|]. lia.
Qed.

Lemma amp_scaled_bounds amp s :
  unit32 amp -> -32768 <= s <= 32768 ->
  (0 <= s -> 0 <= amp_scaled amp s <= s)
  /\ (s <= 0 -> s <= amp_scaled amp s <= 0).
Proof.
  intros Hamp Hs. unfold amp_scaled, F32.mul, F32.prec, F32.emax.
  destruct (Z.eq_dec s 0) as [-> | Hnz].
  { replace (F32.of_int 0) with (S754_zero false) by (vm_compute; reflexivity).
    destruct Hamp as [Hx _].
    destruct amp as [sx| | |[] mx ex]; cbn [nonneg32] in Hx;
      try contradiction; cbn [SFmul F32.to_int32 F32.trunc];
      unfold INT32_MIN, INT32_MAX; lia. }
  destruct (Z_lt_le_dec 0 s) as [Hpos | Hneg].
  - destruct (sample_consts s ltac:(lia)) as (C1 & C2 & C3 & _).
    destruct (unit_scale_trunc32 s amp C1 C2 C3 ltac:(lia) Hamp) as [Hn Ht].
    destruct (to_int32_opp _ Hn ltac:(unfold INT32_MAX; lia)) as [E _].
    rewrite E. lia.
  - destruct (sample_consts (- s) ltac:(lia)) as (C1 & C2 & C3 & C4).
    rewrite Z.opp_involutive in C4.
    destruct (unit_scale_trunc32 (- s) amp C1 C2 C3 ltac:(lia) Hamp)
      as [Hn Ht].
    rewrite C4, (SFmul_opp_l _ _ (positive32_nonneg _ C1) (proj1 Hamp)).
    destruct (to_int32_opp _ Hn ltac:(unfold INT32_MAX; lia)) as [_ E].
    rewrite E. lia.
Qed.

Lemma velocity_scaled_bounds vel t :
  0 <= vel <= 127 -> -32768 <= t <= 32768 ->
  (0 <= t -> 0 <= velocity_scaled vel t <= t)
  /\ (t <= 0 -> t <= velocity_scaled vel t <= 0).
Proof.
  intros Hv Ht. unfold velocity_scaled.
  rewrite wrap32_id by (unfold in_int32, INT32_MIN, INT32_MAX; nia).
  split; intros H0.
  - split; [apply Z.quot_pos; nia|].
    apply Z.quot_le_upper_bound; nia.
  - replace (t * vel) with (- ((- t) * vel)) by ring.
    rewrite Z.quot_opp_l by lia.
    assert (0 <= (- t * vel) ÷ 127 <= - t).
    { split; [apply Z.quot_pos; nia|].
      apply Z.quot_le_upper_bound; nia. }
    lia.
Qed.

Section SampleLevel.

Context {D : Dsp}.

(** X30. With the filter bypassed nothing in the path of a sample
    makes it louder: for a 16-bit oscillator sample [s], an amplitude
    envelope value and a gain in [0, 1] and a velocity in 0..127, the
    sample after the envelope, after the velocity scaling and after the
    gain keeps the sign of [s] and does not grow at any of the three
    steps, and the product with the velocity stays within [int32_t].
    These are the values the sample loop computes for a held voice. *)
Theorem sample_never_amplified (s vel : Z) (amp g : float) :
  in_int16 s -> unit32 amp -> 0 <= vel <= 127 -> unit32 g ->
  let t := amp_scaled amp s in
  let u := velocity_scaled vel t in
  let c := contribution g u in
  (0 <= s -> 0 <= c <= u /\ u <= t /\ t <= s)
  /\ (s <= 0 -> s <= t /\ t <= u /\ u <= c <= 0)
  /\ wrap32 (t * vel) = t * vel
  /\ forall ctx rendered n (i : nat) (v : BraidsVoice) out,
       use_filter ctx = false -> gate v = true -> velocity v = vel ->
       fst (ADSR.process (amp_env v)) = amp ->
       default 0 (osc_buffer v !! i) = s ->
       render_samples ctx rendered (S n) i v out
       = render_samples ctx rendered n (S i)
           (set_filt_env (snd (ADSR.process (filt_env v)))
              (set_amp_env (snd (ADSR.process (amp_env v))) v))
           (mix_sample (gain ctx) u (rendered + i) out).
Proof.
  intros Hs Hamp Hvel Hg t u c.
  unfold in_int16, INT16_MIN, INT16_MAX in Hs.
  destruct (amp_scaled_bounds amp s Hamp ltac:(lia)) as [T1 T2]. fold t in T1, T2.
  assert (Ht : -32768 <= t <= 32768) by lia.
  destruct (velocity_scaled_bounds vel t Hvel Ht) as [U1 U2]. fold u in U1, U2.
  assert (Hu : -32768 <= u <= 32768) by lia.
  destruct (amp_scaled_bounds g u Hg Hu) as [C1 C2].
  change (amp_scaled g u) with c in C1, C2.
  split; [intros H0; lia|]. split; [intros H0; lia|].
  split; [apply wrap32_id; unfold in_int32, INT32_MIN, INT32_MAX; nia|].
  intros ctx rendered n i v out Hf Hgate Hv Ha Hb.
  cbn [render_samples].
  destruct (ADSR.process (amp_env v)) as [amp' ae].
  destruct (ADSR.process (filt_env v)) as [fv fe].
  cbn [fst snd] in Ha |- *. subst amp'.
  cbn [gate osc_buffer velocity set_filt_env set_amp_env].
  rewrite Hgate. cbn [negb andb].
  unfold filter_sample. rewrite Hf, Hb.
  cbn [gate osc_buffer velocity set_filt_env set_amp_env].
  rewrite Hv. reflexivity.
Qed.

End SampleLevel.

Lemma sample_never_amplified_witness :
  in_int16 (-20000) /\ unit32 (F32.lit 5 1) /\ 0 <= 100 <= 127
  /\ unit32 (F32.lit 25 2)
  /\ amp_scaled (F32.lit 5 1) (-20000) = -10000
  /\ velocity_scaled 100 (-10000) = -7874
  /\ contribution (F32.lit 25 2) (-7874) = -1968
  /\ -20000 <= amp_scaled (F32.lit 5 1) (-20000)
  /\ amp_scaled (F32.lit 5 1) (-20000)
     <= velocity_scaled 100 (amp_scaled (F32.lit 5 1) (-20000))
  /\ velocity_scaled 100 (amp_scaled (F32.lit 5 1) (-20000))
     <= contribution (F32.lit 25 2)
          (velocity_scaled 100 (amp_scaled (F32.lit 5 1) (-20000)))
     <= 0.
Proof.
  assert (H1 : in_int16 (-20000))
    by (unfold in_int16, INT16_MIN, INT16_MAX; lia).
  assert (H2 : unit32 (F32.lit 5 1))
    by (apply unit32b_true; vm_compute; reflexivity).
  assert (H3 : 0 <= 100 <= 127) by lia.
  assert (H4 : unit32 (F32.lit 25 2))
    by (apply unit32b_true; vm_compute; reflexivity).
  assert (H5 : -20000 <= 0) by lia.
  split; [exact H1|]. split; [exact H2|]. split; [exact H3|].
  split; [exact H4|].
  split; [vm_compute; reflexivity|]. split; [vm_compute; reflexivity|].
  split; [vm_compute; reflexivity|].
  destruct (sample_never_amplified (D := null_dsp) (-20000) 100
              (F32.lit 5 1) (F32.lit 25 2) H1 H2 H3 H4) as (_ & Hneg & _).
  exact (Hneg H5).
Defined.
